(* ===== verification/_CoqProject ===== *)
-Q . S2P
Prelude.v
GoStrings.v
LowerTable.v
Utf8.v
Runtime.v
Quote.v
Errors.v
Routing.v
RoutingSpec.v
ValidateSpec.v
RoutingTheorems.v
Json.v
JsonFuel.v
JsonRoundtrip.v
Types.v
ZoneCache.v
CacheMutex.v
ZoneCacheTheorems.v
Effects.v
Client.v
ClientSpec.v
ClientDelays.v
ClientPaths.v
Interference.v
ZonesAPI.v
Adversity.v
RequestRoundtrip.v
ResponseRoundtrip.v
ExampleAPI.v
Endpoints.v
WorldClient.v
FaultyClient.v
Redaction.v
ClientTheorems.v
SolverConfig.v
ConfigTheorems.v
Secrets.v
Solver.v
RecordNames.v
Main.v
Tasks.v
WorldSolver.v
EndToEnd.v
FaultySolver.v
Steps.v
Pool.v
Jobs.v
FaultyPool.v
SolverSpec.v
Timing.v
EndToEndTheorems.v
SetupTheorems.v
SolverTheorems.v
PoolTheorems.v
SessionTheorems.v
FaultTheorems.v
TimingTheorems.v
