(* ===== verification/Prelude.v ===== *)
(** * A verification development for cert-manager-webhook-hcloud-zones

    The program is a DNS-01 solver for cert-manager.  cert-manager calls [Present]
    and [CleanUp] with a challenge; the solver parses the issuer's configuration,
    routes the challenge's FQDN to one of several credentials by its zone apex,
    reads that credential's API token from a Kubernetes Secret, and creates or
    deletes a TXT record set through the Hetzner Cloud Zones API.  This library
    translates all of its Go code and proves what makes it correct.

    ** How the code is modelled

    - Strings are byte strings; the functions of Go's [strings], [strconv],
      [unicode/utf8], [net/url] and [encoding/json] that the program calls are
      computed here ([GoStrings], [LowerTable], [Utf8], [Quote], [Json]), on
      invalid UTF-8 too.  [int], [int64] and [time.Duration] are integers whose
      overflow is written out ([wrap64]).
    - A function that returns [(A, error)] returns [result error A]; errors are the
      values of [Errors], with [errors.Is] and [errors.As] as functions.
    - A function with effects (clock, timers, HTTP, Secrets, logging, the shared
      zone cache) is a finite tree of events ([Effects.prog]).  [exec] gives its
      traces under every environment, [run] executes it against a handler.  The
      trees are finite because every loop of the program is bounded ([Steps] says
      how long they are); what is proved of all [exec] traces holds whatever the
      other goroutines do.
    - Code outside the repository that cannot be computed here is a parameter:
      the class [Runtime] (Unicode's table of printable runes, HTTP dates, which
      URLs [net/http] accepts, the texts of JSON errors, client-go's clientset)
      and the class [CertManager] (the type [SecretKeySelector]).  Nothing is
      assumed of them beyond what [CertManager] states; each has an instance.

    ** Files and the code they model

    - [Errors]: internal/hcloud/errors.go, and the sentinel of the routing layer.
    - [Routing]: internal/routing/routing.go, [Resolve] and [ValidateConfig] with
      their loops; [RoutingSpec], [ValidateSpec]: what they have to do;
      [RoutingTheorems].
    - [Types]: internal/hcloud/types.go, with the struct tags as decoders and
      encoders over the JSON of [Json] ([JsonFuel], [JsonRoundtrip]: its parser).
    - [ZoneCache]: internal/solver/zonecache.go as a state with one operation per
      method, and its history specification; [CacheMutex]: the same methods
      statement by statement, in goroutines that share the map and the mutex;
      [ZoneCacheTheorems].
    - [Client]: internal/hcloud/clock.go and client.go: options, the four endpoints,
      the retry loop ([do_request], [do_loop]), one attempt ([doOnce]), error
      bodies, Retry-After, backoff.  [ClientSpec], [ClientDelays], [ClientPaths],
      [RequestRoundtrip], [ResponseRoundtrip], [Redaction]: its lemmas; [ClientTheorems].
    - [SolverConfig], [Secrets], [Solver], [Main]: config.go, secrets.go and
      solver.go of internal/solver, and cmd/.../main.go.  [present_prepared] and
      [cleanup_prepared] are [Present] and [CleanUp] after [prepare];
      [route_challenge] is the part of [prepare] that has no effects.
      [RecordNames], [ConfigTheorems], [SetupTheorems]: names, configuration,
      construction; [SolverSpec], [SolverTheorems]: the handlers in any environment.
    - [ZonesAPI]: the contract of the Zones API as a class with laws, for any number
      of projects with a token each and with primary and secondary zones, and the
      [world]: clock, cache, Secrets, a network that says of each request how long
      it takes and whether it or its reply gets lost, and a server that keeps the
      contract.  Requests and waits take time there, and contexts expire.
      [ExampleAPI] proves the laws of a mock server with two projects.
    - [Interference]: the judgement [holds], by which a program is proved correct
      while others change the world too.  [Endpoints]: what the API makes of the
      client's requests, and what becomes of a record set that calls share;
      [Tasks]: what a call relies on ([rely]) and guarantees ([guar_within]).
      [WorldClient], [WorldSolver], [EndToEnd]: the client's and the solver's calls
      by that judgement; a run alone is the special case that [EndToEndTheorems]
      is about.  [Pool]: calls under way at the same time, their events
      interleaved in any order, each starting at an instant of its own and with a
      clock and a network of its own; [Jobs]: calls as data;
      [PoolTheorems], [SessionTheorems].
    - [Adversity]: environments that may fail a program, as a relation ([happens])
      between an event and its answers, and the judgement [keeps] of all that can
      happen.  [FaultyClient], [FaultySolver]: the client's and the solver's calls
      by that judgement; [FaultyPool]: calls at the same time; [FaultTheorems].
    - [Steps]: how many events programs perform.  [Timing]: traces with instants;
      [TimingTheorems].

    ** What the theorems show

    - End to end ([EndToEndTheorems]), against every server that keeps the contract
      and over every [bearable] network, one whose failures are of the kinds that
      are retried, at most [maxRetries] in a row, and on which requests and waits
      together stay below the budget of the call: [Present] publishes exactly the
      quoted key under the right name and touches nothing else, is idempotent, and
      [CleanUp] removes it, both before the budget is up; stale zone IDs heal; the
      limits (one record set per name, one page of zones) are stated too, and that
      secondary zones are refused ([EndToEnd.present_secondary_world]).  [ready]
      lists what the configuration, the Secret, the zone and the cache must be like.
    - Sessions ([SessionTheorems]): the abstract specification.  A series of calls
      for any challenges, with others at work in between, makes of the record sets
      what a store of them would.
    - Failures ([FaultTheorems]): whatever requests, waits, contexts and reads of
      Secrets fail, whichever requests are served late or twice, and wherever a
      process is killed, every record set is as it was or as the call is to make
      it, success is never reported in vain, and making the same calls again puts
      everything right.
    - Concurrency ([PoolTheorems]): calls about different record sets do not disturb
      each other, whatever the interleaving and whatever other programs do to other
      record sets and zones; calls that race for one record set all succeed and
      leave it as one of them wants it, unless one presents what another cleans up
      (then a [Present] may find its record set gone between its two requests and
      fail: [present_races_cleanup]); all calls return, in a bounded number of
      events.  The zone
      cache's methods are linearizable under their mutex, without deadlock
      ([ZoneCacheTheorems]), which is why each of them is one event.
    - Time ([TimingTheorems]): a call returns within its budget, and reports it when
      the budget ran out while it waited.
    - In every environment ([SolverTheorems]): isolation of credentials, failing
      closed, redaction of the token as noninterference, bounds on requests, what
      each reported result means.
    - The client ([ClientTheorems]): the retry discipline, delays with their
      overflow behaviour, the time spent waiting, requests that decode to what was
      asked for, results that are what the response shows, options.
    - Routing, configuration, names, cache and set-up: exact functional
      specifications, uniqueness and order independence, injectivity, refinement.

    ** Fuel

    [Routing.walk] takes one round more than the name has bytes ([walk_fuel]); the
    JSON parser takes twice the length of the document and two, and more never
    changes a result ([JsonFuel.parse_value_fuel]); the retry loop runs [maxRetries + 1]
    rounds, which is the loop's own bound.  No theorem is conditional on fuel.

    ** What is not modelled

    cert-manager's webhook server and cobra command that [main] hands over to, the
    Helm chart, the test harness and CI.  HTTP, Kubernetes and Unicode tables above
    Latin-1 are parameters or environment.  Redirects, TLS and connection reuse
    belong to [net/http] and show only in its answers.  In a run of [in_world]
    requests and waits take time, and nothing else does; each of concurrent calls
    has a clock and a network of its own, and its events are interleaved with the
    others' in any order, not in the order of those clocks.  Contexts that expire
    at any moment, or are cancelled, are covered by [Adversity], deadlines in any
    environment by [Timing].  A request that the API serves after
    its client has given it up is part of [FaultyPool.adverse_run], not of
    [in_world]: a [CleanUp] that follows a [Present] so delayed may leave its
    record behind ([delayed_present_outlives_cleanup]).  [rely] lets others create
    and delete other record sets and zones and rotate other credentials' Secrets,
    but neither delete the zone of a call under way nor replace its token.  The
    mutex is [sync.Mutex] as documented: one goroutine has it at a time.  Logs are
    values: how slog formats them is not modelled.  Nil pointers where the code
    would panic (a solver not built by [New]) are reported as errors. *)

From stdpp Require Export base tactics list strings gmap sorting.
From Stdlib Require Export ZArith Lia Ascii.

#[global] Open Scope Z_scope.

#[global] Arguments String.append : simpl nomatch.

(** ** Results

    A Go function with results [(A, error)] becomes a function into
    [result E A]; a function with the single result [error] becomes one
    into [option E], where [None] is the nil error. *)

Inductive result (E A : Type) : Type :=
| Ok (a : A)
| Err (e : E).

Arguments Ok {E A} a.
Arguments Err {E A} e.

Definition result_bind {E A B} (m : result E A) (f : A -> result E B) : result E B :=
  match m with
  | Ok a => f a
  | Err e => Err e
  end.

Definition is_ok {E A} (m : result E A) : bool :=
  match m with Ok _ => true | Err _ => false end.

Declare Scope go_scope.
Delimit Scope go_scope with go.

Notation "'let?' x ':=' m 'in' k" := (result_bind m (fun x => k))
  (at level 10, x name, m at level 100, k at level 200) : go_scope.
Notation "'let?' ' p ':=' m 'in' k" :=
  (result_bind m (fun x => match x with p => k end))
  (at level 10, p pattern, m at level 100, k at level 200) : go_scope.

#[global] Open Scope go_scope.

(** ** Widths

    Go's [int], [int64] and [time.Duration] are 64-bit two's complement. *)

Definition int64_min : Z := - 2 ^ 63.
Definition int64_max : Z := 2 ^ 63 - 1.

(** The value that 64-bit arithmetic leaves: [z] modulo [2 ^ 64], signed. *)
Definition wrap64 (z : Z) : Z := (z + 2 ^ 63) `mod` 2 ^ 64 - 2 ^ 63.

Definition in_int64 (z : Z) : bool := (int64_min <=? z) && (z <=? int64_max).

(** ** Tactics *)

Create HintDb hz.
Create Rewrite HintDb hz_str.

(** Case analysis on the [if], [match] or comparison the goal is stuck on. *)
Ltac split_match :=
  match goal with
  | |- context [match ?x with _ => _ end] => destruct x eqn:?
  | H : context [match ?x with _ => _ end] |- _ => destruct x eqn:?
  end.

(** Turn boolean tests into propositions. *)
Ltac to_prop :=
  repeat match goal with
  | H : (_ && _)%bool = true |- _ => apply andb_true_iff in H; destruct H as [? ?]
  | H : (_ && _)%bool = false |- _ => apply andb_false_iff in H; destruct H as [?|?]
  | H : (_ || _)%bool = true |- _ => apply orb_true_iff in H; destruct H as [?|?]
  | H : (_ || _)%bool = false |- _ => apply orb_false_iff in H; destruct H as [? ?]
  | H : negb _ = true |- _ => apply negb_true_iff in H
  | H : negb _ = false |- _ => apply negb_false_iff in H
  | H : (_ =? _)%string = true |- _ => apply String.eqb_eq in H
  | H : (_ =? _)%string = false |- _ => apply String.eqb_neq in H
  | H : (_ =? _) = true |- _ => apply Z.eqb_eq in H
  | H : (_ =? _) = false |- _ => apply Z.eqb_neq in H
  | H : (_ <=? _) = true |- _ => apply Z.leb_le in H
  | H : (_ <=? _) = false |- _ => apply Z.leb_gt in H
  | H : (_ <? _) = true |- _ => apply Z.ltb_lt in H
  | H : (_ <? _) = false |- _ => apply Z.ltb_ge in H
  | H : bool_decide _ = true |- _ => apply bool_decide_eq_true in H
  | H : bool_decide _ = false |- _ => apply bool_decide_eq_false in H
  end.

(** ** Generic lemmas *)

Lemma result_bind_ok {E A B} (m : result E A) (f : A -> result E B) b :
  result_bind m f = Ok b <-> exists a, m = Ok a /\ f a = Ok b.
Proof.
  destruct m; simpl; split; eauto; try done.
  - intros (x & Hx & ?). by simplify_eq.
  - by intros (x & Hx & _).
Qed.

Lemma result_bind_err {E A B} (m : result E A) (f : A -> result E B) e :
  result_bind m f = Err e <-> m = Err e \/ exists a, m = Ok a /\ f a = Err e.
Proof.
  destruct m; simpl; split; eauto.
  - by intros [Hx | (x & Hx & ?)]; simplify_eq.
  - intros Hx. left. congruence.
  - intros [Hx | (x & Hx & _)]; [congruence | done].
Qed.

Lemma wrap64_id z : in_int64 z = true -> wrap64 z = z.
Proof.
  unfold in_int64, int64_min, int64_max, wrap64. intros H. to_prop.
  rewrite Z.mod_small; lia.
Qed.

Lemma wrap64_range z : in_int64 (wrap64 z) = true.
Proof.
  unfold in_int64, int64_min, int64_max, wrap64.
  pose proof (Z.mod_pos_bound (z + 2 ^ 63) (2 ^ 64) ltac:(lia)).
  apply andb_true_iff; split; apply Z.leb_le; lia.
Qed.

#[export] Hint Resolve wrap64_range : hz.

(** The last element of a list with a decidable property. *)
Lemma last_such {A} (P : A -> Prop) `{!forall x, Decision (P x)} (l : list A) :
  Exists P l ->
  exists i y, l !! i = Some y /\ P y /\
    forall j z, (i < j)%nat -> l !! j = Some z -> ~ P z.
Proof.
  induction l as [|a l IH]; intros He; [by inversion He|].
  destruct (decide (Exists P l)) as [Hl|Hn].
  - destruct (IH Hl) as (i & w & Hi & Hw & Hm). exists (S i), w.
    split; [done|]. split; [done|]. intros [|j] z Hlt; [lia|]. apply Hm. lia.
  - exists 0%nat, a. split; [done|]. split; [by inversion He|].
    intros [|j] z Hlt Hj Hz; [lia|]. apply Hn, Exists_exists.
    exists z. split; [by eapply list_elem_of_lookup_2 | done].
Qed.
