(* ===== verification/GoStrings.v ===== *)
(** Byte strings: the functions of Go's [strings] and [strconv] packages that
    the program calls on bytes.  A Go string is a sequence of bytes, here the
    [string] of the standard library, whose [ascii] characters are bytes.  The
    functions that look at runes ([ToLower], [TrimSpace], [strconv.Quote]) are
    in [Utf8] and [Quote]. *)
From S2P Require Import Prelude.

(** ** Bytes *)

Definition code (c : ascii) : Z := Z.of_N (N_of_ascii c).
Definition chr (z : Z) : ascii := ascii_of_N (Z.to_N z).

(** The one-byte string. *)
Definition byte1 (c : ascii) : string := String c EmptyString.

(** The double quote, for literals that need one: [qt] turns each apostrophe of
    a literal into a double quote. *)
Definition dquote : ascii := chr 34.

Fixpoint qt (s : string) : string :=
  match s with
  | EmptyString => EmptyString
  | String c s' => String (if code c =? 39 then dquote else c) (qt s')
  end.

(** ** [strings] *)

(** [s[n:]] *)
Fixpoint drop_bytes (n : nat) (s : string) : string :=
  match n, s with
  | O, _ => s
  | S _, EmptyString => EmptyString
  | S n', String _ s' => drop_bytes n' s'
  end.

(** [s[:n]] *)
Fixpoint take_bytes (n : nat) (s : string) : string :=
  match n, s with
  | O, _ => EmptyString
  | S _, EmptyString => EmptyString
  | S n', String c s' => String c (take_bytes n' s')
  end.

Fixpoint HasPrefix (s pre : string) {struct pre} : bool :=
  match pre, s with
  | EmptyString, _ => true
  | String _ _, EmptyString => false
  | String p pre', String c s' => Ascii.eqb p c && HasPrefix s' pre'
  end.

Definition HasSuffix (s suf : string) : bool :=
  (String.length suf <=? String.length s)%nat &&
  String.eqb (drop_bytes (String.length s - String.length suf) s) suf.

Definition TrimPrefix (s pre : string) : string :=
  if HasPrefix s pre then drop_bytes (String.length pre) s else s.

Definition TrimSuffix (s suf : string) : string :=
  if HasSuffix s suf
  then take_bytes (String.length s - String.length suf) s else s.

(** [strings.Contains] *)
Fixpoint Contains (s sub : string) : bool :=
  HasPrefix s sub ||
  match s with
  | EmptyString => false
  | String _ s' => Contains s' sub
  end.

(** [strings.IndexByte]: [None] is the result -1. *)
Fixpoint IndexByte (s : string) (b : ascii) : option nat :=
  match s with
  | EmptyString => None
  | String c s' =>
      if Ascii.eqb c b then Some O
      else match IndexByte s' b with Some i => Some (S i) | None => None end
  end.

(** [strings.Split] with a one-byte separator. *)
Fixpoint Split (s : string) (sep : ascii) : list string :=
  match s with
  | EmptyString => [EmptyString]
  | String c s' =>
      if Ascii.eqb c sep then EmptyString :: Split s' sep
      else match Split s' sep with
           | l :: ls => String c l :: ls
           | [] => [byte1 c]
           end
  end.

(** [strings.Join] *)
Fixpoint Join (elems : list string) (sep : string) : string :=
  match elems with
  | [] => EmptyString
  | [e] => e
  | e :: es => e +:+ sep +:+ Join es sep
  end.

(** [strings.TrimRight] with a cutset of one ASCII byte. *)
Fixpoint TrimRight (s : string) (b : ascii) : string :=
  match s with
  | EmptyString => EmptyString
  | String c s' =>
      match TrimRight s' b with
      | EmptyString => if Ascii.eqb c b then EmptyString else byte1 c
      | t => String c t
      end
  end.

(** [sort.Strings]: bytes are compared, so the result is the unique sorted
    permutation. *)
Definition sort_Strings (l : list string) : list string := merge_sort String.le l.

(** ** [strconv] *)

Definition digit (d : Z) : ascii := chr (48 + d).

Definition is_digit (c : ascii) : bool := (48 <=? code c) && (code c <=? 57).

(** Decimal digits of a number [0 <= z], most significant first. *)
Fixpoint digits_aux (fuel : nat) (z : Z) (acc : string) : string :=
  match fuel with
  | O => acc
  | S f =>
      let acc' := String (digit (z `mod` 10)) acc in
      if z <? 10 then acc' else digits_aux f (z / 10) acc'
  end.

(** The [%d] of a 64-bit integer: at most 19 digits, so 20 rounds are enough. *)
Definition FormatInt (z : Z) : string :=
  if z <? 0 then String "-"%char (digits_aux 20 (- z) EmptyString)
  else digits_aux 20 z EmptyString.

Fixpoint digits_value (s : string) (acc : Z) : option Z :=
  match s with
  | EmptyString => Some acc
  | String c s' =>
      if is_digit c then digits_value s' (acc * 10 + (code c - 48)) else None
  end.

(** [strconv.ParseInt(s, 10, 64)] and [strconv.Atoi] on a 64-bit platform: an
    optional sign, then at least one digit; [None] for a syntax error and for
    a value outside the 64-bit range. *)
Definition Atoi (s : string) : option Z :=
  let '(neg, ds) :=
    match s with
    | String c s' =>
        if Ascii.eqb c "-"%char then (true, s')
        else if Ascii.eqb c "+"%char then (false, s') else (false, s)
    | EmptyString => (false, s)
    end in
  match ds with
  | EmptyString => None
  | _ =>
      match digits_value ds 0 with
      | Some v => let z := if neg then - v else v in
                  if in_int64 z then Some z else None
      | None => None
      end
  end.

(** Every byte of [s] satisfies [P]. *)
Fixpoint all_bytes (P : ascii -> bool) (s : string) : bool :=
  match s with
  | EmptyString => true
  | String c s' => P c && all_bytes P s'
  end.

(** The last byte of [s]. *)
Fixpoint last_byte (s : string) : option ascii :=
  match s with
  | EmptyString => None
  | String c EmptyString => Some c
  | String _ s' => last_byte s'
  end.

(** ** Lemmas *)

Lemma code_range c : 0 <= code c < 256.
Proof.
  unfold code. pose proof (N_ascii_bounded c). lia.
Qed.

Lemma chr_code c : chr (code c) = c.
Proof. unfold chr, code. rewrite N2Z.id. apply ascii_N_embedding. Qed.

Lemma code_chr z : 0 <= z < 256 -> code (chr z) = z.
Proof. intros H. unfold chr, code. rewrite N_ascii_embedding by lia. lia. Qed.

Lemma code_inj c d : code c = code d -> c = d.
Proof. intros H. by rewrite <- (chr_code c), H, chr_code. Qed.

Lemma chr_inj x y : 0 <= x < 256 -> 0 <= y < 256 -> chr x = chr y -> x = y.
Proof. intros Hx Hy H. by rewrite <- (code_chr x Hx), H, code_chr. Qed.

Lemma sapp_nil_r s : s +:+ EmptyString = s.
Proof. induction s as [|c s IH]; simpl; congruence. Qed.

Lemma sapp_assoc a b c : (a +:+ b) +:+ c = a +:+ (b +:+ c).
Proof. induction a as [|x a IH]; simpl; congruence. Qed.

Lemma sapp_length a b :
  String.length (a +:+ b) = (String.length a + String.length b)%nat.
Proof. induction a; simpl; congruence. Qed.

Lemma sapp_inj_l a b b' : a +:+ b = a +:+ b' -> b = b'.
Proof. induction a as [|x a IH]; simpl; intros H; [done|]. injection H as H. auto. Qed.

Lemma drop_app a b : drop_bytes (String.length a) (a +:+ b) = b.
Proof. by induction a. Qed.

Lemma take_app a b : take_bytes (String.length a) (a +:+ b) = a.
Proof. induction a; simpl; [by destruct b | congruence]. Qed.

Lemma take_drop n s : take_bytes n s +:+ drop_bytes n s = s.
Proof.
  revert s. induction n as [|n IH]; intros [|c s]; simpl; try done.
  by rewrite IH.
Qed.

Lemma sapp_inj_r a a' b : a +:+ b = a' +:+ b -> a = a'.
Proof.
  intros H. assert (String.length a = String.length a') as Hl.
  { apply (f_equal String.length) in H. rewrite !sapp_length in H. lia. }
  apply (f_equal (take_bytes (String.length a))) in H.
  rewrite take_app, Hl, take_app in H. done.
Qed.

Lemma HasPrefix_spec s pre :
  HasPrefix s pre = true <-> exists r, s = pre +:+ r.
Proof.
  revert s. induction pre as [|p pre IH]; intros s; simpl.
  - split; [intros _; by exists s | done].
  - destruct s as [|c s]; simpl.
    + split; [done | by intros [r Hr]].
    + rewrite andb_true_iff, Ascii.eqb_eq, IH. split.
      * intros [-> [r ->]]. by exists r.
      * intros [r Hr]. injection Hr as -> ->. eauto.
Qed.

Lemma HasPrefix_cancel pre s q : HasPrefix (pre +:+ s) (pre +:+ q) = HasPrefix s q.
Proof. induction pre as [|c pre IH]; [done|]. simpl. by rewrite Ascii.eqb_refl. Qed.

Lemma HasPrefix_app pre r : HasPrefix (pre +:+ r) pre = true.
Proof. apply HasPrefix_spec. by exists r. Qed.

Lemma HasSuffix_spec s suf :
  HasSuffix s suf = true <-> exists p, s = p +:+ suf.
Proof.
  unfold HasSuffix. rewrite andb_true_iff, Nat.leb_le, String.eqb_eq. split.
  - intros [Hl Hd]. exists (take_bytes (String.length s - String.length suf) s).
    rewrite <- Hd at 2. by rewrite take_drop.
  - intros [p ->]. rewrite sapp_length. split; [lia|].
    replace (_ + _ - _)%nat with (String.length p) by lia. apply drop_app.
Qed.

Lemma HasSuffix_app p suf : HasSuffix (p +:+ suf) suf = true.
Proof. apply HasSuffix_spec. by exists p. Qed.

Lemma TrimPrefix_app pre r : TrimPrefix (pre +:+ r) pre = r.
Proof. unfold TrimPrefix. by rewrite HasPrefix_app, drop_app. Qed.

Lemma TrimSuffix_app p suf : TrimSuffix (p +:+ suf) suf = p.
Proof.
  unfold TrimSuffix. rewrite HasSuffix_app, sapp_length.
  replace (_ + _ - _)%nat with (String.length p) by lia. apply take_app.
Qed.

Lemma TrimSuffix_no s suf : HasSuffix s suf = false -> TrimSuffix s suf = s.
Proof. unfold TrimSuffix. by intros ->. Qed.

Lemma TrimPrefix_no s pre : HasPrefix s pre = false -> TrimPrefix s pre = s.
Proof. unfold TrimPrefix. by intros ->. Qed.

(** [TrimPrefix] removes the prefix or leaves the string alone. *)
Lemma TrimPrefix_cases s pre :
  (s = pre +:+ TrimPrefix s pre) \/
  (HasPrefix s pre = false /\ TrimPrefix s pre = s).
Proof.
  destruct (HasPrefix s pre) eqn:E.
  - left. apply HasPrefix_spec in E as [r ->]. by rewrite TrimPrefix_app.
  - right. split; [done | by apply TrimPrefix_no].
Qed.

Lemma TrimSuffix_cases s suf :
  (s = TrimSuffix s suf +:+ suf) \/
  (HasSuffix s suf = false /\ TrimSuffix s suf = s).
Proof.
  destruct (HasSuffix s suf) eqn:E.
  - left. apply HasSuffix_spec in E as [p ->]. by rewrite TrimSuffix_app.
  - right. split; [done | by apply TrimSuffix_no].
Qed.

Lemma all_bytes_app P a b :
  all_bytes P (a +:+ b) = all_bytes P a && all_bytes P b.
Proof. induction a as [|c a IH]; simpl; [done|]. by rewrite IH, andb_assoc. Qed.

Lemma all_bytes_impl (P Q : ascii -> bool) s :
  (forall c, P c = true -> Q c = true) -> all_bytes P s = true -> all_bytes Q s = true.
Proof.
  intros HPQ. induction s as [|c s IH]; simpl; [done|].
  rewrite !andb_true_iff. intros [? ?]. auto.
Qed.

Lemma last_byte_app_cons p c s :
  last_byte (p +:+ String c s) = last_byte (String c s).
Proof.
  induction p as [|x p IH]; [done|]. rewrite <- IH. simpl.
  destruct (p +:+ String c s) eqn:E; [by destruct p | done].
Qed.

Lemma last_byte_split s c :
  last_byte s = Some c <-> exists p, s = p +:+ byte1 c.
Proof.
  split.
  - induction s as [|x s IH]; [done|]. destruct s as [|y s]; intros H.
    + injection H as ->. by exists EmptyString.
    + destruct (IH H) as [p Hp]. exists (String x p). simpl. by rewrite Hp.
  - intros [p ->]. unfold byte1. by rewrite last_byte_app_cons.
Qed.

Lemma last_byte_none s : last_byte s = None -> s = EmptyString.
Proof.
  induction s as [|c s IH]; [done|]. destruct s; [done|]. intros H. by apply IH in H.
Qed.

Lemma HasSuffix_byte s c :
  HasSuffix s (byte1 c) = true <-> last_byte s = Some c.
Proof. by rewrite HasSuffix_spec, last_byte_split. Qed.

Lemma TrimRight_last s b : last_byte (TrimRight s b) <> Some b.
Proof.
  induction s as [|c s IH]; [done|]. simpl.
  destruct (TrimRight s b) as [|x t] eqn:E; [|by destruct t].
  destruct (Ascii.eqb c b) eqn:Ec; [done|]. apply Ascii.eqb_neq in Ec. simpl. congruence.
Qed.

Lemma Contains_spec s sub :
  Contains s sub = true <-> exists a b, s = a +:+ sub +:+ b.
Proof.
  induction s as [|c s IH]; simpl; rewrite orb_true_iff, HasPrefix_spec.
  - split.
    + intros [[r Hr]|]; [|done]. by exists EmptyString, r.
    + intros (a & b & H). left. destruct a; [|done]. by exists b.
  - rewrite IH. split.
    + intros [[r Hr]|(a & b & ->)]; [by exists EmptyString, r | by exists (String c a), b].
    + intros (a & b & H). destruct a as [|x a]; [left; by exists b|].
      right. injection H as -> ->. eauto.
Qed.

Lemma IndexByte_spec s b i :
  IndexByte s b = Some i ->
  exists p, s = p +:+ String b (drop_bytes (S i) s) /\ all_bytes (fun c => negb (Ascii.eqb c b)) p = true.
Proof.
  revert i. induction s as [|c s IH]; intros i; simpl; [done|].
  destruct (Ascii.eqb c b) eqn:E.
  - intros [= <-]. apply Ascii.eqb_eq in E as ->. by exists EmptyString.
  - destruct (IndexByte s b) as [j|] eqn:Ej; [|done]. intros [= <-].
    destruct (IH j eq_refl) as (p & Hs & Hp). exists (String c p). simpl.
    rewrite E, Hp. split; [|done]. f_equal. exact Hs.
Qed.

Lemma IndexByte_none s b :
  IndexByte s b = None <-> all_bytes (fun c => negb (Ascii.eqb c b)) s = true.
Proof.
  induction s as [|c s IH]; simpl; [done|].
  destruct (Ascii.eqb c b); simpl; [done|]. rewrite <- IH.
  by destruct (IndexByte s b).
Qed.

Lemma Split_not_nil s sep : Split s sep <> [].
Proof. destruct s; simpl; [done|]. by repeat split_match. Qed.

Lemma Join_cons e l sep :
  l <> [] -> Join (e :: l) sep = e +:+ sep +:+ Join l sep.
Proof. by destruct l. Qed.

Lemma Join_Split s sep : Join (Split s sep) (byte1 sep) = s.
Proof.
  induction s as [|c s IH]; [done|]. simpl.
  pose proof (Split_not_nil s sep) as Hn.
  destruct (Ascii.eqb c sep) eqn:E.
  - apply Ascii.eqb_eq in E as ->. rewrite Join_cons by done. simpl. by rewrite IH.
  - destruct (Split s sep) as [|l ls]; [done|]. destruct ls as [|l' ls]; simpl in *; congruence.
Qed.

Lemma Split_no_sep s sep :
  Forall (fun l => all_bytes (fun c => negb (Ascii.eqb c sep)) l = true) (Split s sep).
Proof.
  induction s as [|c s IH]; simpl; [by constructor|].
  destruct (Ascii.eqb c sep) eqn:E; [by constructor|].
  destruct (Split s sep) as [|l ls]; constructor; simpl; rewrite ?E; try done.
  - by inversion IH.
  - by inversion IH.
Qed.

Lemma Split_app_sep a b sep :
  Split (a +:+ String sep b) sep = Split a sep ++ Split b sep.
Proof.
  induction a as [|c a IH]; simpl.
  - by rewrite (proj2 (Ascii.eqb_eq sep sep) eq_refl).
  - rewrite IH. destruct (Ascii.eqb c sep); [done|].
    destruct (Split a sep) eqn:E; [by apply Split_not_nil in E | done].
Qed.

Lemma Split_single s sep :
  all_bytes (fun c => negb (Ascii.eqb c sep)) s = true -> Split s sep = [s].
Proof.
  induction s as [|c s IH]; simpl; [done|]. intros H. to_prop.
  rewrite IH by done. by destruct (Ascii.eqb c sep).
Qed.

(** *** Decimal numbers *)

Lemma code_digit d : 0 <= d < 10 -> code (digit d) = 48 + d.
Proof. intros H. apply code_chr. lia. Qed.

Lemma is_digit_digit d : 0 <= d < 10 -> is_digit (digit d) = true.
Proof.
  intros H. unfold is_digit. rewrite code_digit by done.
  apply andb_true_iff; split; apply Z.leb_le; lia.
Qed.

Lemma digits_aux_value f z acc :
  0 <= z < 10 ^ Z.of_nat f -> (0 < f)%nat ->
  digits_value (digits_aux f z acc) 0 = digits_value acc z.
Proof.
  revert z acc. induction f as [|f IH]; intros z acc Hz Hf; [lia|]. simpl.
  pose proof (Z.mod_pos_bound z 10 ltac:(lia)) as Hm.
  pose proof (Z.div_mod z 10 ltac:(lia)) as Hd.
  destruct (z <? 10) eqn:E; to_prop.
  - simpl. rewrite is_digit_digit, code_digit by done. f_equal.
    rewrite (Z.mod_small z 10) by lia. lia.
  - destruct f as [|f]; [simpl in Hz; lia|].
    rewrite IH.
    + simpl. rewrite is_digit_digit, code_digit by done. f_equal. lia.
    + rewrite Nat2Z.inj_succ, Z.pow_succ_r in Hz by lia.
      split; [apply Z.div_pos; lia|]. apply Z.div_lt_upper_bound; lia.
    + lia.
Qed.

Lemma digits_aux_all f z acc :
  0 <= z -> all_bytes is_digit acc = true -> all_bytes is_digit (digits_aux f z acc) = true.
Proof.
  revert z acc. induction f as [|f IH]; intros z acc Hz Ha; [done|]. simpl.
  assert (is_digit (digit (z `mod` 10)) = true) as Hd
    by (apply is_digit_digit, Z.mod_pos_bound; lia).
  destruct (z <? 10); [by simpl; rewrite Hd, Ha|].
  apply IH; [apply Z.div_pos; lia|]. simpl. by rewrite Hd, Ha.
Qed.

Lemma digits_aux_cons f z acc :
  (0 < f)%nat -> exists c s, digits_aux f z acc = String c s.
Proof.
  revert z acc. induction f as [|f IH]; intros z acc Hf; [lia|]. simpl.
  destruct (z <? 10); [eauto|]. destruct f; [simpl; eauto | apply IH; lia].
Qed.

Definition number_byte (c : ascii) : bool := is_digit c || Ascii.eqb c "-"%char.

Lemma FormatInt_bytes z : all_bytes number_byte (FormatInt z) = true.
Proof.
  assert (forall s, all_bytes is_digit s = true -> all_bytes number_byte s = true) as Hw.
  { intros s. apply all_bytes_impl. unfold number_byte. by intros c ->. }
  unfold FormatInt. destruct (z <? 0) eqn:E; to_prop.
  - cbn [all_bytes]. rewrite Hw by (apply digits_aux_all; [lia | done]). done.
  - apply Hw. by apply digits_aux_all; [lia|].
Qed.

Lemma digits_all_cons f z c s :
  0 <= z -> digits_aux f z EmptyString = String c s -> is_digit c = true.
Proof.
  intros Hz E. pose proof (digits_aux_all f z EmptyString Hz eq_refl) as H.
  rewrite E in H. simpl in H. by to_prop.
Qed.

(** Printing a 64-bit integer and reading it back. *)
Lemma Atoi_FormatInt z : in_int64 z = true -> Atoi (FormatInt z) = Some z.
Proof.
  intros Hr. pose proof Hr as Hb. unfold in_int64, int64_min, int64_max in Hb. to_prop.
  unfold FormatInt. destruct (z <? 0) eqn:E; to_prop.
  - destruct (digits_aux_cons 20 (- z) EmptyString ltac:(lia)) as (c & s & Hs).
    pose proof (digits_aux_value 20 (- z) EmptyString ltac:(lia) ltac:(lia)) as Hv.
    rewrite Hs in *. unfold Atoi. rewrite Ascii.eqb_refl, Hv. cbn [digits_value].
    by rewrite Z.opp_involutive, Hr.
  - destruct (digits_aux_cons 20 z EmptyString ltac:(lia)) as (c & s & Hs).
    pose proof (digits_aux_value 20 z EmptyString ltac:(lia) ltac:(lia)) as Hv.
    pose proof (digits_all_cons 20 z c s ltac:(lia) Hs) as Hc.
    rewrite Hs in *. unfold Atoi.
    destruct (Ascii.eqb c "-") eqn:E1; [by apply Ascii.eqb_eq in E1; subst c|].
    destruct (Ascii.eqb c "+") eqn:E2; [by apply Ascii.eqb_eq in E2; subst c|].
    rewrite Hv. cbn [digits_value]. by rewrite Hr.
Qed.

Lemma FormatInt_inj z z' :
  in_int64 z = true -> in_int64 z' = true -> FormatInt z = FormatInt z' -> z = z'.
Proof.
  intros H H' E. apply Atoi_FormatInt in H, H'. rewrite E in H. congruence.
Qed.

(** *** Sorting *)

Lemma sort_Strings_perm l l' :
  l ≡ₚ l' -> sort_Strings l = sort_Strings l'.
Proof.
  intros H. apply (Sorted_unique String.le).
  - apply Sorted_merge_sort, _.
  - apply Sorted_merge_sort, _.
  - unfold sort_Strings. by rewrite !merge_sort_Permutation.
Qed.

#[export] Hint Rewrite sapp_nil_r sapp_assoc sapp_length : hz_str.
#[export] Hint Resolve code_range HasPrefix_app HasSuffix_app : hz.
