(* ===== verification/Utf8.v ===== *)
(** Runes: UTF-8 decoding and encoding as Go's [unicode/utf8] does it, and the
    functions of [strings] that work rune by rune ([range] over a string,
    [ToLower], [TrimSpace]). *)
From S2P Require Import Prelude GoStrings LowerTable.

Definition RuneError : Z := 65533.

(** A continuation byte lies in [0x80 .. 0xBF]. *)
Definition is_cont (b : Z) : bool := (128 <=? b) && (b <=? 191).

Definition in_range (lo hi b : Z) : bool := (lo <=? b) && (b <=? hi).

Definition rune2 (b0 b1 : Z) : Z := (b0 - 192) * 64 + (b1 - 128).
Definition rune3 (b0 b1 b2 : Z) : Z :=
  (b0 - 224) * 4096 + (b1 - 128) * 64 + (b2 - 128).
Definition rune4 (b0 b1 b2 b3 : Z) : Z :=
  (b0 - 240) * 262144 + (b1 - 128) * 4096 + (b2 - 128) * 64 + (b3 - 128).

(** The bounds the second byte obeys after a lead byte of a three- or four-byte
    form (no overlong forms, no surrogates, nothing above [0x10FFFF]). *)
Definition second_lo (b0 : Z) : Z :=
  if b0 =? 224 then 160 else if b0 =? 240 then 144 else 128.
Definition second_hi (b0 : Z) : Z :=
  if b0 =? 237 then 159 else if b0 =? 244 then 143 else 191.

(** [utf8.DecodeRuneInString]: the rune and its width; [(RuneError, 1)] at an
    invalid or truncated encoding, [(RuneError, 0)] at the end. *)
Definition decode_rune (s : string) : Z * nat :=
  let bad := (RuneError, 1%nat) in
  match s with
  | EmptyString => (RuneError, 0%nat)
  | String c0 s1 =>
    let b0 := code c0 in
    if b0 <? 128 then (b0, 1%nat)
    else if b0 <? 194 then bad
    else if b0 <? 224 then
      match s1 with
      | String c1 _ => if is_cont (code c1) then (rune2 b0 (code c1), 2%nat) else bad
      | EmptyString => bad
      end
    else if b0 <? 240 then
      match s1 with
      | String c1 (String c2 _) =>
          if in_range (second_lo b0) (second_hi b0) (code c1) && is_cont (code c2)
          then (rune3 b0 (code c1) (code c2), 3%nat) else bad
      | _ => bad
      end
    else if b0 <? 245 then
      match s1 with
      | String c1 (String c2 (String c3 _)) =>
          if in_range (second_lo b0) (second_hi b0) (code c1)
             && is_cont (code c2) && is_cont (code c3)
          then (rune4 b0 (code c1) (code c2) (code c3), 4%nat) else bad
      | _ => bad
      end
    else bad
  end.

(** One step of a [range] loop: the rune, its width and the byte it starts at. *)
Definition chunk : Type := Z * nat * ascii.
Definition chunk_rune (k : chunk) : Z := let '(r, _, _) := k in r.

(** The steps of a [range] loop.  [skip] counts the bytes of the current rune
    still to be passed over. *)
Fixpoint chunks_aux (skip : nat) (s : string) : list chunk :=
  match s with
  | EmptyString => []
  | String c s' =>
      match skip with
      | S k => chunks_aux k s'
      | O => let '(r, w) := decode_rune s in (r, w, c) :: chunks_aux (w - 1) s'
      end
  end.

Definition chunks (s : string) : list chunk := chunks_aux 0 s.

(** The runes a [range] loop visits. *)
Definition runes (s : string) : list Z := map chunk_rune (chunks s).

Definition surrogate (r : Z) : bool := in_range 55296 57343 r.

(** [utf8.ValidRune] *)
Definition valid_rune (r : Z) : bool :=
  in_range 0 1114111 r && negb (surrogate r).

(** [utf8.AppendRune]: an invalid rune is written as U+FFFD. *)
Definition encode_valid (r : Z) : string :=
  if r <? 128 then byte1 (chr r)
  else if r <? 2048 then
    String (chr (192 + r / 64)) (byte1 (chr (128 + r `mod` 64)))
  else if r <? 65536 then
    String (chr (224 + r / 4096))
      (String (chr (128 + (r / 64) `mod` 64)) (byte1 (chr (128 + r `mod` 64))))
  else
    String (chr (240 + r / 262144))
      (String (chr (128 + (r / 4096) `mod` 64))
        (String (chr (128 + (r / 64) `mod` 64)) (byte1 (chr (128 + r `mod` 64))))).

Definition encode_rune (r : Z) : string :=
  encode_valid (if valid_rune r then r else RuneError).

Fixpoint encode_runes (rs : list Z) : string :=
  match rs with
  | [] => EmptyString
  | r :: rs' => encode_rune r +:+ encode_runes rs'
  end.

(** [unicode.ToLower] and [strings.ToLower] (which is [strings.Map] of it: an
    invalid byte comes out as U+FFFD). *)
Definition lower_rune (r : Z) : Z :=
  if r <? 128 then (if in_range 65 90 r then r + 32 else r) else lower_ext r.

Definition ToLower (s : string) : string := encode_runes (map lower_rune (runes s)).

(** [unicode.IsSpace]: the White_Space property. *)
Definition IsSpace (r : Z) : bool :=
  in_range 9 13 r || (r =? 32) || (r =? 133) || (r =? 160) || (r =? 5760)
  || in_range 8192 8202 r || in_range 8232 8233 r || (r =? 8239)
  || (r =? 8287) || (r =? 12288).

Fixpoint TrimLeftSpace_aux (skip : nat) (s : string) : string :=
  match s with
  | EmptyString => EmptyString
  | String _ s' =>
      match skip with
      | S k => TrimLeftSpace_aux k s'
      | O => let '(r, w) := decode_rune s in
             if IsSpace r then TrimLeftSpace_aux (w - 1) s' else s
      end
  end.

(** Drop the white-space runes at the end.  Go walks back from the end with
    [DecodeLastRune]; the encodings of white-space runes are valid UTF-8, whose
    lead bytes occur nowhere else in a decoding, so the runes found walking back
    are those a forward pass finds. *)
Fixpoint TrimRightSpace_aux (skip : nat) (s : string) : string :=
  match s with
  | EmptyString => EmptyString
  | String c s' =>
      match skip with
      | S k => String c (TrimRightSpace_aux k s')
      | O => let '(r, w) := decode_rune s in
             let rest := TrimRightSpace_aux (w - 1) s' in
             if IsSpace r && (String.length rest =? w - 1)%nat
             then EmptyString else String c rest
      end
  end.

(** [strings.TrimSpace] *)
Definition TrimSpace (s : string) : string :=
  TrimRightSpace_aux 0 (TrimLeftSpace_aux 0 s).

(** [strings.EqualFold]-style folding of [encoding/json] object keys: the ASCII
    letters to upper case, and the two runes above ASCII whose case orbit
    contains an ASCII letter. *)
Definition fold_rune (r : Z) : Z :=
  if in_range 97 122 r then r - 32
  else if r =? 383 then 83 else if r =? 8490 then 75 else r.

Definition fold_name (s : string) : list Z := map fold_rune (runes s).

(** ** Lemmas *)

(** A string a decoder can start at without regard to what stands before it:
    empty, or its first byte is no continuation byte. *)
Definition clean_start (s : string) : bool :=
  match s with EmptyString => true | String c _ => negb (is_cont (code c)) end.

Definition ascii_byte (c : ascii) : bool := code c <? 128.

Lemma second_in_cont b0 b :
  in_range (second_lo b0) (second_hi b0) b = true -> is_cont b = true.
Proof.
  unfold in_range, second_lo, second_hi, is_cont. intros H. to_prop.
  apply andb_true_iff; rewrite !Z.leb_le.
  repeat match goal with H : context [if ?b then _ else _] |- _ => destruct b end; lia.
Qed.

(** The ways a decoding step can go. *)
Lemma decode_rune_cases c s :
  let '(r, w) := decode_rune (String c s) in
  (code c < 128 /\ r = code c /\ w = 1%nat) \/
  (128 <= code c /\ 128 <= r /\ (1 <= w <= String.length (String c s))%nat).
Proof.
  simpl. pose proof (code_range c). unfold rune2, rune3, rune4, RuneError.
  destruct (code c <? 128) eqn:E1; to_prop; [left; done|].
  cut (let '(r, w) := decode_rune (String c s) in 128 <= r /\ (1 <= w <= String.length (String c s))%nat).
  { simpl. rewrite (proj2 (Z.ltb_ge (code c) 128) E1). unfold rune2, rune3, rune4, RuneError.
    repeat case_match; simplify_eq; auto. }
  simpl. rewrite (proj2 (Z.ltb_ge (code c) 128) E1). unfold rune2, rune3, rune4, RuneError.
  destruct (code c <? 194) eqn:E2; to_prop; [lia|].
  destruct (code c <? 224) eqn:E3; to_prop.
  { destruct s as [|c1 s]; [simpl; lia|].
    destruct (is_cont (code c1)) eqn:F; unfold is_cont in F; to_prop; simpl; lia. }
  destruct (code c <? 240) eqn:E4; to_prop.
  { destruct s as [|c1 [|c2 s]]; [simpl; lia..|].
    destruct (in_range _ _ _) eqn:F1; [|simpl; lia].
    destruct (is_cont (code c2)) eqn:F2; [|simpl; lia]. simpl.
    pose proof (second_in_cont _ _ F1) as F0.
    unfold in_range, second_lo, is_cont in *. to_prop.
    destruct (code c =? 224) eqn:G; to_prop; lia. }
  destruct (code c <? 245) eqn:E5; to_prop; [|simpl; lia].
  destruct s as [|c1 [|c2 [|c3 s]]]; [simpl; lia..|].
  destruct (in_range _ _ _) eqn:F1; [|simpl; lia].
  destruct (is_cont (code c2)) eqn:F2; [|simpl; lia].
  destruct (is_cont (code c3)) eqn:F3; [|simpl; lia]. simpl.
  pose proof (second_in_cont _ _ F1) as F0.
  unfold in_range, second_lo, is_cont in *. to_prop.
  destruct (code c =? 240) eqn:G, (code c =? 224) eqn:G'; to_prop; lia.
Qed.

Lemma decode_rune_ascii c s :
  ascii_byte c = true -> decode_rune (String c s) = (code c, 1%nat).
Proof. unfold ascii_byte. simpl. by intros ->. Qed.

Lemma is_cont_second_false b0 b :
  is_cont b = false -> in_range (second_lo b0) (second_hi b0) b = false.
Proof.
  intros H. destruct (in_range _ _ b) eqn:E; [|done].
  apply second_in_cont in E. congruence.
Qed.

Lemma decode_rune_app c s t :
  clean_start t = true -> decode_rune (String c s +:+ t) = decode_rune (String c s).
Proof.
  intros Ht. destruct t as [|d t]; [by rewrite sapp_nil_r|].
  simpl in Ht. apply negb_true_iff in Ht.
  pose proof (is_cont_second_false (code c) _ Ht) as Ht'.
  simpl. destruct (code c <? 128); [done|]. destruct (code c <? 194); [done|].
  destruct s as [|c1 [|c2 [|c3 s]]]; simpl; rewrite ?Ht, ?Ht', ?andb_false_r; simpl;
    rewrite ?Ht, ?andb_false_r; simpl; try done; repeat (case_match; simpl; try done).
Qed.

Lemma chunks_aux_app k s t :
  clean_start t = true -> (k <= String.length s)%nat ->
  chunks_aux k (s +:+ t) = chunks_aux k s ++ chunks t.
Proof.
  intros Ht. revert k. induction s as [|c s IH]; intros k Hk.
  - simpl in Hk. replace k with 0%nat by lia. done.
  - destruct k as [|k].
    + change (chunks_aux 0 (String c s +:+ t)) with
        (let '(r, w) := decode_rune (String c s +:+ t) in
         (r, w, c) :: chunks_aux (w - 1) (s +:+ t)).
      rewrite decode_rune_app by done. cbn [chunks_aux].
      pose proof (decode_rune_cases c s) as Hc.
      destruct (decode_rune (String c s)) as [r w]. simpl in Hc.
      rewrite IH by lia. done.
    + simpl in *. apply IH. lia.
Qed.

(** Decoding splits at every byte that is no continuation byte. *)
Lemma runes_app s t : clean_start t = true -> runes (s +:+ t) = runes s ++ runes t.
Proof.
  intros Ht. unfold runes, chunks. rewrite chunks_aux_app by (done || lia).
  by rewrite map_app.
Qed.

Lemma runes_ascii_cons c s : ascii_byte c = true -> runes (String c s) = code c :: runes s.
Proof.
  intros Hc. unfold runes, chunks. cbn [chunks_aux].
  by rewrite (decode_rune_ascii c s Hc).
Qed.

Lemma runes_ascii s :
  all_bytes ascii_byte s = true -> runes s = map code (String.list_ascii_of_string s).
Proof.
  induction s as [|c s IH]; [done|]. simpl all_bytes. intros H. to_prop.
  rewrite runes_ascii_cons by done. by rewrite IH.
Qed.

Lemma encode_runes_app rs rs' :
  encode_runes (rs ++ rs') = encode_runes rs +:+ encode_runes rs'.
Proof. induction rs; simpl; [done|]. by rewrite sapp_assoc, IHrs. Qed.

Lemma encode_rune_ascii r : 0 <= r < 128 -> encode_rune r = byte1 (chr r).
Proof.
  intros H. unfold encode_rune, valid_rune, surrogate, in_range.
  replace (0 <=? r) with true by (symmetry; apply Z.leb_le; lia).
  replace (r <=? 1114111) with true by (symmetry; apply Z.leb_le; lia).
  replace (55296 <=? r) with false by (symmetry; apply Z.leb_gt; lia).
  simpl. unfold encode_valid.
  by replace (r <? 128) with true by (symmetry; apply Z.ltb_lt; lia).
Qed.

(** ASCII lower-casing of a byte. *)
Definition lower_byte (c : ascii) : ascii :=
  if in_range 65 90 (code c) then chr (code c + 32) else c.

Fixpoint map_bytes (f : ascii -> ascii) (s : string) : string :=
  match s with
  | EmptyString => EmptyString
  | String c s' => String (f c) (map_bytes f s')
  end.

Lemma encode_lower_byte c :
  ascii_byte c = true -> encode_rune (lower_rune (code c)) = byte1 (lower_byte c).
Proof.
  unfold ascii_byte, lower_rune, lower_byte. intros H. rewrite H. to_prop.
  pose proof (code_range c). destruct (in_range 65 90 (code c)) eqn:E.
  - unfold in_range in E. to_prop. rewrite encode_rune_ascii by lia. done.
  - rewrite encode_rune_ascii by lia. by rewrite chr_code.
Qed.

Lemma ToLower_app s t :
  clean_start t = true -> ToLower (s +:+ t) = ToLower s +:+ ToLower t.
Proof.
  intros Ht. unfold ToLower. by rewrite runes_app, map_app, encode_runes_app.
Qed.

Lemma ToLower_ascii_cons c s :
  ascii_byte c = true -> ToLower (String c s) = String (lower_byte c) (ToLower s).
Proof.
  intros H. unfold ToLower. rewrite runes_ascii_cons by done. simpl.
  by rewrite encode_lower_byte.
Qed.

(** On ASCII strings, [ToLower] works byte by byte. *)
Lemma ToLower_ascii s :
  all_bytes ascii_byte s = true -> ToLower s = map_bytes lower_byte s.
Proof.
  induction s as [|c s IH]; [done|]. simpl. intros H. to_prop.
  rewrite ToLower_ascii_cons by done. by rewrite IH.
Qed.

Lemma lower_byte_code c :
  code (lower_byte c) = if in_range 65 90 (code c) then code c + 32 else code c.
Proof.
  unfold lower_byte. destruct (in_range 65 90 (code c)) eqn:E; [|done].
  unfold in_range in E. to_prop. rewrite code_chr; lia.
Qed.

Lemma lower_byte_idem c : lower_byte (lower_byte c) = lower_byte c.
Proof.
  apply code_inj. rewrite !lower_byte_code. unfold in_range.
  repeat case_match; to_prop; lia.
Qed.

Lemma lower_byte_ascii c : ascii_byte c = true -> ascii_byte (lower_byte c) = true.
Proof.
  unfold ascii_byte. rewrite lower_byte_code. unfold in_range.
  intros H. to_prop. apply Z.ltb_lt. case_match; to_prop; lia.
Qed.

Lemma map_bytes_all (P : ascii -> bool) f s :
  (forall c, P c = true -> P (f c) = true) ->
  all_bytes P s = true -> all_bytes P (map_bytes f s) = true.
Proof.
  intros HP. induction s as [|c s IH]; [done|]. simpl. intros H. to_prop.
  rewrite HP, IH; done.
Qed.

Lemma map_bytes_app f s t : map_bytes f (s +:+ t) = map_bytes f s +:+ map_bytes f t.
Proof. induction s; simpl; congruence. Qed.

Lemma ToLower_idem_ascii s :
  all_bytes ascii_byte s = true -> ToLower (ToLower s) = ToLower s.
Proof.
  intros H. rewrite !(ToLower_ascii s) by done.
  rewrite ToLower_ascii by (apply map_bytes_all; [apply lower_byte_ascii | done]).
  clear H. induction s; simpl; [done|]. by rewrite lower_byte_idem, IHs.
Qed.

(** *** The last byte of a lower-cased string *)

Lemma chunks_aux_nil k s : chunks_aux k s = [] -> (String.length s <= k)%nat.
Proof.
  revert k. induction s as [|c s IH]; intros k; simpl; [lia|].
  destruct k as [|k].
  - by case_match.
  - intros H. apply IH in H. lia.
Qed.

Lemma chunks_aux_last k s c d :
  last_byte s = Some c -> 128 <= code c ->
  List.last (map chunk_rune (chunks_aux k s)) d >= 128 \/ chunks_aux k s = [].
Proof.
  intros Hl Hc. revert k Hl. induction s as [|x s IH]; intros k Hl; [by right|].
  destruct k as [|k].
  - left. cbn [chunks_aux]. pose proof (decode_rune_cases x s) as Hd.
    destruct (decode_rune (String x s)) as [r w].
    destruct s as [|y s].
    { injection Hl as ->. simpl. simpl in Hd. lia. }
    destruct (IH (w - 1)%nat Hl) as [IHl|IHn].
    + cbn [map chunk_rune]. destruct (map chunk_rune _) eqn:E; [|exact IHl].
      apply map_eq_nil in E. apply chunks_aux_nil in E. simpl in *. lia.
    + rewrite IHn. apply chunks_aux_nil in IHn. simpl in *. lia.
  - destruct s as [|y s]; [by right|]. exact (IH k Hl).
Qed.

Lemma last_byte_app p s :
  s <> EmptyString -> last_byte (p +:+ s) = last_byte s.
Proof. destruct s; [done|]. intros _. apply last_byte_app_cons. Qed.

Lemma encode_rune_not_nil r : encode_rune r <> EmptyString.
Proof. unfold encode_rune, encode_valid. by repeat case_match. Qed.

Lemma encode_runes_last rs r :
  last_byte (encode_runes (rs ++ [r])) = last_byte (encode_rune r).
Proof.
  rewrite encode_runes_app. simpl. rewrite sapp_nil_r.
  apply last_byte_app, encode_rune_not_nil.
Qed.

Lemma encode_rune_high_last r c :
  128 <= r -> last_byte (encode_rune r) = Some c -> 128 <= code c.
Proof.
  intros Hr. unfold encode_rune. set (r' := if valid_rune r then r else RuneError).
  assert (128 <= r') as Hr' by (subst r'; unfold RuneError; case_match; lia).
  pose proof (Z.mod_pos_bound r' 64 ltac:(lia)).
  unfold encode_valid. replace (r' <? 128) with false by (symmetry; apply Z.ltb_ge; lia).
  repeat case_match; simpl; intros [= <-]; rewrite code_chr by lia; lia.
Qed.

Lemma runes_last_high s c :
  last_byte s = Some c -> 128 <= code c ->
  exists l r, runes s = l ++ [r] /\ 128 <= r.
Proof.
  intros Hl Hc. unfold runes, chunks.
  destruct (chunks_aux_last 0 s c 0 Hl Hc) as [H|H].
  - destruct (map chunk_rune (chunks_aux 0 s)) as [|r rs] eqn:E; [simpl in H; lia|].
    rewrite (List.app_removelast_last 0 (l := r :: rs)) by done.
    do 2 eexists. split; [done | lia].
  - apply chunks_aux_nil in H. destruct s; simpl in *; [done | lia].
Qed.

Lemma clean_start_ascii c s : ascii_byte c = true -> clean_start (String c s) = true.
Proof.
  unfold ascii_byte. simpl. intros H. to_prop. unfold is_cont.
  by replace (128 <=? code c) with false by (symmetry; apply Z.leb_gt; lia).
Qed.

Lemma lower_byte_dot c : lower_byte c = "."%char -> c = "."%char.
Proof.
  intros H. apply code_inj. apply (f_equal code) in H. rewrite lower_byte_code in H.
  change (code ".") with 46 in *. unfold in_range in H. case_match; to_prop; lia.
Qed.

Lemma lower_rune_high_last r c :
  128 <= r -> last_byte (encode_rune (lower_rune r)) = Some c -> c <> "."%char.
Proof.
  intros Hr. unfold lower_rune.
  replace (r <? 128) with false by (symmetry; apply Z.ltb_ge; lia).
  intros H ->. destruct (lower_ext_range r Hr) as [Hx|Hx].
  - apply encode_rune_high_last in H; [|done]. change (code ".") with 46 in H. lia.
  - rewrite encode_rune_ascii in H by lia. injection H as H.
    apply (f_equal code) in H. rewrite code_chr in H by lia.
    change (code ".") with 46 in H. lia.
Qed.

(** Lower-casing neither makes nor removes a final dot. *)
Lemma ToLower_last_dot s :
  last_byte (ToLower s) = Some "."%char <-> last_byte s = Some "."%char.
Proof.
  split; [|intros H; apply last_byte_split in H as [p ->];
           rewrite ToLower_app by done; apply last_byte_app_cons].
  destruct (last_byte s) as [c|] eqn:E; [|by apply last_byte_none in E as ->].
  destruct (ascii_byte c) eqn:Ha.
  - apply last_byte_split in E as [p ->]. unfold byte1.
    rewrite ToLower_app by (by apply clean_start_ascii).
    rewrite ToLower_ascii_cons by done. rewrite last_byte_app_cons. simpl.
    intros [= H]. f_equal. by apply lower_byte_dot.
  - unfold ascii_byte in Ha. to_prop. intros H. exfalso.
    destruct (runes_last_high s c E Ha) as (l & r & Hr & Hh).
    unfold ToLower in H. rewrite Hr, map_app in H. simpl map in H.
    rewrite encode_runes_last in H. by apply lower_rune_high_last in H.
Qed.

(** *** Trimming *)

(** An ASCII byte that is no white space. *)
Definition plain_byte (c : ascii) : bool := ascii_byte c && negb (IsSpace (code c)).

Lemma TrimSpace_plain s : all_bytes plain_byte s = true -> TrimSpace s = s.
Proof.
  intros Hs. unfold TrimSpace.
  replace (TrimLeftSpace_aux 0 s) with s.
  - induction s as [|c s IH]; [done|]. simpl in Hs. unfold plain_byte in Hs at 1.
    to_prop. cbn [TrimRightSpace_aux]. rewrite decode_rune_ascii by done.
    replace (IsSpace (code c)) with false by (symmetry; done). simpl andb.
    change (1 - 1)%nat with 0%nat. by rewrite IH.
  - destruct s as [|c s]; [done|]. simpl in Hs. unfold plain_byte in Hs at 1.
    to_prop. cbn [TrimLeftSpace_aux]. rewrite decode_rune_ascii by done.
    by replace (IsSpace (code c)) with false by (symmetry; done).
Qed.

(** An ASCII byte of white space. *)
Definition space_byte (c : ascii) : bool := ascii_byte c && IsSpace (code c).

Lemma TrimLeftSpace_space w s :
  all_bytes space_byte w = true -> TrimLeftSpace_aux 0 (w +:+ s) = TrimLeftSpace_aux 0 s.
Proof.
  induction w as [|c w IH]; [done|]. cbn [String.append all_bytes TrimLeftSpace_aux TrimRightSpace_aux].
  unfold space_byte at 1. intros H. to_prop.
  rewrite decode_rune_ascii by done. replace (IsSpace (code c)) with true by (symmetry; done).
  change (1 - 1)%nat with 0%nat. by apply IH.
Qed.

Lemma TrimRightSpace_space w : all_bytes space_byte w = true -> TrimRightSpace_aux 0 w = EmptyString.
Proof.
  induction w as [|c w IH]; [done|]. cbn [String.append all_bytes TrimLeftSpace_aux TrimRightSpace_aux].
  unfold space_byte at 1. intros H. to_prop.
  rewrite decode_rune_ascii by done. change (1 - 1)%nat with 0%nat. rewrite IH by done.
  by replace (IsSpace (code c)) with true by (symmetry; done).
Qed.

Lemma TrimRightSpace_plain t w :
  all_bytes plain_byte t = true -> TrimRightSpace_aux 0 w = EmptyString ->
  TrimRightSpace_aux 0 (t +:+ w) = t.
Proof.
  intros Ht Hw. induction t as [|c t IH]; [done|]. simpl in Ht. unfold plain_byte in Ht at 1.
  to_prop. cbn [String.append TrimRightSpace_aux]. rewrite decode_rune_ascii by done. change (1 - 1)%nat with 0%nat.
  replace (IsSpace (code c)) with false by (symmetry; done). simpl. by rewrite IH.
Qed.

(** Of plain text between white space the text is left. *)
Lemma TrimSpace_padded pre t post :
  all_bytes space_byte pre = true -> all_bytes plain_byte t = true ->
  all_bytes space_byte post = true -> t <> EmptyString ->
  TrimSpace (pre +:+ t +:+ post) = t.
Proof.
  intros Hpre Ht Hpost Hne. unfold TrimSpace. rewrite TrimLeftSpace_space by done.
  rewrite <- (TrimRightSpace_plain t post Ht) by (by apply TrimRightSpace_space). f_equal.
  rewrite TrimRightSpace_plain by (by try apply TrimRightSpace_space).
  destruct t as [|c t]; [done|]. simpl in Ht. unfold plain_byte in Ht at 1. to_prop.
  cbn [String.append TrimLeftSpace_aux]. rewrite decode_rune_ascii by done. by replace (IsSpace (code c)) with false by (symmetry; done).
Qed.

Lemma ascii_plain s : all_bytes plain_byte s = true -> all_bytes ascii_byte s = true.
Proof. apply all_bytes_impl. unfold plain_byte. intros c H. by to_prop. Qed.
