(* ===== verification/Runtime.v ===== *)
(** The code the program relies on that is neither in the repository nor
    computed here: Unicode's table of printable runes, the parsers of
    [net/http] and [net/url] the program calls on foreign text, the wording of
    [encoding/json]'s errors, and client-go.  They are parameters of the whole
    development, collected in one class; no law is assumed of them here. *)
From S2P Require Import Prelude GoStrings Utf8.

Class Runtime := {
  (** [strconv.IsPrint] above Latin-1. *)
  rt_IsPrint : Z -> bool;
  (** [http.ParseTime]: nanoseconds since the epoch. *)
  rt_http_ParseTime : string -> option Z;
  (** The error [http.NewRequestWithContext] reports for a method and a URL. *)
  rt_NewRequest_error : string -> string -> option string;
  (** The text of the error [json.Unmarshal] returns: the Go type of the
      destination, the refused document. *)
  rt_json_error : string -> string -> string;
  (** [(t *time.Time) UnmarshalJSON] on a literal between its quotes. *)
  rt_time_UnmarshalJSON : string -> option Z;
  (** client-go *)
  rt_RestConfig : Type;
  rt_KubeClient : Type;
  rt_NewForConfig : rt_RestConfig -> result string rt_KubeClient
}.

(** A concrete runtime, for evaluating the model on examples: only Latin-1 is
    printable, no HTTP date parses and every URL does. *)
Definition example_runtime : Runtime := {|
  rt_IsPrint := fun _ => false;
  rt_http_ParseTime := fun _ => None;
  rt_NewRequest_error := fun _ _ => None;
  rt_json_error := fun _ _ => "invalid JSON document";
  rt_time_UnmarshalJSON := fun _ => Some 0;
  rt_RestConfig := unit;
  rt_KubeClient := unit;
  rt_NewForConfig := fun _ => Ok tt
|}.
