(* ===== verification/Quote.v ===== *)
(** Escaping: [strconv.Quote] (the [%q] of error texts and the value of the TXT
    record) and [url.PathEscape] (the RRSet name and type in request paths). *)
From S2P Require Import Prelude GoStrings Utf8 Runtime.

(** ** Hexadecimal digits *)

Definition lowerhex (d : Z) : ascii := if d <? 10 then chr (48 + d) else chr (87 + d).
Definition upperhex (d : Z) : ascii := if d <? 10 then chr (48 + d) else chr (55 + d).

(** The last [n] hexadecimal digits of [r], most significant first. *)
Fixpoint hex_digits (n : nat) (r : Z) : string :=
  match n with
  | O => EmptyString
  | S n' => String (lowerhex ((r / 16 ^ Z.of_nat n') `mod` 16)) (hex_digits n' r)
  end.

Section Quote.
Context {RT : Runtime}.

(** [strconv.IsPrint] *)
Definition IsPrint (r : Z) : bool :=
  if r <=? 255 then
    in_range 32 126 r || (in_range 161 255 r && negb (r =? 173))
  else rt_IsPrint r.

Definition backslash (c : ascii) : string := String "\"%char (byte1 c).

(** [strconv.appendEscapedRune] for a quote character and no option set. *)
Definition escape_rune (quote : ascii) (r : Z) : string :=
  if (r =? code quote) || (r =? 92) then backslash (chr r)
  else if IsPrint r then encode_rune r
  else if r =? 7 then backslash "a"%char
  else if r =? 8 then backslash "b"%char
  else if r =? 12 then backslash "f"%char
  else if r =? 10 then backslash "n"%char
  else if r =? 13 then backslash "r"%char
  else if r =? 9 then backslash "t"%char
  else if r =? 11 then backslash "v"%char
  else if (r <? 32) || (r =? 127) then backslash "x"%char +:+ hex_digits 2 r
  else if negb (valid_rune r) then backslash "u"%char +:+ hex_digits 4 RuneError
  else if r <? 65536 then backslash "u"%char +:+ hex_digits 4 r
  else backslash "U"%char +:+ hex_digits 8 r.

Definition quote_chunk (quote : ascii) (k : chunk) : string :=
  let '(r, w, c) := k in
  if (w =? 1)%nat && (r =? RuneError)
  then backslash "x"%char +:+ hex_digits 2 (code c)
  else escape_rune quote r.

Fixpoint quote_chunks (quote : ascii) (ks : list chunk) : string :=
  match ks with
  | [] => EmptyString
  | k :: ks' => quote_chunk quote k +:+ quote_chunks quote ks'
  end.

(** [strconv.Quote] *)
Definition strconv_Quote (s : string) : string :=
  String dquote (quote_chunks dquote (chunks s) +:+ byte1 dquote).

(** [strconv.QuoteRune] *)
Definition QuoteRune (r : Z) : string :=
  let r' := if valid_rune r then r else RuneError in
  String "'"%char (escape_rune "'"%char r' +:+ byte1 "'"%char).
End Quote.

(** ** [url.PathEscape] *)

(** The bytes a path segment keeps: letters, digits, the unreserved marks and
    [$ & + = : @]. *)
Definition path_safe (c : ascii) : bool :=
  let b := code c in
  in_range 97 122 b || in_range 65 90 b || in_range 48 57 b
  || (b =? 45) || (b =? 95) || (b =? 46) || (b =? 126)
  || (b =? 36) || (b =? 38) || (b =? 43) || (b =? 61) || (b =? 58) || (b =? 64).

Fixpoint PathEscape (s : string) : string :=
  match s with
  | EmptyString => EmptyString
  | String c s' =>
      if path_safe c then String c (PathEscape s')
      else String "%"%char
             (String (upperhex (code c / 16)) (String (upperhex (code c `mod` 16)) (PathEscape s')))
  end.

(** ** Lemmas *)

(** An ASCII character that [Quote] leaves alone. *)
Definition quote_plain (c : ascii) : bool :=
  in_range 32 126 (code c) && negb (code c =? 34) && negb (code c =? 92).

Lemma quote_plain_ascii c : quote_plain c = true -> ascii_byte c = true.
Proof.
  unfold quote_plain, in_range, ascii_byte. intros H. to_prop. apply Z.ltb_lt. lia.
Qed.

Section QuoteLemmas.
Context {RT : Runtime}.

Lemma quote_chunks_plain s :
  all_bytes quote_plain s = true -> quote_chunks dquote (chunks s) = s.
Proof.
  induction s as [|c s IH]; [done|]. simpl all_bytes. intros H. to_prop.
  assert (ascii_byte c = true) as Ha by (by apply quote_plain_ascii).
  unfold chunks. cbn [chunks_aux]. rewrite decode_rune_ascii by done.
  cbn [quote_chunks]. fold (chunks s). change (chunks_aux (1 - 1) s) with (chunks s).
  rewrite IH by done. unfold quote_chunk.
  unfold quote_plain, in_range in H. pose proof H as H'. to_prop.
  assert (code c <> RuneError) as Hr by (unfold RuneError; lia).
  apply Z.eqb_neq in Hr. rewrite Hr, andb_false_r. unfold escape_rune.
  change (code dquote) with 34.
  rewrite (proj2 (Z.eqb_neq (code c) 34)), (proj2 (Z.eqb_neq (code c) 92)) by done.
  simpl orb. unfold IsPrint, in_range.
  rewrite (proj2 (Z.leb_le (code c) 255)), (proj2 (Z.leb_le 32 (code c))),
    (proj2 (Z.leb_le (code c) 126)) by lia.
  simpl. rewrite encode_rune_ascii by lia. by rewrite chr_code.
Qed.

(** Text with nothing to escape is only put between quotes. *)
Lemma strconv_Quote_plain s :
  all_bytes quote_plain s = true -> strconv_Quote s = String dquote (s +:+ byte1 dquote).
Proof. intros H. unfold strconv_Quote. by rewrite quote_chunks_plain. Qed.
End QuoteLemmas.

(** *** Path segments *)

Definition unhex (c : ascii) : option Z :=
  let b := code c in
  if in_range 48 57 b then Some (b - 48)
  else if in_range 97 102 b then Some (b - 87)
  else if in_range 65 70 b then Some (b - 55)
  else None.

(** [url.PathUnescape], what a server does with a segment. *)
Fixpoint PathUnescape (s : string) : option string :=
  match s with
  | EmptyString => Some EmptyString
  | String c s' =>
      if Ascii.eqb c "%"%char then
        match s' with
        | String h (String l s'') =>
            match unhex h, unhex l, PathUnescape s'' with
            | Some x, Some y, Some t => Some (String (chr (16 * x + y)) t)
            | _, _, _ => None
            end
        | _ => None
        end
      else match PathUnescape s' with Some t => Some (String c t) | None => None end
  end.

Lemma unhex_upperhex d : 0 <= d < 16 -> unhex (upperhex d) = Some d.
Proof.
  intros H. unfold upperhex, unhex, in_range.
  destruct (d <? 10) eqn:E; to_prop; rewrite code_chr by lia;
    repeat (case_match; to_prop; try lia); f_equal; lia.
Qed.

Lemma path_safe_percent : path_safe "%"%char = false.
Proof. reflexivity. Qed.

(** The server reads back the segment that was escaped. *)
Lemma PathUnescape_PathEscape s : PathUnescape (PathEscape s) = Some s.
Proof.
  induction s as [|c s IH]; [done|]. simpl. destruct (path_safe c) eqn:E.
  - simpl. destruct (Ascii.eqb c "%") eqn:Ep.
    + apply Ascii.eqb_eq in Ep as ->. by rewrite path_safe_percent in E.
    + by rewrite IH.
  - simpl. pose proof (code_range c).
    rewrite !unhex_upperhex, IH.
    + do 2 f_equal. rewrite <- (chr_code c) at 3. f_equal.
      pose proof (Z.div_mod (code c) 16). lia.
    + apply Z.mod_pos_bound. lia.
    + split; [apply Z.div_pos; lia | apply Z.div_lt_upper_bound; lia].
Qed.

Lemma PathEscape_inj s t : PathEscape s = PathEscape t -> s = t.
Proof.
  intros H. pose proof (PathUnescape_PathEscape s) as Hs.
  rewrite H, PathUnescape_PathEscape in Hs. congruence.
Qed.

Definition not_slash (c : ascii) : bool := negb (Ascii.eqb c "/"%char).

Lemma upperhex_not_slash d : 0 <= d < 16 -> not_slash (upperhex d) = true.
Proof.
  intros H. unfold not_slash. apply negb_true_iff, Ascii.eqb_neq. intros E.
  apply (f_equal code) in E. change (code "/") with 47 in E. unfold upperhex in E.
  destruct (d <? 10) eqn:F; to_prop; rewrite code_chr in E by lia; lia.
Qed.

(** An escaped segment holds no path separator. *)
Lemma PathEscape_no_slash s : all_bytes not_slash (PathEscape s) = true.
Proof.
  induction s as [|c s IH]; [done|]. simpl. destruct (path_safe c) eqn:E; simpl.
  - rewrite IH, andb_true_r. unfold not_slash. apply negb_true_iff, Ascii.eqb_neq.
    by intros ->.
  - pose proof (code_range c). rewrite !upperhex_not_slash, IH; [done|..].
    + apply Z.mod_pos_bound. lia.
    + split; [apply Z.div_pos; lia | apply Z.div_lt_upper_bound; lia].
Qed.
