(* ===== verification/Errors.v ===== *)
(** Errors: the typed errors of [internal/hcloud/errors.go], the sentinel of
    [internal/routing], and what [errors.Is], [errors.As], [errors.New] and
    [fmt.Errorf] of Go's standard library make of them.

    A Go error value is one of
    - a sentinel, a package-level variable that is compared by identity;
    - [EText], an error made on the spot with [errors.New] or [fmt.Errorf]
      (equal to no sentinel), or one that a foreign package returned;
    - [EWrap], what [fmt.Errorf] with the verb [%w] builds: its full text and
      the wrapped cause;
    - [EAPI], a pointer to an [APIError]. *)
From S2P Require Import Prelude GoStrings Utf8 Runtime Quote.

Record APIError := mkAPIError {
  StatusCode : Z;
  Code : string;
  Message : string;
  RetryAfter : Z
}.

Inductive sentinel :=
| ErrNoMatch
| ErrInvalidToken
| ErrForbidden
| ErrNotFound
| ErrConflict
| ErrInvalidZoneName
| ErrRateLimited
| ErrServer
| DeadlineExceeded
| Canceled.

#[export] Instance sentinel_eq_dec : EqDecision sentinel.
Proof. solve_decision. Defined.

Inductive error :=
| ESentinel (s : sentinel)
| EText (msg : string)
| EWrap (msg : string) (cause : error)
| EAPI (e : APIError).

Abbreviation res := (result error).

(** [(e *APIError) Is(target)] *)
Definition APIError_Is (e : APIError) (target : sentinel) : bool :=
  match target with
  | ErrInvalidToken => StatusCode e =? 401
  | ErrForbidden => StatusCode e =? 403
  | ErrNotFound => StatusCode e =? 404
  | ErrConflict => StatusCode e =? 409
  | ErrInvalidZoneName => StatusCode e =? 422
  | ErrRateLimited => StatusCode e =? 429
  | ErrServer => (500 <=? StatusCode e) && (StatusCode e <? 600)
  | _ => false
  end.

(** [errors.Is(err, target)] for a sentinel target. *)
Fixpoint errors_Is (err : error) (target : sentinel) : bool :=
  match err with
  | ESentinel s => bool_decide (s = target)
  | EText _ => false
  | EWrap _ cause => errors_Is cause target
  | EAPI e => APIError_Is e target
  end.

(** [errors.As(err, &apiErr)] for [apiErr *APIError]. *)
Fixpoint errors_As_APIError (err : error) : option APIError :=
  match err with
  | ESentinel _ | EText _ => None
  | EWrap _ cause => errors_As_APIError cause
  | EAPI e => Some e
  end.

Section Messages.
Context {RT : Runtime}.

(** [(e *APIError) Error()] *)
Definition APIError_Error (e : APIError) : string :=
  if String.eqb (Code e) EmptyString then
    "hcloud API error: status=" +:+ FormatInt (StatusCode e)
    +:+ " message=" +:+ strconv_Quote (Message e)
  else
    "hcloud API error: status=" +:+ FormatInt (StatusCode e)
    +:+ " code=" +:+ strconv_Quote (Code e)
    +:+ " message=" +:+ strconv_Quote (Message e).

(** The texts the sentinels are declared with. *)
Definition sentinel_text (s : sentinel) : string :=
  match s with
  | ErrNoMatch => "no configured zone-apex matches FQDN"
  | ErrInvalidToken => "hcloud: invalid or revoked token"
  | ErrForbidden => "hcloud: forbidden (token does not own this resource)"
  | ErrNotFound => "hcloud: resource not found"
  | ErrConflict => "hcloud: resource already exists (conflict)"
  | ErrInvalidZoneName => "hcloud: invalid zone name (subdomain or unknown TLD)"
  | ErrRateLimited => "hcloud: rate limited"
  | ErrServer => "hcloud: upstream server error"
  | DeadlineExceeded => "context deadline exceeded"
  | Canceled => "context canceled"
  end.

Definition Error (err : error) : string :=
  match err with
  | ESentinel s => sentinel_text s
  | EText msg | EWrap msg _ => msg
  | EAPI e => APIError_Error e
  end.

(** [fmt.Errorf(pre + "%w" + post, cause)], the other verbs filled in. *)
Definition Errorf_w (pre : string) (cause : error) (post : string) : error :=
  EWrap (pre +:+ Error cause +:+ post) cause.
End Messages.

(** ** Lemmas *)

Lemma errors_Is_Errorf_w {RT : Runtime} pre cause post target :
  errors_Is (Errorf_w pre cause post) target = errors_Is cause target.
Proof. reflexivity. Qed.

Lemma errors_As_Errorf_w {RT : Runtime} pre cause post :
  errors_As_APIError (Errorf_w pre cause post) = errors_As_APIError cause.
Proof. reflexivity. Qed.

#[export] Hint Rewrite @errors_Is_Errorf_w @errors_As_Errorf_w : hz_str.

(** The innermost error of a chain of wrappers. *)
Fixpoint root_cause (err : error) : error :=
  match err with EWrap _ cause => root_cause cause | _ => err end.

Lemma errors_Is_root err target : errors_Is err target = errors_Is (root_cause err) target.
Proof. by induction err. Qed.

Lemma errors_As_root err : errors_As_APIError err = errors_As_APIError (root_cause err).
Proof. by induction err. Qed.

Lemma APIError_Is_disjoint e s t :
  APIError_Is e s = true -> APIError_Is e t = true -> s = t.
Proof.
  destruct s, t; simpl; intros Hs Ht; to_prop; try done; try lia.
Qed.

Lemma errors_Is_functional err s t :
  errors_Is err s = true -> errors_Is err t = true -> s = t.
Proof.
  induction err as [u| | |e]; simpl; try done.
  - intros Hs Ht. to_prop. congruence.
  - apply APIError_Is_disjoint.
Qed.

Lemma errors_Is_status err target :
  errors_Is err target = true ->
  root_cause err = ESentinel target \/
  exists e, root_cause err = EAPI e /\ APIError_Is e target = true.
Proof.
  rewrite errors_Is_root. induction err; simpl; intros H; try done; eauto.
  to_prop. subst. by left.
Qed.
