(* ===== verification/Routing.v ===== *)
(** [internal/routing/routing.go]: which credential serves an FQDN, and the
    checks a configuration passes before it is used.

    A [*Config] is an [option Config] (nil is [None]); the pointer into
    [Credentials] that [Resolve] returns is the credential it points at. *)
From S2P Require Import Prelude GoStrings Utf8 Runtime Quote Errors.

Definition acmeChallengePrefix : string := "_acme-challenge.".

Record Credential := mkCredential {
  Name : string;
  Zones : list string;
  APITokenSecretRef : string
}.

Record Config := mkConfig { Credentials : list Credential }.

Definition dot : ascii := "."%char.

(** ** Resolve *)

Definition normaliseFQDN (fqdn : string) : string :=
  let out := ToLower (TrimSpace fqdn) in
  let out := TrimSuffix out (byte1 dot) in
  TrimPrefix out acmeChallengePrefix.

(** [for _, zone := range c.Credentials[i].Zones] *)
Definition index_zones (i : nat) (zones : list string) (index : gmap string nat) :
    gmap string nat :=
  foldl (fun ix zone => <[ToLower zone := i]> ix) index zones.

(** [for i := range c.Credentials] *)
Fixpoint index_from (i : nat) (creds : list Credential) (index : gmap string nat) :
    gmap string nat :=
  match creds with
  | [] => index
  | cred :: creds' => index_from (S i) creds' (index_zones i (Zones cred) index)
  end.

Definition build_index (c : Config) : gmap string nat := index_from 0 (Credentials c) ∅.

(** The walk from leaf to root.  Each round drops at least one byte, so one more
    round than the candidate has bytes is enough ([walk_fuel]). *)
Fixpoint walk (fuel : nat) (index : gmap string nat) (candidate : string) :
    option (nat * string) :=
  match fuel with
  | O => None
  | S fuel' =>
      match index !! candidate with
      | Some idx => Some (idx, candidate)
      | None =>
          match IndexByte candidate dot with
          | None => None
          | Some i => walk fuel' index (drop_bytes (S i) candidate)
          end
      end
  end.

Definition formatConfiguredZones (c : Config) : string :=
  let zones := sort_Strings (concat (map Zones (Credentials c))) in
  if (length zones =? 0)%nat then "<none>" else Join zones ", ".

Section Resolve.
Context {RT : Runtime}.

Definition Resolve (c : option Config) (fqdn : string) : res (Credential * string) :=
  match c with
  | None => Err (Errorf_w EmptyString (ESentinel ErrNoMatch) ": config is nil")
  | Some c =>
      let name := normaliseFQDN fqdn in
      if String.eqb name EmptyString
      then Err (Errorf_w EmptyString (ESentinel ErrNoMatch) ": FQDN is empty")
      else
        let no_match :=
          Err (Errorf_w EmptyString (ESentinel ErrNoMatch)
                 (": " +:+ strconv_Quote name +:+ " (configured zones: "
                  +:+ formatConfiguredZones c +:+ ")")) in
        match walk (S (String.length name)) (build_index c) name with
        | Some (idx, candidate) =>
            match Credentials c !! idx with
            | Some cred => Ok (cred, candidate)
            | None => no_match (* an index into the slice it was built from *)
            end
        | None => no_match
        end
  end.
End Resolve.

(** ** ValidateConfig *)

Definition multiPartPublicSuffixes : list string := [
  ".co.uk"; ".co.jp"; ".co.kr"; ".co.nz"; ".co.za"; ".co.in"; ".co.il";
  ".com.au"; ".com.br"; ".com.cn"; ".com.mx"; ".com.sg"; ".com.tr";
  ".com.tw"; ".com.hk"; ".com.ar"; ".com.pl"; ".com.ua";
  ".net.au"; ".net.nz"; ".net.cn"; ".net.br";
  ".org.uk"; ".org.au"; ".org.nz"; ".org.za";
  ".ac.uk"; ".ac.jp"; ".ac.nz"; ".ac.za";
  ".gov.uk"; ".gov.au"].

Definition isSubdomainOfRegistrable (zone : string) : bool :=
  let z := ToLower zone in
  let labels := Split z dot in
  if (length labels <? 2)%nat then false
  else if (length labels =? 2)%nat then false
  else if existsb (fun sfx => HasSuffix (String dot z) sfx && (length labels =? 3)%nat)
            multiPartPublicSuffixes
  then false
  else true.

(** The runes a zone name may hold. *)
Definition zone_rune (r : Z) : bool :=
  in_range 97 122 r || in_range 65 90 r || in_range 48 57 r || ((r =? 45) || (r =? 46)).

Section Validate.
Context {RT : Runtime}.

Definition validateZoneString (zone credName : string) : option error :=
  let q := strconv_Quote in
  let head := "credential " +:+ q credName +:+ " zone " +:+ q zone in
  if String.eqb zone EmptyString then
    Some (EText ("credential " +:+ q credName +:+ " has an empty zone string"))
  else if negb (String.eqb (TrimSpace zone) zone) then
    Some (EText (head +:+ " has leading or trailing whitespace"))
  else if HasPrefix zone (byte1 dot) then Some (EText (head +:+ " has a leading dot"))
  else if HasSuffix zone (byte1 dot) then
    Some (EText (head +:+ " has a trailing dot; zone-apex names are bare (no terminating dot)"))
  else if Contains zone "*" then
    Some (EText (head +:+ " contains a wildcard; zone-apex names are literal, not patterns"))
  else if Contains zone ".." then Some (EText (head +:+ " contains an empty label"))
  else
    match List.find (fun r => negb (zone_rune r)) (runes zone) with
    | Some r =>
        Some (EText (head +:+ " contains invalid character " +:+ QuoteRune r
          +:+ "; only [a-z0-9-.] allowed (IDN must be punycoded)"))
    | None =>
        if isSubdomainOfRegistrable zone then
          Some (EText (head +:+ " looks like a subdomain of a registrable domain; Hetzner Cloud Zones does not support subdomain zones (see docs/app-concept.md § 3.4) — use the zone-apex instead"))
        else None
    end.

(** The loop over the zones of one credential; the result is [firstSeenBy]. *)
Fixpoint validate_zones (cred : Credential) (zones : list string)
    (seenInCred : gset string) (firstSeenBy : gmap string string) :
    res (gmap string string) :=
  match zones with
  | [] => Ok firstSeenBy
  | zone :: zones' =>
      match validateZoneString zone (Name cred) with
      | Some err => Err err
      | None =>
          let normalised := ToLower zone in
          if bool_decide (normalised ∈ seenInCred) then
            Err (EText ("credential " +:+ strconv_Quote (Name cred) +:+ " lists zone "
                        +:+ strconv_Quote zone +:+ " more than once"))
          else
            match firstSeenBy !! normalised with
            | Some other =>
                Err (EText ("zone " +:+ strconv_Quote zone +:+ " is listed by both credential "
                  +:+ strconv_Quote other +:+ " and credential " +:+ strconv_Quote (Name cred)
                  +:+ "; each zone-apex must appear in exactly one credential"))
            | None =>
                validate_zones cred zones' ({[normalised]} ∪ seenInCred)
                  (<[normalised := Name cred]> firstSeenBy)
            end
      end
  end.

(** The loop over the credentials. *)
Fixpoint validate_creds (i : nat) (creds : list Credential)
    (credNames : gset string) (firstSeenBy : gmap string string) : option error :=
  match creds with
  | [] => None
  | cred :: creds' =>
      if String.eqb (TrimSpace (Name cred)) EmptyString then
        Some (EText ("credential at index " +:+ FormatInt (Z.of_nat i) +:+ " has empty name"))
      else if bool_decide (Name cred ∈ credNames) then
        Some (EText ("duplicate credential name " +:+ strconv_Quote (Name cred)))
      else if String.eqb (TrimSpace (APITokenSecretRef cred)) EmptyString then
        Some (EText ("credential " +:+ strconv_Quote (Name cred)
                     +:+ " has empty apiTokenSecretRef"))
      else if (length (Zones cred) =? 0)%nat then
        Some (EText ("credential " +:+ strconv_Quote (Name cred)
                     +:+ " has no zones; at least one zone is required"))
      else
        match validate_zones cred (Zones cred) ∅ firstSeenBy with
        | Err err => Some err
        | Ok firstSeenBy' =>
            validate_creds (S i) creds' ({[Name cred]} ∪ credNames) firstSeenBy'
        end
  end.

Definition ValidateConfig (config : option Config) : option error :=
  match config with
  | None => Some (EText "config is nil")
  | Some config =>
      if (length (Credentials config) =? 0)%nat then
        Some (EText "config has no credentials; at least one credential is required")
      else validate_creds 0 (Credentials config) ∅ ∅
  end.
End Validate.
