(* ===== verification/RoutingSpec.v ===== *)
(** What [Resolve] has to decide, and that it does: the configured zones that are
    label suffixes of a name, the credential that serves a zone, and the lemmas
    that tie the index and the walk to them. *)
From S2P Require Import Prelude GoStrings Utf8 Runtime Quote Errors Routing.

(** ** Specification of the routing decision *)

(** [z] is [s] or stands in it behind a dot: a suffix of whole labels. *)
Definition label_suffix (z s : string) : Prop :=
  s = z \/ exists p, s = p +:+ String dot z.

(** The credential lists the zone, case apart. *)
Definition lists (cred : Credential) (z : string) : Prop := z ∈ map ToLower (Zones cred).

Definition configured (c : Config) (z : string) : Prop :=
  exists cred, cred ∈ Credentials c /\ lists cred z.

(** The credential that serves [z]: the last one in the configuration that lists
    it (in a validated configuration the only one). *)
Definition serves (c : Config) (z : string) (cred : Credential) : Prop :=
  exists i, Credentials c !! i = Some cred /\ lists cred z /\
    forall j cred', (i < j)%nat -> Credentials c !! j = Some cred' -> ~ lists cred' z.

(** The routing decision for a normalised name: the longest configured suffix of
    whole labels. *)
Definition routes (c : Config) (name z : string) (cred : Credential) : Prop :=
  label_suffix z name /\ serves c z cred /\
  forall z', label_suffix z' name -> configured c z' ->
    (String.length z' <= String.length z)%nat.

(** ** Lemmas on the walk *)

Lemma label_suffix_refl s : label_suffix s s.
Proof. by left. Qed.

Lemma label_suffix_length z s :
  label_suffix z s -> (String.length z <= String.length s)%nat.
Proof. intros [-> | [p ->]]; [lia|]. rewrite sapp_length. simpl. lia. Qed.

Lemma label_suffix_length_eq z s :
  label_suffix z s -> String.length z = String.length s -> z = s.
Proof. intros [-> | [p ->]]; [done|]. rewrite sapp_length. simpl. lia. Qed.

(** Beyond a dot-free label, the label suffixes are those of what follows its
    dot. *)
Lemma label_suffix_step l s z :
  all_bytes (fun c => negb (Ascii.eqb c dot)) l = true ->
  label_suffix z (l +:+ String dot s) ->
  z = l +:+ String dot s \/ label_suffix z s.
Proof.
  intros Hl [->|[p Hp]]; [by left|]. right. revert p Hp.
  induction l as [|c l IH]; intros p Hp.
  - destruct p as [|d p]; injection Hp as Hp; [by left | right; eauto].
  - simpl in Hl. to_prop. destruct p as [|d p]; injection Hp as -> Hp; [done|].
    by apply (IH H0 p).
Qed.

Lemma label_suffix_behind l s z :
  label_suffix z s -> label_suffix z (l +:+ String dot s).
Proof.
  intros [->|[p ->]]; right; [by exists l|].
  exists (l +:+ String dot p). by rewrite sapp_assoc.
Qed.

Lemma label_suffix_no_dot s z :
  all_bytes (fun c => negb (Ascii.eqb c dot)) s = true -> label_suffix z s -> z = s.
Proof.
  intros Hs [->|[p ->]]; [done|]. rewrite all_bytes_app in Hs. simpl in Hs. to_prop. done.
Qed.

(** Suffixes of one name are suffixes of each other. *)
Lemma label_suffix_nested s z z' :
  label_suffix z s -> label_suffix z' s ->
  (String.length z' <= String.length z)%nat -> label_suffix z' z.
Proof.
  intros Hz Hz' Hl. destruct Hz as [->|[p Hp]]; [done|].
  destruct Hz' as [->|[p' Hp']].
  { rewrite Hp, sapp_length in Hl. simpl in Hl. lia. }
  subst s. revert p' Hp'. induction p as [|c p IH]; intros p' Hp'.
  - destruct p' as [|c' p']; injection Hp' as Hp'; [by left|]. right. subst. eauto.
  - destruct p' as [|c' p']; injection Hp' as -> Hp'.
    + subst z'. rewrite sapp_length in Hl. simpl in Hl. lia.
    + by apply (IH p').
Qed.

(** What the walk finds: the longest label suffix in the index. *)
Definition found (index : gmap string nat) (s : string) (hit : option (nat * string)) : Prop :=
  match hit with
  | Some (idx, z) =>
      index !! z = Some idx /\ label_suffix z s /\
      forall z', label_suffix z' s -> is_Some (index !! z') ->
        (String.length z' <= String.length z)%nat
  | None => forall z, label_suffix z s -> index !! z = None
  end.

(** Enough rounds: the walk finds the longest label suffix, and does not stop
    for want of fuel. *)
Lemma walk_found fuel index s :
  (String.length s < fuel)%nat -> found index s (walk fuel index s).
Proof.
  revert s. induction fuel as [|fuel IH]; intros s Hf; [lia|].
  cbn [walk]. destruct (index !! s) as [idx|] eqn:Ei.
  { split; [done|]. split; [apply label_suffix_refl|].
    intros z' Hz _. by apply label_suffix_length. }
  destruct (IndexByte s dot) as [i|] eqn:Eb.
  - apply IndexByte_spec in Eb. destruct Eb as (l & Hs & Hl).
    set (s' := drop_bytes (S i) s) in *.
    assert (String.length s' < fuel)%nat as Hf'
      by (rewrite Hs, sapp_length in Hf; simpl in Hf; lia).
    specialize (IH s' Hf'). rewrite Hs.
    destruct (walk fuel index s') as [[idx z]|].
    + destruct IH as (Hz & Hsuf & Hmax). split; [done|].
      split; [by apply label_suffix_behind|].
      intros z' Hz' Hsome. apply label_suffix_step in Hz'; [|done].
      destruct Hz' as [-> | Hz']; [|by apply Hmax].
      rewrite <- Hs, Ei in Hsome. by destruct Hsome.
    + intros z Hz. apply label_suffix_step in Hz; [|done].
      destruct Hz as [-> | Hz]; [by rewrite <- Hs|]. by apply IH.
  - apply IndexByte_none in Eb. intros z Hz.
    apply label_suffix_no_dot in Hz; [by subst | done].
Qed.

Lemma found_functional index s h h' : found index s h -> found index s h' -> h = h'.
Proof.
  destruct h as [[i z]|], h' as [[j z']|]; simpl.
  - intros (Hi & Hz & Hm) (Hj & Hz' & Hm').
    assert (z = z') as <-; [|congruence].
    apply label_suffix_length_eq.
    + eapply label_suffix_nested; [exact Hz' | exact Hz |]. by apply Hm'; eauto.
    + apply Nat.le_antisymm; [apply Hm' | apply Hm]; eauto.
  - intros (Hi & Hz & _) H. by rewrite H in Hi.
  - intros H (Hj & Hz & _). by rewrite H in Hj.
  - done.
Qed.

Lemma walk_fuel fuel fuel' index s :
  (String.length s < fuel)%nat -> (String.length s < fuel')%nat ->
  walk fuel index s = walk fuel' index s.
Proof. intros. eapply found_functional; by apply walk_found. Qed.

(** ** Lemmas on the index *)

Lemma index_zones_lookup i zones index z :
  index_zones i zones index !! z =
    if decide (z ∈ map ToLower zones) then Some i else index !! z.
Proof.
  unfold index_zones. revert index. induction zones as [|y zones IH]; intros index; cbn [foldl map].
  - by rewrite decide_False by apply not_elem_of_nil.
  - rewrite IH, lookup_insert.
    destruct (decide (z ∈ ToLower y :: map ToLower zones)) as [H1|H1];
      destruct (decide (z ∈ map ToLower zones)) as [H2|H2];
      destruct (decide (ToLower y = z)) as [H3|H3]; try done; exfalso.
    + apply elem_of_cons in H1. by destruct H1.
    + apply H1. by right.
    + apply H1. by right.
    + apply H1. subst. by left.
Qed.

Lemma index_from_lookup i creds index z k :
  index_from i creds index !! z = Some k <->
  (exists j cred, creds !! j = Some cred /\ k = (i + j)%nat /\ lists cred z /\
     forall j' cred', (j < j')%nat -> creds !! j' = Some cred' -> ~ lists cred' z) \/
  ((forall j cred, creds !! j = Some cred -> ~ lists cred z) /\ index !! z = Some k).
Proof.
  revert i index. induction creds as [|cr creds IH]; intros i index; simpl.
  - split; [by right|]. intros [(j & cred & Hj & _)|[_ H]]; [by destruct j | done].
  - rewrite IH, index_zones_lookup. split.
    + intros [(j & cred & Hj & -> & Hl & Hm)|[Hno Hk]].
      * left. exists (S j), cred. split; [done|]. split; [lia|]. split; [done|].
        intros [|j'] cred' Hlt; [lia|]. apply Hm. lia.
      * destruct (decide (z ∈ map ToLower (Zones cr))) as [Hin|Hout].
        -- left. exists 0%nat, cr. split; [done|]. split; [simplify_eq; lia|].
           split; [done|]. intros [|j'] cred' Hlt; [lia|]. by apply Hno.
        -- right. split; [|done]. intros [|j] cred Hj; [by injection Hj as <-|].
           by apply (Hno j).
    + intros [(j & cred & Hj & -> & Hl & Hm)|[Hno Hk]].
      * destruct j as [|j].
        -- injection Hj as ->. right. split; [intros j' cred' Hj'; by apply (Hm (S j')); [lia|]|].
           rewrite decide_True by done. f_equal. lia.
        -- left. exists j, cred. split; [done|]. split; [lia|]. split; [done|].
           intros j' cred' Hlt Hj'. by apply (Hm (S j')); [lia|].
      * right. split; [intros j cred Hj; by apply (Hno (S j))|].
        rewrite decide_False; [done|]. by apply (Hno 0%nat).
Qed.

(** The index holds, for each configured zone, the last credential listing it. *)
Lemma build_index_lookup c z k :
  build_index c !! z = Some k <->
  exists cred, Credentials c !! k = Some cred /\ lists cred z /\
    forall j cred', (k < j)%nat -> Credentials c !! j = Some cred' -> ~ lists cred' z.
Proof.
  unfold build_index. rewrite index_from_lookup. split.
  - intros [(j & cred & Hj & -> & Hl & Hm)|[_ H]]; [|by rewrite lookup_empty in H].
    exists cred. done.
  - intros (cred & Hk & Hl & Hm). left. exists k, cred. done.
Qed.

#[export] Instance lists_dec cred z : Decision (lists cred z).
Proof. unfold lists. apply _. Defined.

Lemma configured_serves c z : configured c z <-> exists cred, serves c z cred.
Proof.
  split.
  - intros (cred & Hin & Hl).
    destruct (last_such (fun cr => lists cr z) (Credentials c)) as (i & cr & Hi & Hcr & Hm);
      [apply Exists_exists; eauto|].
    by exists cr, i.
  - intros (cred & i & Hi & Hl & _). exists cred.
    split; [by eapply list_elem_of_lookup_2 | done].
Qed.

Lemma build_index_configured c z : is_Some (build_index c !! z) <-> configured c z.
Proof.
  rewrite configured_serves. unfold serves. split.
  - intros [k Hk]. apply build_index_lookup in Hk. destruct Hk as (cred & Hk). eauto.
  - intros (cred & k & Hk). exists k. apply build_index_lookup. eauto.
Qed.

(** ** What Resolve decides *)

Section ResolveLemmas.
Context {RT : Runtime}.
Implicit Types (c : Config) (cred : Credential).

Lemma serves_functional c z cred cred' :
  serves c z cred -> serves c z cred' -> cred = cred'.
Proof.
  intros (i & Hi & Hl & Hm) (j & Hj & Hl' & Hm').
  destruct (Nat.lt_trichotomy i j) as [H|[->|H]]; [|congruence|].
  - by destruct (Hm _ _ H Hj).
  - by destruct (Hm' _ _ H Hi).
Qed.

Lemma walk_routes c name idx z :
  walk (S (String.length name)) (build_index c) name = Some (idx, z) ->
  exists cred, Credentials c !! idx = Some cred /\ routes c name z cred.
Proof.
  intros Hw. pose proof (walk_found (S (String.length name)) (build_index c) name) as Hf.
  rewrite Hw in Hf. destruct Hf as (Hidx & Hsuf & Hmax); [lia|].
  apply build_index_lookup in Hidx. destruct Hidx as (cred & Hi & Hl & Hm).
  exists cred. split; [done|]. split; [done|]. split; [by exists idx|].
  intros z' Hz' Hc. apply Hmax; [done|]. by apply build_index_configured.
Qed.

Lemma walk_none c name :
  walk (S (String.length name)) (build_index c) name = None <->
  forall z, label_suffix z name -> ~ configured c z.
Proof.
  pose proof (walk_found (S (String.length name)) (build_index c) name ltac:(lia)) as Hf.
  destruct (walk _ _ _) as [[idx z]|]; simpl in Hf.
  - split; [done|]. intros H. destruct Hf as (Hi & Hz & _). exfalso.
    apply (H z Hz), build_index_configured. eauto.
  - split; [|done]. intros _ z Hz Hc. apply build_index_configured in Hc.
    rewrite Hf in Hc by done. by destruct Hc.
Qed.

Lemma routes_functional c name z z' cred cred' :
  routes c name z cred -> routes c name z' cred' -> z = z' /\ cred = cred'.
Proof.
  intros (Hs & Hc & Hm) (Hs' & Hc' & Hm').
  assert (z = z') as <-.
  { apply label_suffix_length_eq.
    - eapply label_suffix_nested; [exact Hs' | exact Hs |].
      apply Hm'; [done|]. apply configured_serves. eauto.
    - apply Nat.le_antisymm; [apply Hm' | apply Hm]; try done;
        apply configured_serves; eauto. }
  split; [done|]. by eapply serves_functional.
Qed.

(** [Resolve] computes the routing decision. *)
Lemma Resolve_ok_iff c fqdn cred z :
  Resolve (Some c) fqdn = Ok (cred, z) <->
  normaliseFQDN fqdn <> EmptyString /\ routes c (normaliseFQDN fqdn) z cred.
Proof.
  unfold Resolve. set (name := normaliseFQDN fqdn).
  destruct (String.eqb name EmptyString) eqn:E; to_prop.
  { split; [done | by intros [? _]]. }
  destruct (walk (S (String.length name)) (build_index c) name) as [[idx z0]|] eqn:Ew.
  - destruct (walk_routes _ _ _ _ Ew) as (cr & Hi & Hr). rewrite Hi. split.
    + intros [= <- <-]. done.
    + intros [_ Hr']. destruct (routes_functional _ _ _ _ _ _ Hr Hr') as [-> ->]. done.
  - split; [done|]. intros [_ Hr]. exfalso. rewrite walk_none in Ew.
    destruct Hr as (Hs & Hc & _). apply (Ew z Hs), configured_serves. eauto.
Qed.

(** It fails closed: exactly when no configured zone is a label suffix. *)
Lemma Resolve_err_iff c fqdn :
  is_ok (Resolve (Some c) fqdn) = false <->
  normaliseFQDN fqdn = EmptyString \/
  (forall z, label_suffix z (normaliseFQDN fqdn) -> ~ configured c z).
Proof.
  unfold Resolve. set (name := normaliseFQDN fqdn).
  destruct (String.eqb name EmptyString) eqn:E; to_prop; [by split; [left|]|].
  destruct (walk (S (String.length name)) (build_index c) name) as [[idx z0]|] eqn:Ew.
  - destruct (walk_routes _ _ _ _ Ew) as (cr & Hi & Hs & Hc & _). rewrite Hi. simpl.
    split; [done|]. intros [?|H]; [done|]. exfalso.
    apply (H z0 Hs), configured_serves. eauto.
  - split; [|done]. intros _. right. by apply walk_none.
Qed.

Lemma Resolve_err_Is (oc : option Config) fqdn e :
  Resolve oc fqdn = Err e -> errors_Is e ErrNoMatch = true.
Proof. unfold Resolve. by repeat case_match; intros; simplify_eq/=. Qed.
End ResolveLemmas.
