(* ===== verification/ValidateSpec.v ===== *)
(** What a valid configuration is, that [ValidateConfig] accepts exactly those,
    and what validity gives the caller of [Resolve]: sole owners, independence of
    the order, names in any of the accepted shapes. *)
From S2P Require Import Prelude GoStrings Utf8 Runtime Quote Errors Routing RoutingSpec.

(** ** Specification of a valid configuration *)

(** A byte of a label: a letter, a digit or a hyphen. *)
Definition label_byte (c : ascii) : bool :=
  let b := code c in
  in_range 97 122 b || in_range 65 90 b || in_range 48 57 b || (b =? 45).

Definition label_ok (l : string) : Prop :=
  l <> EmptyString /\ all_bytes label_byte l = true.

(** A zone-apex: non-empty labels of letters, digits and hyphens; at most two of
    them, or three under a listed two-label public suffix. *)
Definition valid_zone (z : string) : Prop :=
  let labels := Split z dot in
  Forall label_ok labels /\
  ((length labels <= 2)%nat \/
   (length labels = 3%nat /\
    exists sfx, sfx ∈ multiPartPublicSuffixes /\ HasSuffix (ToLower z) sfx = true)).

Record valid_config (c : Config) : Prop := {
  vc_some : Credentials c <> [];
  vc_creds : Forall (fun cr =>
    TrimSpace (Name cr) <> EmptyString /\ TrimSpace (APITokenSecretRef cr) <> EmptyString /\
    Zones cr <> [] /\ Forall valid_zone (Zones cr)) (Credentials c);
  vc_names : NoDup (map Name (Credentials c));
  vc_zones : NoDup (concat (map (fun cr => map ToLower (Zones cr)) (Credentials c)))
}.

(** ** Lemmas on zone strings *)

Lemma zone_rune_label c :
  zone_rune (code c) = label_byte c || Ascii.eqb c dot.
Proof.
  unfold zone_rune, label_byte. rewrite <- !orb_assoc. do 4 f_equal.
  destruct (Ascii.eqb c dot) eqn:E.
  - by apply Ascii.eqb_eq in E as ->.
  - apply Z.eqb_neq. intros H. apply Ascii.eqb_neq in E. apply E. by apply code_inj.
Qed.

Definition zone_byte (c : ascii) : bool := label_byte c || Ascii.eqb c dot.

Lemma zone_byte_plain c : zone_byte c = true -> plain_byte c = true.
Proof.
  unfold zone_byte. rewrite <- zone_rune_label. unfold zone_rune, plain_byte, ascii_byte, IsSpace, in_range.
  intros H. apply andb_true_iff. rewrite negb_true_iff.
  assert (45 <= code c < 128) as Hr by (to_prop; lia).
  split; [apply Z.ltb_lt; lia|].
  repeat match goal with
  | |- (_ || _) = false => apply orb_false_iff; split
  | |- (_ && _) = false => apply andb_false_iff
  | |- (_ =? _) = false => apply Z.eqb_neq; lia
  end; first [left; apply Z.leb_gt; lia | right; apply Z.leb_gt; lia].
Qed.

Lemma zone_bytes_plain z : all_bytes zone_byte z = true -> all_bytes plain_byte z = true.
Proof. apply all_bytes_impl, zone_byte_plain. Qed.

Lemma zone_bytes_ascii z : all_bytes zone_byte z = true -> all_bytes ascii_byte z = true.
Proof. intros H. by apply ascii_plain, zone_bytes_plain. Qed.

Lemma high_rune_not_zone r : 128 <= r -> zone_rune r = false.
Proof.
  intros H. unfold zone_rune, in_range.
  rewrite (proj2 (Z.leb_gt r 122)), (proj2 (Z.leb_gt r 90)), (proj2 (Z.leb_gt r 57)),
    (proj2 (Z.eqb_neq r 45)), (proj2 (Z.eqb_neq r 46)) by lia.
  by rewrite !andb_false_r.
Qed.

(** The loop over the runes accepts exactly the strings of zone bytes. *)
Lemma runes_zone z :
  List.find (fun r => negb (zone_rune r)) (runes z) = None <-> all_bytes zone_byte z = true.
Proof.
  induction z as [|c z IH]; [done|]. destruct (ascii_byte c) eqn:Ha.
  - rewrite runes_ascii_cons by done. simpl. unfold zone_byte at 1.
    rewrite <- zone_rune_label. destruct (zone_rune (code c)); simpl; [exact IH | done].
  - unfold ascii_byte in Ha. to_prop. split.
    + unfold runes, chunks. cbn [chunks_aux].
      pose proof (decode_rune_cases c z) as Hd. destruct (decode_rune (String c z)) as [r w].
      cbn [map chunk_rune List.find]. rewrite high_rune_not_zone by lia. done.
    + intros Hz. apply zone_bytes_ascii in Hz. simpl in Hz. unfold ascii_byte in Hz at 1. to_prop. lia.
Qed.

Lemma lower_zone_byte c : zone_byte c = true -> zone_byte (lower_byte c) = true.
Proof.
  unfold zone_byte. rewrite <- !zone_rune_label, lower_byte_code.
  destruct (in_range 65 90 (code c)) eqn:E; [|done]. intros _.
  unfold zone_rune. unfold in_range in *. to_prop.
  rewrite (proj2 (Z.leb_le 97 (code c + 32))), (proj2 (Z.leb_le (code c + 32) 122)) by lia.
  done.
Qed.

Lemma lower_byte_dot_eqb c : Ascii.eqb (lower_byte c) dot = Ascii.eqb c dot.
Proof.
  destruct (Ascii.eqb c dot) eqn:E.
  - by apply Ascii.eqb_eq in E as ->.
  - apply Ascii.eqb_neq. apply Ascii.eqb_neq in E. intros H. by apply lower_byte_dot in H.
Qed.

Lemma Split_map_lower z :
  Split (map_bytes lower_byte z) dot = map (map_bytes lower_byte) (Split z dot).
Proof.
  induction z as [|c z IH]; [done|]. simpl. rewrite lower_byte_dot_eqb, IH.
  destruct (Ascii.eqb c dot); [done|]. by destruct (Split z dot).
Qed.

Lemma Split_lower_length z :
  length (Split (map_bytes lower_byte z) dot) = length (Split z dot).
Proof.
  by rewrite Split_map_lower, length_map.
Qed.

(** [isSubdomainOfRegistrable] in terms of the labels of an ASCII zone. *)
Lemma isSubdomainOfRegistrable_false z :
  all_bytes zone_byte z = true ->
  isSubdomainOfRegistrable z = false <->
  (length (Split z dot) <= 2)%nat \/
  (length (Split z dot) = 3%nat /\
   exists sfx, sfx ∈ multiPartPublicSuffixes /\ HasSuffix (String dot (ToLower z)) sfx = true).
Proof.
  intros Hz. unfold isSubdomainOfRegistrable.
  rewrite (ToLower_ascii z) by (by apply zone_bytes_ascii). rewrite Split_lower_length.
  set (n := length (Split z dot)).
  destruct (n <? 2)%nat eqn:E1; [apply Nat.ltb_lt in E1; split; [lia | done]|].
  destruct (n =? 2)%nat eqn:E2; [apply Nat.eqb_eq in E2; split; [lia | done]|].
  apply Nat.ltb_ge in E1. apply Nat.eqb_neq in E2.
  destruct (existsb _ _) eqn:E3.
  - split; [|done]. intros _. right. apply existsb_exists in E3.
    destruct E3 as (sfx & Hin & Hs). to_prop. apply Nat.eqb_eq in H0.
    split; [done|]. exists sfx. by rewrite list_elem_of_In.
  - split; [done|]. intros [H|(H3 & sfx & Hin & Hs)]; [lia|].
    rewrite <- E3. symmetry. apply existsb_exists. exists sfx.
    rewrite <- list_elem_of_In, Hs, H3. done.
Qed.

Definition non_empty (l : string) : bool := negb (String.eqb l EmptyString).

Lemma HasSuffix_dot_cons c z :
  HasSuffix (String c z) (byte1 dot) =
  if String.eqb z EmptyString then Ascii.eqb c dot else HasSuffix z (byte1 dot).
Proof.
  apply eq_bool_prop_intro. rewrite !Is_true_true. rewrite HasSuffix_byte.
  destruct z as [|d z]; simpl.
  - rewrite Ascii.eqb_eq. split; congruence.
  - by rewrite HasSuffix_byte.
Qed.

Lemma HasPrefix_dot_cons c z : HasPrefix (String c z) (byte1 dot) = Ascii.eqb dot c.
Proof. simpl. by rewrite andb_true_r. Qed.

Lemma Split_head_non_empty z :
  match Split z dot with l :: _ => non_empty l | [] => false end =
  negb (String.eqb z EmptyString) && negb (HasPrefix z (byte1 dot)).
Proof.
  destruct z as [|c z]; [done|]. rewrite HasPrefix_dot_cons, Ascii.eqb_sym. simpl.
  destruct (Ascii.eqb c dot); [done|]. by destruct (Split z dot).
Qed.

Lemma Split_tail_non_empty z :
  forallb non_empty (tail (Split z dot)) =
  negb (HasSuffix z (byte1 dot)) && negb (Contains z "..").
Proof.
  induction z as [|c z IH]; [done|].
  rewrite HasSuffix_dot_cons. cbn [Split Contains].
  replace (HasPrefix (String c z) "..") with (Ascii.eqb dot c && HasPrefix z (byte1 dot))
    by done.
  rewrite (Ascii.eqb_sym dot c). destruct (Ascii.eqb c dot) eqn:E; cbn [tail].
  - pose proof (Split_head_non_empty z) as Hh.
    destruct (Split z dot) as [|l ls] eqn:Es; [by apply Split_not_nil in Es|].
    cbn [forallb tail] in *. rewrite Hh, IH.
    destruct (String.eqb z EmptyString); [done|].
    generalize (HasPrefix z (byte1 dot)), (HasSuffix z (byte1 dot)), (Contains z "..").
    by intros [] [] [].
  - destruct (Split z dot) as [|l ls] eqn:Es; [by apply Split_not_nil in Es|].
    cbn [tail] in *. rewrite IH. destruct (String.eqb z EmptyString) eqn:Ez; [|done].
    to_prop. by subst.
Qed.

(** The four syntactic tests say that no label is empty. *)
Lemma Split_non_empty z :
  Forall (fun l => l <> EmptyString) (Split z dot) <->
  z <> EmptyString /\ HasPrefix z (byte1 dot) = false /\
  HasSuffix z (byte1 dot) = false /\ Contains z ".." = false.
Proof.
  assert (forallb non_empty (Split z dot) =
    (negb (String.eqb z EmptyString) && negb (HasPrefix z (byte1 dot))) &&
    (negb (HasSuffix z (byte1 dot)) && negb (Contains z ".."))) as H.
  { rewrite <- Split_head_non_empty, <- Split_tail_non_empty.
    destruct (Split z dot) as [|l ls] eqn:Es; [by apply Split_not_nil in Es | done]. }
  transitivity (forallb non_empty (Split z dot) = true).
  - rewrite forallb_forall, Forall_forall. unfold non_empty.
    split; intros Hl l Hin; specialize (Hl l); rewrite negb_true_iff, String.eqb_neq in *;
      apply Hl, list_elem_of_In; done.
  - rewrite H, !andb_true_iff, !negb_true_iff, String.eqb_neq. tauto.
Qed.

Lemma Split_all_bytes z :
  Forall (fun l => all_bytes label_byte l = true) (Split z dot) <->
  all_bytes zone_byte z = true.
Proof.
  induction z as [|c z IH]; simpl.
  - split; [done | by repeat constructor].
  - unfold zone_byte at 1. destruct (Ascii.eqb c dot) eqn:E.
    + rewrite orb_true_r. simpl. rewrite <- IH, Forall_cons. simpl. tauto.
    + rewrite orb_false_r, andb_true_iff, <- IH.
      destruct (Split z dot) as [|l ls] eqn:Es; [by apply Split_not_nil in Es|].
      rewrite !Forall_cons. simpl. rewrite andb_true_iff. tauto.
Qed.

Lemma labels_ok_iff z :
  Forall label_ok (Split z dot) <->
  all_bytes zone_byte z = true /\ z <> EmptyString /\ HasPrefix z (byte1 dot) = false /\
  HasSuffix z (byte1 dot) = false /\ Contains z ".." = false.
Proof.
  unfold label_ok. rewrite Forall_and, Split_non_empty, Split_all_bytes. tauto.
Qed.

Lemma suffixes_two_labels sfx z :
  sfx ∈ multiPartPublicSuffixes -> String dot z = sfx -> length (Split z dot) = 2%nat.
Proof.
  revert sfx z. cut (Forall (fun sfx => forall z, String dot z = sfx -> length (Split z dot) = 2%nat)
    multiPartPublicSuffixes).
  { intros H sfx z Hin. exact (proj1 (Forall_forall _ _) H sfx Hin z). }
  repeat (apply Forall_cons_2; [intros z Hz; injection Hz as ->; reflexivity|]).
  apply Forall_nil_2.
Qed.

(** With three labels, a listed suffix cannot be the whole zone. *)
Lemma HasSuffix_three_labels z sfx :
  all_bytes zone_byte z = true -> length (Split z dot) = 3%nat ->
  sfx ∈ multiPartPublicSuffixes ->
  HasSuffix (String dot (ToLower z)) sfx = HasSuffix (ToLower z) sfx.
Proof.
  intros Hz H3 Hin. apply eq_bool_prop_intro. rewrite !Is_true_true, !HasSuffix_spec. split.
  - intros [[|c p] Hp].
    + pose proof (suffixes_two_labels sfx (ToLower z) Hin Hp) as H2.
      rewrite (ToLower_ascii z) in H2 by (by apply zone_bytes_ascii).
      rewrite Split_lower_length in H2. lia.
    + injection Hp as <- Hp. eauto.
  - intros [p ->]. by exists (String dot p).
Qed.

Lemma Contains_star_zone z : all_bytes zone_byte z = true -> Contains z "*" = false.
Proof.
  intros Hz. destruct (Contains z "*") eqn:E; [|done]. apply Contains_spec in E.
  destruct E as (a & b & ->). rewrite !all_bytes_app in Hz. to_prop. done.
Qed.

Section ValidateLemmas.
Context {RT : Runtime}.

(** The validator of one zone accepts exactly the zones of the grammar. *)
Lemma validateZoneString_iff zone credName :
  validateZoneString zone credName = None <-> valid_zone zone.
Proof.
  unfold validateZoneString, valid_zone. rewrite labels_ok_iff. split.
  - repeat case_match; intros; simplify_eq; to_prop.
    match goal with H : List.find _ _ = None |- _ => apply runes_zone in H; rename H into Hz end.
    match goal with H : isSubdomainOfRegistrable _ = false |- _ =>
      apply (isSubdomainOfRegistrable_false _ Hz) in H; rename H into Hs end.
    split; [done|]. destruct Hs as [Hs|(Hlen & sfx & Hin & Hs)]; [by left|]. right.
    split; [done|]. exists sfx. by rewrite <- HasSuffix_three_labels.
  - intros ((Hz & Hne & Hp & Hs & Hd) & Hl).
    apply String.eqb_neq in Hne. rewrite Hne.
    rewrite TrimSpace_plain, String.eqb_refl by (by apply zone_bytes_plain). simpl negb.
    cbn iota. rewrite Hp, Hs, (Contains_star_zone _ Hz), Hd, (proj2 (runes_zone _) Hz).
    rewrite (proj2 (isSubdomainOfRegistrable_false _ Hz)); [done|].
    destruct Hl as [Hl|(H3 & sfx & Hin & Hl)]; [by left|]. right. split; [done|].
    exists sfx. by rewrite HasSuffix_three_labels.
Qed.
End ValidateLemmas.

(** *** The loops of ValidateConfig *)

Definition lower_zones (cr : Credential) : list string := map ToLower (Zones cr).

Definition cred_ok (cr : Credential) : Prop :=
  TrimSpace (Name cr) <> EmptyString /\ TrimSpace (APITokenSecretRef cr) <> EmptyString /\
  Zones cr <> [] /\ Forall valid_zone (Zones cr).

(** [l] has no repetition and meets none of the names in [s]. *)
Definition fresh_list (s : gset string) (l : list string) : Prop :=
  NoDup l /\ forall z, z ∈ l -> z ∉ s.

Lemma fresh_list_nil s : fresh_list s [].
Proof. split; [by constructor|]. intros z Hz. by apply not_elem_of_nil in Hz. Qed.

Lemma fresh_list_cons s x l :
  fresh_list s (x :: l) <-> (x ∉ s) /\ fresh_list ({[x]} ∪ s) l.
Proof. unfold fresh_list. rewrite NoDup_cons. set_solver. Qed.

Lemma fresh_list_app s l l' :
  fresh_list s (l ++ l') <-> fresh_list s l /\ fresh_list (list_to_set l ∪ s) l'.
Proof.
  revert s. induction l as [|x l IH]; intros s; simpl.
  - rewrite (left_id_L ∅ (∪)). pose proof (fresh_list_nil s). tauto.
  - rewrite !fresh_list_cons, IH.
    replace (list_to_set l ∪ ({[x]} ∪ s)) with (({[x]} ∪ list_to_set l ∪ s) : gset string)
      by set_solver. tauto.
Qed.

Lemma fresh_list_union s s' l :
  fresh_list (s ∪ s') l <-> fresh_list s l /\ fresh_list s' l.
Proof. unfold fresh_list. set_solver. Qed.

Section ValidateLoops.
Context {RT : Runtime}.

Lemma validate_zones_ok cred zones seen first first' :
  validate_zones cred zones seen first = Ok first' ->
  Forall valid_zone zones /\ fresh_list seen (map ToLower zones) /\
  fresh_list (dom first) (map ToLower zones) /\
  dom first' = list_to_set (map ToLower zones) ∪ dom first.
Proof.
  revert seen first. induction zones as [|z zones IH]; intros seen first; cbn [validate_zones map].
  - intros [= <-]. split; [done|]. split; [apply fresh_list_nil|].
    split; [apply fresh_list_nil | set_solver].
  - destruct (validateZoneString z (Name cred)) eqn:Ev; [done|].
    apply validateZoneString_iff in Ev. case_bool_decide as Hs; [done|].
    destruct (first !! ToLower z) eqn:Ef; [done|]. intros H.
    apply IH in H. destruct H as (Hv & Hf & Hf' & Hd).
    rewrite dom_insert_L in Hf', Hd. apply not_elem_of_dom in Ef.
    rewrite !fresh_list_cons, Forall_cons. split; [done|]. split; [done|].
    split; [done|]. rewrite Hd. set_solver.
Qed.

Lemma validate_zones_complete cred zones seen first :
  Forall valid_zone zones -> fresh_list seen (map ToLower zones) ->
  fresh_list (dom first) (map ToLower zones) ->
  exists first', validate_zones cred zones seen first = Ok first'.
Proof.
  revert seen first. induction zones as [|z zones IH]; intros seen first; cbn [validate_zones map];
    [eauto|].
  rewrite Forall_cons, !fresh_list_cons. intros [Hv Hvs] [Hs Hf] [Hd Hf'].
  rewrite (proj2 (validateZoneString_iff z (Name cred)) Hv).
  rewrite bool_decide_eq_false_2 by done. apply not_elem_of_dom in Hd. rewrite Hd.
  apply IH; [done..|]. by rewrite dom_insert_L.
Qed.

Lemma validate_creds_iff i creds names first :
  validate_creds i creds names first = None <->
  Forall cred_ok creds /\ fresh_list names (map Name creds) /\
  fresh_list (dom first) (concat (map lower_zones creds)).
Proof.
  revert i names first. induction creds as [|cr creds IH]; intros i names first;
    cbn [validate_creds map concat].
  { pose proof fresh_list_nil. naive_solver. }
  rewrite Forall_cons, fresh_list_cons, fresh_list_app. unfold cred_ok at 1.
  destruct (String.eqb (TrimSpace (Name cr)) EmptyString) eqn:E1; to_prop; [split; [done|tauto]|].
  case_bool_decide as E2; [split; [done|tauto]|].
  destruct (String.eqb (TrimSpace (APITokenSecretRef cr)) EmptyString) eqn:E3; to_prop;
    [split; [done|tauto]|].
  destruct (length (Zones cr) =? 0)%nat eqn:E4.
  { apply Nat.eqb_eq, nil_length_inv in E4. split; [done|tauto]. }
  assert (Zones cr <> []) as Hne by (intros Hn; rewrite Hn in E4; done).
  destruct (validate_zones cr (Zones cr) ∅ first) as [first'|e] eqn:Ev.
  - apply validate_zones_ok in Ev. destruct Ev as (Hv & _ & Hf & Hd).
    rewrite IH, Hd. unfold lower_zones at 2 3. tauto.
  - split; [done|]. intros (((_ & _ & _ & Hv) & _) & _ & Hz & _). exfalso.
    unfold lower_zones in Hz.
    destruct (validate_zones_complete cr (Zones cr) ∅ first) as [f' Hf']; [done| |done|congruence].
    destruct Hz as [Hnd _]. split; [done | set_solver].
Qed.

(** [ValidateConfig] accepts exactly the valid configurations. *)
Lemma ValidateConfig_iff c : ValidateConfig (Some c) = None <-> valid_config c.
Proof.
  unfold ValidateConfig. destruct (length (Credentials c) =? 0)%nat eqn:E.
  { apply Nat.eqb_eq, nil_length_inv in E. split; [done|]. by intros [H _ _ _]. }
  rewrite validate_creds_iff. unfold fresh_list. split.
  - intros (Hc & [Hn _] & [Hz _]). split; try done. by intros H; rewrite H in E.
  - intros [_ Hc Hn Hz]. rewrite dom_empty_L. set_solver.
Qed.

Lemma ValidateConfig_nil : is_Some (ValidateConfig None).
Proof. done. Qed.
End ValidateLoops.

(** ** Lemmas on valid configurations *)

Lemma label_byte_zone c : label_byte c = true -> zone_byte c = true.
Proof. unfold zone_byte. by intros ->. Qed.

Lemma valid_zone_bytes z : valid_zone z -> all_bytes zone_byte z = true.
Proof. unfold valid_zone. rewrite labels_ok_iff. tauto. Qed.

Lemma valid_zone_ascii z : valid_zone z -> all_bytes ascii_byte z = true.
Proof. intros H. by apply zone_bytes_ascii, valid_zone_bytes. Qed.

Lemma valid_zone_lower_bytes z : valid_zone z -> all_bytes zone_byte (ToLower z) = true.
Proof.
  intros H. rewrite ToLower_ascii by (by apply valid_zone_ascii).
  apply map_bytes_all; [apply lower_zone_byte | by apply valid_zone_bytes].
Qed.

Section ValidConfig.
Context (c : Config) (Hc : valid_config c).

Lemma valid_lists_zone cred z :
  cred ∈ Credentials c -> lists cred z -> exists z0, valid_zone z0 /\ z = ToLower z0.
Proof using Hc.
  intros Hin Hl. pose proof (vc_creds c Hc) as Hcr. rewrite Forall_forall in Hcr.
  destruct (Hcr _ Hin) as (_ & _ & _ & Hz). rewrite Forall_forall in Hz.
  unfold lists in Hl. apply list_elem_of_fmap in Hl. destruct Hl as (z0 & -> & Hz0). eauto.
Qed.

(** A configured zone is lower-case ASCII. *)
Lemma valid_configured_lower z :
  configured c z -> all_bytes zone_byte z = true /\ ToLower z = z.
Proof using Hc.
  intros (cred & Hin & Hl). destruct (valid_lists_zone _ _ Hin Hl) as (z0 & Hz & ->).
  split; [by apply valid_zone_lower_bytes | by apply ToLower_idem_ascii, valid_zone_ascii].
Qed.

(** No zone is listed by two credentials. *)
Lemma valid_unique_index i j cred cred' z :
  Credentials c !! i = Some cred -> Credentials c !! j = Some cred' ->
  lists cred z -> lists cred' z -> i = j.
Proof using Hc.
  pose proof (vc_zones c Hc) as Hnd. revert i j Hnd.
  induction (Credentials c) as [|c0 cs IH]; intros i j Hnd Hi Hj Hl Hl'; [done|].
  cbn [map concat] in Hnd. apply NoDup_app in Hnd. destruct Hnd as (_ & Hd & Hnd).
  assert (forall k cr, cs !! k = Some cr -> lists cr z ->
    z ∈ concat (map (fun cr => map ToLower (Zones cr)) cs)) as Hmem.
  { intros k cr Hk Hz. apply list_elem_of_In, in_concat. eexists. split.
    - apply in_map_iff. exists cr. split; [done|]. apply list_elem_of_In.
      by eapply list_elem_of_lookup_2.
    - by apply list_elem_of_In. }
  destruct i as [|i], j as [|j]; simplify_eq/=; try done.
  - destruct (Hd z Hl). by eapply Hmem.
  - destruct (Hd z Hl'). by eapply Hmem.
  - f_equal. by eapply IH.
Qed.

Lemma valid_serves_iff cred z :
  serves c z cred <-> cred ∈ Credentials c /\ lists cred z.
Proof using Hc.
  split.
  - intros (i & Hi & Hl & _). split; [by eapply list_elem_of_lookup_2 | done].
  - intros [Hin Hl]. apply list_elem_of_lookup in Hin. destruct Hin as [i Hi].
    exists i. split; [done|]. split; [done|]. intros j cred' Hlt Hj Hl'.
    pose proof (valid_unique_index _ _ _ _ _ Hi Hj Hl Hl'). lia.
Qed.

Lemma valid_name_lookup cred cred' :
  cred ∈ Credentials c -> cred' ∈ Credentials c -> Name cred = Name cred' -> cred = cred'.
Proof using Hc.
  intros Hin Hin' Hn. pose proof (vc_names c Hc) as Hnd.
  apply list_elem_of_lookup in Hin, Hin'. destruct Hin as [i Hi], Hin' as [j Hj].
  assert (map Name (Credentials c) !! i = Some (Name cred)) as H1
    by (by change (map Name ?l) with (Name <$> l); rewrite list_lookup_fmap, Hi).
  assert (map Name (Credentials c) !! j = Some (Name cred')) as H2
    by (by change (map Name ?l) with (Name <$> l); rewrite list_lookup_fmap, Hj).
  rewrite Hn in H1. pose proof (NoDup_lookup _ _ _ _ Hnd H1 H2). congruence.
Qed.
End ValidConfig.

(** Configurations with the same credentials in another order. *)
Lemma configured_perm c c' z :
  Credentials c ≡ₚ Credentials c' -> configured c z <-> configured c' z.
Proof. intros H. unfold configured. by setoid_rewrite H. Qed.

Lemma valid_config_perm c c' :
  Credentials c ≡ₚ Credentials c' -> valid_config c -> valid_config c'.
Proof.
  intros H [Hs Hc Hn Hz]. split.
  - intros Hnil. rewrite Hnil in H. apply Permutation_nil_r in H. done.
  - by rewrite <- H.
  - by rewrite <- H.
  - rewrite <- H. done.
Qed.

Lemma formatConfiguredZones_perm c c' :
  Credentials c ≡ₚ Credentials c' -> formatConfiguredZones c = formatConfiguredZones c'.
Proof.
  intros H. unfold formatConfiguredZones.
  rewrite (sort_Strings_perm (concat (map Zones (Credentials c)))
             (concat (map Zones (Credentials c')))); [done|]. by rewrite H.
Qed.

Section ResolvePerm.
Context {RT : Runtime}.

Lemma routes_perm c c' name z cred :
  valid_config c -> Credentials c ≡ₚ Credentials c' ->
  routes c name z cred -> routes c' name z cred.
Proof.
  intros Hv Hp (Hs & Hc & Hm). split; [done|]. split.
  - rewrite (valid_serves_iff c' (valid_config_perm _ _ Hp Hv)), <- Hp.
    by apply (valid_serves_iff c Hv).
  - intros z' Hz' Hc'. apply Hm; [done|]. by rewrite (configured_perm c c').
Qed.

Lemma Resolve_err_eq c fqdn :
  is_ok (Resolve (Some c) fqdn) = false ->
  Resolve (Some c) fqdn =
    if String.eqb (normaliseFQDN fqdn) EmptyString
    then Err (Errorf_w EmptyString (ESentinel ErrNoMatch) ": FQDN is empty")
    else Err (Errorf_w EmptyString (ESentinel ErrNoMatch)
           (": " +:+ strconv_Quote (normaliseFQDN fqdn) +:+ " (configured zones: "
            +:+ formatConfiguredZones c +:+ ")")).
Proof.
  unfold Resolve. destruct (String.eqb _ _); [done|].
  destruct (walk _ _ _) as [[idx z]|]; [|done]. by destruct (Credentials c !! idx).
Qed.

Lemma Resolve_perm c c' fqdn :
  valid_config c -> Credentials c ≡ₚ Credentials c' ->
  Resolve (Some c) fqdn = Resolve (Some c') fqdn.
Proof.
  intros Hv Hp. destruct (Resolve (Some c) fqdn) as [[cred z]|e] eqn:E.
  - symmetry. apply Resolve_ok_iff in E. destruct E as [Hn Hr]. apply Resolve_ok_iff.
    split; [done|]. by eapply routes_perm.
  - rewrite <- E. assert (is_ok (Resolve (Some c) fqdn) = false) as H by (by rewrite E).
    rewrite (Resolve_err_eq c) by done. rewrite (Resolve_err_eq c').
    + by rewrite (formatConfiguredZones_perm c c').
    + apply Resolve_err_iff. apply Resolve_err_iff in H. destruct H as [H|H]; [by left|].
      right. intros z Hz. rewrite <- (configured_perm c c') by done. by apply H.
Qed.
End ResolvePerm.

(** ** Lemmas on nested zones *)

Lemma label_suffix_Split z s :
  label_suffix z s -> exists ls, Split s dot = ls ++ Split z dot.
Proof.
  intros [->|[p ->]]; [by exists []|]. rewrite Split_app_sep. eauto.
Qed.

Lemma Split_inj s t : Split s dot = Split t dot -> s = t.
Proof. intros H. by rewrite <- (Join_Split s dot), H, Join_Split. Qed.

Lemma label_suffix_same_length z z' s :
  label_suffix z s -> label_suffix z' s ->
  length (Split z dot) = length (Split z' dot) -> z = z'.
Proof.
  intros Hz Hz' Hl. apply label_suffix_Split in Hz, Hz'.
  destruct Hz as [l Hz], Hz' as [l' Hz']. rewrite Hz in Hz'.
  apply Split_inj. symmetry in Hz'. by apply app_inj_2 in Hz' as [_ ?].
Qed.

(** A listed suffix without its leading dot. *)
Definition public_suffix (z : string) : Prop := String dot z ∈ multiPartPublicSuffixes.

Lemma suffixes_dotted sfx :
  sfx ∈ multiPartPublicSuffixes -> exists q, sfx = String dot q.
Proof.
  revert sfx. cut (Forall (fun sfx => exists q, sfx = String dot q) multiPartPublicSuffixes).
  { intros H sfx. exact (proj1 (Forall_forall _ _) H sfx). }
  repeat (apply Forall_cons_2; [eexists; reflexivity|]). apply Forall_nil_2.
Qed.

(** Of two nested valid zones, the inner one is a single label or a public
    suffix. *)
Lemma valid_zone_nested z z' :
  valid_zone z -> ToLower z = z -> label_suffix z' z -> z' <> z ->
  length (Split z' dot) = 1%nat \/ public_suffix z'.
Proof.
  intros [_ Hz] Hlow Hs Hne. pose proof Hs as Hs'. apply label_suffix_Split in Hs'.
  destruct Hs' as [l Hl]. apply (f_equal length) in Hl. rewrite length_app in Hl.
  assert (length (Split z' dot) <> 0%nat) as H0
    by (intros H; by apply nil_length_inv, Split_not_nil in H).
  assert (length (Split z dot) <> length (Split z' dot)) as Hlt.
  { intros H. apply Hne. eapply label_suffix_same_length;
      [exact Hs | apply label_suffix_refl | done]. }
  destruct Hz as [Hz|(H3 & sfx & Hin & Hsfx)]; [left; lia|].
  destruct (decide (length (Split z' dot) = 1%nat)) as [|H1]; [by left|]. right.
  destruct (suffixes_dotted _ Hin) as [q ->]. rewrite Hlow in Hsfx.
  assert (z' = q) as ->; [|done]. eapply label_suffix_same_length; [exact Hs| |].
  - apply HasSuffix_spec in Hsfx. destruct Hsfx as [p Hp]. right. by exists p.
  - rewrite (suffixes_two_labels (String dot q) q Hin eq_refl). lia.
Qed.

(** ** Lemmas on the accepted shapes of an FQDN *)

(** A bare name: ASCII without white space, no final dot, no challenge prefix. *)
Definition bare_name (f : string) : Prop :=
  all_bytes plain_byte f = true /\ f <> EmptyString /\
  HasSuffix f (byte1 dot) = false /\ HasPrefix (ToLower f) acmeChallengePrefix = false.

(** [f] with or without the challenge prefix and the final dot. *)
Definition spellings (f : string) : list string :=
  [f; f +:+ byte1 dot; acmeChallengePrefix +:+ f; acmeChallengePrefix +:+ f +:+ byte1 dot].

(** [f] as the callers may write it: one of these, between white space. *)
Definition shapes (f g : string) : Prop :=
  exists pre s post, g = pre +:+ s +:+ post /\ s ∈ spellings f /\
    all_bytes space_byte pre = true /\ all_bytes space_byte post = true.

Lemma ToLower_no_dot f :
  HasSuffix f (byte1 dot) = false -> HasSuffix (ToLower f) (byte1 dot) = false.
Proof.
  intros H. apply not_true_iff_false. apply not_true_iff_false in H.
  rewrite HasSuffix_byte in *. by rewrite ToLower_last_dot.
Qed.

Lemma HasSuffix_dot_app p f :
  f <> EmptyString -> HasSuffix (p +:+ f) (byte1 dot) = HasSuffix f (byte1 dot).
Proof.
  intros H. apply eq_bool_prop_intro. rewrite !Is_true_true, !HasSuffix_byte.
  by rewrite last_byte_app.
Qed.

Lemma ToLower_not_nil f : f <> EmptyString -> ToLower f <> EmptyString.
Proof.
  intros Hf Hn. unfold ToLower, runes, chunks in Hn. destruct f as [|c f]; [done|].
  cbn [chunks_aux] in Hn. destruct (decode_rune (String c f)) as [r w]. simpl in Hn.
  destruct (encode_rune (lower_rune r)) eqn:E; [by apply encode_rune_not_nil in E | done].
Qed.

Lemma ToLower_prefix f : all_bytes plain_byte f = true ->
  ToLower (acmeChallengePrefix +:+ f) = acmeChallengePrefix +:+ ToLower f.
Proof.
  intros H. rewrite ToLower_app; [done|]. destruct f as [|c f]; [done|].
  apply clean_start_ascii. apply ascii_plain in H. simpl in H. by to_prop.
Qed.

Lemma normaliseFQDN_shapes f g :
  bare_name f -> shapes f g -> normaliseFQDN g = ToLower f.
Proof.
  intros (Hp & Hne & Hd & Hpre) (pre & s & post & -> & Hg & Hl & Hr). unfold normaliseFQDN.
  assert (all_bytes plain_byte s = true /\ s <> EmptyString) as [Hps Hns].
  { revert s Hg.
    cut (Forall (fun s => all_bytes plain_byte s = true /\ s <> EmptyString) (spellings f)).
    { intros H s. exact (proj1 (Forall_forall _ _) H s). }
    destruct f as [|x f']; [done|].
    repeat (apply Forall_cons_2; [split; [rewrite ?all_bytes_app, ?Hp; reflexivity|done]|]).
    apply Forall_nil_2. }
  rewrite (TrimSpace_padded pre s post) by done.
  assert (HasSuffix (ToLower f) (byte1 dot) = false) as Hld by (by apply ToLower_no_dot).
  assert (HasSuffix (acmeChallengePrefix +:+ ToLower f) (byte1 dot) = false) as Hlp
    by (rewrite HasSuffix_dot_app; [done | by apply ToLower_not_nil]).
  assert (ToLower (byte1 dot) = byte1 dot) as Hdot by done.
  unfold spellings in Hg. rewrite !elem_of_cons in Hg.
  destruct Hg as [->|[->|[->|[->|Hg]]]]; [..|by apply not_elem_of_nil in Hg].
  - by rewrite TrimSuffix_no, TrimPrefix_no.
  - by rewrite ToLower_app, Hdot, TrimSuffix_app, TrimPrefix_no.
  - by rewrite ToLower_prefix, TrimSuffix_no, TrimPrefix_app.
  - rewrite <- sapp_assoc, ToLower_app, Hdot, TrimSuffix_app, ToLower_prefix by done.
    by rewrite TrimPrefix_app.
Qed.

Lemma Resolve_normalised {RT : Runtime} c f g :
  normaliseFQDN f = normaliseFQDN g -> Resolve c f = Resolve c g.
Proof. unfold Resolve. by intros ->. Qed.

Lemma lower_label_byte c : label_byte c = true -> label_byte (lower_byte c) = true.
Proof.
  intros H. assert (zone_byte (lower_byte c) = true) as Hz
    by (by apply lower_zone_byte, label_byte_zone).
  unfold zone_byte in Hz. rewrite lower_byte_dot_eqb in Hz.
  destruct (Ascii.eqb c dot) eqn:E; [|by rewrite orb_false_r in Hz].
  by apply Ascii.eqb_eq in E as ->.
Qed.

Lemma lower_label_ok l : label_ok l -> label_ok (map_bytes lower_byte l).
Proof.
  intros [Hn Hb]. split; [by destruct l|].
  apply map_bytes_all; [apply lower_label_byte | done].
Qed.

Lemma valid_zone_lower z : valid_zone z -> valid_zone (ToLower z).
Proof.
  intros Hz. pose proof (valid_zone_ascii z Hz) as Ha.
  pose proof (ToLower_idem_ascii z Ha) as Hi. destruct Hz as [Hl Hn].
  unfold valid_zone. rewrite Hi, (ToLower_ascii z Ha), Split_map_lower, length_map.
  split.
  - rewrite Forall_forall in *. intros l Hin. apply list_elem_of_fmap in Hin.
    destruct Hin as (l0 & -> & Hin). by apply lower_label_ok, Hl.
  - by rewrite <- (ToLower_ascii z Ha).
Qed.
