(* ===== verification/RoutingTheorems.v ===== *)
(** What the routing layer guarantees: [Resolve] decides by exact label
    suffixes and fails closed, [ValidateConfig] accepts exactly the valid
    configurations, and a validated configuration gives every zone one owner. *)
From S2P Require Import Prelude GoStrings Utf8 Runtime Quote Errors Routing RoutingSpec ValidateSpec.

#[local] Existing Instance example_runtime.

(** Two projects, as in the documentation's example. *)
Definition two_projects : Config := mkConfig [
  mkCredential "project-a" ["example.com"; "example.net"] "cert-manager/a#token";
  mkCredential "project-b" ["Example.org"] "cert-manager/b#token"].

Definition two_projects_swapped : Config := mkConfig [
  mkCredential "project-b" ["Example.org"] "cert-manager/b#token";
  mkCredential "project-a" ["example.com"; "example.net"] "cert-manager/a#token"].

(** Two zones, one inside the other, that the validator lets through. *)
Definition nested_projects : Config := mkConfig [
  mkCredential "registry" ["co.uk"] "cert-manager/a#token";
  mkCredential "shop" ["example.co.uk"] "cert-manager/b#token"].

Lemma two_projects_valid : valid_config two_projects.
Proof. apply (ValidateConfig_iff two_projects). vm_compute. reflexivity. Qed.

Lemma nested_projects_valid : valid_config nested_projects.
Proof. apply (ValidateConfig_iff nested_projects). vm_compute. reflexivity. Qed.

(** C8: routing is exact and fails closed.  [Resolve] returns the longest
    configured zone that is a suffix of whole labels of the normalised FQDN,
    with the credential that serves it; it fails, with an error that is
    [ErrNoMatch], exactly when the name is empty or no configured zone is such a
    suffix. *)
Theorem Resolve_correct {RT : Runtime} (c : Config) (fqdn : string) :
  match Resolve (Some c) fqdn with
  | Ok (cred, z) =>
      normaliseFQDN fqdn <> EmptyString /\ routes c (normaliseFQDN fqdn) z cred
  | Err e =>
      errors_Is e ErrNoMatch = true /\
      (normaliseFQDN fqdn = EmptyString \/
       forall z, label_suffix z (normaliseFQDN fqdn) -> ~ configured c z)
  end.
Proof.
  destruct (Resolve (Some c) fqdn) as [[cred z]|e] eqn:E.
  - by apply Resolve_ok_iff.
  - split; [by eapply Resolve_err_Is|]. apply Resolve_err_iff. by rewrite E.
Qed.

(** C10: [ValidateConfig] returns no error exactly for the valid configurations:
    at least one credential, names that are not blank and pairwise distinct,
    Secret references that are not blank, non-empty zone lists whose entries are
    zone-apexes of the accepted grammar, and no zone (case apart) listed twice
    anywhere. *)
Theorem ValidateConfig_correct {RT : Runtime} (c : Config) :
  ValidateConfig (Some c) = None <-> valid_config c.
Proof. apply ValidateConfig_iff. Qed.

(** C15: in a validated configuration the credential [Resolve] picks is the only
    one that lists the zone, so no challenge is routed to another project. *)
Theorem Resolve_sole_owner {RT : Runtime} c fqdn cred z cred' i :
  ValidateConfig (Some c) = None ->
  Resolve (Some c) fqdn = Ok (cred, z) ->
  Credentials c !! i = Some cred' -> lists cred' z -> cred' = cred.
Proof.
  intros Hv Hr Hi Hl. apply ValidateConfig_iff in Hv.
  apply Resolve_ok_iff in Hr. destruct Hr as (_ & _ & Hs & _).
  apply (serves_functional c z); [|done]. apply valid_serves_iff; [done|].
  split; [by eapply list_elem_of_lookup_2 | done].
Qed.

Lemma Resolve_sole_owner_witness :
  mkCredential "project-b" ["Example.org"] "cert-manager/b#token" =
  mkCredential "project-b" ["Example.org"] "cert-manager/b#token".
Proof.
  apply (Resolve_sole_owner two_projects "_acme-challenge.app.example.org." _ "example.org" _ 1%nat).
  - vm_compute. reflexivity.
  - vm_compute. reflexivity.
  - reflexivity.
  - vm_compute. left.
Defined.

(** The order of the credentials is irrelevant to a validated
    configuration: every FQDN gets the same answer, error texts included. *)
Theorem Resolve_order_irrelevant {RT : Runtime} c c' fqdn :
  ValidateConfig (Some c) = None -> Credentials c ≡ₚ Credentials c' ->
  Resolve (Some c) fqdn = Resolve (Some c') fqdn.
Proof. intros Hv. apply Resolve_perm. by apply ValidateConfig_iff. Qed.

Lemma Resolve_order_irrelevant_witness :
  Resolve (Some two_projects) "_acme-challenge.example.xyz" =
  Resolve (Some two_projects_swapped) "_acme-challenge.example.xyz".
Proof.
  apply Resolve_order_irrelevant; [vm_compute; reflexivity|].
  apply perm_swap.
Defined.

(** C38: when no configured zone is a single label or one of the listed public
    suffixes, at most one configured zone is a label suffix of a name: there is
    no precedence between zones to decide. *)
Theorem matching_zone_unique {RT : Runtime} c name z z' :
  ValidateConfig (Some c) = None ->
  (forall w, configured c w -> length (Split w dot) <> 1%nat /\ ~ public_suffix w) ->
  configured c z -> configured c z' ->
  label_suffix z name -> label_suffix z' name -> z = z'.
Proof.
  intros Hv Hw Hz Hz' Hs Hs'. apply ValidateConfig_iff in Hv.
  assert (forall a b, configured c a -> configured c b -> label_suffix b a -> a = b) as Hab.
  { intros a b Ha Hb Hab. destruct (decide (b = a)) as [|Hne]; [done|]. exfalso.
    destruct (valid_configured_lower c Hv a Ha) as [_ Hlow].
    destruct Ha as (cred & Hin & Hl).
    destruct (valid_lists_zone c Hv cred a Hin Hl) as (a0 & Ha0 & ->).
    destruct (Hw b Hb) as [H1 H2].
    destruct (valid_zone_nested (ToLower a0) b) as [H|H]; try done.
    by apply valid_zone_lower. }
  destruct (decide (String.length z' <= String.length z)%nat) as [H|H].
  - apply Hab; [done..|]. by eapply label_suffix_nested.
  - symmetry. apply Hab; [done..|]. eapply label_suffix_nested; [done..|lia].
Qed.

Lemma matching_zone_unique_witness : "example.org" = "example.org".
Proof.
  apply (matching_zone_unique two_projects "app.example.org").
  - vm_compute. reflexivity.
  - intros w (cred & Hin & Hl). unfold two_projects in Hin. cbn [Credentials] in Hin.
    assert (w ∈ ["example.com"; "example.net"; "example.org"]) as Hw.
    { rewrite !elem_of_cons in Hin.
      destruct Hin as [->|[->|Hin]]; [..|by apply not_elem_of_nil in Hin];
        vm_compute in Hl; set_solver. }
    rewrite !elem_of_cons in Hw.
    destruct Hw as [->|[->|[->|Hw]]]; [..|by apply not_elem_of_nil in Hw];
      (split; [by vm_compute | unfold public_suffix; apply (bool_decide_unpack (_ ∉ _)); by vm_compute]).
  - eexists. split; [right; left | vm_compute; left].
  - eexists. split; [right; left | vm_compute; left].
  - right. by exists "app".
  - right. by exists "app".
Defined.

(** Without that restriction the validator admits nested zones: both
    [co.uk] and [example.co.uk] pass, under different credentials, and both match
    the same FQDN; the walk from the leaf picks the inner zone. *)
Theorem nested_zones_accepted {RT : Runtime} :
  ValidateConfig (Some nested_projects) = None /\
  configured nested_projects "co.uk" /\ configured nested_projects "example.co.uk" /\
  label_suffix "co.uk" (normaliseFQDN "_acme-challenge.www.example.co.uk.") /\
  Resolve (Some nested_projects) "_acme-challenge.www.example.co.uk." =
    Ok (mkCredential "shop" ["example.co.uk"] "cert-manager/b#token", "example.co.uk").
Proof.
  split; [by apply ValidateConfig_iff, nested_projects_valid|].
  split; [eexists; split; [left | vm_compute; left]|].
  split; [eexists; split; [right; left | vm_compute; left]|].
  split; [right; by exists "www.example"|].
  vm_compute. reflexivity.
Qed.

(** C39: the shapes a caller may use are equivalent: with or without the
    [_acme-challenge.] prefix, with or without the final dot, in any ASCII case,
    with or without ASCII white space around it, a bare name is answered alike,
    error texts included. *)
Theorem Resolve_shapes {RT : Runtime} c f f' g g' :
  bare_name f -> bare_name f' -> ToLower f = ToLower f' ->
  shapes f g -> shapes f' g' -> Resolve c g = Resolve c g'.
Proof.
  intros Hf Hf' Heq Hg Hg'. apply Resolve_normalised.
  by rewrite (normaliseFQDN_shapes f), (normaliseFQDN_shapes f').
Qed.

Lemma Resolve_shapes_witness :
  Resolve (Some two_projects) ("  _acme-challenge.APP.example.ORG." +:+ byte1 (chr 10)) =
  Resolve (Some two_projects) "app.Example.org".
Proof.
  apply (Resolve_shapes _ "APP.example.ORG" "app.Example.org").
  - repeat split; by vm_compute.
  - repeat split; by vm_compute.
  - by vm_compute.
  - exists "  ", "_acme-challenge.APP.example.ORG.", (byte1 (chr 10)).
    split; [done|]. split; [right; right; right; left|done].
  - exists EmptyString, "app.Example.org", EmptyString. split; [done|]. split; [left|done].
Defined.
