(* ===== verification/Json.v ===== *)
(** JSON documents as [encoding/json] reads and writes them: a parser, the
    escaping of strings, a printer, and the rules by which a parsed value is
    stored into a Go value of a given type.

    String literals are kept in the tree as they stand between their quotes and
    are unquoted when they are stored, as the decoder does it. *)
From S2P Require Import Prelude GoStrings Utf8 Runtime Quote.

#[local] Set Warnings "-register-all".

Inductive json :=
| JNull
| JBool (b : bool)
| JNum (lit : string)
| JStr (raw : string)
| JArr (l : list json)
| JObj (members : list (string * json)).

(** ** String literals *)

(** The literal up to its closing quote, and what follows.  A control character
    ends the scan in error, as does an unknown escape ([valid_escapes]). *)
Fixpoint scan_string (s : string) : option (string * string) :=
  match s with
  | EmptyString => None
  | String c s' =>
      if code c =? 34 then Some (EmptyString, s')
      else if code c <? 32 then None
      else if code c =? 92 then
        match s' with
        | EmptyString => None
        | String e s'' =>
            if code e <? 32 then None
            else match scan_string s'' with
                 | Some (raw, rest) => Some (String c (String e raw), rest)
                 | None => None
                 end
        end
      else match scan_string s' with
           | Some (raw, rest) => Some (String c raw, rest)
           | None => None
           end
  end.

Definition hex4 (s : string) : option (Z * string) :=
  match s with
  | String a (String b (String c (String d s'))) =>
      match unhex a, unhex b, unhex c, unhex d with
      | Some w, Some x, Some y, Some z => Some (w * 4096 + x * 256 + y * 16 + z, s')
      | _, _, _, _ => None
      end
  | _ => None
  end.

(** The second half of a surrogate pair, if [s] starts with one. *)
Definition low_surrogate (s : string) : option (Z * string) :=
  match s with
  | String b (String u s') =>
      if (code b =? 92) && (code u =? 117) then
        match hex4 s' with
        | Some (r, s'') => if in_range 56320 57343 r then Some (r, s'') else None
        | None => None
        end
      else None
  | _ => None
  end.

(** [unquote]: escapes are replaced, invalid UTF-8 and lone surrogates become
    U+FFFD.  Each round consumes a byte, so the length of the literal is fuel
    enough. *)
Fixpoint unquote_aux (fuel : nat) (s : string) : option string :=
  match fuel with
  | O => match s with EmptyString => Some EmptyString | _ => None end
  | S f =>
    let cons_str (h : string) (o : option string) :=
      match o with Some t => Some (h +:+ t) | None => None end in
    match s with
    | EmptyString => Some EmptyString
    | String c s' =>
      if code c =? 92 then
        match s' with
        | EmptyString => None
        | String e s'' =>
          let b := code e in
          if (b =? 34) || (b =? 92) || (b =? 47) then cons_str (byte1 e) (unquote_aux f s'')
          else if b =? 98 then cons_str (byte1 (chr 8)) (unquote_aux f s'')
          else if b =? 102 then cons_str (byte1 (chr 12)) (unquote_aux f s'')
          else if b =? 110 then cons_str (byte1 (chr 10)) (unquote_aux f s'')
          else if b =? 114 then cons_str (byte1 (chr 13)) (unquote_aux f s'')
          else if b =? 116 then cons_str (byte1 (chr 9)) (unquote_aux f s'')
          else if b =? 117 then
            match hex4 s'' with
            | None => None
            | Some (r, s3) =>
              if in_range 55296 56319 r then
                match low_surrogate s3 with
                | Some (r', s4) =>
                    cons_str (encode_rune (65536 + (r - 55296) * 1024 + (r' - 56320)))
                      (unquote_aux f s4)
                | None => cons_str (encode_rune RuneError) (unquote_aux f s3)
                end
              else cons_str (encode_rune r) (unquote_aux f s3)
            end
          else None
        end
      else if ascii_byte c then cons_str (byte1 c) (unquote_aux f s')
      else let '(r, w) := decode_rune s in
           cons_str (encode_rune r) (unquote_aux f (drop_bytes w s))
    end
  end.

Definition unquote (raw : string) : option string := unquote_aux (String.length raw) raw.

(** The escaping [json.Marshal] applies (with HTML escaping, its default). *)
Definition escape_byte (c : ascii) : string :=
  let b := code c in
  if (b =? 34) || (b =? 92) then backslash c
  else if b =? 8 then backslash "b"%char
  else if b =? 12 then backslash "f"%char
  else if b =? 10 then backslash "n"%char
  else if b =? 13 then backslash "r"%char
  else if b =? 9 then backslash "t"%char
  else if (b <? 32) || (b =? 60) || (b =? 62) || (b =? 38)
  then backslash "u"%char +:+ hex_digits 4 b
  else byte1 c.

Fixpoint escape_aux (skip : nat) (s : string) : string :=
  match s with
  | EmptyString => EmptyString
  | String c s' =>
      match skip with
      | S k => String c (escape_aux k s')
      | O =>
          if ascii_byte c then escape_byte c +:+ escape_aux 0 s'
          else
            let '(r, w) := decode_rune s in
            if (w =? 1)%nat then backslash "u"%char +:+ hex_digits 4 RuneError +:+ escape_aux 0 s'
            else if in_range 8232 8233 r
            then match s' with (* a rune of three bytes *)
                 | String _ (String _ s3) =>
                     backslash "u"%char +:+ hex_digits 4 r +:+ escape_aux 0 s3
                 | _ => EmptyString
                 end
            else String c (escape_aux (w - 1) s')
      end
  end.

Definition escape (s : string) : string := escape_aux 0 s.

(** ** Documents *)

Definition is_ws (c : ascii) : bool :=
  let b := code c in (b =? 32) || (b =? 9) || (b =? 10) || (b =? 13).

Fixpoint skip_ws (s : string) : string :=
  match s with
  | String c s' => if is_ws c then skip_ws s' else s
  | EmptyString => EmptyString
  end.

(** The longest run of digits, and what follows. *)
Fixpoint span_digits (s : string) : string * string :=
  match s with
  | String c s' =>
      if is_digit c then let '(d, r) := span_digits s' in (String c d, r)
      else (EmptyString, s)
  | EmptyString => (EmptyString, EmptyString)
  end.

(** A number literal: sign, integer part without leading zeros, fraction,
    exponent. *)
Definition scan_number (s : string) : option (string * string) :=
  let '(sign, s1) :=
    match s with
    | String c s' => if code c =? 45 then (byte1 c, s') else (EmptyString, s)
    | EmptyString => (EmptyString, s)
    end in
  let int_part :=
    match s1 with
    | String c s' => if code c =? 48 then (byte1 c, s') else span_digits s1
    | EmptyString => (EmptyString, s1)
    end in
  let '(i, s2) := int_part in
  if String.eqb i EmptyString then None
  else
    let frac :=
      match s2 with
      | String c s' =>
          if code c =? 46 then
            let '(d, r) := span_digits s' in
            if String.eqb d EmptyString then None else Some (String c d, r)
          else Some (EmptyString, s2)
      | EmptyString => Some (EmptyString, s2)
      end in
    match frac with
    | None => None
    | Some (fr, s3) =>
      let expo :=
        match s3 with
        | String c s' =>
            if (code c =? 101) || (code c =? 69) then
              let '(sg, s4) :=
                match s' with
                | String d s'' =>
                    if (code d =? 43) || (code d =? 45) then (byte1 d, s'') else (EmptyString, s')
                | EmptyString => (EmptyString, s')
                end in
              let '(d, r) := span_digits s4 in
              if String.eqb d EmptyString then None else Some (String c (sg +:+ d), r)
            else Some (EmptyString, s3)
        | EmptyString => Some (EmptyString, s3)
        end in
      match expo with
      | None => None
      | Some (ex, s5) => Some (sign +:+ i +:+ fr +:+ ex, s5)
      end
    end.

(** [encoding/json] refuses documents nested deeper than this. *)
Definition maxNestingDepth : Z := 10000.

Definition expect (c : ascii) (s : string) : option string :=
  match s with
  | String d s' => if Ascii.eqb c d then Some s' else None
  | EmptyString => None
  end.

(** One value.  Every call consumes a byte before the next one starts, so the
    length of the document plus one is fuel enough. *)
Fixpoint parse_value (fuel : nat) (depth : Z) (s : string) : option (json * string) :=
  match fuel with
  | O => None
  | S f =>
    match skip_ws s with
    | EmptyString => None
    | String c s' as s0 =>
      let b := code c in
      if b =? 123 then
        if maxNestingDepth <=? depth then None
        else match expect "}"%char (skip_ws s') with
             | Some r => Some (JObj [], r)
             | None =>
                 match parse_members f (depth + 1) s' with
                 | Some (ms, r) => Some (JObj ms, r)
                 | None => None
                 end
             end
      else if b =? 91 then
        if maxNestingDepth <=? depth then None
        else match expect "]"%char (skip_ws s') with
             | Some r => Some (JArr [], r)
             | None =>
                 match parse_elements f (depth + 1) s' with
                 | Some (l, r) => Some (JArr l, r)
                 | None => None
                 end
             end
      else if b =? 34 then
        match scan_string s' with
        | Some (raw, r) =>
            match unquote raw with Some _ => Some (JStr raw, r) | None => None end
        | None => None
        end
      else if (b =? 45) || is_digit c then
        match scan_number s0 with Some (n, r) => Some (JNum n, r) | None => None end
      else if HasPrefix s0 "true" then Some (JBool true, drop_bytes 4 s0)
      else if HasPrefix s0 "false" then Some (JBool false, drop_bytes 5 s0)
      else if HasPrefix s0 "null" then Some (JNull, drop_bytes 4 s0)
      else None
    end
  end
with parse_members (fuel : nat) (depth : Z) (s : string) :
    option (list (string * json) * string) :=
  match fuel with
  | O => None
  | S f =>
    match expect dquote (skip_ws s) with
    | None => None
    | Some s1 =>
      match scan_string s1 with
      | None => None
      | Some (raw, s2) =>
        match unquote raw, expect ":"%char (skip_ws s2) with
        | Some key, Some s3 =>
          match parse_value f depth s3 with
          | None => None
          | Some (v, s4) =>
            match skip_ws s4 with
            | String c s5 =>
                if code c =? 125 then Some ([(key, v)], s5)
                else if code c =? 44 then
                  match parse_members f depth s5 with
                  | Some (ms, r) => Some ((key, v) :: ms, r)
                  | None => None
                  end
                else None
            | EmptyString => None
            end
          end
        | _, _ => None
        end
      end
    end
  end
with parse_elements (fuel : nat) (depth : Z) (s : string) : option (list json * string) :=
  match fuel with
  | O => None
  | S f =>
    match parse_value f depth s with
    | None => None
    | Some (v, s1) =>
      match skip_ws s1 with
      | String c s2 =>
          if code c =? 93 then Some ([v], s2)
          else if code c =? 44 then
            match parse_elements f depth s2 with
            | Some (l, r) => Some (v :: l, r)
            | None => None
            end
          else None
      | EmptyString => None
      end
    end
  end.

(** A whole document: one value and white space. *)
Definition parse_json (s : string) : option json :=
  match parse_value (2 * S (String.length s)) 0 s with
  | Some (v, rest) => if String.eqb (skip_ws rest) EmptyString then Some v else None
  | None => None
  end.

(** [json.Marshal]'s compact form. *)
Fixpoint print_json (j : json) : string :=
  match j with
  | JNull => "null"
  | JBool true => "true"
  | JBool false => "false"
  | JNum lit => lit
  | JStr raw => String dquote (raw +:+ byte1 dquote)
  | JArr l =>
      "[" +:+ (fix elems (l : list json) : string :=
                 match l with
                 | [] => EmptyString
                 | [v] => print_json v
                 | v :: l' => print_json v +:+ "," +:+ elems l'
                 end) l +:+ "]"
  | JObj ms =>
      "{" +:+ (fix mems (ms : list (string * json)) : string :=
                 match ms with
                 | [] => EmptyString
                 | [(k, v)] =>
                     String dquote (escape k +:+ byte1 dquote) +:+ ":" +:+ print_json v
                 | (k, v) :: ms' =>
                     String dquote (escape k +:+ byte1 dquote) +:+ ":" +:+ print_json v
                     +:+ "," +:+ mems ms'
                 end) ms +:+ "}"
  end.

(** A Go string as a JSON literal. *)
Definition json_string (s : string) : json := JStr (escape s).
Definition json_int (z : Z) : json := JNum (FormatInt z).

(** ** Storing a document into a Go value

    A store takes the value the destination holds: [null] leaves scalars and
    structs as they are, a repeated key stores over the first.  [None] stands for
    any error ([json.Unmarshal] goes on after a type mismatch and reports it at
    the end; its caller then drops the value). *)

Definition store (A : Type) : Type := json -> A -> option A.

Definition store_string : store string := fun j cur =>
  match j with JNull => Some cur | JStr raw => unquote raw | _ => None end.

(** [int] and [int64] *)
Definition store_int : store Z := fun j cur =>
  match j with JNull => Some cur | JNum lit => Atoi lit | _ => None end.

Definition store_bool : store bool := fun j cur =>
  match j with JNull => Some cur | JBool b => Some b | _ => None end.

Fixpoint store_elems {A} (elem : store A) (zero : A) (l : list json) (cur : list A) :
    option (list A) :=
  match l with
  | [] => Some []
  | v :: l' =>
      match elem v (hd zero cur), store_elems elem zero l' (tl cur) with
      | Some a, Some rest => Some (a :: rest)
      | _, _ => None
      end
  end.

(** A slice; [null] makes it nil. *)
Definition store_slice {A} (elem : store A) (zero : A) : store (list A) := fun j cur =>
  match j with JNull => Some [] | JArr l => store_elems elem zero l cur | _ => None end.

(** A pointer; [null] makes it nil. *)
Definition store_pointer {A} (elem : store A) (zero : A) : store (option A) := fun j cur =>
  match j with
  | JNull => Some None
  | _ => match elem j (default zero cur) with Some a => Some (Some a) | None => None end
  end.

(** A map with string keys and values; [null] makes it nil. *)
Definition store_string_map : store (gmap string string) := fun j cur =>
  match j with
  | JNull => Some ∅
  | JObj ms =>
      foldl (fun acc '(k, v) =>
               match acc, store_string v EmptyString with
               | Some m, Some s => Some (<[k := s]> m)
               | _, _ => None
               end) (Some cur) ms
  | _ => None
  end.

(** A field of a struct: its JSON name and the store into it. *)
Definition field (A : Type) : Type := string * store A.

Definition mk_field {A B} (name : string) (get : A -> B) (set : B -> A -> A)
    (st : store B) : field A :=
  (name, fun j cur => match st j (get cur) with Some b => Some (set b cur) | None => None end).

(** A key names the field spelled like it, else one spelled like it up to case;
    other keys are ignored. *)
Definition find_field {A} (fields : list (field A)) (key : string) : option (store A) :=
  match List.find (fun f => String.eqb (fst f) key) fields with
  | Some f => Some (snd f)
  | None =>
      match List.find (fun f => bool_decide (fold_name (fst f) = fold_name key)) fields with
      | Some f => Some (snd f)
      | None => None
      end
  end.

Definition store_struct {A} (fields : list (field A)) : store A := fun j cur =>
  match j with
  | JNull => Some cur
  | JObj ms =>
      foldl (fun acc '(k, v) =>
               match acc with
               | None => None
               | Some cur => match find_field fields k with Some st => st v cur | None => Some cur end
               end) (Some cur) ms
  | _ => None
  end.

(** [json.Unmarshal(data, &v)] for a destination that holds [zero]. *)
Definition Unmarshal {A} (st : store A) (zero : A) (data : string) : option A :=
  match parse_json data with
  | Some j => st j zero
  | None => None
  end.
