(* ===== verification/JsonFuel.v ===== *)
(** The fuel of the JSON parser is enough: every step consumes input, so more
    fuel than the length of the document calls for never changes a result. *)
From S2P Require Import Prelude GoStrings Utf8 Runtime Quote Json.

#[local] Abbreviation len := String.length.

(** ** Every scanner leaves less than it was given *)

Lemma skip_ws_le s : (len (skip_ws s) <= len s)%nat.
Proof. induction s as [|c s IH]; simpl; [lia|]. destruct (is_ws c); simpl; lia. Qed.

Lemma drop_bytes_le n s : (len (drop_bytes n s) <= len s - n)%nat.
Proof.
  revert n. induction s as [|c s IH]; intros [|n]; simpl; try lia. specialize (IH n). lia.
Qed.

Lemma expect_lt c s r : expect c s = Some r -> (len r < len s)%nat.
Proof.
  destruct s as [|d s]; [done|]. simpl. destruct (Ascii.eqb c d); [|done]. intros [= ->]. lia.
Qed.

Lemma scan_string_lt : forall n s raw r,
  (len s <= n)%nat -> scan_string s = Some (raw, r) -> (len r < len s)%nat.
Proof.
  induction n as [|n IH]; intros [|c s] raw r Hn; simpl in *; try done; try lia.
  destruct (code c =? 34); [intros [= <- <-]; lia|].
  destruct (code c <? 32); [done|]. destruct (code c =? 92).
  - destruct s as [|e s]; [done|]. destruct (code e <? 32); [done|].
    destruct (scan_string s) as [[raw' r']|] eqn:E; [|done]. intros [= <- <-].
    apply IH in E; simpl in *; lia.
  - destruct (scan_string s) as [[raw' r']|] eqn:E; [|done]. intros [= <- <-].
    apply IH in E; simpl in *; lia.
Qed.

Lemma span_digits_len s d r : span_digits s = (d, r) -> (len s = len d + len r)%nat.
Proof.
  revert d r. induction s as [|c s IH]; intros d r; simpl; [by intros [= <- <-]|].
  destruct (is_digit c); [|by intros [= <- <-]].
  destruct (span_digits s) as [d' r'] eqn:E. intros [= <- <-]. simpl. by rewrite (IH _ _ eq_refl).
Qed.

Lemma not_empty_len s : (s =? EmptyString)%string = false -> (1 <= len s)%nat.
Proof. destruct s; simpl; [done|lia]. Qed.

Lemma scan_number_lt s n r : scan_number s = Some (n, r) -> (len r < len s)%nat.
Proof.
  unfold scan_number.
  set (p1 := match s with EmptyString => _ | String c s' => _ end).
  assert (len (snd p1) <= len s)%nat as H1.
  { unfold p1. destruct s as [|c s]; [done|]. destruct (code c =? 45); simpl; lia. }
  destruct p1 as [sign s1]. simpl in H1.
  set (p2 := match s1 with EmptyString => _ | String c s' => _ end).
  assert ((fst p2 =? EmptyString)%string = false -> len (snd p2) < len s1)%nat as H2.
  { unfold p2. destruct s1 as [|c s1]; [done|]. destruct (code c =? 48); [simpl; lia|].
    destruct (span_digits (String c s1)) as [d r'] eqn:E. apply span_digits_len in E.
    intros Hd%not_empty_len. cbn [fst snd] in *. lia. }
  destruct p2 as [i s2]. simpl in H2. destruct (i =? EmptyString)%string; [done|].
  specialize (H2 eq_refl).
  set (p3 := match s2 with EmptyString => _ | String c s' => _ end).
  assert (forall fr s3, p3 = Some (fr, s3) -> len s3 <= len s2)%nat as H3.
  { unfold p3. intros fr s3. destruct s2 as [|c s2]; [by intros [= <- <-]|].
    destruct (code c =? 46); [|by intros [= <- <-]].
    destruct (span_digits s2) as [d r'] eqn:E. apply span_digits_len in E.
    destruct (d =? EmptyString)%string; [done|]. intros [= <- <-]. simpl. lia. }
  destruct p3 as [[fr s3]|]; [|done]. specialize (H3 fr s3 eq_refl).
  set (p4 := match s3 with EmptyString => _ | String c s' => _ end).
  assert (forall ex s5, p4 = Some (ex, s5) -> len s5 <= len s3)%nat as H4.
  { unfold p4. intros ex s5. destruct s3 as [|c s3]; [by intros [= <- <-]|].
    destruct (_ || _); [|by intros [= <- <-]].
    set (p5 := match s3 with EmptyString => _ | String c s' => _ end).
    assert (len (snd p5) <= len s3)%nat as H5.
    { unfold p5. destruct s3 as [|d s3]; [done|]. destruct (_ || _); simpl; lia. }
    destruct p5 as [sg s4]. destruct (span_digits s4) as [d r'] eqn:E.
    apply span_digits_len in E. destruct (d =? EmptyString)%string; [done|].
    intros [= <- <-]. simpl in *. lia. }
  destruct p4 as [[ex s5]|]; [|done]. specialize (H4 ex s5 eq_refl). intros [= <- <-]. lia.
Qed.

(** ** The parser consumes input *)

Definition shorter {A} (s : string) (o : option (A * string)) : Prop :=
  forall x r, o = Some (x, r) -> (len r < len s)%nat.

(** A value that is neither an array nor an object. *)
Lemma literal_lt c s (j : json) n x r :
  Some (j, drop_bytes (S n) (String c s)) = Some (x, r) -> (len r < len (String c s))%nat.
Proof.
  intros Hj. pose proof (drop_bytes_le (S n) (String c s)) as Hle.
  assert (r = drop_bytes (S n) (String c s)) as -> by congruence. cbn [String.length] in *. lia.
Qed.

(** One step of the parser, from the steps it calls. *)
Section Step.
Context (f : nat).
Context (IHv : forall d s, shorter s (parse_value f d s)).
Context (IHm : forall d s, shorter s (parse_members f d s)).
Context (IHe : forall d s, shorter s (parse_elements f d s)).

Lemma parse_value_lt d s : shorter s (parse_value (S f) d s).
Proof.
  intros x r. cbn [parse_value].
  pose proof (skip_ws_le s) as Hws. destruct (skip_ws s) as [|c s'] eqn:Es; [done|].
  cbn [String.length] in Hws. pose proof (skip_ws_le s') as Hws'.
  destruct (code c =? 123); [|destruct (code c =? 91); [|destruct (code c =? 34)]].
  - destruct (_ <=? d); [done|]. destruct (expect _ _) as [r'|] eqn:Ex.
    + apply expect_lt in Ex. intros [= _ <-]. lia.
    + destruct (parse_members f _ s') as [[ms r']|] eqn:Em; [|done]. apply IHm in Em.
      intros [= _ <-]. lia.
  - destruct (_ <=? d); [done|]. destruct (expect _ _) as [r'|] eqn:Ex.
    + apply expect_lt in Ex. intros [= _ <-]. lia.
    + destruct (parse_elements f _ s') as [[ms r']|] eqn:Em; [|done]. apply IHe in Em.
      intros [= _ <-]. lia.
  - destruct (scan_string s') as [[raw r']|] eqn:E; [|done].
    apply (scan_string_lt _ _ _ _ (Nat.le_refl _)) in E.
    destruct (unquote raw); [|done]. intros [= _ <-]. lia.
  - destruct (_ || _).
    { destruct (scan_number _) as [[n r']|] eqn:E; [|done]. apply scan_number_lt in E.
      cbn [String.length] in E. intros [= _ <-]. lia. }
    repeat (destruct (HasPrefix _ _);
            [intros Hj; apply literal_lt in Hj; cbn [String.length] in Hj; lia|]). done.
Qed.

Lemma parse_members_lt d s : shorter s (parse_members (S f) d s).
Proof.
  intros x r. cbn [parse_members].
  destruct (expect dquote (skip_ws s)) as [s1|] eqn:E1; [|done]. apply expect_lt in E1.
  pose proof (skip_ws_le s).
  destruct (scan_string s1) as [[raw s2]|] eqn:E2; [|done].
  apply (scan_string_lt _ _ _ _ (Nat.le_refl _)) in E2. pose proof (skip_ws_le s2).
  destruct (unquote raw); [|done]. destruct (expect _ (skip_ws s2)) as [s3|] eqn:E3; [|done].
  apply expect_lt in E3. destruct (parse_value f d s3) as [[v s4]|] eqn:E4; [|done].
  apply IHv in E4. pose proof (skip_ws_le s4). destruct (skip_ws s4) as [|c s5]; [done|].
  cbn [String.length] in *. destruct (code c =? 125); [intros [= _ <-]; lia|].
  destruct (code c =? 44); [|done].
  destruct (parse_members f d s5) as [[ms r']|] eqn:E5; [|done]. apply IHm in E5.
  intros [= _ <-]. lia.
Qed.

Lemma parse_elements_lt d s : shorter s (parse_elements (S f) d s).
Proof.
  intros x r. cbn [parse_elements].
  destruct (parse_value f d s) as [[v s1]|] eqn:E1; [|done]. apply IHv in E1.
  pose proof (skip_ws_le s1). destruct (skip_ws s1) as [|c s2]; [done|].
  cbn [String.length] in *. destruct (code c =? 93); [intros [= _ <-]; lia|].
  destruct (code c =? 44); [|done].
  destruct (parse_elements f d s2) as [[ms r']|] eqn:E5; [|done]. apply IHe in E5.
  intros [= _ <-]. lia.
Qed.
End Step.

Lemma parse_lt f :
  (forall d s v r, parse_value f d s = Some (v, r) -> (len r < len s)%nat) /\
  (forall d s ms r, parse_members f d s = Some (ms, r) -> (len r < len s)%nat) /\
  (forall d s l r, parse_elements f d s = Some (l, r) -> (len r < len s)%nat).
Proof.
  induction f as [|f (IHv & IHm & IHe)]; [done|].
  split; [|split]; intros d s; [by apply parse_value_lt|by apply parse_members_lt|by apply parse_elements_lt].
Qed.

(** ** Fuel does not matter once there is enough *)

Lemma parse_fuel n :
  (forall d s f1 f2, (len s <= n)%nat -> (2 * n + 1 <= f1)%nat -> (2 * n + 1 <= f2)%nat ->
     parse_value f1 d s = parse_value f2 d s) /\
  (forall d s f1 f2, (len s <= n)%nat -> (2 * n + 1 <= f1)%nat -> (2 * n + 1 <= f2)%nat ->
     parse_members f1 d s = parse_members f2 d s) /\
  (forall d s f1 f2, (len s <= n)%nat -> (2 * n + 2 <= f1)%nat -> (2 * n + 2 <= f2)%nat ->
     parse_elements f1 d s = parse_elements f2 d s).
Proof.
  induction n as [n IH] using (well_founded_induction lt_wf).
  assert (forall d s f1 f2, (len s <= n)%nat -> (2 * n + 1 <= f1)%nat -> (2 * n + 1 <= f2)%nat ->
     parse_value f1 d s = parse_value f2 d s) as Hv.
  { intros d s [|f1] [|f2] Hn H1 H2; try lia. cbn [parse_value].
    pose proof (skip_ws_le s) as Hws. destruct (skip_ws s) as [|c s']; [done|].
    cbn [String.length] in Hws. destruct (IH (len s') ltac:(lia)) as (_ & IHm & IHe).
    rewrite (IHm (d + 1) s' f1 f2), (IHe (d + 1) s' f1 f2) by lia. done. }
  split; [done|]. split.
  - intros d s [|f1] [|f2] Hn H1 H2; try lia. cbn [parse_members].
    destruct (expect dquote (skip_ws s)) as [s1|] eqn:E1; [|done]. apply expect_lt in E1.
    pose proof (skip_ws_le s). destruct (scan_string s1) as [[raw s2]|] eqn:E2; [|done].
    apply (scan_string_lt _ _ _ _ (Nat.le_refl _)) in E2. pose proof (skip_ws_le s2).
    destruct (unquote raw); [|done]. destruct (expect _ (skip_ws s2)) as [s3|] eqn:E3; [|done].
    apply expect_lt in E3. destruct (IH (len s3) ltac:(lia)) as (IHv & _ & _).
    rewrite (IHv d s3 f1 f2) by lia. destruct (parse_value f2 d s3) as [[v s4]|] eqn:E4; [|done].
    apply parse_lt in E4. pose proof (skip_ws_le s4). destruct (skip_ws s4) as [|c s5]; [done|].
    cbn [String.length] in *. destruct (IH (len s5) ltac:(lia)) as (_ & IHm & _).
    by rewrite (IHm d s5 f1 f2) by lia.
  - intros d s [|f1] [|f2] Hn H1 H2; try lia. cbn [parse_elements].
    rewrite (Hv d s f1 f2) by lia. destruct (parse_value f2 d s) as [[v s1]|] eqn:E1; [|done].
    apply parse_lt in E1. pose proof (skip_ws_le s1). destruct (skip_ws s1) as [|c s2]; [done|].
    cbn [String.length] in *. destruct (IH (len s2) ltac:(lia)) as (_ & _ & IHe).
    by rewrite (IHe d s2 f1 f2) by lia.
Qed.

Lemma parse_value_fuel f s :
  (2 * S (len s) <= f)%nat -> parse_value f 0 s = parse_value (2 * S (len s)) 0 s.
Proof. intros H. apply (parse_fuel (len s)); lia. Qed.
