(* ===== verification/JsonRoundtrip.v ===== *)
(** What is printed parses back: string literals and documents. *)
From S2P Require Import Prelude GoStrings Utf8 Runtime Quote Json JsonFuel.

(** ** String literals of ASCII text *)

Lemma escape_ascii_cons c s :
  ascii_byte c = true -> escape (String c s) = escape_byte c +:+ escape s.
Proof. intros H. unfold escape. cbn [escape_aux]. by rewrite H. Qed.

Lemma unquote_escape_byte c f t :
  ascii_byte c = true ->
  unquote_aux (S f) (escape_byte c +:+ t) =
  match unquote_aux f t with Some s => Some (String c s) | None => None end.
Proof. destruct c as [[] [] [] [] [] [] [] []]; intros H; try discriminate H; reflexivity. Qed.

Lemma scan_escape_byte c t :
  ascii_byte c = true ->
  scan_string (escape_byte c +:+ t) =
  match scan_string t with
  | Some (raw, rest) => Some (escape_byte c +:+ raw, rest)
  | None => None
  end.
Proof.
  destruct c as [[] [] [] [] [] [] [] []]; intros H; try discriminate H;
    simpl; by destruct (scan_string t) as [[]|].
Qed.

Lemma escape_byte_length c : (1 <= String.length (escape_byte c))%nat.
Proof. destruct c as [[] [] [] [] [] [] [] []]; vm_compute; lia. Qed.

Lemma unquote_aux_escape s f :
  all_bytes ascii_byte s = true -> (String.length s <= f)%nat ->
  unquote_aux f (escape s) = Some s.
Proof.
  revert f. induction s as [|c s IH]; intros f; simpl; [by destruct f|].
  intros [Hc Hs]%andb_true_iff. destruct f as [|f]; [lia|]. intros Hf.
  by rewrite escape_ascii_cons, unquote_escape_byte, IH by (done || lia).
Qed.

Lemma escape_length s :
  all_bytes ascii_byte s = true -> (String.length s <= String.length (escape s))%nat.
Proof.
  induction s as [|c s IH]; simpl; [lia|]. intros [Hc Hs]%andb_true_iff.
  rewrite escape_ascii_cons, sapp_length by done. pose proof (escape_byte_length c).
  specialize (IH Hs). lia.
Qed.

Lemma unquote_escape s : all_bytes ascii_byte s = true -> unquote (escape s) = Some s.
Proof. intros H. apply unquote_aux_escape; [done|]. by apply escape_length. Qed.

Lemma scan_escape s t :
  all_bytes ascii_byte s = true ->
  scan_string (escape s +:+ String dquote t) = Some (escape s, t).
Proof.
  induction s as [|c s IH]; [done|]. simpl all_bytes. intros [Hc Hs]%andb_true_iff.
  by rewrite escape_ascii_cons, sapp_assoc, scan_escape_byte, IH by done.
Qed.

(** ** Numbers *)

(** What may follow a value in a document: nothing a number could go on with. *)
Definition stops (s : string) : bool :=
  match s with
  | EmptyString => true
  | String c _ => (code c =? 44) || (code c =? 93) || (code c =? 125)
  end.

Lemma span_digits_stop d t :
  all_bytes is_digit d = true -> stops t = true -> span_digits (d +:+ t) = (d, t).
Proof.
  intros Hd Ht. induction d as [|c d IH]; simpl in *.
  - destruct t as [|c t]; [done|]. simpl. simpl in Ht.
    assert (is_digit c = false) as ->; [|done]. unfold is_digit. to_prop; apply andb_false_iff;
      (left; apply Z.leb_gt; lia) || (right; apply Z.leb_gt; lia).
  - to_prop. rewrite H, IH by done. done.
Qed.

Lemma stops_after t :
  stops t = true ->
  match t with
  | String c s' =>
      if code c =? 46 then
        let '(d, r) := span_digits s' in
        if String.eqb d EmptyString then None else Some (String c d, r)
      else Some (EmptyString, t)
  | EmptyString => Some (EmptyString, t)
  end = Some (EmptyString, t) /\
  forall c s', t = String c s' -> (code c =? 101) || (code c =? 69) = false.
Proof.
  destruct t as [|c t]; simpl; [done|]. intros H. split.
  - destruct (code c =? 46) eqn:E; [|done]. to_prop; lia.
  - intros c' s' [= <- <-]. to_prop; apply orb_false_iff; split; apply Z.eqb_neq; lia.
Qed.

(** The digits [FormatInt] prints have no leading zero. *)
Lemma digits_aux_lead f z acc :
  0 < z < 10 ^ Z.of_nat f -> all_bytes is_digit acc = true ->
  exists c d, digits_aux f z acc = String c d /\ is_digit c = true /\ code c <> 48 /\
    all_bytes is_digit d = true.
Proof.
  revert z acc. induction f as [|f IH]; intros z acc Hz Ha; [simpl in Hz; lia|]. cbn [digits_aux].
  pose proof (Z.mod_pos_bound z 10 ltac:(lia)) as Hm.
  destruct (z <? 10) eqn:E; to_prop.
  - exists (digit (z `mod` 10)), acc. rewrite Z.mod_small by lia.
    rewrite is_digit_digit, code_digit by lia. repeat split; [lia|done].
  - rewrite Nat2Z.inj_succ, Z.pow_succ_r in Hz by lia. apply IH.
    + split; [apply Z.div_str_pos; lia | apply Z.div_lt_upper_bound; lia].
    + simpl. by rewrite is_digit_digit.
Qed.

Lemma digits_shape z :
  0 <= z <= 2 ^ 63 -> exists c d, digits_aux 20 z EmptyString = String c d /\
    is_digit c = true /\ all_bytes is_digit d = true /\ (code c = 48 -> d = EmptyString).
Proof.
  intros Hz. destruct (decide (z = 0)) as [->|Hne].
  - by exists "0"%char, EmptyString.
  - destruct (digits_aux_lead 20 z EmptyString) as (c & d & E & Hc & Hn & Hd); [lia|done|].
    by exists c, d.
Qed.

Definition sign_of (s : string) : string * string :=
  match s with
  | String c s' => if code c =? 45 then (byte1 c, s') else (EmptyString, s)
  | EmptyString => (EmptyString, s)
  end.

Lemma scan_number_digits sign s c d t :
  sign_of s = (sign, String c (d +:+ t)) ->
  is_digit c = true -> all_bytes is_digit d = true -> (code c = 48 -> d = EmptyString) ->
  stops t = true -> scan_number s = Some (sign +:+ String c d, t).
Proof.
  intros Hs Hc Hd Hz Ht. unfold scan_number. fold (sign_of s). rewrite Hs.
  assert ((if code c =? 48 then (byte1 c, d +:+ t) else span_digits (String c (d +:+ t)))
          = (String c d, t)) as ->.
  { destruct (code c =? 48) eqn:E; to_prop; [by rewrite (Hz E)|].
    apply (span_digits_stop (String c d)); [|done]. simpl. by rewrite Hc, Hd. }
  cbn [String.eqb]. destruct (stops_after t Ht) as [-> He].
  destruct t as [|e t']; [by rewrite !sapp_nil_r|].
  rewrite (He e t' eq_refl). by rewrite !sapp_nil_r.
Qed.

Lemma scan_FormatInt z t :
  in_int64 z = true -> stops t = true ->
  scan_number (FormatInt z +:+ t) = Some (FormatInt z, t).
Proof.
  unfold in_int64, int64_min, int64_max. intros Hr Ht. to_prop. unfold FormatInt.
  destruct (z <? 0) eqn:E; to_prop.
  - destruct (digits_shape (- z)) as (c & d & -> & Hc & Hd & Hz); [lia|].
    by apply (scan_number_digits "-" _ c d t).
  - destruct (digits_shape z) as (c & d & -> & Hc & Hd & Hz); [lia|].
    apply (scan_number_digits EmptyString _ c d t); try done. simpl.
    unfold is_digit in Hc. to_prop. destruct (code c =? 45) eqn:E'; to_prop; [lia|done].
Qed.

Lemma FormatInt_head z :
  in_int64 z = true -> exists c s, FormatInt z = String c s /\
    (code c =? 45) || is_digit c = true /\ is_ws c = false /\
    code c <> 123 /\ code c <> 91 /\ code c <> 34.
Proof.
  unfold in_int64, int64_min, int64_max. intros Hr. to_prop. unfold FormatInt.
  destruct (z <? 0) eqn:E; to_prop; [by eexists _, _|].
  destruct (digits_shape z) as (c & d & -> & Hc & _); [lia|]. exists c, d. split; [done|].
  split; [by rewrite Hc, orb_true_r|]. unfold is_digit in Hc. to_prop. split; [|lia].
  unfold is_ws. repeat (apply orb_false_iff; split); apply Z.eqb_neq; lia.
Qed.

(** ** Documents *)

(** The documents the program can print: 64-bit numbers, ASCII strings. *)
Fixpoint good (j : json) : Prop :=
  match j with
  | JNull | JBool _ => True
  | JNum lit => exists z, in_int64 z = true /\ lit = FormatInt z
  | JStr raw => exists s, all_bytes ascii_byte s = true /\ raw = escape s
  | JArr l => foldr (fun v acc => good v /\ acc) True l
  | JObj ms => foldr (fun kv acc => (all_bytes ascii_byte (fst kv) = true /\ good (snd kv)) /\ acc)
                 True ms
  end.

Fixpoint nesting (j : json) : Z :=
  match j with
  | JArr l => 1 + foldr (fun v acc => Z.max (nesting v) acc) 0 l
  | JObj ms => 1 + foldr (fun kv acc => Z.max (nesting (snd kv)) acc) 0 ms
  | _ => 0
  end.

Section Induction.
Context (P : json -> Prop) (Hnull : P JNull) (Hbool : forall b, P (JBool b))
  (Hnum : forall lit, P (JNum lit)) (Hstr : forall raw, P (JStr raw))
  (Harr : forall l, Forall P l -> P (JArr l))
  (Hobj : forall ms, Forall (fun kv => P (snd kv)) ms -> P (JObj ms)).

Fixpoint json_nested_ind (j : json) : P j :=
  match j with
  | JNull => Hnull
  | JBool b => Hbool b
  | JNum lit => Hnum lit
  | JStr raw => Hstr raw
  | JArr l => Harr l ((fix go l : Forall P l :=
      match l with
      | [] => List.Forall_nil _
      | v :: l => List.Forall_cons _ _ _ (json_nested_ind v) (go l)
      end) l)
  | JObj ms => Hobj ms ((fix go ms : Forall (fun kv => P (snd kv)) ms :=
      match ms with
      | [] => List.Forall_nil _
      | kv :: ms => List.Forall_cons _ _ _ (json_nested_ind (snd kv)) (go ms)
      end) ms)
  end.
End Induction.

(** The elements and the members of a printed document, up to the closing
    bracket. *)
Fixpoint print_elements (l : list json) : string :=
  match l with
  | [] => EmptyString
  | [v] => print_json v
  | v :: l' => print_json v +:+ "," +:+ print_elements l'
  end.

Definition print_member (kv : string * json) : string :=
  String dquote (escape (fst kv) +:+ byte1 dquote) +:+ ":" +:+ print_json (snd kv).

Fixpoint print_members (ms : list (string * json)) : string :=
  match ms with
  | [] => EmptyString
  | [kv] => print_member kv
  | kv :: ms' => print_member kv +:+ "," +:+ print_members ms'
  end.

Lemma print_JArr l : print_json (JArr l) = "[" +:+ print_elements l +:+ "]".
Proof. reflexivity. Qed.

Lemma print_JObj ms : print_json (JObj ms) = "{" +:+ print_members ms +:+ "}".
Proof.
  cbn [print_json]. do 2 f_equal. induction ms as [|[k v] [|kv ms] IH]; [done..|].
  change (print_members ((k, v) :: kv :: ms))
    with (print_member (k, v) +:+ "," +:+ print_members (kv :: ms)).
  rewrite <- IH. destruct kv. unfold print_member. cbn [fst snd].
  by rewrite !sapp_assoc.
Qed.

(** A printed value starts with a byte that is not white space or a closing
    bracket. *)
Lemma print_head j :
  good j -> exists c s, print_json j = String c s /\ is_ws c = false /\ c <> "]"%char.
Proof.
  destruct j as [|[]|lit|raw|l|ms]; intros Hg; try (by eexists _, _).
  destruct Hg as (z & Hz & ->). cbn [print_json].
  destruct (FormatInt_head z Hz) as (c & s & -> & Hc & Hw & _). exists c, s.
  split; [done|]. split; [done|]. by intros ->.
Qed.

(** Parsing what [j] prints to, with enough fuel and room to nest. *)
Definition parses (j : json) : Prop :=
  exists f0, forall f d t, (f0 <= f)%nat -> d + nesting j <= maxNestingDepth ->
    stops t = true -> parse_value f d (print_json j +:+ t) = Some (j, t).

Lemma foldr_good l : foldr (fun v acc => good v /\ acc) True l <-> Forall good l.
Proof.
  induction l as [|v l IH]; simpl; [by split|]. rewrite IH, Forall_cons. done.
Qed.

Lemma skip_ws_head c s : is_ws c = false -> skip_ws (String c s) = String c s.
Proof. simpl. by intros ->. Qed.

(** A bracket or a brace opens a list, if there is room. *)
Lemma parse_open_array f d s :
  d < maxNestingDepth ->
  parse_value (S f) d ("[" +:+ s) =
    match expect "]"%char (skip_ws s) with
    | Some r => Some (JArr [], r)
    | None => match parse_elements f (d + 1) s with
              | Some (l, r) => Some (JArr l, r)
              | None => None
              end
    end.
Proof.
  intros Hd. cbn [parse_value String.append]. rewrite skip_ws_head by done.
  change (code "[" =? 123) with false. change (code "[" =? 91) with true. cbv iota.
  by rewrite (proj2 (Z.leb_gt _ _)) by lia.
Qed.

Lemma parse_open_object f d s :
  d < maxNestingDepth ->
  parse_value (S f) d ("{" +:+ s) =
    match expect "}"%char (skip_ws s) with
    | Some r => Some (JObj [], r)
    | None => match parse_members f (d + 1) s with
              | Some (ms, r) => Some (JObj ms, r)
              | None => None
              end
    end.
Proof.
  intros Hd. cbn [parse_value String.append]. rewrite skip_ws_head by done.
  change (code "{" =? 123) with true. cbv iota.
  by rewrite (proj2 (Z.leb_gt _ _)) by lia.
Qed.

Lemma foldr_good_members ms :
  foldr (fun kv acc => (all_bytes ascii_byte (fst kv) = true /\ good (snd kv)) /\ acc) True ms <->
  Forall (fun kv => all_bytes ascii_byte (fst kv) = true) ms /\ Forall (fun kv => good (snd kv)) ms.
Proof.
  induction ms as [|v l IH]; simpl; [done|]. rewrite IH, !Forall_cons. tauto.
Qed.

(** One round of each list parser. *)
Lemma parse_elements_last f d s v t :
  parse_value f d s = Some (v, String "]" t) -> parse_elements (S f) d s = Some ([v], t).
Proof. cbn [parse_elements]. by intros ->. Qed.

Lemma parse_elements_more f d s v s' l t :
  parse_value f d s = Some (v, String "," s') -> parse_elements f d s' = Some (l, t) ->
  parse_elements (S f) d s = Some (v :: l, t).
Proof.
  cbn [parse_elements]. intros -> Hl. change (skip_ws (String "," s')) with (String "," s').
  change (code "," =? 93) with false. change (code "," =? 44) with true. cbv iota. by rewrite Hl.
Qed.

Lemma parse_members_last f d k s v t :
  all_bytes ascii_byte k = true -> parse_value f d s = Some (v, String "}" t) ->
  parse_members (S f) d (String dquote (escape k +:+ String dquote (String ":" s))) =
    Some ([(k, v)], t).
Proof.
  intros Hk Hv. cbn [parse_members].
  change (expect dquote (skip_ws (String dquote ?s))) with (Some s). cbv iota.
  rewrite scan_escape, unquote_escape by done.
  change (expect ":"%char (skip_ws (String ":" s))) with (Some s). cbv iota. by rewrite Hv.
Qed.

Lemma parse_members_more f d k s v s' ms t :
  all_bytes ascii_byte k = true -> parse_value f d s = Some (v, String "," s') ->
  parse_members f d s' = Some (ms, t) ->
  parse_members (S f) d (String dquote (escape k +:+ String dquote (String ":" s))) =
    Some ((k, v) :: ms, t).
Proof.
  intros Hk Hv Hm. cbn [parse_members].
  change (expect dquote (skip_ws (String dquote ?s))) with (Some s). cbv iota.
  rewrite scan_escape, unquote_escape by done.
  change (expect ":"%char (skip_ws (String ":" s))) with (Some s). cbv iota. rewrite Hv.
  change (skip_ws (String "," s')) with (String "," s').
  change (code "," =? 125) with false. change (code "," =? 44) with true. cbv iota. by rewrite Hm.
Qed.

(** The rest of an array, and of an object, from an element on. *)
Lemma parse_elements_print l :
  l <> [] -> Forall parses l ->
  exists f0, forall f d t, (f0 <= f)%nat ->
    Forall (fun v => d + nesting v <= maxNestingDepth) l ->
    parse_elements f d (print_elements l +:+ String "]" t) = Some (l, t).
Proof.
  intros Hne Hp. induction Hp as [|v l [f0 Hv] Hp IH]; [done|]. clear Hne.
  destruct l as [|w l].
  - exists (S f0). intros [|f] d t Hf Hd; [lia|]. inversion Hd; subst.
    apply parse_elements_last. apply Hv; [lia|done|done].
  - destruct IH as [f1 IH]; [done|]. exists (S (Nat.max f0 f1)).
    intros [|f] d t Hf Hd; [lia|]. inversion Hd; subst.
    change (print_elements (v :: w :: l)) with (print_json v +:+ "," +:+ print_elements (w :: l)).
    rewrite !sapp_assoc. eapply parse_elements_more; [apply Hv; [lia|done|done]|].
    apply IH; [lia|done].
Qed.

Lemma parse_members_print ms :
  ms <> [] -> Forall (fun kv => all_bytes ascii_byte (fst kv) = true) ms ->
  Forall (fun kv => parses (snd kv)) ms ->
  exists f0, forall f d t, (f0 <= f)%nat ->
    Forall (fun kv => d + nesting (snd kv) <= maxNestingDepth) ms ->
    parse_members f d (print_members ms +:+ String "}" t) = Some (ms, t).
Proof.
  intros Hne Hk Hp. induction Hp as [|[k v] ms [f0 Hv] Hp IH]; [done|]. clear Hne.
  inversion Hk; subst. cbn [fst snd] in *. destruct ms as [|kv ms].
  - exists (S f0). intros [|f] d t Hf Hd; [lia|]. inversion Hd; subst.
    cbn [print_members]. unfold print_member. cbn [fst snd String.append].
    rewrite !sapp_assoc. unfold byte1. cbn [String.append].
    apply parse_members_last; [done|]. apply Hv; [lia|done|done].
  - destruct IH as [f1 IH]; [done..|]. exists (S (Nat.max f0 f1)).
    intros [|f] d t Hf Hd; [lia|]. inversion Hd; subst.
    change (print_members ((k, v) :: kv :: ms))
      with (print_member (k, v) +:+ "," +:+ print_members (kv :: ms)).
    unfold print_member at 1. cbn [fst snd String.append].
    rewrite !sapp_assoc. unfold byte1. cbn [String.append].
    eapply parse_members_more; [done|apply Hv; [lia|done|done]|]. apply IH; [lia|done].
Qed.

Lemma foldr_max {A} (g : A -> Z) l b :
  foldr (fun v acc => Z.max (g v) acc) 0 l <= b -> Forall (fun v => g v <= b) l.
Proof. induction l as [|v l IH]; simpl; intros H; constructor; [lia|]. apply IH. lia. Qed.

Lemma foldr_max_nonneg {A} (g : A -> Z) l : 0 <= foldr (fun v acc => Z.max (g v) acc) 0 l.
Proof. induction l; simpl; lia. Qed.

Lemma expect_head b c s : is_ws c = false -> c <> b -> expect b (skip_ws (String c s)) = None.
Proof.
  intros Hw Hc. rewrite skip_ws_head by done. simpl.
  by destruct (Ascii.eqb b c) eqn:E; [apply Ascii.eqb_eq in E|].
Qed.

Lemma print_elements_head l :
  l <> [] -> Forall good l -> exists c s, print_elements l = String c s /\ is_ws c = false /\
    c <> "]"%char.
Proof.
  destruct l as [|v l]; [done|]. intros _ Hg. inversion Hg; subst.
  destruct (print_head v) as (c & s & E & H); [done|].
  destruct l as [|w l]; [by exists c, s|].
  change (print_elements (v :: w :: l)) with (print_json v +:+ "," +:+ print_elements (w :: l)).
  rewrite E. by eexists _, _.
Qed.

Lemma number_parses n : good (JNum n) -> parses (JNum n).
Proof.
  intros (z & Hz & ->). exists 1%nat. intros [|f] d t Hf _ Ht; [lia|].
  cbn [print_json]. pose proof (scan_FormatInt z t Hz Ht) as Hs.
  destruct (FormatInt_head z Hz) as (c & s & E & Hc & Hw & H1 & H2 & H3). rewrite E in *.
  cbn [parse_value String.append]. rewrite skip_ws_head by done.
  rewrite (proj2 (Z.eqb_neq _ _) H1), (proj2 (Z.eqb_neq _ _) H2), (proj2 (Z.eqb_neq _ _) H3), Hc.
  cbn [String.append] in Hs. by rewrite Hs.
Qed.

Lemma string_parses raw : good (JStr raw) -> parses (JStr raw).
Proof.
  intros (s & Hs & ->). exists 1%nat. intros [|f] d t Hf _ Ht; [lia|].
  cbn [print_json]. cbn [String.append]. rewrite sapp_assoc. unfold byte1. cbn [String.append].
  cbn [parse_value]. rewrite skip_ws_head by done.
  change (code dquote) with 34. cbn [Z.eqb Pos.eqb]. by rewrite scan_escape, unquote_escape.
Qed.

Lemma array_parses l : Forall good l -> Forall parses l -> parses (JArr l).
Proof.
  intros Hg Hp. unfold parses. rewrite print_JArr.
  destruct l as [|v l]; [exists 1%nat; intros [|f] d t Hf Hd _; [lia|]|].
  { rewrite sapp_assoc, parse_open_array by (cbn [nesting foldr] in Hd; lia). done. }
  destruct (parse_elements_print (v :: l)) as [f0 Hl]; [done..|].
  destruct (print_elements_head (v :: l)) as (c & s & E & Hw & Hc); [done..|].
  exists (S f0). intros [|f] d t Hf Hd Ht; [lia|]. cbn [nesting] in Hd.
  pose proof (foldr_max_nonneg nesting (v :: l)).
  pose proof (foldr_max nesting (v :: l) _ (Z.le_refl _)) as Hm.
  rewrite sapp_assoc, sapp_assoc. change ("]" +:+ t) with (String "]" t).
  rewrite parse_open_array by lia. rewrite E at 1. cbn [String.append].
  rewrite expect_head, Hl by (done || lia || (eapply Forall_impl; [exact Hm|]; intros; cbn beta in *; lia)).
  done.
Qed.

Lemma object_parses ms :
  Forall (fun kv => all_bytes ascii_byte (fst kv) = true) ms ->
  Forall (fun kv => parses (snd kv)) ms -> parses (JObj ms).
Proof.
  intros Hk Hp. unfold parses. rewrite print_JObj.
  destruct ms as [|kv ms]; [exists 1%nat; intros [|f] d t Hf Hd _; [lia|]|].
  { rewrite sapp_assoc, parse_open_object by (cbn [nesting foldr] in Hd; lia). done. }
  destruct (parse_members_print (kv :: ms)) as [f0 Hl]; [done..|].
  exists (S f0). intros [|f] d t Hf Hd Ht; [lia|]. cbn [nesting] in Hd.
  pose proof (foldr_max_nonneg (fun kv => nesting (snd kv)) (kv :: ms)).
  pose proof (foldr_max (fun kv => nesting (snd kv)) (kv :: ms) _ (Z.le_refl _)) as Hm.
  rewrite sapp_assoc, sapp_assoc. change ("}" +:+ t) with (String "}" t).
  rewrite parse_open_object by lia.
  assert (exists s, print_members (kv :: ms) = String dquote s) as [s E] by (by destruct ms; eexists).
  rewrite E at 1. cbn [String.append].
  rewrite expect_head, Hl by (done || lia || (eapply Forall_impl; [exact Hm|]; intros; cbn beta in *; lia)).
  done.
Qed.

Lemma good_parses j : good j -> parses j.
Proof.
  induction j as [|[]|lit|raw|l IH|ms IH] using json_nested_ind; intros Hg.
  - by exists 1%nat; intros [|f] d t Hf _ _; [lia|].
  - by exists 1%nat; intros [|f] d t Hf _ _; [lia|].
  - by exists 1%nat; intros [|f] d t Hf _ _; [lia|].
  - by apply number_parses.
  - by apply string_parses.
  - cbn [good] in Hg. apply foldr_good in Hg. apply array_parses; [done|].
    rewrite Forall_forall in IH, Hg |- *. intros x Hx. apply IH; [done|]. by apply Hg.
  - cbn [good] in Hg. apply foldr_good_members in Hg. destruct Hg as [Hk Hg]. apply object_parses; [done|].
    rewrite Forall_forall in IH, Hg |- *. intros x Hx. apply IH; [done|]. by apply Hg.
Qed.

(** Printing a document and parsing it. *)
Lemma parse_print j :
  good j -> nesting j <= maxNestingDepth -> parse_json (print_json j) = Some j.
Proof.
  intros Hg Hn. destruct (good_parses j Hg) as [f0 H]. unfold parse_json.
  rewrite <- (parse_value_fuel (Nat.max f0 (2 * S (String.length (print_json j))))) by lia.
  pose proof (sapp_nil_r (print_json j)) as E. rewrite <- E at 2.
  by rewrite H by (done || lia).
Qed.
