(* ===== verification/Types.v ===== *)
(** [internal/hcloud/types.go]: the data exchanged with the Hetzner Cloud Zones
    API, with the JSON form the struct tags give it. *)
From S2P Require Import Prelude GoStrings Utf8 Runtime Quote Json.

(** [Created] is a [time.Time], here nanoseconds. *)
Record Zone := mkZone {
  Zone_ID : Z;
  Zone_Name : string;
  Zone_Mode : string;
  Zone_Status : string;
  Zone_TTL : Z;
  Zone_RecordsCnt : Z;
  Zone_Created : Z
}.

Definition zero_Zone : Zone := mkZone 0 EmptyString EmptyString EmptyString 0 0 0.

Record Record_ := mkRecord { Record_Value : string; Record_Comment : string }.

#[export] Instance Record_eq_dec : EqDecision Record_.
Proof. solve_decision. Defined.

Definition zero_Record : Record_ := mkRecord EmptyString EmptyString.

Record RRSet := mkRRSet {
  RRSet_ID : string;
  RRSet_Name : string;
  RRSet_Type : string;
  RRSet_TTL : option Z;
  RRSet_Records : list Record_;
  RRSet_Protect : bool;
  RRSet_ZoneID : Z;
  RRSet_Labels : gmap string string
}.

Definition zero_RRSet : RRSet :=
  mkRRSet EmptyString EmptyString EmptyString None [] false 0 ∅.

Record pagination := mkPagination {
  Page : Z; PerPage : Z; PreviousPage : Z; NextPage : Z; LastPage : Z; TotalEntries : Z
}.

Record listZonesResponse := mkListZonesResponse {
  lzr_Zones : list Zone;
  lzr_Meta : pagination  (* the struct meta has this one field *)
}.

Definition zero_listZonesResponse : listZonesResponse :=
  mkListZonesResponse [] (mkPagination 0 0 0 0 0 0).

Record Action := mkAction {
  Action_ID : Z; Action_Command : string; Action_Status : string; Action_Progress : Z
}.

Definition zero_Action : Action := mkAction 0 EmptyString EmptyString 0.

(** [Labels] is never set by the program: the map is empty. *)
Record CreateRRSetRequest := mkCreateRRSetRequest {
  Create_Name : string;
  Create_Type : string;
  Create_TTL : option Z;
  Create_Records : list Record_;
  Create_Labels : list (string * string)
}.

Record SetRRSetRecordsRequest := mkSetRRSetRecordsRequest {
  SetRecords_Records : list Record_
}.

(** ** Decoding responses *)

Section Decode.
Context {RT : Runtime}.

(** A [time.Time] decodes its own literal. *)
Definition store_time : store Z := fun j cur =>
  match j with JNull => Some cur | JStr raw => rt_time_UnmarshalJSON raw | _ => None end.

Definition Zone_fields : list (field Zone) := [
  mk_field "id" Zone_ID (fun v z => mkZone v (Zone_Name z) (Zone_Mode z) (Zone_Status z) (Zone_TTL z) (Zone_RecordsCnt z) (Zone_Created z)) store_int;
  mk_field "name" Zone_Name (fun v z => mkZone (Zone_ID z) v (Zone_Mode z) (Zone_Status z) (Zone_TTL z) (Zone_RecordsCnt z) (Zone_Created z)) store_string;
  mk_field "mode" Zone_Mode (fun v z => mkZone (Zone_ID z) (Zone_Name z) v (Zone_Status z) (Zone_TTL z) (Zone_RecordsCnt z) (Zone_Created z)) store_string;
  mk_field "status" Zone_Status (fun v z => mkZone (Zone_ID z) (Zone_Name z) (Zone_Mode z) v (Zone_TTL z) (Zone_RecordsCnt z) (Zone_Created z)) store_string;
  mk_field "ttl" Zone_TTL (fun v z => mkZone (Zone_ID z) (Zone_Name z) (Zone_Mode z) (Zone_Status z) v (Zone_RecordsCnt z) (Zone_Created z)) store_int;
  mk_field "records_count" Zone_RecordsCnt (fun v z => mkZone (Zone_ID z) (Zone_Name z) (Zone_Mode z) (Zone_Status z) (Zone_TTL z) v (Zone_Created z)) store_int;
  mk_field "created" Zone_Created (fun v z => mkZone (Zone_ID z) (Zone_Name z) (Zone_Mode z) (Zone_Status z) (Zone_TTL z) (Zone_RecordsCnt z) v) store_time].

Definition pagination_fields : list (field pagination) := [
  mk_field "page" Page (fun v p => mkPagination v (PerPage p) (PreviousPage p) (NextPage p) (LastPage p) (TotalEntries p)) store_int;
  mk_field "per_page" PerPage (fun v p => mkPagination (Page p) v (PreviousPage p) (NextPage p) (LastPage p) (TotalEntries p)) store_int;
  mk_field "previous_page" PreviousPage (fun v p => mkPagination (Page p) (PerPage p) v (NextPage p) (LastPage p) (TotalEntries p)) store_int;
  mk_field "next_page" NextPage (fun v p => mkPagination (Page p) (PerPage p) (PreviousPage p) v (LastPage p) (TotalEntries p)) store_int;
  mk_field "last_page" LastPage (fun v p => mkPagination (Page p) (PerPage p) (PreviousPage p) (NextPage p) v (TotalEntries p)) store_int;
  mk_field "total_entries" TotalEntries (fun v p => mkPagination (Page p) (PerPage p) (PreviousPage p) (NextPage p) (LastPage p) v) store_int].

(** The struct [meta]: one field, [pagination]. *)
Definition meta_fields : list (field pagination) := [
  mk_field "pagination" (fun p => p) (fun v _ => v) (store_struct pagination_fields)].

Definition listZonesResponse_fields : list (field listZonesResponse) := [
  mk_field "zones" lzr_Zones (fun v r => mkListZonesResponse v (lzr_Meta r))
    (store_slice (store_struct Zone_fields) zero_Zone);
  mk_field "meta" lzr_Meta (fun v r => mkListZonesResponse (lzr_Zones r) v)
    (store_struct meta_fields)].

Definition Record_fields : list (field Record_) := [
  mk_field "value" Record_Value (fun v r => mkRecord v (Record_Comment r)) store_string;
  mk_field "comment" Record_Comment (fun v r => mkRecord (Record_Value r) v) store_string].

Definition RRSet_fields : list (field RRSet) := [
  mk_field "id" RRSet_ID (fun v r => mkRRSet v (RRSet_Name r) (RRSet_Type r) (RRSet_TTL r) (RRSet_Records r) (RRSet_Protect r) (RRSet_ZoneID r) (RRSet_Labels r)) store_string;
  mk_field "name" RRSet_Name (fun v r => mkRRSet (RRSet_ID r) v (RRSet_Type r) (RRSet_TTL r) (RRSet_Records r) (RRSet_Protect r) (RRSet_ZoneID r) (RRSet_Labels r)) store_string;
  mk_field "type" RRSet_Type (fun v r => mkRRSet (RRSet_ID r) (RRSet_Name r) v (RRSet_TTL r) (RRSet_Records r) (RRSet_Protect r) (RRSet_ZoneID r) (RRSet_Labels r)) store_string;
  mk_field "ttl" RRSet_TTL (fun v r => mkRRSet (RRSet_ID r) (RRSet_Name r) (RRSet_Type r) v (RRSet_Records r) (RRSet_Protect r) (RRSet_ZoneID r) (RRSet_Labels r)) (store_pointer store_int 0);
  mk_field "records" RRSet_Records (fun v r => mkRRSet (RRSet_ID r) (RRSet_Name r) (RRSet_Type r) (RRSet_TTL r) v (RRSet_Protect r) (RRSet_ZoneID r) (RRSet_Labels r)) (store_slice (store_struct Record_fields) zero_Record);
  mk_field "protected" RRSet_Protect (fun v r => mkRRSet (RRSet_ID r) (RRSet_Name r) (RRSet_Type r) (RRSet_TTL r) (RRSet_Records r) v (RRSet_ZoneID r) (RRSet_Labels r)) store_bool;
  mk_field "zone_id" RRSet_ZoneID (fun v r => mkRRSet (RRSet_ID r) (RRSet_Name r) (RRSet_Type r) (RRSet_TTL r) (RRSet_Records r) (RRSet_Protect r) v (RRSet_Labels r)) store_int;
  mk_field "labels" RRSet_Labels (fun v r => mkRRSet (RRSet_ID r) (RRSet_Name r) (RRSet_Type r) (RRSet_TTL r) (RRSet_Records r) (RRSet_Protect r) (RRSet_ZoneID r) v) store_string_map].

(** [rrsetEnvelope] and [actionEnvelope]: structs of one field. *)
Definition rrsetEnvelope_fields : list (field RRSet) := [
  mk_field "rrset" (fun r => r) (fun v _ => v) (store_struct RRSet_fields)].

Definition Action_fields : list (field Action) := [
  mk_field "id" Action_ID (fun v a => mkAction v (Action_Command a) (Action_Status a) (Action_Progress a)) store_int;
  mk_field "command" Action_Command (fun v a => mkAction (Action_ID a) v (Action_Status a) (Action_Progress a)) store_string;
  mk_field "status" Action_Status (fun v a => mkAction (Action_ID a) (Action_Command a) v (Action_Progress a)) store_string;
  mk_field "progress" Action_Progress (fun v a => mkAction (Action_ID a) (Action_Command a) (Action_Status a) v) store_int].

Definition actionEnvelope_fields : list (field Action) := [
  mk_field "action" (fun a => a) (fun v _ => v) (store_struct Action_fields)].
End Decode.

(** ** Encoding requests *)

(** A field with [omitempty]: left out at the empty value. *)
Definition omitempty (empty : bool) (key : string) (v : json) : list (string * json) :=
  if empty then [] else [(key, v)].

Definition Record_json (r : Record_) : json :=
  JObj (("value", json_string (Record_Value r)) ::
        omitempty (String.eqb (Record_Comment r) EmptyString) "comment"
          (json_string (Record_Comment r))).

Definition CreateRRSetRequest_json (r : CreateRRSetRequest) : json :=
  JObj ([("name", json_string (Create_Name r)); ("type", json_string (Create_Type r))]
        ++ match Create_TTL r with Some ttl => [("ttl", json_int ttl)] | None => [] end
        ++ [("records", JArr (map Record_json (Create_Records r)))]
        ++ omitempty (length (Create_Labels r) =? 0)%nat "labels"
             (JObj (map (fun '(k, v) => (k, json_string v)) (Create_Labels r)))).

Definition SetRRSetRecordsRequest_json (r : SetRRSetRecordsRequest) : json :=
  JObj [("records", JArr (map Record_json (SetRecords_Records r)))].

(** [json.Marshal]; the request types hold nothing it could refuse. *)
Definition Marshal_CreateRRSetRequest (r : CreateRRSetRequest) : string :=
  print_json (CreateRRSetRequest_json r).
Definition Marshal_SetRRSetRecordsRequest (r : SetRRSetRecordsRequest) : string :=
  print_json (SetRRSetRecordsRequest_json r).
