(* ===== verification/ZoneCache.v ===== *)
(** [internal/solver/zonecache.go]: the cache of zone IDs, and the history
    specification it refines.

    Each method holds the mutex from its first line to its return, so a
    concurrent execution is a sequence of whole method calls: a history
    ([CacheMutex] has the statements and proves this). *)
From S2P Require Import Prelude.

Record zoneCacheKey := mkZoneCacheKey { secretRef : string; zoneName : string }.

#[export] Instance zoneCacheKey_eq_dec : EqDecision zoneCacheKey.
Proof. solve_decision. Defined.

#[export] Instance zoneCacheKey_countable : Countable zoneCacheKey.
Proof.
  refine (inj_countable' (fun k => (secretRef k, zoneName k))
            (fun p => mkZoneCacheKey (fst p) (snd p)) _).
  by intros [].
Defined.

Record zoneCacheEntry := mkZoneCacheEntry { entry_id : Z; entry_expiresAt : Z }.

(** A [func() time.Time], by what it returns at each instant of the wall clock. *)
Definition NowFunc : Type := Z -> Z.
Definition time_Now : NowFunc := fun wall => wall.

Record zoneCache := mkZoneCache {
  zc_ttl : Z;
  zc_now : NowFunc;
  zc_store : gmap zoneCacheKey zoneCacheEntry
}.

(** 30 seconds, in nanoseconds. *)
Definition fallbackTTL : Z := 30 * 1000000000.

Definition newZoneCache (ttl : Z) (now : option NowFunc) : zoneCache :=
  mkZoneCache (if ttl <=? 0 then fallbackTTL else ttl) (default time_Now now) ∅.

(** The methods, called at the instant [wall]. *)
Definition zoneCache_Lookup (c : zoneCache) (wall : Z) (secretRef zone : string) :
    option Z * zoneCache :=
  let key := mkZoneCacheKey secretRef zone in
  match zc_store c !! key with
  | None => (None, c)
  | Some entry =>
      if entry_expiresAt entry <? zc_now c wall
      then (None, mkZoneCache (zc_ttl c) (zc_now c) (delete key (zc_store c)))
      else (Some (entry_id entry), c)
  end.

Definition zoneCache_Store (c : zoneCache) (wall : Z) (secretRef zone : string) (id : Z) :
    zoneCache :=
  mkZoneCache (zc_ttl c) (zc_now c)
    (<[mkZoneCacheKey secretRef zone := mkZoneCacheEntry id (zc_now c wall + zc_ttl c)]>
       (zc_store c)).

Definition zoneCache_Invalidate (c : zoneCache) (secretRef zone : string) : zoneCache :=
  mkZoneCache (zc_ttl c) (zc_now c) (delete (mkZoneCacheKey secretRef zone) (zc_store c)).

(** ** Histories *)

Inductive cache_op :=
| OpLookup (key : zoneCacheKey)
| OpStore (key : zoneCacheKey) (id : Z)
| OpInvalidate (key : zoneCacheKey).

(** A completed call and the instant it ran at. *)
Definition call : Type := Z * cache_op.

Definition step_cache (c : zoneCache) (x : call) : zoneCache :=
  match x with
  | (wall, OpLookup key) => snd (zoneCache_Lookup c wall (secretRef key) (zoneName key))
  | (wall, OpStore key id) => zoneCache_Store c wall (secretRef key) (zoneName key) id
  | (_, OpInvalidate key) => zoneCache_Invalidate c (secretRef key) (zoneName key)
  end.

Definition replay (c : zoneCache) (h : list call) : zoneCache := foldl step_cache c h.

(** What the calls of a history say of one key: the ID last stored and not
    invalidated since, with the instant it was stored at. *)
Definition writes (key : zoneCacheKey) (o : cache_op) : bool :=
  match o with
  | OpLookup _ => false
  | OpStore k _ | OpInvalidate k => bool_decide (k = key)
  end.

Definition effect (key : zoneCacheKey) (cur : option (Z * Z)) (x : call) : option (Z * Z) :=
  if writes key (snd x)
  then match x with (wall, OpStore _ id) => Some (id, wall) | _ => None end
  else cur.

Definition last_store (key : zoneCacheKey) (h : list call) : option (Z * Z) :=
  foldl (effect key) None h.

(** The specification: the last store answers until it is [ttl] old. *)
Definition spec_lookup (c : zoneCache) (h : list call) (wall : Z) (key : zoneCacheKey) :
    option Z :=
  match last_store key h with
  | Some (id, stored) => if zc_now c stored + zc_ttl c <? zc_now c wall then None else Some id
  | None => None
  end.

(** ** Lemmas *)

Lemma step_cache_fixed c x : zc_ttl (step_cache c x) = zc_ttl c /\ zc_now (step_cache c x) = zc_now c.
Proof.
  destruct x as [wall []]; simpl; [|done..].
  unfold zoneCache_Lookup. by repeat split_match; simplify_eq/=.
Qed.

Lemma replay_fixed c h : zc_ttl (replay c h) = zc_ttl c /\ zc_now (replay c h) = zc_now c.
Proof.
  revert c. induction h as [|x h IH]; intros c; [done|]. simpl.
  destruct (IH (step_cache c x)) as [-> ->]. apply step_cache_fixed.
Qed.

Lemma replay_snoc c h x : replay c (h ++ [x]) = step_cache (replay c h) x.
Proof. unfold replay, last_store. by rewrite foldl_app. Qed.

Lemma last_store_snoc key h x : last_store key (h ++ [x]) = effect key (last_store key h) x.
Proof. unfold replay, last_store. by rewrite foldl_app. Qed.

(** One call, seen through the entry of one key. *)
Lemma step_cache_entry c x key :
  zc_store (step_cache c x) !! key =
  if writes key (snd x) then
    match x with
    | (wall, OpStore _ id) => Some (mkZoneCacheEntry id (zc_now c wall + zc_ttl c))
    | _ => None
    end
  else
    match x, zc_store c !! key with
    | (wall, OpLookup k), Some e =>
        if bool_decide (k = key) && (entry_expiresAt e <? zc_now c wall) then None else Some e
    | _, e => e
    end.
Proof.
  destruct x as [wall [k|k i|k]]; unfold writes; simpl.
  - unfold zoneCache_Lookup. destruct k as [a b]; simpl.
    destruct (decide (mkZoneCacheKey a b = key)) as [<-|Hn].
    + rewrite bool_decide_eq_true_2 by done. destruct (zc_store c !! _) eqn:E; simpl; [|done].
      case_match; simpl; [by rewrite lookup_delete_eq | done].
    + rewrite bool_decide_eq_false_2 by done. simpl.
      destruct (zc_store c !! key) eqn:E; repeat case_match; simpl; try done;
        by rewrite lookup_delete_ne.
  - destruct k as [a b]; simpl. case_bool_decide as H.
    + subst. by rewrite lookup_insert_eq.
    + rewrite lookup_insert_ne by done. by destruct (zc_store c !! key).
  - destruct k as [a b]; simpl. case_bool_decide as H.
    + subst. by rewrite lookup_delete_eq.
    + rewrite lookup_delete_ne by done. by destruct (zc_store c !! key).
Qed.

(** The entry of a key, if the cache holds one, is the last store's. *)
Lemma replay_sound c h key e :
  zc_store c = ∅ -> zc_store (replay c h) !! key = Some e ->
  exists stored, last_store key h = Some (entry_id e, stored) /\ entry_expiresAt e = zc_now c stored + zc_ttl c.
Proof.
  intros Hc. revert e. induction h as [|x h IH] using rev_ind; intros e.
  - simpl. by rewrite Hc, lookup_empty.
  - rewrite replay_snoc, last_store_snoc, step_cache_entry. unfold effect.
    destruct (replay_fixed c h) as [-> ->]. destruct (writes key (snd x)).
    + destruct x as [wall []]; intros H; simplify_eq/=; eauto.
    + destruct x as [wall [k|k i|k]]; destruct (zc_store (replay c h) !! key) eqn:E;
        repeat case_match; intros ?; simplify_eq; eauto.
Qed.

(** And it holds one, or the last store has expired by the last instant. *)
Lemma replay_complete c h key id stored :
  zc_store c = ∅ -> last_store key h = Some (id, stored) ->
  zc_store (replay c h) !! key = Some (mkZoneCacheEntry id (zc_now c stored + zc_ttl c)) \/
  exists wall o, (wall, o) ∈ h /\ zc_now c stored + zc_ttl c < zc_now c wall.
Proof.
  intros Hc. induction h as [|x h IH] using rev_ind; [done|].
  rewrite replay_snoc, last_store_snoc, step_cache_entry. unfold effect.
  destruct (replay_fixed c h) as [-> ->]. destruct (writes key (snd x)) eqn:W.
  - destruct x as [wall []]; intros H; simplify_eq/=; eauto.
  - intros H. destruct (IH H) as [IHe|(wall & o & Hin & Hlt)]; [|right; set_solver].
    rewrite IHe. destruct x as [wall [k|k i|k]]; [|by left..]. simpl.
    destruct (bool_decide (k = key) && (_ <? _)) eqn:B; [|by left].
    right. apply andb_true_iff in B. destruct B as [_ B]. apply Z.ltb_lt in B.
    exists wall, (OpLookup k). set_solver.
Qed.

(** The last store of a key splits the history: no write to the key follows. *)
Lemma last_store_split key h id stored :
  last_store key h = Some (id, stored) ->
  exists h1 h2, h = h1 ++ (stored, OpStore key id) :: h2 /\
    Forall (fun x => writes key (snd x) = false) h2.
Proof.
  induction h as [|x h IH] using rev_ind; [done|]. rewrite last_store_snoc. unfold effect.
  destruct (writes key (snd x)) eqn:W.
  - destruct x as [wall []]; intros H; simplify_eq/=. apply bool_decide_eq_true in W. subst.
    by exists h, [].
  - intros H. destruct (IH H) as (h1 & h2 & -> & Hf). exists h1, (h2 ++ [x]).
    rewrite <- app_assoc. split; [done|]. apply Forall_app. by split; [|constructor].
Qed.
