(* ===== verification/CacheMutex.v ===== *)
(** The zone cache under its mutex.  [ZoneCache] takes each method of
    internal/solver/zonecache.go as one operation; here the methods run statement
    by statement, in any number of goroutines at once: [c.mu.Lock()], the reads and
    writes of the map, the call of [c.now()], and the deferred [c.mu.Unlock()].
    Between any two statements of one goroutine the others may run and time may
    pass.

    Every such execution is a history of whole method calls: each takes effect
    at one instant between its call and its return, and answers what it would
    have answered had it run alone at that point. *)
From S2P Require Import Prelude ZoneCache.

(** ** Goroutines *)

(** Where in a method a goroutine stands. *)
Inductive place :=
| Entered (o : cache_op)                                            (* before c.mu.Lock() *)
| Held (o : cache_op)                                               (* the mutex is taken *)
| LookupFound (key : zoneCacheKey) (entry : zoneCacheEntry)         (* entry, ok := c.store[key] *)
| LookupRead (key : zoneCacheKey) (entry : zoneCacheEntry) (t : Z)  (* c.now() has returned *)
| StoreRead (key : zoneCacheKey) (id : Z) (t : Z)                   (* c.now() has returned *)
| Leaving (o : cache_op) (answer : option Z).                       (* before c.mu.Unlock() *)

#[export] Instance cache_op_eq_dec : EqDecision cache_op.
Proof. solve_decision. Defined.

#[export] Instance zoneCacheEntry_eq_dec : EqDecision zoneCacheEntry.
Proof. solve_decision. Defined.

#[export] Instance place_eq_dec : EqDecision place.
Proof. solve_decision. Defined.

(** The calls a goroutine has yet to make, and the one it is in. *)
Record goroutine := mkGoroutine { g_todo : list cache_op; g_place : option place }.

#[export] Instance goroutine_eq_dec : EqDecision goroutine.
Proof. solve_decision. Defined.

(** What is seen of the goroutines: calls, their effects, each at an instant and
    with its answer, and returns. *)
Inductive cache_event :=
| Calls (i : nat) (o : cache_op)
| Effect (i : nat) (x : call) (answer : option Z)
| Returns (i : nat) (o : cache_op) (answer : option Z).

Record memory := mkMemory {
  m_store : gmap zoneCacheKey zoneCacheEntry;
  m_holder : option nat;
  m_wall : Z;
  m_log : list cache_event
}.

(** The next statement of a method body: the map afterwards, where the goroutine
    stands then, and the effect, if this is the statement the call takes effect
    by. *)
Definition body_step (c : zoneCache) (store : gmap zoneCacheKey zoneCacheEntry) (wall : Z) (p : place) :
    option (gmap zoneCacheKey zoneCacheEntry * place * option (call * option Z)) :=
  match p with
  | Held (OpLookup key) =>
      match store !! key with
      | None => Some (store, Leaving (OpLookup key) None, Some ((wall, OpLookup key), None))
      | Some entry => Some (store, LookupFound key entry, None)
      end
  | LookupFound key entry => Some (store, LookupRead key entry wall, None)
  | LookupRead key entry t =>
      if entry_expiresAt entry <? zc_now c t
      then Some (delete key store, Leaving (OpLookup key) None, Some ((t, OpLookup key), None))
      else Some (store, Leaving (OpLookup key) (Some (entry_id entry)),
                 Some ((t, OpLookup key), Some (entry_id entry)))
  | Held (OpStore key id) => Some (store, StoreRead key id wall, None)
  | StoreRead key id t =>
      Some (<[key := mkZoneCacheEntry id (zc_now c t + zc_ttl c)]> store,
            Leaving (OpStore key id) None, Some ((t, OpStore key id), None))
  | Held (OpInvalidate key) =>
      Some (delete key store, Leaving (OpInvalidate key) None,
            Some ((wall, OpInvalidate key), None))
  | Entered _ | Leaving _ _ => None
  end.

Definition log_effect (i : nat) (e : option (call * option Z)) : list cache_event :=
  match e with Some (x, a) => [Effect i x a] | None => [] end.

Definition state : Type := memory * list goroutine.

(** The steps.  [Lock] waits for the mutex to be free; [Unlock] frees it. *)
Inductive mstep (c : zoneCache) : state -> state -> Prop :=
| ms_tick st h w l gs t : w <= t -> mstep c (mkMemory st h w l, gs) (mkMemory st h t l, gs)
| ms_call st h w l gs i o todo :
    gs !! i = Some (mkGoroutine (o :: todo) None) ->
    mstep c (mkMemory st h w l, gs)
      (mkMemory st h w (l ++ [Calls i o]), <[i := mkGoroutine todo (Some (Entered o))]> gs)
| ms_lock st w l gs i o todo :
    gs !! i = Some (mkGoroutine todo (Some (Entered o))) ->
    mstep c (mkMemory st None w l, gs)
      (mkMemory st (Some i) w l, <[i := mkGoroutine todo (Some (Held o))]> gs)
| ms_body st h w l gs i p todo st' p' e :
    gs !! i = Some (mkGoroutine todo (Some p)) ->
    body_step c st w p = Some (st', p', e) ->
    mstep c (mkMemory st h w l, gs)
      (mkMemory st' h w (l ++ log_effect i e), <[i := mkGoroutine todo (Some p')]> gs)
| ms_unlock st h w l gs i o a todo :
    gs !! i = Some (mkGoroutine todo (Some (Leaving o a))) ->
    mstep c (mkMemory st h w l, gs)
      (mkMemory st None w (l ++ [Returns i o a]), <[i := mkGoroutine todo None]> gs).

(** A new cache, at an instant, and the calls its users will make. *)
Definition start (c : zoneCache) (wall : Z) (work : list (list cache_op)) : state :=
  (mkMemory (zc_store c) None wall [], map (fun todo => mkGoroutine todo None) work).

(** The step a goroutine can take by itself, if any. *)
Definition advance (c : zoneCache) (i : nat) (s : state) : option state :=
  let '(mkMemory st h w l, gs) := s in
  match gs !! i with
  | Some (mkGoroutine (o :: todo) None) =>
      Some (mkMemory st h w (l ++ [Calls i o]), <[i := mkGoroutine todo (Some (Entered o))]> gs)
  | Some (mkGoroutine todo (Some (Entered o))) =>
      match h with
      | None => Some (mkMemory st (Some i) w l, <[i := mkGoroutine todo (Some (Held o))]> gs)
      | Some _ => None
      end
  | Some (mkGoroutine todo (Some (Leaving o a))) =>
      Some (mkMemory st None w (l ++ [Returns i o a]), <[i := mkGoroutine todo None]> gs)
  | Some (mkGoroutine todo (Some p)) =>
      match body_step c st w p with
      | Some (st', p', e) =>
          Some (mkMemory st' h w (l ++ log_effect i e), <[i := mkGoroutine todo (Some p')]> gs)
      | None => None
      end
  | _ => None
  end.

(** What the goroutines have left to do, in statements. *)
Definition place_work (p : option place) : nat :=
  match p with
  | None => 0
  | Some (Entered _) => 5
  | Some (Held _) => 4
  | Some (LookupFound _ _) => 3
  | Some (LookupRead _ _ _) | Some (StoreRead _ _ _) => 2
  | Some (Leaving _ _) => 1
  end.

Definition goroutine_work (g : goroutine) : nat := 6 * length (g_todo g) + place_work (g_place g).
Definition work_left (gs : list goroutine) : nat := sum_list (map goroutine_work gs).

(** ** What an execution amounts to *)

Definition effect_of (ev : cache_event) : option (call * option Z) :=
  match ev with Effect _ x a => Some (x, a) | _ => None end.
Definition effects (l : list cache_event) : list (call * option Z) := omap effect_of l.

(** The history of method calls in the order of their effects. *)
Definition history (l : list cache_event) : list call := map fst (effects l).

(** What a method answers when it runs alone. *)
Definition atomic_answer (c : zoneCache) (x : call) : option Z :=
  match x with
  | (wall, OpLookup key) => fst (zoneCache_Lookup c wall (secretRef key) (zoneName key))
  | _ => None
  end.

(** Every effect answers what the methods before it leave. *)
Fixpoint answers (c : zoneCache) (es : list (call * option Z)) : Prop :=
  match es with
  | [] => True
  | (x, a) :: es' => a = atomic_answer c x /\ answers (step_cache c x) es'
  end.

(** What is seen of one goroutine: complete calls, and perhaps one under way. *)
Definition event_of (i : nat) (ev : cache_event) : bool :=
  match ev with Calls j _ | Effect j _ _ | Returns j _ _ => bool_decide (i = j) end.

Definition complete (i : nat) (x : call * option Z) : list cache_event :=
  [Calls i (snd (fst x)); Effect i (fst x) (snd x); Returns i (snd (fst x)) (snd x)].

(** The call a goroutine is in, and whether it has yet to take effect. *)
Definition op_of (p : place) : cache_op :=
  match p with
  | Entered o | Held o | Leaving o _ => o
  | LookupFound key _ | LookupRead key _ _ => OpLookup key
  | StoreRead key id _ => OpStore key id
  end.

Definition pending (p : place) : Prop := match p with Leaving _ _ => False | _ => True end.

Inductive under_way (i : nat) : option place -> list cache_event -> Prop :=
| uw_none : under_way i None []
| uw_called p : pending p -> under_way i (Some p) [Calls i (op_of p)]
| uw_done t o a : under_way i (Some (Leaving o a)) [Calls i o; Effect i (t, o) a].

Definition in_order (i : nat) (p : option place) (l : list cache_event) : Prop :=
  exists xs rest, List.filter (event_of i) l = flat_map (complete i) xs ++ rest /\ under_way i p rest.

(** The goroutine is inside its critical section. *)
Definition inside (p : place) : Prop := match p with Entered _ => False | _ => True end.

#[export] Instance inside_dec p : Decision (inside p).
Proof. destruct p; apply _. Defined.

Definition holds_mutex (gs : list goroutine) (i : nat) : Prop :=
  exists todo p, gs !! i = Some (mkGoroutine todo (Some p)) /\ inside p.

(** ** The invariant *)

(** The instants of a history do not decrease. *)
Inductive rising : list call -> Prop :=
| rising_nil : rising []
| rising_snoc h x : rising h -> Forall (fun y => fst y <= fst x) h -> rising (h ++ [x]).

(** What a goroutine has read still stands. *)
Definition place_fits (store : gmap zoneCacheKey zoneCacheEntry) (wall : Z) (h : list call) (p : place) :
    Prop :=
  match p with
  | LookupFound key e => store !! key = Some e
  | LookupRead key e t => store !! key = Some e /\ Forall (fun y => fst y <= t) h /\ t <= wall
  | StoreRead key id t => Forall (fun y => fst y <= t) h /\ t <= wall
  | _ => True
  end.

Record invariant (c : zoneCache) (s : state) : Prop := {
  inv_mutex : forall i, holds_mutex (snd s) i -> m_holder (fst s) = Some i;
  inv_holder : forall i, m_holder (fst s) = Some i -> holds_mutex (snd s) i;
  inv_store : m_store (fst s) = zc_store (replay c (history (m_log (fst s))));
  inv_answers : answers c (effects (m_log (fst s)));
  inv_rising : rising (history (m_log (fst s)));
  inv_past : Forall (fun y => fst y <= m_wall (fst s)) (history (m_log (fst s)));
  inv_place : forall i todo p, snd s !! i = Some (mkGoroutine todo (Some p)) ->
    place_fits (m_store (fst s)) (m_wall (fst s)) (history (m_log (fst s))) p;
  inv_order : forall i todo p, snd s !! i = Some (mkGoroutine todo p) ->
    in_order i p (m_log (fst s))
}.

(** ** Lemmas *)

Lemma effects_app l l' : effects (l ++ l') = effects l ++ effects l'.
Proof. apply omap_app. Qed.

Lemma history_app l l' : history (l ++ l') = history l ++ history l'.
Proof. unfold history. by rewrite effects_app, map_app. Qed.

Lemma history_effect l i x a : history (l ++ [Effect i x a]) = history l ++ [x].
Proof. apply history_app. Qed.

Lemma filter_app {A} (f : A -> bool) l l' : List.filter f (l ++ l') = List.filter f l ++ List.filter f l'.
Proof. induction l as [|x l IH]; simpl; [done|]. rewrite IH. by destruct (f x). Qed.

Lemma answers_snoc c es x a :
  answers c es -> a = atomic_answer (replay c (map fst es)) x -> answers c (es ++ [(x, a)]).
Proof.
  revert c. induction es as [|[y b] es IH]; intros c; simpl; [done|].
  intros [Hb He] Ha. split; [done|]. by apply IH.
Qed.

Lemma answers_at c es x a es' :
  answers c (es ++ (x, a) :: es') -> a = atomic_answer (replay c (map fst es)) x.
Proof.
  revert c. induction es as [|[y b] es IH]; intros c; simpl; [by intros []|].
  intros [_ H]. by apply IH.
Qed.

Lemma rising_split h1 x h2 : rising (h1 ++ x :: h2) -> Forall (fun y => fst y <= fst x) h1.
Proof.
  remember (h1 ++ x :: h2) as h eqn:E. intros H. revert h2 E.
  induction H as [|h y H IH Hy]; intros h2 E; [by destruct h1|].
  destruct h2 as [|z h2 _] using rev_ind.
  - apply app_inj_tail in E as [-> ->]. done.
  - rewrite app_comm_cons, app_assoc in E. apply app_inj_tail in E as [-> _]. by eapply IH.
Qed.

(** The effect of a statement is that of the whole method at its instant. *)
Lemma body_effect c0 h w p st' p' x a :
  let c := replay c0 h in
  place_fits (zc_store c) w h p -> Forall (fun y => fst y <= w) h ->
  body_step c0 (zc_store c) w p = Some (st', p', Some (x, a)) ->
  st' = zc_store (step_cache c x) /\ a = atomic_answer c x /\ fst x <= w /\
  Forall (fun y => fst y <= fst x) h /\ p' = Leaving (snd x) a /\ pending p /\ op_of p = snd x.
Proof.
  intros c. destruct (replay_fixed c0 h) as [Ht Hn]. fold c in Ht, Hn.
  destruct p as [o|[key|key id|key]|key e|key e t|key id t|o ans]; simpl; try done.
  - intros _ Hw. destruct (zc_store c !! key) as [e|] eqn:E; [done|]. intros [= <- <- <- <-].
    destruct key as [a b]. simpl in *. unfold zoneCache_Lookup. rewrite E. by split.
  - intros _ Hw [= <- <- <- <-]. by destruct key.
  - intros (E & Hh & Hw) _. rewrite <- Hn. destruct key as [a' b].
    destruct (entry_expiresAt e <? zc_now c t) eqn:F; intros [= <- <- <- <-];
      simpl; unfold zoneCache_Lookup; by rewrite E, F.
  - intros [Hh Hw] _ [= <- <- <- <-]. destruct key as [a' b]. simpl. by rewrite <- Ht, <- Hn.
Qed.

(** A statement without an effect only reads. *)
Lemma body_quiet c st w p st' p' h :
  body_step c st w p = Some (st', p', None) -> Forall (fun y => fst y <= w) h ->
  st' = st /\ (place_fits st w h p -> place_fits st w h p') /\ pending p /\ pending p' /\
  inside p' /\ op_of p' = op_of p.
Proof.
  intros H Hh. destruct p as [o|[key|key id|key]|key e|key e t|key id t|o a]; simpl in H; try done.
  - destruct (st !! key) as [e|] eqn:E; by simplify_eq.
  - by simplify_eq.
  - by simplify_eq.
  - by destruct (_ <? _).
Qed.

Lemma body_inside c st w p r : body_step c st w p = Some r -> inside p.
Proof. by destruct p. Qed.

(** What is seen of a goroutine when an event is added. *)
Lemma in_order_other i p l ev :
  event_of i ev = false -> in_order i p l -> in_order i p (l ++ [ev]).
Proof.
  intros He (xs & rest & Hf & Hu). exists xs, rest. split; [|done].
  rewrite filter_app, Hf. simpl. by rewrite He, app_nil_r.
Qed.

Lemma in_order_own i p p' l ev :
  event_of i ev = true ->
  (forall rest, under_way i p rest ->
     exists xs rest', rest ++ [ev] = flat_map (complete i) xs ++ rest' /\ under_way i p' rest') ->
  in_order i p l -> in_order i p' (l ++ [ev]).
Proof.
  intros He Hr (xs & rest & Hf & Hu). destruct (Hr rest Hu) as (xs' & rest' & E & Hu').
  exists (xs ++ xs'), rest'. split; [|done]. rewrite filter_app, Hf. simpl. rewrite He.
  by rewrite flat_map_app, <- !app_assoc, <- E.
Qed.

Lemma holds_mutex_insert gs i todo p j :
  is_Some (gs !! i) ->
  (holds_mutex (<[i := mkGoroutine todo p]> gs) j <->
   if decide (i = j) then exists q, p = Some q /\ inside q else holds_mutex gs j).
Proof.
  intros Hi. unfold holds_mutex. destruct (decide (i = j)) as [<-|Hj].
  - rewrite list_lookup_insert_eq by (by apply lookup_lt_is_Some). naive_solver.
  - by rewrite list_lookup_insert_ne by done.
Qed.

(** One goroutine moves from [p] to [p'], its log grows by its events, the holder
    of the mutex becomes it or stays another. *)
Lemma inv_move c st h w l gs i todo p st' h' l' todo' p' :
  invariant c (mkMemory st h w l, gs) -> gs !! i = Some (mkGoroutine todo p) ->
  (h' = Some i <-> exists q, p' = Some q /\ inside q) ->
  (forall j, i <> j -> h' = Some j <-> h = Some j) ->
  st' = zc_store (replay c (history (l ++ l'))) -> answers c (effects (l ++ l')) ->
  rising (history (l ++ l')) -> Forall (fun y => fst y <= w) (history (l ++ l')) ->
  (forall q, p' = Some q -> place_fits st' w (history (l ++ l')) q) ->
  (forall j q, i <> j -> h = Some j -> place_fits st w (history l) q ->
     place_fits st' w (history (l ++ l')) q) ->
  in_order i p' (l ++ l') ->
  (forall j q, i <> j -> in_order j q l -> in_order j q (l ++ l')) ->
  invariant c (mkMemory st' h' w (l ++ l'), <[i := mkGoroutine todo' p']> gs).
Proof.
  intros [Im Ih Is Ia Ir Ip Il Io] Hi Hh Hh' Hst Hans Hris Hpast Hpl Hpl' Hord Hord'.
  cbn [fst snd m_store m_holder m_wall m_log] in *.
  assert (forall j, holds_mutex (<[i := mkGoroutine todo' p']> gs) j <-> h' = Some j) as Hmut.
  { intros j. rewrite holds_mutex_insert by by eexists. destruct (decide (i = j)) as [<-|Hj].
    - by rewrite Hh.
    - rewrite (Hh' j Hj). split; [apply Im|apply Ih]. }
  split; cbn [fst snd m_store m_holder m_wall m_log]; try done; [apply Hmut|apply Hmut|..].
  - intros j td q Hj. destruct (decide (i = j)) as [<-|Hij].
    + rewrite list_lookup_insert_eq in Hj by (by eapply lookup_lt_Some). simplify_eq. by apply Hpl.
    + rewrite list_lookup_insert_ne in Hj by done.
      destruct (decide (inside q)) as [Hin|Hin].
      * apply (Hpl' j); [done|apply Im; by exists td, q|by eapply Il].
      * by destruct q.
  - intros j td q Hj. destruct (decide (i = j)) as [<-|Hij].
    + rewrite list_lookup_insert_eq in Hj by (by eapply lookup_lt_Some). by simplify_eq.
    + rewrite list_lookup_insert_ne in Hj by done. by eapply Hord', Io.
Qed.

Lemma event_of_own i o x a :
  event_of i (Calls i o) = true /\ event_of i (Effect i x a) = true /\
  event_of i (Returns i o a) = true.
Proof. by repeat split; apply bool_decide_eq_true_2. Qed.

Lemma event_of_other i j o x a :
  i <> j -> event_of j (Calls i o) = false /\ event_of j (Effect i x a) = false /\
  event_of j (Returns i o a) = false.
Proof. intros H. by repeat split; apply bool_decide_eq_false_2. Qed.

Lemma inv_call c st h w l gs i o todo :
  invariant c (mkMemory st h w l, gs) -> gs !! i = Some (mkGoroutine (o :: todo) None) ->
  invariant c (mkMemory st h w (l ++ [Calls i o]), <[i := mkGoroutine todo (Some (Entered o))]> gs).
Proof.
  intros Hinv Hi. pose proof Hinv as [Im Ih Is Ia Ir Ip Il Io].
  cbn [fst snd m_store m_holder m_wall m_log] in *.
  apply (inv_move c st h w l gs i (o :: todo) None); try done;
    rewrite ?history_app, ?effects_app, ?app_nil_r; try done.
  - split; [|naive_solver]. intros ->. destruct (Ih i eq_refl) as (td & q & Hq & _). congruence.
  - by intros q [= <-].
  - eapply in_order_own; [apply (event_of_own i o (0, o) None)| |by eapply Io].
    intros rest Hu. inversion Hu; subst. exists [], [Calls i o]. split; [done|].
    by apply (uw_called i (Entered o)).
  - intros j q Hj. apply in_order_other. by apply (event_of_other i j o (0, o) None).
Qed.

Lemma inv_lock c st w l gs i o todo :
  invariant c (mkMemory st None w l, gs) -> gs !! i = Some (mkGoroutine todo (Some (Entered o))) ->
  invariant c (mkMemory st (Some i) w l, <[i := mkGoroutine todo (Some (Held o))]> gs).
Proof.
  intros Hinv Hi. pose proof Hinv as [Im Ih Is Ia Ir Ip Il Io].
  cbn [fst snd m_store m_holder m_wall m_log] in *. rewrite <- (app_nil_r l).
  apply (inv_move c st None w l gs i todo (Some (Entered o))); rewrite ?app_nil_r; try done.
  - split; [|done]. intros _. by eexists.
  - intros j Hj. split; [|done]. by intros [= ->].
  - by intros q [= <-].
  - destruct (Io _ _ _ Hi) as (xs & rest & Hf & Hu). exists xs, rest. split; [done|].
    inversion Hu; subst. by apply (uw_called i (Held o)).
Qed.

Lemma inv_unlock c st h w l gs i o a todo :
  invariant c (mkMemory st h w l, gs) -> gs !! i = Some (mkGoroutine todo (Some (Leaving o a))) ->
  invariant c (mkMemory st None w (l ++ [Returns i o a]), <[i := mkGoroutine todo None]> gs).
Proof.
  intros Hinv Hi. pose proof Hinv as [Im Ih Is Ia Ir Ip Il Io].
  cbn [fst snd m_store m_holder m_wall m_log] in *.
  assert (h = Some i) as -> by (apply Im; by exists todo, (Leaving o a)).
  apply (inv_move c st (Some i) w l gs i todo (Some (Leaving o a))); try done;
    rewrite ?history_app, ?effects_app, ?app_nil_r; try done.
  - split; [done|]. by intros (q & [=] & _).
  - intros j Hj. split; [done|]. by intros [= ->].
  - eapply in_order_own; [apply (event_of_own i o (0, o) a)| |by eapply Io].
    intros rest Hu. inversion Hu as [|q Hq|t]; subst; [done|].
    exists [((t, o), a)], []. split; [done|constructor].
  - intros j q Hj. apply in_order_other. by apply (event_of_other i j o (0, o) a).
Qed.

Lemma inv_body c st h w l gs i p todo st' p' e :
  invariant c (mkMemory st h w l, gs) -> gs !! i = Some (mkGoroutine todo (Some p)) ->
  body_step c st w p = Some (st', p', e) ->
  invariant c (mkMemory st' h w (l ++ log_effect i e), <[i := mkGoroutine todo (Some p')]> gs).
Proof.
  intros Hinv Hi Hb. pose proof Hinv as [Im Ih Is Ia Ir Ip Il Io].
  cbn [fst snd m_store m_holder m_wall m_log] in *.
  assert (h = Some i) as -> by (apply Im; exists todo, p; split; [done|by eapply body_inside]).
  assert (forall j q, i <> j -> Some i = Some j -> place_fits st w (history l) q ->
    place_fits st' w (history (l ++ log_effect i e)) q) as Hothers by (by intros j q Hj [= ->]).
  destruct e as [[x a]|]; cbn [log_effect] in *.
  - rewrite Is in Hb.
    destruct (body_effect c (history l) w p st' p' x a) as (-> & Ha & Hx & Hh & -> & Hpend & Hop);
      [by rewrite <- Is; eapply Il|done|done|]. rewrite history_effect in *.
    apply (inv_move c st (Some i) w l gs i todo (Some p)); rewrite ?history_effect; try done.
    + split; [|done]. intros _. by eexists.
    + by rewrite replay_snoc.
    + rewrite effects_app. by apply answers_snoc.
    + by constructor.
    + apply Forall_app. by repeat constructor.
    + by intros q [= <-].
    + eapply in_order_own; [apply (event_of_own i (snd x) x a)| |by eapply Io].
      intros rest Hu. clear Ha. inversion Hu as [|q Hq|t]; subst; [|done].
      exists [], [Calls i (op_of p); Effect i x a]. split; [done|]. rewrite Hop.
      destruct x as [t o]. constructor.
    + intros j q Hj. apply in_order_other. by apply (event_of_other i j (snd x) x a).
  - destruct (body_quiet c st w p st' p' (history l) Hb Ip) as (-> & Hf & Hp & Hp' & Hin & Hop).
    rewrite app_nil_r in Hothers.
    apply (inv_move c st (Some i) w l gs i todo (Some p)); rewrite ?app_nil_r; try done.
    + split; [|done]. intros _. by eexists.
    + intros q [= <-]. apply Hf. by eapply Il.
    + destruct (Io _ _ _ Hi) as (xs & rest & Hfl & Hu). exists xs, rest. split; [done|].
      inversion Hu as [|q Hq|]; subst; [|done]. rewrite <- Hop. by constructor.
Qed.

Lemma inv_step c s s' : invariant c s -> mstep c s s' -> invariant c s'.
Proof.
  intros Hinv H. destruct H as [st h w l gs t Ht|st h w l gs i o todo Hi|st w l gs i o todo Hi
    |st h w l gs i p todo st' p' e Hi Hb|st h w l gs i o a todo Hi].
  - destruct Hinv. cbn [fst snd m_store m_holder m_wall m_log] in *.
    split; cbn [fst snd m_store m_holder m_wall m_log]; try done.
    + eapply Forall_impl; [done|]. simpl. lia.
    + intros i todo p Hi. specialize (inv_place0 i todo p Hi).
      destruct p; simpl in *; try done; naive_solver lia.
  - by eapply inv_call.
  - by eapply inv_lock.
  - by eapply inv_body.
  - by eapply inv_unlock.
Qed.

Lemma inv_start c wall work : zc_store c = ∅ -> invariant c (start c wall work).
Proof.
  intros Hc.
  assert (forall i todo p, snd (start c wall work) !! i = Some (mkGoroutine todo p) -> p = None) as Hp.
  { intros i todo p H. simpl in H. apply list_lookup_fmap_Some in H as (td & [= _ ->] & _). done. }
  split; simpl; try done; try constructor.
  - intros i (todo & p & Hi & _). by apply Hp in Hi.
  - intros i todo p Hi. by apply Hp in Hi.
  - intros i todo p Hi. apply Hp in Hi as ->. exists [], []. split; [done|constructor].
Qed.

Lemma inv_reachable c s s' : rtc (mstep c) s s' -> invariant c s -> invariant c s'.
Proof. induction 1; [done|]. intros. eauto using inv_step. Qed.

(** ** Progress *)

Lemma advance_step c i s s' : advance c i s = Some s' -> mstep c s s'.
Proof.
  destruct s as [[st h w l] gs]. simpl. destruct (gs !! i) as [[todo p]|] eqn:Hi; [|done].
  destruct p as [p|]; [|destruct todo as [|o todo]; [done|]; intros [= <-]; by constructor].
  destruct (body_step c st w p) as [[[st' p'] e]|] eqn:Hb.
  - intros H. assert (s' = (mkMemory st' h w (l ++ log_effect i e),
      <[i := mkGoroutine todo (Some p')]> gs)) as ->.
    { destruct p; try done; destruct todo; cbn in H, Hb; rewrite ?Hb in H; by simplify_eq. }
    by eapply ms_body.
  - destruct p as [o|o| | | |o a]; try (destruct todo; cbn in *; by rewrite ?Hb).
    + destruct h; destruct todo; intros [= <-]; by apply ms_lock.
    + intros H. assert (s' = (mkMemory st None w (l ++ [Returns i o a]),
        <[i := mkGoroutine todo None]> gs)) as -> by (by destruct todo; simplify_eq).
      by apply ms_unlock.
Qed.

Lemma work_insert gs i g g' :
  gs !! i = Some g -> (goroutine_work g' < goroutine_work g)%nat ->
  (work_left (<[i := g']> gs) < work_left gs)%nat.
Proof.
  unfold work_left. revert i. induction gs as [|x gs IH]; intros [|i]; simpl; [done..| |].
  - intros [= ->] H. lia.
  - intros Hi Hg. specialize (IH i Hi Hg). lia.
Qed.

Lemma advance_work c i s s' :
  advance c i s = Some s' -> (work_left (snd s') < work_left (snd s))%nat.
Proof.
  destruct s as [[st h w l] gs]. simpl. destruct (gs !! i) as [[todo p]|] eqn:Hi; [|done].
  intros H. destruct todo as [|o todo], p as [[o'|[k|k id|k]|k e|k e t|k id t|o' a]|]; cbn in H;
    repeat case_match; simplify_eq; cbn [snd];
    (eapply work_insert; [exact Hi|unfold goroutine_work; simpl; lia]).
Qed.

Lemma body_some c st w p : inside p -> (exists o a, p = Leaving o a) \/ exists r, body_step c st w p = Some r.
Proof.
  destruct p as [o|[k|k id|k]|k e|k e t|k id t|o a]; intros Hp; simpl.
  - by destruct Hp.
  - right. destruct (st !! k); by eexists.
  - right. by eexists.
  - right. by eexists.
  - right. by eexists.
  - right. destruct (_ <? _); by eexists.
  - right. by eexists.
  - left. by exists o, a.
Qed.

(** No deadlock: whoever holds the mutex can go on, and if nobody does anyone can. *)
Lemma can_advance c s :
  invariant c s ->
  Forall (fun g => g = mkGoroutine [] None) (snd s) \/ exists i s', advance c i s = Some s'.
Proof.
  intros [Im Ih _ _ _ _ _ _]. destruct s as [[st h w l] gs]. cbn [fst snd m_holder] in *.
  destruct h as [i|].
  - right. exists i. destruct (Ih i eq_refl) as (todo & p & Hi & Hp). simpl. rewrite Hi.
    destruct (body_some c st w p Hp) as [(o & a & ->)|([[st' p'] e] & Hb)]; [destruct todo; by eexists|].
    exists (mkMemory st' (Some i) w (l ++ log_effect i e), <[i := mkGoroutine todo (Some p')]> gs).
    rewrite Hb. destruct todo, p; done.
  - destruct (decide (Forall (fun g => g = mkGoroutine [] None) gs)) as [H|H]; [by left|right].
    apply (not_Forall_Exists (fun g => g = mkGoroutine [] None)) in H.
    apply Exists_exists in H as ([todo p] & Hin & Hg).
    apply list_elem_of_lookup in Hin as [i Hi]. exists i. simpl. rewrite Hi.
    destruct p as [p|]; [|destruct todo; [by exfalso; apply Hg|by eexists]].
    destruct (decide (inside p)) as [Hp|Hp].
    + assert (None = Some i) as [=] by (apply Im; by exists todo, p).
    + destruct p; [|done..]. destruct todo; by eexists.
Qed.
