(* ===== verification/ZoneCacheTheorems.v ===== *)
(** What the zone cache promises: it answers with an ID that was stored for
    that very key within the TTL and not invalidated since, and, as long as the
    clock does not run backwards, it always does when there is one. *)
From S2P Require Import Prelude ZoneCache CacheMutex.

(** Under no circumstances, not even with a clock that jumps, does a lookup
    return a stale or foreign ID: what it returns was stored under the same
    Secret reference and zone, was neither overwritten nor invalidated since, and
    is at most a TTL old by the cache's clock. *)
Theorem zone_cache_sound ttl now h wall s z id :
  fst (zoneCache_Lookup (replay (newZoneCache ttl now) h) wall s z) = Some id ->
  exists h1 stored h2,
    h = h1 ++ (stored, OpStore (mkZoneCacheKey s z) id) :: h2 /\
    Forall (fun x => writes (mkZoneCacheKey s z) (snd x) = false) h2 /\
    zc_now (newZoneCache ttl now) wall <=
      zc_now (newZoneCache ttl now) stored + zc_ttl (newZoneCache ttl now).
Proof.
  unfold zoneCache_Lookup. set (c := newZoneCache ttl now).
  destruct (zc_store (replay c h) !! _) as [e|] eqn:E; [|done].
  destruct (replay_fixed c h) as [_ ->].
  destruct (replay_sound c h _ e eq_refl E) as (stored & Hl & He).
  destruct (_ <? _) eqn:B; [done|]. intros [= <-].
  destruct (last_store_split _ _ _ _ Hl) as (h1 & h2 & -> & Hf).
  exists h1, stored, h2. to_prop. rewrite <- He. done.
Qed.

Definition two_lookups : list call := [
  (0, OpStore (mkZoneCacheKey "ns/a#token" "example.com") 7);
  (0, OpStore (mkZoneCacheKey "ns/b#token" "example.com") 8);
  (5, OpInvalidate (mkZoneCacheKey "ns/b#token" "example.com"))].

Lemma zone_cache_sound_witness :
  exists h1 stored h2,
    two_lookups = h1 ++ (stored, OpStore (mkZoneCacheKey "ns/a#token" "example.com") 7) :: h2 /\
    Forall (fun x => writes (mkZoneCacheKey "ns/a#token" "example.com") (snd x) = false) h2 /\
    zc_now (newZoneCache 10 None) 10 <=
      zc_now (newZoneCache 10 None) stored + zc_ttl (newZoneCache 10 None).
Proof. apply zone_cache_sound. vm_compute. reflexivity. Defined.

(** A lookup after a history, by the specification. *)
Lemma lookup_spec ttl now h wall s z :
  (forall a b, a <= b -> zc_now (newZoneCache ttl now) a <= zc_now (newZoneCache ttl now) b) ->
  Forall (fun x => fst x <= wall) h ->
  fst (zoneCache_Lookup (replay (newZoneCache ttl now) h) wall s z) =
  spec_lookup (newZoneCache ttl now) h wall (mkZoneCacheKey s z).
Proof.
  intros Hmono Hh. unfold zoneCache_Lookup, spec_lookup. set (c := newZoneCache ttl now) in *.
  destruct (replay_fixed c h) as [_ ->].
  destruct (last_store _ h) as [[id stored]|] eqn:E.
  - destruct (replay_complete c h _ _ _ eq_refl E) as [->|(w & o & Hin & Hlt)].
    + simpl. by destruct (_ <? _).
    + rewrite Forall_forall in Hh. specialize (Hh _ Hin). specialize (Hmono w wall Hh).
      assert ((zc_now c stored + zc_ttl c <? zc_now c wall) = true) as B
        by (apply Z.ltb_lt; lia).
      rewrite B. destruct (zc_store (replay c h) !! _) as [e|] eqn:El; [|done].
      destruct (replay_sound c h _ e eq_refl El) as (st & Hl & He).
      rewrite E in Hl. simplify_eq. by rewrite He, B.
  - destruct (zc_store (replay c h) !! _) as [e|] eqn:El; [|done].
    destruct (replay_sound c h _ e eq_refl El) as (st & Hl & _). congruence.
Qed.

(** C16: the cache refines its specification.  After any history of lookups,
    stores and invalidations that ran before it, whatever expired entries the
    lookups dropped on the way, a lookup answers what the last store of its
    key says, until it is older than the TTL. *)
Theorem zone_cache_refines ttl now h wall s z :
  (forall a b, a <= b -> zc_now (newZoneCache ttl now) a <= zc_now (newZoneCache ttl now) b) ->
  Forall (fun x => fst x <= wall) h ->
  fst (zoneCache_Lookup (replay (newZoneCache ttl now) h) wall s z) =
  spec_lookup (newZoneCache ttl now) h wall (mkZoneCacheKey s z).
Proof. apply lookup_spec. Qed.

Lemma zone_cache_refines_witness :
  fst (zoneCache_Lookup (replay (newZoneCache 10 None) two_lookups) 10
         "ns/b#token" "example.com") = None.
Proof.
  apply (zone_cache_refines 10 None two_lookups 10 "ns/b#token" "example.com").
  - intros a b H. exact H.
  - repeat constructor; simpl; lia.
Defined.

(** C17: the mutex makes the cache's methods atomic.  Any number of goroutines call
    the methods at once and run them statement by statement, interleaved in any
    way.  At most one is ever between [Lock] and [Unlock].  Every call takes effect
    at one instant between its call and its return, in an order that explains
    everything: each answer and the map itself are what the methods, run one
    after the other in that order, give, and so, as long as the clock does not
    run backwards, each lookup answers what the last store of its key before it
    says.  There is no deadlock: until all calls have returned some goroutine can
    go on, and every step of one leaves fewer to go. *)
Theorem zone_cache_linearizable ttl now wall work s :
  let c := newZoneCache ttl now in
  let log := m_log (fst s) in
  rtc (mstep c) (start c wall work) s ->
  (forall i j, holds_mutex (snd s) i -> holds_mutex (snd s) j -> i = j) /\
  (forall i todo p, snd s !! i = Some (mkGoroutine todo p) -> in_order i p log) /\
  answers c (effects log) /\ m_store (fst s) = zc_store (replay c (history log)) /\
  ((forall a b, a <= b -> zc_now c a <= zc_now c b) ->
   forall es t key a es', effects log = es ++ ((t, OpLookup key), a) :: es' ->
     a = spec_lookup c (map fst es) t key) /\
  (Forall (fun g => g = mkGoroutine [] None) (snd s) \/
   exists i s', advance c i s = Some s' /\ mstep c s s' /\
     (work_left (snd s') < work_left (snd s))%nat).
Proof.
  intros c log H. pose proof (inv_reachable _ _ _ H (inv_start c wall work eq_refl)) as Hinv.
  pose proof Hinv as [Im _ Is Ia Ir _ _ Io].
  split; [intros i j Hi Hj; apply Im in Hi, Hj; congruence|]. split; [done|]. split; [done|].
  split; [done|]. split.
  - intros Hmono es t key a es' He. unfold log in He. rewrite He in Ia. unfold history in Ir.
    rewrite He, map_app in Ir. apply rising_split in Ir.
    rewrite (answers_at _ _ _ _ _ Ia). destruct key as [z n]. by apply lookup_spec.
  - destruct (can_advance c s Hinv) as [Hf|(i & s' & Ha)]; [by left|]. right. exists i, s'.
    split; [done|]. split; [by eapply advance_step|by eapply advance_work].
Qed.

(** Two goroutines fight over one key; they take turns as long as they can. *)
Definition contention : list (list cache_op) :=
  let key := mkZoneCacheKey "ns/a#token" "example.com" in
  [[OpStore key 7; OpLookup key]; [OpLookup key; OpInvalidate key; OpLookup key]].

Fixpoint take_turns (c : zoneCache) (turns : list nat) (s : state) : state :=
  match turns with
  | [] => s
  | i :: turns' => take_turns c turns' (default s (advance c i s))
  end.

Lemma take_turns_reachable c turns s : rtc (mstep c) s (take_turns c turns s).
Proof.
  revert s. induction turns as [|i turns IH]; intros s; simpl; [done|].
  destruct (advance c i s) as [s'|] eqn:E; simpl; [|apply IH].
  eapply rtc_l; [by eapply advance_step|apply IH].
Qed.

Definition contended : state :=
  take_turns (newZoneCache 10 None) (concat (replicate 20 [0; 1]%nat))
    (start (newZoneCache 10 None) 5 contention).

Lemma zone_cache_linearizable_witness :
  let c := newZoneCache 10 None in
  let key := mkZoneCacheKey "ns/a#token" "example.com" in
  snd contended = [mkGoroutine [] None; mkGoroutine [] None] /\
  effects (m_log (fst contended)) =
    [((5, OpStore key 7), None); ((5, OpLookup key), Some 7); ((5, OpLookup key), Some 7);
     ((5, OpInvalidate key), None); ((5, OpLookup key), None)] /\
  m_store (fst contended) = zc_store (replay c (history (m_log (fst contended)))).
Proof.
  split; [vm_compute; reflexivity|]. split; [vm_compute; reflexivity|].
  apply (zone_cache_linearizable 10 None 5 contention contended). apply take_turns_reachable.
Defined.
