(* ===== verification/Effects.v ===== *)
(** Effects.  A Go function that reads the clock, sleeps, sends a request, reads
    a Secret, logs or touches the solver's shared zone cache becomes a program: a
    tree of events, each followed by what the function does with the answer.
    Every loop of the program is bounded, so the trees are finite and a run
    always ends.

    [exec] relates a program to the traces it can leave and the result it then
    returns, whatever the environment answers; [run] executes it against a
    handler.  A property of all [exec] traces holds under every environment,
    and under every interleaving with other goroutines, since what they do to
    the shared cache only shows in the answers. *)
From S2P Require Import Prelude GoStrings Utf8 Runtime Quote Errors ZoneCache.

(** A [context.Context]: the instant it expires, if it does. *)
Record Ctx := mkCtx { ctx_deadline : option Z }.

Definition context_Background : Ctx := mkCtx None.

(** What [ctx.Err()] returns once the context is done. *)
Inductive ctx_error := CtxDeadlineExceeded | CtxCanceled.

Definition ctx_error_error (e : ctx_error) : error :=
  ESentinel match e with CtxDeadlineExceeded => DeadlineExceeded | CtxCanceled => Canceled end.

(** ** Logging *)

Inductive Level := LevelDebug | LevelInfo | LevelWarn.

Inductive attr_value := AString (s : string) | AInt (z : Z) | ADuration (d : Z).

Record LogRecord := mkLogRecord {
  log_level : Level;
  log_msg : string;
  log_attrs : list (string * attr_value)
}.

(** Loggers and HTTP clients are handles; 0 is the package default. *)
Definition Logger : Type := nat.
Definition slog_Default : Logger := 0%nat.
Definition HTTPClient : Type := nat.
Definition http_DefaultClient : HTTPClient := 0%nat.

(** ** HTTP *)

Record Request := mkRequest {
  req_method : string;
  req_url : string;
  req_header : gmap string string;
  req_body : option string
}.

Record Response := mkResponse {
  resp_StatusCode : Z;
  resp_Header : gmap string string;
  resp_Body : string
}.

Definition Header_Get (h : gmap string string) (key : string) : string :=
  default EmptyString (h !! key).

(** ** Events and programs *)

Section Programs.
Context {RT : Runtime}.

Inductive eff : Type :=
| ENow                                           (* time.Now *)
| ECtxErr (ctx : Ctx)                            (* ctx.Err() *)
| ETimer (ctx : Ctx) (d : Z)                     (* select on a timer and ctx.Done(); ctx.Err() *)
| EDo (hc : HTTPClient) (ctx : Ctx) (req : Request)   (* (Client).Do, body read *)
| ESecret (kc : rt_KubeClient) (ctx : Ctx) (ns name : string) (* Secrets(ns).Get *)
| ELog (l : Logger) (r : LogRecord)              (* LogAttrs *)
| ECacheLookup (key : zoneCacheKey)
| ECacheStore (key : zoneCacheKey) (id : Z)
| ECacheInvalidate (key : zoneCacheKey).

(** The type of the answer.  [ETimer]: nothing when the timer fired first. *)
Definition answer (e : eff) : Type :=
  match e with
  | ENow => Z
  | ECtxErr _ => option ctx_error
  | ETimer _ _ => option ctx_error
  | EDo _ _ _ => result string Response
  | ESecret _ _ _ _ => res (gmap string string)
  | ELog _ _ => unit
  | ECacheLookup _ => option Z
  | ECacheStore _ _ => unit
  | ECacheInvalidate _ => unit
  end.

Inductive prog (A : Type) : Type :=
| Ret (a : A)
| Op (e : eff) (k : answer e -> prog A).

Global Arguments Ret {A} a.
Global Arguments Op {A} e k.

Fixpoint bind {A B} (p : prog A) (f : A -> prog B) : prog B :=
  match p with
  | Ret a => f a
  | Op e k => Op e (fun r => bind (k r) f)
  end.

(** One event. *)
Definition perform (e : eff) : prog (answer e) := Op e Ret.
End Programs.

Declare Scope prog_scope.
Delimit Scope prog_scope with prog.

Notation "'let!' x ':=' p 'in' q" := (bind p (fun x => q))
  (at level 10, x name, p at level 100, q at level 200) : prog_scope.
Notation "p ';;' q" := (bind p (fun _ => q))
  (at level 100, q at level 200, right associativity) : prog_scope.

#[global] Open Scope prog_scope.

(** A call that can fail, in a function that returns its error as it is. *)
Definition try_bind {RT : Runtime} {A B} (p : prog (res A)) (f : A -> prog (res B)) :
    prog (res B) :=
  bind p (fun r => match r with Ok a => f a | Err e => Ret (Err e) end).

Notation "'try!' x ':=' p 'in' q" := (try_bind p (fun x => q))
  (at level 10, x name, p at level 100, q at level 200) : prog_scope.
Notation "'try!' ' x ':=' p 'in' q" := (try_bind p (fun r => match r with x => q end))
  (at level 10, x pattern, p at level 100, q at level 200) : prog_scope.

(** ** Meaning *)

Section Meaning.
Context {RT : Runtime}.

(** An event with its answer. *)
Record step := mkStep { step_eff : eff; step_answer : answer step_eff }.

(** [exec p tr a]: with the answers of [tr], [p] performs the events of [tr]
    and returns [a]. *)
Fixpoint exec {A} (p : prog A) (tr : list step) (a : A) : Prop :=
  match p with
  | Ret a' => tr = [] /\ a = a'
  | Op e k => exists r tr', tr = mkStep e r :: tr' /\ exec (k r) tr' a
  end.

(** A handler answers each event and changes the world. *)
Definition handler (W : Type) : Type := forall e : eff, W -> answer e * W.

Fixpoint run {W A} (h : handler W) (p : prog A) (w : W) : A * W :=
  match p with
  | Ret a => (a, w)
  | Op e k => let '(r, w') := h e w in run h (k r) w'
  end.

(** The trace a run leaves. *)
Fixpoint run_trace {W A} (h : handler W) (p : prog A) (w : W) : list step :=
  match p with
  | Ret _ => []
  | Op e k => let '(r, w') := h e w in mkStep e r :: run_trace h (k r) w'
  end.

(** Every event the program can perform satisfies [P]. *)
Fixpoint all_events {A} (P : eff -> Prop) (p : prog A) : Prop :=
  match p with
  | Ret _ => True
  | Op e k => P e /\ forall r, all_events P (k r)
  end.

(** Programs with the same traces and results. *)
Definition peq {A} (p q : prog A) : Prop := forall tr a, exec p tr a <-> exec q tr a.
End Meaning.

Notation "p ≈ q" := (peq p q) (at level 70) : prog_scope.

(** ** Lemmas *)

Section Laws.
Context {RT : Runtime}.

Lemma exec_bind {A B} (p : prog A) (f : A -> prog B) tr b :
  exec (bind p f) tr b <->
  exists tr1 a tr2, tr = tr1 ++ tr2 /\ exec p tr1 a /\ exec (f a) tr2 b.
Proof.
  revert tr. induction p as [a|e k IH]; intros tr; simpl.
  - split; [intros H; by exists [], a, tr|].
    intros (tr1 & a' & tr2 & -> & [-> ->] & H). done.
  - split.
    + intros (r & tr' & -> & H). apply IH in H. destruct H as (tr1 & a & tr2 & -> & H1 & H2).
      exists (mkStep e r :: tr1), a, tr2. split; [done|]. eauto 6.
    + intros (tr1 & a & tr2 & -> & (r & tr' & -> & H1) & H2).
      exists r, (tr' ++ tr2). split; [done|]. apply IH. eauto 6.
Qed.

Lemma exec_try {A B} (p : prog (res A)) (f : A -> prog (res B)) tr b :
  exec (try_bind p f) tr b <->
  (exists tr1 a tr2, tr = tr1 ++ tr2 /\ exec p tr1 (Ok a) /\ exec (f a) tr2 b) \/
  (exists e, exec p tr (Err e) /\ b = Err e).
Proof.
  unfold try_bind. rewrite exec_bind. split.
  - intros (tr1 & [a|e] & tr2 & -> & H1 & H2); [left; eauto 6|].
    destruct H2 as [-> ->]. rewrite app_nil_r. right. eauto.
  - intros [(tr1 & a & tr2 & -> & H1 & H2)|(e & H & ->)].
    + exists tr1, (Ok a), tr2. done.
    + exists tr, (Err e), []. by rewrite app_nil_r.
Qed.

Lemma exec_perform {B} e (f : answer e -> prog B) tr b :
  exec (bind (perform e) f) tr b <->
  exists r tr', tr = mkStep e r :: tr' /\ exec (f r) tr' b.
Proof. done. Qed.

Lemma run_bind {W A B} (h : handler W) (p : prog A) (f : A -> prog B) w :
  run h (bind p f) w = let '(a, w') := run h p w in run h (f a) w'.
Proof.
  revert w. induction p as [a|e k IH]; intros w; simpl; [done|].
  destruct (h e w) as [r w']. apply IH.
Qed.

(** A run leaves one of the traces. *)
Lemma run_exec {W A} (h : handler W) (p : prog A) w :
  exec p (run_trace h p w) (fst (run h p w)).
Proof.
  revert w. induction p as [a|e k IH]; intros w; simpl; [done|].
  destruct (h e w) as [r w'] eqn:E. exists r, (run_trace h (k r) w'). split; [done|]. apply IH.
Qed.

Lemma all_events_exec {A} (P : eff -> Prop) (p : prog A) tr a :
  all_events P p -> exec p tr a -> Forall (fun s => P (step_eff s)) tr.
Proof.
  revert tr. induction p as [a'|e k IH]; intros tr; simpl.
  - intros _ [-> _]. constructor.
  - intros [He Hk] (r & tr' & -> & H). constructor; [done|]. by eapply IH.
Qed.

Lemma all_events_bind {A B} (P : eff -> Prop) (p : prog A) (f : A -> prog B) :
  all_events P p -> (forall a, all_events P (f a)) -> all_events P (bind p f).
Proof.
  intros Hp Hf. induction p as [a|e k IH]; simpl in *; [done|].
  destruct Hp as [He Hk]. split; [done|]. intros r. by apply IH.
Qed.

Lemma all_events_try {A B} (P : eff -> Prop) (p : prog (res A)) (f : A -> prog (res B)) :
  all_events P p -> (forall a, all_events P (f a)) -> all_events P (try_bind p f).
Proof. intros Hp Hf. apply all_events_bind; [done|]. by intros [a|e]. Qed.

Lemma all_events_perform (P : eff -> Prop) e : P e -> all_events P (perform e).
Proof. by split. Qed.

Lemma all_events_impl {A} (P Q : eff -> Prop) (p : prog A) :
  (forall e, P e -> Q e) -> all_events P p -> all_events Q p.
Proof. intros HPQ. induction p; simpl; [done|]. intros [? ?]. eauto. Qed.

#[export] Instance peq_equivalence {A} : Equivalence (@peq RT A).
Proof.
  split; [done|by intros p q H tr a; rewrite (H tr a)|].
  intros p q r H1 H2 tr a. by rewrite (H1 tr a), (H2 tr a).
Qed.

#[export] Instance exec_proper {A} : Proper (peq ==> eq ==> eq ==> iff) (@exec RT A).
Proof. intros p q H tr ? <- a ? <-. apply H. Qed.

#[export] Instance bind_proper {A B} :
  Proper (peq ==> pointwise_relation _ peq ==> peq) (@bind RT A B).
Proof.
  intros p q Hp f g Hf tr b. rewrite !exec_bind.
  split; intros (tr1 & a & tr2 & -> & H1 & H2); exists tr1, a, tr2;
    (split; [done|]); split; by first [apply Hp | apply (Hf a)].
Qed.

Lemma bind_ret_l {A B} (a : A) (f : A -> prog B) : bind (Ret a) f = f a.
Proof. done. Qed.

Lemma bind_ret_r {A} (p : prog A) : bind p Ret ≈ p.
Proof.
  intros tr a. rewrite exec_bind. split.
  - intros (tr1 & a' & tr2 & -> & H1 & [-> ->]). by rewrite app_nil_r.
  - intros H. exists tr, a, []. by rewrite app_nil_r.
Qed.

Lemma bind_assoc {A B C} (p : prog A) (f : A -> prog B) (g : B -> prog C) :
  bind (bind p f) g ≈ bind p (fun a => bind (f a) g).
Proof.
  intros tr c. rewrite !exec_bind. split.
  - intros (tr1 & b & tr2 & -> & H1 & H2). apply exec_bind in H1.
    destruct H1 as (tr3 & a & tr4 & -> & H3 & H4).
    exists tr3, a, (tr4 ++ tr2). rewrite <- app_assoc. split; [done|]. split; [done|].
    apply exec_bind. eauto 6.
  - intros (tr1 & a & tr2 & -> & H1 & H2). apply exec_bind in H2.
    destruct H2 as (tr3 & b & tr4 & -> & H3 & H4).
    exists (tr1 ++ tr3), b, tr4. rewrite <- app_assoc. split; [done|].
    split; [apply exec_bind; eauto 6 | done].
Qed.
End Laws.

#[export] Hint Resolve all_events_bind all_events_try all_events_perform : hz.

(** Undo the program structure in an [exec] hypothesis, one layer. *)
Ltac exec_step H :=
  lazymatch type of H with
  | exec (bind (perform _) _) _ _ => apply exec_perform in H; destruct H as (? & ? & ? & H)
  | exec (bind _ _) _ _ => apply exec_bind in H; destruct H as (? & ? & ? & ? & ? & H)
  | exec (try_bind _ _) _ _ =>
      apply exec_try in H; destruct H as [(? & ? & ? & ? & ? & H)|(? & H & ?)]
  | exec (Ret _) _ _ => destruct H as [? ?]
  | exec (Op _ _) _ _ => destruct H as (? & ? & ? & H)
  end.

(** ** Reading a trace *)

Section Traces.
Context {RT : Runtime}.

(** The requests sent, each with what came back. *)
Definition do_step (s : step) : option (Ctx * Request * result string Response) :=
  match s with
  | mkStep e r =>
      match e return answer e -> option (Ctx * Request * result string Response) with
      | EDo _ ctx req => fun r => Some (ctx, req, r)
      | _ => fun _ => None
      end r
  end.
Definition do_steps (tr : list step) := omap do_step tr.

(** The timers started. *)
Definition timer_of (e : eff) : option Z := match e with ETimer _ d => Some d | _ => None end.
Definition timers (tr : list step) : list Z := omap (fun s => timer_of (step_eff s)) tr.

(** The log records written. *)
Definition log_of (e : eff) : option LogRecord := match e with ELog _ r => Some r | _ => None end.
Definition logs (tr : list step) : list LogRecord := omap (fun s => log_of (step_eff s)) tr.

Definition not_do (e : eff) : Prop := match e with EDo _ _ _ => False | _ => True end.
Definition not_timer (e : eff) : Prop := match e with ETimer _ _ => False | _ => True end.

Lemma do_steps_app tr1 tr2 : do_steps (tr1 ++ tr2) = do_steps tr1 ++ do_steps tr2.
Proof. apply omap_app. Qed.

Lemma timers_app tr1 tr2 : timers (tr1 ++ tr2) = timers tr1 ++ timers tr2.
Proof. apply omap_app. Qed.

Lemma do_steps_op e r tr : do_steps (mkStep e r :: tr) =
  match do_step (mkStep e r) with Some x => x :: do_steps tr | None => do_steps tr end.
Proof. unfold do_steps. simpl. by destruct e. Qed.

Lemma logs_op e r tr : logs (mkStep e r :: tr) =
  match log_of e with Some x => x :: logs tr | None => logs tr end.
Proof. unfold logs. simpl. by destruct e. Qed.

Lemma do_steps_none {A} (p : prog A) tr a :
  all_events not_do p -> exec p tr a -> do_steps tr = [].
Proof.
  intros Hp H. pose proof (all_events_exec _ _ _ _ Hp H) as Hf. clear H.
  induction Hf as [|[e r] tr He Hf IH]; [done|]. by destruct e.
Qed.

Lemma timers_none {A} (p : prog A) tr a :
  all_events not_timer p -> exec p tr a -> timers tr = [].
Proof.
  intros Hp H. pose proof (all_events_exec _ _ _ _ Hp H) as Hf. clear H.
  induction Hf as [|[e r] tr He Hf IH]; [done|]. by destruct e.
Qed.
End Traces.
