(* ===== verification/Client.v ===== *)
(** [internal/hcloud/clock.go] and [internal/hcloud/client.go]: the HTTP client of
    the Hetzner Cloud Zones API, with its retry loop. *)
From S2P Require Import Prelude GoStrings Utf8 Runtime Quote Errors ZoneCache Json Types Effects.

(** Durations are nanoseconds. *)
Definition Millisecond : Z := 1000000.
Definition Second : Z := 1000000000.
Definition Minute : Z := 60 * Second.

Definition DefaultBaseURL : string := "https://api.hetzner.cloud".
Definition defaultRequestTimeout : Z := 30 * Second.
Definition defaultMaxRetries : Z := 6.
Definition defaultInitialBackoff : Z := 500 * Millisecond.
Definition defaultMaxBackoff : Z := 30 * Second.
Definition defaultUserAgent : string := "cert-manager-webhook-hcloud-zones/dev".
Definition redactedToken : string := "REDACTED".

(** [http.StatusText] *)
Definition status_texts : list (Z * string) := [
    (100, "Continue"); (101, "Switching Protocols"); (102, "Processing");
    (103, "Early Hints"); (200, "OK"); (201, "Created"); (202, "Accepted");
    (203, "Non-Authoritative Information"); (204, "No Content"); (205, "Reset Content");
    (206, "Partial Content"); (207, "Multi-Status"); (208, "Already Reported");
    (226, "IM Used"); (300, "Multiple Choices"); (301, "Moved Permanently"); (302, "Found");
    (303, "See Other"); (304, "Not Modified"); (305, "Use Proxy");
    (307, "Temporary Redirect"); (308, "Permanent Redirect"); (400, "Bad Request");
    (401, "Unauthorized"); (402, "Payment Required"); (403, "Forbidden");
    (404, "Not Found"); (405, "Method Not Allowed"); (406, "Not Acceptable");
    (407, "Proxy Authentication Required"); (408, "Request Timeout"); (409, "Conflict");
    (410, "Gone"); (411, "Length Required"); (412, "Precondition Failed");
    (413, "Request Entity Too Large"); (414, "Request URI Too Long");
    (415, "Unsupported Media Type"); (416, "Requested Range Not Satisfiable");
    (417, "Expectation Failed"); (418, "I'm a teapot"); (421, "Misdirected Request");
    (422, "Unprocessable Entity"); (423, "Locked"); (424, "Failed Dependency");
    (425, "Too Early"); (426, "Upgrade Required"); (428, "Precondition Required");
    (429, "Too Many Requests"); (431, "Request Header Fields Too Large");
    (451, "Unavailable For Legal Reasons"); (500, "Internal Server Error");
    (501, "Not Implemented"); (502, "Bad Gateway"); (503, "Service Unavailable");
    (504, "Gateway Timeout"); (505, "HTTP Version Not Supported");
    (506, "Variant Also Negotiates"); (507, "Insufficient Storage"); (508, "Loop Detected");
    (510, "Not Extended"); (511, "Network Authentication Required")].

Definition StatusText (code : Z) : string :=
  match List.find (fun e => fst e =? code) status_texts with
  | Some e => snd e
  | None => EmptyString
  end.

Section Client.
Context {RT : Runtime}.

(** ** Clock *)

Record Clock := mkClock {
  clock_Now : prog Z;
  clock_Sleep : Ctx -> Z -> prog (option error)
}.

Definition realClock_Now : prog Z := perform ENow.

Definition realClock_Sleep (ctx : Ctx) (d : Z) : prog (option error) :=
  let! done :=
    if d <=? 0 then perform (ECtxErr ctx) else perform (ETimer ctx d) in
  Ret (ctx_error_error <$> done).

Definition realClock : Clock := mkClock realClock_Now realClock_Sleep.

(** ** The client *)

Definition TokenSource : Type := Ctx -> prog (res string).

Definition StaticToken (token : string) : TokenSource := fun _ => Ret (Ok token).

Record Client := mkClient {
  baseURL : string;
  httpClient : HTTPClient;
  token : TokenSource;
  logger : Logger;
  clock : Clock;
  requestTimeout : Z;
  maxRetries : Z;
  initialBackoff : Z;
  maxBackoff : Z;
  userAgent : string
}.

Definition ClientOption : Type := Client -> Client.

Definition WithHTTPClient (hc : option HTTPClient) : ClientOption := fun c =>
  match hc with
  | Some hc => mkClient (baseURL c) hc (token c) (logger c) (clock c) (requestTimeout c)
                 (maxRetries c) (initialBackoff c) (maxBackoff c) (userAgent c)
  | None => c
  end.

Definition WithBaseURL (u : string) : ClientOption := fun c =>
  if negb (String.eqb u EmptyString)
  then mkClient (TrimRight u "/"%char) (httpClient c) (token c) (logger c) (clock c)
         (requestTimeout c) (maxRetries c) (initialBackoff c) (maxBackoff c) (userAgent c)
  else c.

Definition WithLogger (l : option Logger) : ClientOption := fun c =>
  match l with
  | Some l => mkClient (baseURL c) (httpClient c) (token c) l (clock c) (requestTimeout c)
                (maxRetries c) (initialBackoff c) (maxBackoff c) (userAgent c)
  | None => c
  end.

Definition WithClock (k : option Clock) : ClientOption := fun c =>
  match k with
  | Some k => mkClient (baseURL c) (httpClient c) (token c) (logger c) k (requestTimeout c)
                (maxRetries c) (initialBackoff c) (maxBackoff c) (userAgent c)
  | None => c
  end.

Definition WithRequestTimeout (d : Z) : ClientOption := fun c =>
  if 0 <? d
  then mkClient (baseURL c) (httpClient c) (token c) (logger c) (clock c) d
         (maxRetries c) (initialBackoff c) (maxBackoff c) (userAgent c)
  else c.

Definition WithMaxRetries (n : Z) : ClientOption := fun c =>
  if 0 <=? n
  then mkClient (baseURL c) (httpClient c) (token c) (logger c) (clock c) (requestTimeout c)
         n (initialBackoff c) (maxBackoff c) (userAgent c)
  else c.

Definition WithBackoff (initial max : Z) : ClientOption := fun c =>
  mkClient (baseURL c) (httpClient c) (token c) (logger c) (clock c) (requestTimeout c)
    (maxRetries c) (if 0 <? initial then initial else initialBackoff c)
    (if 0 <? max then max else maxBackoff c) (userAgent c).

Definition WithUserAgent (ua : string) : ClientOption := fun c =>
  if negb (String.eqb ua EmptyString)
  then mkClient (baseURL c) (httpClient c) (token c) (logger c) (clock c) (requestTimeout c)
         (maxRetries c) (initialBackoff c) (maxBackoff c) ua
  else c.

Definition New (token : option TokenSource) (opts : list ClientOption) : res Client :=
  match token with
  | None => Err (EText "hcloud: token source must not be nil")
  | Some token =>
      let c := mkClient DefaultBaseURL http_DefaultClient token slog_Default realClock
                 defaultRequestTimeout defaultMaxRetries defaultInitialBackoff
                 defaultMaxBackoff defaultUserAgent in
      Ok (foldl (fun c opt => opt c) c opts)
  end.

(** ** Classification and delays *)

Definition isRetryable (err : error) : bool :=
  match errors_As_APIError err with
  | None => false
  | Some apiErr =>
      if StatusCode apiErr =? 0 then true
      else if StatusCode apiErr =? 429 then true
      else if (500 <=? StatusCode apiErr) && (StatusCode apiErr <? 600) then true
      else false
  end.

(** [for i := 1; i < attempt; i++], [n] rounds of it. *)
Fixpoint backoff_loop (n : nat) (d max : Z) : Z :=
  match n with
  | O => d
  | S n' =>
      let d := wrap64 (d * 2) in
      if max <=? d then max else backoff_loop n' d max
  end.

Definition backoffDelay (c : Client) (attempt : nat) (lastErr : option error) : Z :=
  let exponential := backoff_loop (attempt - 1) (initialBackoff c) (maxBackoff c) in
  match lastErr with
  | None => exponential
  | Some err =>
      match errors_As_APIError err with
      | Some apiErr =>
          if 0 <? RetryAfter apiErr then
            if maxBackoff c <? RetryAfter apiErr then maxBackoff c else RetryAfter apiErr
          else exponential
      | None => exponential
      end
  end.

(** [t.Sub(u)], which saturates. *)
Definition time_Sub (t u : Z) : Z := Z.max int64_min (Z.min int64_max (t - u)).

Definition parseRetryAfter (header : string) (now : Z) : Z :=
  let header := TrimSpace header in
  if String.eqb header EmptyString then 0
  else
    match Atoi header with
    | Some secs => if secs <? 0 then 0 else wrap64 (secs * Second)
    | None =>
        match rt_http_ParseTime header with
        | Some t => let d := time_Sub t now in if d <? 0 then 0 else d
        | None => 0
        end
    end.

(** ** Error responses *)

Record hcloudErrorBody := mkHcloudErrorBody { env_Code : string; env_Message : string }.

(** [hcloudErrorEnvelope] is a struct of one field, [error]. *)
Definition hcloudErrorBody_fields : list (field hcloudErrorBody) := [
  mk_field "code" env_Code (fun v b => mkHcloudErrorBody v (env_Message b)) store_string;
  mk_field "message" env_Message (fun v b => mkHcloudErrorBody (env_Code b) v) store_string].

Definition hcloudErrorEnvelope_fields : list (field hcloudErrorBody) := [
  mk_field "error" (fun b => b) (fun v _ => v) (store_struct hcloudErrorBody_fields)].

(** The code and message a body carries, if it is an error envelope. *)
Definition error_body (body : string) : option hcloudErrorBody :=
  if String.eqb body EmptyString then None
  else Unmarshal (store_struct hcloudErrorEnvelope_fields)
         (mkHcloudErrorBody EmptyString EmptyString) body.

Definition parseAPIError (c : Client) (resp : Response) (body : string) : prog error :=
  let '(mkHcloudErrorBody code message) :=
    default (mkHcloudErrorBody EmptyString EmptyString) (error_body body) in
  let message :=
    if String.eqb message EmptyString then StatusText (resp_StatusCode resp) else message in
  if resp_StatusCode resp =? 429 then
    let! now := clock_Now (clock c) in
    Ret (EAPI (mkAPIError (resp_StatusCode resp) code message
                 (parseRetryAfter (Header_Get (resp_Header resp) "Retry-After") now)))
  else Ret (EAPI (mkAPIError (resp_StatusCode resp) code message 0)).

(** ** Requests *)

(** [context.WithTimeout]: the parent's deadline if that is earlier. *)
Definition context_WithTimeout (parent : Ctx) (timeout : Z) : prog Ctx :=
  let! now := perform ENow in
  let d := now + timeout in
  Ret match ctx_deadline parent with
      | Some cur => if cur <? d then parent else mkCtx (Some d)
      | None => mkCtx (Some d)
      end.

(** What the [out] of [do] points at: the Go type, how a document is stored
    into it, and its value before the call; no store for a nil [out]. *)
Record dest (A : Type) := mkDest {
  dest_store : option (string * store A);
  dest_zero : A
}.
Arguments mkDest {A}. Arguments dest_store {A}. Arguments dest_zero {A}.

Definition out_nil : dest unit := mkDest None tt.

Definition LogAttrs (l : Logger) (level : Level) (msg : string)
    (attrs : list (string * attr_value)) : prog unit :=
  perform (ELog l (mkLogRecord level msg attrs)).

Definition request_header (c : Client) (token : string) (bodyBytes : option string) :
    gmap string string :=
  let h := <["User-Agent" := userAgent c]>
             (<["Accept" := "application/json"]>
                (<["Authorization" := "Bearer " +:+ token]> ∅)) in
  match bodyBytes with
  | Some _ => <["Content-Type" := "application/json"]> h
  | None => h
  end.

Definition is_2xx (status : Z) : bool := (200 <=? status) && (status <? 300).

(** What a body leaves in [out]. *)
Definition decode_out {A} (method path : string) (out : dest A) (rawBody : string) : res A :=
  match dest_store out with
  | None => Ok (dest_zero out)
  | Some (go_type, st) =>
      if String.eqb rawBody EmptyString then Ok (dest_zero out)
      else match Unmarshal st (dest_zero out) rawBody with
           | Some v => Ok v
           | None =>
               Err (Errorf_w ("hcloud: decode " +:+ method +:+ " " +:+ path +:+ ": ")
                      (EText (rt_json_error go_type rawBody)) EmptyString)
           end
  end.

Definition handle_response {A} (c : Client) (method path : string) (out : dest A)
    (resp : Response) : prog (res A) :=
  let rawBody := resp_Body resp in
  if is_2xx (resp_StatusCode resp) then Ret (decode_out method path out rawBody)
  else
    let! e := parseAPIError c resp rawBody in Ret (Err e).

Definition doOnce {A} (c : Client) (ctx : Ctx) (method path : string)
    (bodyBytes : option string) (out : dest A) : prog (res A) :=
  let! tok := token c ctx in
  match tok with
  | Err err => Ret (Err (Errorf_w "hcloud: read token: " err EmptyString))
  | Ok token =>
      let! reqCtx := context_WithTimeout ctx (requestTimeout c) in
      match rt_NewRequest_error method (baseURL c +:+ path) with
      | Some msg => Ret (Err (Errorf_w "hcloud: build request: " (EText msg) EmptyString))
      | None =>
          let req := mkRequest method (baseURL c +:+ path)
                       (request_header c token bodyBytes) bodyBytes in
          LogAttrs (logger c) LevelDebug "hcloud: request"
            [("method", AString method); ("url", AString (baseURL c +:+ path));
             ("authorization", AString ("Bearer " +:+ redactedToken))] ;;
          let! r := perform (EDo (httpClient c) reqCtx req) in
          match r with
          | Err msg =>
              LogAttrs (logger c) LevelWarn "hcloud: transport error"
                [("method", AString method); ("path", AString path); ("error", AString msg)] ;;
              Ret (Err (EAPI (mkAPIError 0 "transport_error" msg 0)))
          | Ok resp =>
              LogAttrs (logger c) LevelDebug "hcloud: response"
                [("method", AString method); ("path", AString path);
                 ("status", AInt (resp_StatusCode resp))] ;;
              handle_response c method path out resp
          end
      end
  end.

(** The rounds [attempt], [attempt + 1], ... of the retry loop, [n] of them. *)
Fixpoint do_loop {A} (n : nat) (attempt : nat) (lastErr : option error) (c : Client)
    (ctx : Ctx) (method path : string) (bodyBytes : option string) (out : dest A) :
    prog (res A) :=
  match n with
  | O => Ret match lastErr with Some err => Err err | None => Ok (dest_zero out) end
  | S n' =>
      let! stopped :=
        if (attempt =? 0)%nat then Ret None
        else
          let delay := backoffDelay c attempt lastErr in
          LogAttrs (logger c) LevelDebug "hcloud: retrying request"
            [("method", AString method); ("path", AString path);
             ("attempt", AInt (Z.of_nat attempt)); ("delay", ADuration delay)] ;;
          clock_Sleep (clock c) ctx delay in
      match stopped with
      | Some err => Ret (Err err)
      | None =>
          let! r := doOnce c ctx method path bodyBytes out in
          match r with
          | Ok a => Ret (Ok a)
          | Err err =>
              if isRetryable err
              then do_loop n' (S attempt) (Some err) c ctx method path bodyBytes out
              else Ret (Err err)
          end
      end
  end.

(** The request bodies the program marshals. *)
Inductive request_body :=
| BodyCreate (r : CreateRRSetRequest)
| BodySetRecords (r : SetRRSetRecordsRequest).

(** [json.Marshal]; it refuses neither type. *)
Definition json_Marshal (b : request_body) : result string string :=
  match b with
  | BodyCreate r => Ok (Marshal_CreateRRSetRequest r)
  | BodySetRecords r => Ok (Marshal_SetRRSetRecordsRequest r)
  end.

(** The rounds of the loop: [attempt] from 0 to [maxRetries]. *)
Definition rounds (c : Client) : nat := Z.to_nat (maxRetries c + 1).

(** [(c *Client) do] *)
Definition do_request {A} (c : Client) (ctx : Ctx) (method path : string)
    (body : option request_body) (out : dest A) : prog (res A) :=
  match body with
  | None => do_loop (rounds c) 0 None c ctx method path None out
  | Some b =>
      match json_Marshal b with
      | Err msg => Ret (Err (Errorf_w "hcloud: marshal request body: " (EText msg) EmptyString))
      | Ok bytes => do_loop (rounds c) 0 None c ctx method path (Some bytes) out
      end
  end.

(** ** The four endpoints *)

Definition zones_path : string := "/v1/zones".

Definition rrsets_path (zoneID : Z) : string :=
  "/v1/zones/" +:+ FormatInt zoneID +:+ "/rrsets".

Definition rrset_path (zoneID : Z) (name rrType : string) : string :=
  "/v1/zones/" +:+ FormatInt zoneID +:+ "/rrsets/" +:+ PathEscape name +:+ "/"
  +:+ PathEscape rrType.

Definition set_records_path (zoneID : Z) (name rrType : string) : string :=
  "/v1/zones/" +:+ FormatInt zoneID +:+ "/rrsets/" +:+ PathEscape name +:+ "/"
  +:+ PathEscape rrType +:+ "/actions/set_records".

Definition out_zones : dest listZonesResponse :=
  mkDest (Some ("hcloud.listZonesResponse", store_struct listZonesResponse_fields))
    zero_listZonesResponse.
Definition out_rrset : dest RRSet :=
  mkDest (Some ("hcloud.rrsetEnvelope", store_struct rrsetEnvelope_fields)) zero_RRSet.
Definition out_action : dest Action :=
  mkDest (Some ("hcloud.actionEnvelope", store_struct actionEnvelope_fields)) zero_Action.

Definition ListZones (c : Client) (ctx : Ctx) : prog (res (list Zone)) :=
  try! out := do_request c ctx "GET" zones_path None out_zones in
  Ret (Ok (lzr_Zones out)).

Definition CreateRRSet (c : Client) (ctx : Ctx) (zoneID : Z) (req : CreateRRSetRequest) :
    prog (res RRSet) :=
  do_request c ctx "POST" (rrsets_path zoneID) (Some (BodyCreate req)) out_rrset.

Definition SetRRSetRecords (c : Client) (ctx : Ctx) (zoneID : Z) (name rrType : string)
    (req : SetRRSetRecordsRequest) : prog (res Action) :=
  do_request c ctx "POST" (set_records_path zoneID name rrType)
    (Some (BodySetRecords req)) out_action.

Definition DeleteRRSet (c : Client) (ctx : Ctx) (zoneID : Z) (name rrType : string) :
    prog (option error) :=
  let! r := do_request c ctx "DELETE" (rrset_path zoneID name rrType) None out_nil in
  Ret match r with Ok _ => None | Err err => Some err end.
End Client.

Arguments mkDest {A} _ _.
Arguments dest_store {A} _.
Arguments dest_zero {A} _.
