(* ===== verification/ClientSpec.v ===== *)
(** The specification of one attempt and of the retry loop, and the lemmas that
    tie [doOnce] and [do_loop] to it. *)
From S2P Require Import Prelude GoStrings Utf8 Runtime Quote Errors Json Types ZoneCache Effects.
From S2P Require Import Client.

Section Spec.
Context {RT : Runtime}.

(** What came back from a request: worth another attempt? *)
Definition retryable_answer (a : result string Response) : bool :=
  match a with
  | Err _ => true
  | Ok resp =>
      (resp_StatusCode resp =? 0) || (resp_StatusCode resp =? 429)
      || ((500 <=? resp_StatusCode resp) && (resp_StatusCode resp <? 600))
  end.

(** The error a response other than 2xx becomes, at an instant of the clock. *)
Definition api_error (resp : Response) (now : Z) : APIError :=
  let b := default (mkHcloudErrorBody EmptyString EmptyString) (error_body (resp_Body resp)) in
  mkAPIError (resp_StatusCode resp) (env_Code b)
    (if String.eqb (env_Message b) EmptyString
     then StatusText (resp_StatusCode resp) else env_Message b)
    (if resp_StatusCode resp =? 429
     then parseRetryAfter (Header_Get (resp_Header resp) "Retry-After") now else 0).

(** What one attempt returns for what came back. *)
Inductive outcome {A} (method path : string) (out : dest A) :
    result string Response -> res A -> Prop :=
| outcome_transport msg :
    outcome method path out (Err msg) (Err (EAPI (mkAPIError 0 "transport_error" msg 0)))
| outcome_2xx resp :
    is_2xx (resp_StatusCode resp) = true ->
    outcome method path out (Ok resp) (decode_out method path out (resp_Body resp))
| outcome_error resp now :
    is_2xx (resp_StatusCode resp) = false ->
    outcome method path out (Ok resp) (Err (EAPI (api_error resp now))).

(** The error [e] of a call that could not send its next request: the token
    source had no token for it, the request could not be built, or the wait
    before it was cut short.  The first and the last are the end of the trace. *)
Inductive stopped (c : Client) (ctx : Ctx) (method path : string) (tr : list step) :
    error -> Prop :=
| stopped_token tr0 tr1 e :
    tr = tr0 ++ tr1 -> exec (token c ctx) tr1 (Err e) ->
    stopped c ctx method path tr (Errorf_w "hcloud: read token: " e EmptyString)
| stopped_request msg :
    rt_NewRequest_error method (baseURL c +:+ path) = Some msg ->
    stopped c ctx method path tr (Errorf_w "hcloud: build request: " (EText msg) EmptyString)
| stopped_wait tr0 tr1 d e :
    tr = tr0 ++ tr1 -> exec (clock_Sleep (clock c) ctx d) tr1 (Some e) ->
    stopped c ctx method path tr e.

(** The retry loop: what came back from the requests of a call that may make [n]
    attempts, in order, and what the call returns; [stop] are the errors it may
    return instead of sending the next request. *)
Inductive attempts {A} (stop : error -> Prop) (method path : string) (out : dest A) :
    nat -> list (result string Response) -> res A -> Prop :=
| attempts_stopped n e :
    stop e -> attempts stop method path out (S n) [] (Err e)
| attempts_final n a r :
    outcome method path out a r -> retryable_answer a = false ->
    attempts stop method path out (S n) [a] r
| attempts_exhausted a e :
    outcome method path out a (Err e) -> retryable_answer a = true ->
    attempts stop method path out 1 [a] (Err e)
| attempts_retry n a e l r :
    outcome method path out a (Err e) -> retryable_answer a = true ->
    attempts stop method path out n l r -> attempts stop method path out (S n) (a :: l) r.

(** What the client relies on from its token source and its clock: they send no
    request through the client, and their errors are not API errors that ask
    for a retry. *)
Class WellBehaved (c : Client) : Prop := {
  token_quiet : forall ctx, all_events not_do (token c ctx);
  token_error : forall ctx tr e, exec (token c ctx) tr (Err e) -> isRetryable e = false;
  sleep_quiet : forall ctx d, all_events not_do (clock_Sleep (clock c) ctx d);
  sleep_error : forall ctx d tr e,
    exec (clock_Sleep (clock c) ctx d) tr (Some e) -> isRetryable e = false;
  now_quiet : all_events not_do (clock_Now (clock c))
}.

(** ** Classification *)

Lemma is_2xx_not_retryable resp :
  is_2xx (resp_StatusCode resp) = true -> retryable_answer (Ok resp) = false.
Proof.
  unfold is_2xx, retryable_answer. intros H. to_prop.
  apply orb_false_iff; split; [apply orb_false_iff; split; apply Z.eqb_neq; lia|].
  apply andb_false_iff. left. apply Z.leb_gt. lia.
Qed.

Lemma isRetryable_EAPI e :
  isRetryable (EAPI e) =
  (StatusCode e =? 0) || (StatusCode e =? 429)
  || ((500 <=? StatusCode e) && (StatusCode e <? 600)).
Proof.
  unfold isRetryable. simpl. by repeat case_match.
Qed.

Lemma isRetryable_root err : isRetryable err = isRetryable (root_cause err).
Proof. unfold isRetryable. rewrite errors_As_root. by induction err. Qed.

Lemma isRetryable_Errorf_w pre e post : isRetryable (Errorf_w pre e post) = isRetryable e.
Proof. reflexivity. Qed.

Lemma decode_out_error {A} method path (out : dest A) body e :
  decode_out method path out body = Err e -> isRetryable e = false.
Proof.
  unfold decode_out. intros H. repeat case_match; simplify_eq. reflexivity.
Qed.

(** The loop's test of the error is a test of what came back. *)
Lemma outcome_retryable {A} method path (out : dest A) a e :
  outcome method path out a (Err e) -> isRetryable e = retryable_answer a.
Proof.
  intros H. inversion H; subst; clear H.
  - reflexivity.
  - rewrite is_2xx_not_retryable by done. by eapply decode_out_error.
  - rewrite isRetryable_EAPI. reflexivity.
Qed.

Lemma outcome_ok {A} method path (out : dest A) a v :
  outcome method path out a (Ok v) ->
  exists resp, a = Ok resp /\ is_2xx (resp_StatusCode resp) = true /\
    decode_out method path out (resp_Body resp) = Ok v.
Proof. intros H. inversion H; subst. eauto. Qed.

(** ** One attempt *)

Lemma parseAPIError_exec c `{!WellBehaved c} resp tr e :
  exec (parseAPIError c resp (resp_Body resp)) tr e ->
  do_steps tr = [] /\ exists now, e = EAPI (api_error resp now).
Proof.
  unfold parseAPIError, api_error.
  destruct (default _ (error_body (resp_Body resp))) as [code message]. simpl.
  destruct (resp_StatusCode resp =? 429) eqn:E.
  - rewrite exec_bind. intros (tr1 & now & tr2 & -> & Hn & -> & ->).
    rewrite app_nil_r. split; [by eapply do_steps_none, Hn; apply now_quiet|]. by exists now.
  - intros [-> ->]. split; [done|]. by exists 0.
Qed.

Lemma handle_response_exec {A} c `{!WellBehaved c} method path (out : dest A) resp tr r :
  exec (handle_response c method path out resp) tr r ->
  do_steps tr = [] /\ outcome method path out (Ok resp) r.
Proof.
  unfold handle_response. destruct (is_2xx _) eqn:E.
  - intros [-> ->]. split; [done|]. by constructor.
  - rewrite exec_bind. intros (tr1 & e & tr2 & -> & He & -> & ->). rewrite app_nil_r.
    destruct (parseAPIError_exec c resp tr1 e He) as [-> [now ->]].
    split; [done|]. by constructor.
Qed.

(** The request context never outlives its parent. *)
Definition within (parent ctx : Ctx) : Prop :=
  exists d, ctx_deadline ctx = Some d /\ forall d0, ctx_deadline parent = Some d0 -> d <= d0.

Lemma context_WithTimeout_exec parent timeout tr ctx :
  exec (context_WithTimeout parent timeout) tr ctx ->
  within parent ctx /\
  exists now, tr = [mkStep ENow now] /\
    forall d, ctx_deadline ctx = Some d -> d <= now + timeout.
Proof.
  intros (now & tr' & -> & -> & ->). unfold within.
  destruct (ctx_deadline parent) as [cur|] eqn:E.
  - destruct (cur <? now + timeout) eqn:B; to_prop.
    + rewrite E. split; [exists cur; split; [done|by intros ? [= <-]]|].
      exists now. split; [done|]. intros d [= <-]. lia.
    + split; [eexists; split; [done|by intros ? [= <-]]|].
      exists now. split; [done|]. by intros d [= <-].
  - split; [by eexists|]. exists now. split; [done|]. by intros d [= <-].
Qed.

Definition attempt_request (c : Client) (method path : string) (body : option string)
    (tok : string) : Request :=
  mkRequest method (baseURL c +:+ path) (request_header c tok body) body.

(** An attempt sends nothing and fails for good, or sends one request, with a
    token the source returned, and reports its outcome. *)
Lemma doOnce_exec {A} c `{!WellBehaved c} ctx method path body (out : dest A) tr r :
  exec (doOnce c ctx method path body out) tr r ->
  (do_steps tr = [] /\ exists e, r = Err e /\ isRetryable e = false /\
     stopped c ctx method path tr e) \/
  exists tok rctx a,
    do_steps tr = [(rctx, attempt_request c method path body tok, a)] /\
    (exists tr', exec (token c ctx) tr' (Ok tok)) /\
    within ctx rctx /\ outcome method path out a r.
Proof.
  unfold doOnce. rewrite exec_bind. intros (tr1 & tok & tr2 & -> & Ht & H).
  rewrite do_steps_app, (do_steps_none _ _ _ (token_quiet ctx) Ht). simpl.
  destruct tok as [tok|err].
  2:{ destruct H as [-> ->]. left. split; [done|]. eexists. split; [done|].
      rewrite isRetryable_Errorf_w. split; [by eapply token_error|].
      by apply (stopped_token _ _ _ _ _ [] tr1); rewrite ?app_nil_r. }
  apply exec_bind in H. destruct H as (tr3 & rctx & tr4 & -> & Hc & H).
  apply context_WithTimeout_exec in Hc. destruct Hc as (Hw & now & -> & _).
  rewrite do_steps_app. simpl.
  destruct (rt_NewRequest_error _ _) as [msg|] eqn:Erq.
  { destruct H as [-> ->]. left. split; [done|]. eexists. split; [done|].
    split; [done|]. by apply stopped_request. }
  unfold LogAttrs in H. apply exec_perform in H. destruct H as ([] & tr5 & -> & H).
  apply exec_perform in H. destruct H as (a & tr6 & -> & H).
  rewrite !do_steps_op. simpl. right. exists tok, rctx, a.
  assert (do_steps tr6 = [] /\ outcome method path out a r) as [-> Ho].
  { destruct a as [resp|msg].
    - apply exec_perform in H. destruct H as ([] & tr7 & -> & H).
      rewrite do_steps_op. simpl. by eapply handle_response_exec.
    - apply exec_perform in H. destruct H as ([] & tr7 & -> & -> & ->).
      split; [done|]. constructor. }
  split; [done|]. split; [by eexists|]. done.
Qed.

(** ** The loop *)

Definition sent (c : Client) (ctx : Ctx) (method path : string) (body : option string)
    (x : Ctx * Request * result string Response) : Prop :=
  exists tok, snd (fst x) = attempt_request c method path body tok /\
    (exists tr, exec (token c ctx) tr (Ok tok)) /\ within ctx (fst (fst x)).

(** What precedes an attempt: nothing the first time, then a log line and the
    wait. *)
Definition wait_before (k : nat) (last : option error) (c : Client) (ctx : Ctx)
    (method path : string) : prog (option error) :=
  if (k =? 0)%nat then Ret None
  else
    let delay := backoffDelay c k last in
    LogAttrs (logger c) LevelDebug "hcloud: retrying request"
      [("method", AString method); ("path", AString path);
       ("attempt", AInt (Z.of_nat k)); ("delay", ADuration delay)] ;;
    clock_Sleep (clock c) ctx delay.

Lemma do_loop_succ {A} n k last c ctx method path body (out : dest A) :
  do_loop (S n) k last c ctx method path body out =
  let! stopped := wait_before k last c ctx method path in
  match stopped with
  | Some err => Ret (Err err)
  | None =>
      let! r := doOnce c ctx method path body out in
      match r with
      | Ok a => Ret (Ok a)
      | Err err =>
          if isRetryable err then do_loop n (S k) (Some err) c ctx method path body out
          else Ret (Err err)
      end
  end.
Proof. reflexivity. Qed.

Lemma wait_before_exec c `{!WellBehaved c} k last ctx method path tr early :
  exec (wait_before k last c ctx method path) tr early ->
  do_steps tr = [] /\ forall e, early = Some e ->
    isRetryable e = false /\ stopped c ctx method path tr e.
Proof.
  unfold wait_before. destruct (k =? 0)%nat.
  - by intros [-> ->].
  - intros H. apply exec_perform in H. destruct H as ([] & tr' & -> & H).
    rewrite do_steps_op. simpl. split; [by eapply do_steps_none, H; apply sleep_quiet|].
    intros e ->. split; [by eapply sleep_error|].
    by eapply (stopped_wait _ _ _ _ _ [_] tr').
Qed.

Lemma stopped_app c ctx method path tr0 tr e :
  stopped c ctx method path tr e -> stopped c ctx method path (tr0 ++ tr) e.
Proof.
  destruct 1 as [tr1 tr2 e -> H|msg H|tr1 tr2 d e -> H].
  - by apply (stopped_token _ _ _ _ _ (tr0 ++ tr1) tr2); rewrite ?app_assoc.
  - by apply stopped_request.
  - by apply (stopped_wait _ _ _ _ _ (tr0 ++ tr1) tr2 d); rewrite ?app_assoc.
Qed.

Lemma attempts_mono {A} (P Q : error -> Prop) method path (out : dest A) n l r :
  (forall e, P e -> Q e) ->
  attempts P method path out n l r -> attempts Q method path out n l r.
Proof.
  intros HPQ. induction 1; [by apply attempts_stopped, HPQ|by apply attempts_final|
    by apply attempts_exhausted|by eapply attempts_retry].
Qed.

Lemma do_loop_exec {A} c `{!WellBehaved c} n : forall k last ctx method path body (out : dest A) tr r,
  exec (do_loop (S n) k last c ctx method path body out) tr r ->
  attempts (stopped c ctx method path tr) method path out (S n) (map snd (do_steps tr)) r /\
  Forall (sent c ctx method path body) (do_steps tr).
Proof.
  induction n as [|n IH]; intros k last ctx method path body out tr r;
    rewrite do_loop_succ, exec_bind; intros (tr1 & st & tr2 & -> & Hw & H);
    apply wait_before_exec in Hw; [|done| |done]; destruct Hw as [Hd Hst];
    rewrite do_steps_app, Hd; simpl.
  all: destruct st as [err|];
    [destruct H as [-> ->]; rewrite app_nil_r; split; [|constructor];
     apply attempts_stopped; by apply Hst|].
  all: apply exec_bind in H; destruct H as (tr3 & r' & tr4 & -> & Ho & H).
  all: rewrite do_steps_app; apply doOnce_exec in Ho; [|done].
  all: destruct Ho as [[-> (e & -> & He & Hs)]|(tok & rctx & a & -> & Ht & Hc & Ho)].
  1,3: rewrite He in H; destruct H as [-> ->]; rewrite app_nil_r; split; [|constructor];
    by apply attempts_stopped, stopped_app.
  all: assert (sent c ctx method path body (rctx, attempt_request c method path body tok, a))
         as Hs by (by exists tok).
  all: destruct r' as [v|e];
    [destruct H as [-> ->]; simpl; split; [|by repeat constructor]; apply attempts_final;
     [done|]; by destruct (outcome_ok _ _ _ _ _ Ho) as (rs & -> & H2 & _);
     apply is_2xx_not_retryable|].
  all: rewrite (outcome_retryable _ _ _ _ _ Ho) in H; destruct (retryable_answer a) eqn:Ha;
    [|destruct H as [-> ->]; simpl; split; [by apply attempts_final | by repeat constructor]].
  - destruct H as [-> ->]. simpl. split; [by apply attempts_exhausted | by repeat constructor].
  - apply IH in H. destruct H as [H1 H2]. simpl.
    split; [|by constructor]. eapply attempts_retry; [done..|]. eapply attempts_mono, H1.
    intros e'. rewrite app_assoc. apply stopped_app.
Qed.

(** The bytes a request carries. *)
Definition marshalled (body : option request_body) : option string :=
  match body with
  | None => None
  | Some (BodyCreate r) => Some (Marshal_CreateRRSetRequest r)
  | Some (BodySetRecords r) => Some (Marshal_SetRRSetRecordsRequest r)
  end.

Lemma do_request_loop {A} c ctx method path body (out : dest A) :
  do_request c ctx method path body out =
  do_loop (rounds c) 0 None c ctx method path (marshalled body) out.
Proof. by destruct body as [[]|]. Qed.

Lemma do_request_sent {A} c `{!WellBehaved c} ctx method path body (out : dest A) tr r :
  exec (do_request c ctx method path body out) tr r ->
  Forall (sent c ctx method path (marshalled body)) (do_steps tr).
Proof.
  rewrite do_request_loop. destruct (rounds c) as [|n].
  - intros [-> _]. constructor.
  - intros H. by apply do_loop_exec in H as [_ H].
Qed.

(** ** What the loop's specification says *)

Lemma attempts_length {A} stop method path (out : dest A) n l r :
  attempts stop method path out n l r -> (length l <= n)%nat.
Proof. induction 1; simpl; lia. Qed.

Lemma attempts_all_but_last {A} stop method path (out : dest A) n l r :
  attempts stop method path out n l r ->
  forall l1 a l2, l = l1 ++ a :: l2 -> l2 <> [] -> retryable_answer a = true.
Proof.
  induction 1 as [| | |n a e l r Ho Ha H IH]; intros l1 b l2 Hl Hn.
  1: by destruct l1.
  1,2: destruct l1 as [|? [|]]; simplify_eq/=.
  destruct l1 as [|x l1]; simplify_eq/=; [done | by eapply IH].
Qed.

Lemma attempts_ok {A} stop method path (out : dest A) n l v :
  attempts stop method path out n l (Ok v) ->
  exists l' resp, l = l' ++ [Ok resp] /\ is_2xx (resp_StatusCode resp) = true /\
    decode_out method path out (resp_Body resp) = Ok v.
Proof.
  remember (Ok v) as r eqn:Er. induction 1 as [| | |n a e l r Ho Ha H IH]; simplify_eq.
  - match goal with H : outcome _ _ _ _ _ |- _ => apply outcome_ok in H end.
    destruct H as (resp & -> & H1 & H2). by exists [], resp.
  - destruct (IH eq_refl) as (l' & resp & -> & H1 & H2). by exists (a :: l'), resp.
Qed.

(** A call ends with the outcome of its last answer, which does not ask for a
    retry unless no attempt is left, or because it could not go on. *)
Lemma attempts_end {A} stop method path (out : dest A) n l r :
  attempts stop method path out n l r ->
  (exists l' a, l = l' ++ [a] /\ outcome method path out a r /\
     (retryable_answer a = true -> length l = n)) \/
  ((length l < n)%nat /\ Forall (fun a => retryable_answer a = true) l /\
     exists e, r = Err e /\ stop e).
Proof.
  induction 1 as [n e He|n a r Ho Ha|a e Ho Ha|n a e l r Ho Ha H IH].
  - right. split; [simpl; lia|]. split; [constructor|by exists e].
  - left. exists [], a. split; [done|]. split; [done|congruence].
  - left. by exists [], a.
  - destruct IH as [(l' & b & -> & Hb & Hn)|(Hn & Hf & He)].
    + left. exists (a :: l'), b. split; [done|]. split; [done|]. intros Hr. simpl. f_equal.
      by apply Hn.
    + right. split; [simpl; lia|]. split; [by constructor|done].
Qed.

(** A last answer that asks for no retry decides the result. *)
Lemma attempts_final_answer {A} stop method path (out : dest A) n l a r :
  attempts stop method path out n (l ++ [a]) r -> retryable_answer a = false ->
  outcome method path out a r.
Proof.
  intros H Ha. apply attempts_end in H.
  destruct H as [(l' & b & [-> ->]%app_inj_tail & Hb & _)|(_ & Hf & _)]; [done|].
  apply Forall_app in Hf as [_ Hf]. inversion Hf; congruence.
Qed.
End Spec.
