(* ===== verification/ClientDelays.v ===== *)
(** The delays of the retry loop, the clients [New] can build, and the time one
    call can spend waiting. *)
From S2P Require Import Prelude GoStrings Utf8 Runtime Quote Errors Json Types ZoneCache Effects.
From S2P Require Import Client ClientSpec.

Section Delays.
Context {RT : Runtime}.

(** ** Backoff *)

(** Whatever overflows on the way, the loop never returns more than the cap or
    its start. *)
Lemma backoff_loop_le n d max : backoff_loop n d max <= Z.max d max.
Proof.
  revert d. induction n as [|n IH]; intros d; simpl; [lia|].
  destruct (max <=? wrap64 (d * 2)) eqn:E; to_prop; [lia|]. specialize (IH (wrap64 (d * 2))). lia.
Qed.

(** Without overflow it is the capped exponential. *)
Lemma backoff_loop_pow n d max :
  0 < d <= max -> max < 2 ^ 62 ->
  backoff_loop n d max = Z.min max (d * 2 ^ Z.of_nat n).
Proof.
  revert d. induction n as [|n IH]; intros d Hd Hm.
  - simpl. lia.
  - cbn [backoff_loop]. rewrite Nat2Z.inj_succ, Z.pow_succ_r by lia.
    assert (1 <= 2 ^ Z.of_nat n) as Hp by (pose proof (Z.pow_pos_nonneg 2 (Z.of_nat n)); lia).
    rewrite wrap64_id
      by (unfold in_int64, int64_min, int64_max; apply andb_true_iff; split; apply Z.leb_le; lia).
    destruct (max <=? d * 2) eqn:E; to_prop; [nia|]. rewrite IH by lia. f_equal. lia.
Qed.

Lemma backoffDelay_le c k last :
  backoffDelay c k last <= Z.max (initialBackoff c) (maxBackoff c).
Proof.
  unfold backoffDelay. pose proof (backoff_loop_le (k - 1) (initialBackoff c) (maxBackoff c)).
  destruct last as [err|]; [|done]. destruct (errors_As_APIError err) as [e|]; [|done].
  destruct (0 <? RetryAfter e); [|done]. destruct (maxBackoff c <? RetryAfter e) eqn:E; to_prop; lia.
Qed.

(** The hint of an error: what its Retry-After asks for, if it asks. *)
Definition retry_hint (last : option error) : Z :=
  match last with
  | Some err => match errors_As_APIError err with Some e => RetryAfter e | None => 0 end
  | None => 0
  end.

Lemma backoffDelay_hint c k last :
  0 < retry_hint last -> backoffDelay c k last = Z.min (maxBackoff c) (retry_hint last).
Proof.
  unfold backoffDelay, retry_hint. destruct last as [err|]; [|lia].
  destruct (errors_As_APIError err) as [e|]; [|lia]. intros H.
  apply Z.ltb_lt in H. rewrite H. destruct (maxBackoff c <? RetryAfter e) eqn:E; to_prop; lia.
Qed.

Lemma backoffDelay_no_hint c k last :
  retry_hint last <= 0 ->
  backoffDelay c k last = backoff_loop (k - 1) (initialBackoff c) (maxBackoff c).
Proof.
  unfold backoffDelay, retry_hint. destruct last as [err|]; [|done].
  destruct (errors_As_APIError err) as [e|]; [|done]. intros H.
  by apply Z.ltb_ge in H; rewrite H.
Qed.

(** ** Retry-After *)

Lemma number_byte_plain c : number_byte c = true -> plain_byte c = true.
Proof. destruct c as [[] [] [] [] [] [] [] []]; vm_compute; done. Qed.

Lemma parseRetryAfter_number n now :
  int64_min <= n <= int64_max ->
  parseRetryAfter (FormatInt n) now = if n <? 0 then 0 else wrap64 (n * Second).
Proof.
  intros Hn.
  assert (in_int64 n = true) as Hr
    by (unfold in_int64; apply andb_true_iff; split; apply Z.leb_le; lia).
  apply Atoi_FormatInt in Hr. unfold parseRetryAfter.
  rewrite TrimSpace_plain by (eapply all_bytes_impl, FormatInt_bytes; apply number_byte_plain).
  rewrite Hr. destruct (FormatInt n =? EmptyString)%string eqn:E; [|done].
  to_prop. by rewrite E in Hr.
Qed.

(** ** Clients that [New] builds *)

(** The options of the package. *)
Inductive client_option : ClientOption -> Prop :=
| option_HTTPClient hc : client_option (WithHTTPClient hc)
| option_BaseURL u : client_option (WithBaseURL u)
| option_Logger l : client_option (WithLogger l)
| option_Clock k : client_option (WithClock k)
| option_RequestTimeout d : client_option (WithRequestTimeout d)
| option_MaxRetries n : client_option (WithMaxRetries n)
| option_Backoff initial max : client_option (WithBackoff initial max)
| option_UserAgent ua : client_option (WithUserAgent ua).

Record client_ok (t : TokenSource) (c : Client) : Prop := {
  ok_token : token c = t;
  ok_requestTimeout : 0 < requestTimeout c;
  ok_maxRetries : 0 <= maxRetries c;
  ok_initialBackoff : 0 < initialBackoff c;
  ok_maxBackoff : 0 < maxBackoff c;
  ok_baseURL : last_byte (baseURL c) <> Some "/"%char;
  ok_userAgent : userAgent c <> EmptyString
}.

Lemma client_option_ok t opt c : client_option opt -> client_ok t c -> client_ok t (opt c).
Proof.
  intros Ho [H1 H2 H3 H4 H5 H6 H7]. destruct Ho as [[]|u|[]|[]|d|n|i m|ua]; simpl;
    unfold WithBaseURL, WithRequestTimeout, WithMaxRetries, WithBackoff, WithUserAgent;
    repeat case_match; to_prop; constructor; simpl; auto using TrimRight_last.
Qed.

Lemma New_ok t opts c :
  Forall client_option opts -> Client.New (Some t) opts = Ok c -> client_ok t c.
Proof.
  intros Ho [= <-]. set (c0 := mkClient _ _ _ _ _ _ _ _ _ _).
  assert (client_ok t c0) as H0 by (by constructor). clearbody c0. revert c0 H0.
  induction Ho as [|opt opts Hopt Ho IH]; intros c0 H0; [done|]. simpl.
  apply IH. by apply client_option_ok.
Qed.

(** A client with a token in hand and the real clock. *)
Lemma static_well_behaved c tok :
  token c = StaticToken tok -> clock c = realClock -> WellBehaved c.
Proof.
  intros Ht Hk. split; rewrite ?Ht, ?Hk; simpl.
  - done.
  - intros _ tr e [_ H]. done.
  - intros ctx d. unfold realClock_Sleep. by case_match.
  - intros ctx d tr e. unfold realClock_Sleep. rewrite exec_bind.
    intros (tr1 & done & tr2 & -> & _ & -> & H). by destruct done as [[]|]; simplify_eq/=.
  - done.
Qed.

(** ** Waiting *)

(** The token source and the clock's [Now] start no timer. *)
Class NoTimers (c : Client) : Prop := {
  token_no_timer : forall ctx, all_events not_timer (token c ctx);
  now_no_timer : all_events not_timer (clock_Now (clock c))
}.

Lemma doOnce_no_timer {A} c `{!NoTimers c} ctx method path body (out : dest A) :
  all_events not_timer (doOnce c ctx method path body out).
Proof.
  unfold doOnce, context_WithTimeout, LogAttrs, handle_response, parseAPIError.
  apply all_events_bind; [apply token_no_timer|]. intros [tok|e]; [|done].
  apply all_events_bind; [by repeat split|]. intros rctx. case_match; [done|].
  split; [done|]. intros []. split; [done|]. intros [resp|msg]; simpl; [|done].
  split; [done|]. intros []. case_match; [done|].
  apply all_events_bind; [|done]. case_match. case_match; [|done].
  apply all_events_bind; [apply now_no_timer | done].
Qed.

Definition max_wait (c : Client) : Z := Z.max (initialBackoff c) (maxBackoff c).

Lemma do_loop_timers {A} c `{!NoTimers c} n : forall k last ctx method path body (out : dest A) tr r,
  clock c = realClock ->
  exec (do_loop n k last c ctx method path body out) tr r ->
  Forall (fun d => 0 < d <= max_wait c) (timers tr) /\
  (length (timers tr) <= if (k =? 0)%nat then n - 1 else n)%nat.
Proof.
  induction n as [|n IH]; intros k last ctx method path body out tr r Hk H.
  { destruct H as [-> ->]. split; [constructor|]. by case_match. }
  rewrite do_loop_succ, exec_bind in H. destruct H as (tr1 & st & tr2 & -> & Hw & H).
  assert (Forall (fun d => 0 < d <= max_wait c) (timers tr1) /\
          (length (timers tr1) <= if (k =? 0)%nat then 0 else 1)%nat) as [H1 H2].
  { unfold wait_before in Hw. destruct (k =? 0)%nat; [by destruct Hw as [-> ->]|].
    apply exec_perform in Hw. destruct Hw as ([] & tr3 & -> & Hw). rewrite Hk in Hw.
    cbn [clock_Sleep realClock] in Hw. unfold realClock_Sleep in Hw.
    pose proof (backoffDelay_le c k last).
    destruct (_ <=? 0) eqn:E; apply exec_perform in Hw; destruct Hw as (x & tr4 & -> & -> & ->);
      simpl; split; try constructor; try lia; [|constructor].
    to_prop. unfold max_wait. lia. }
  rewrite timers_app, length_app.
  destruct st as [err|]; [destruct H as [-> ->]; rewrite app_nil_r;
    split; [done|]; simpl; destruct (k =? 0)%nat; lia|].
  apply exec_bind in H. destruct H as (tr3 & r' & tr4 & -> & Ho & H).
  rewrite timers_app, (timers_none _ _ _ (doOnce_no_timer _ _ _ _ _ _) Ho). simpl.
  assert (Forall (fun d => 0 < d <= max_wait c) (timers tr4) /\
          (length (timers tr4) <= n)%nat) as [H3 H4].
  { destruct r' as [v|e]; [destruct H as [-> ->]; split; simpl; [constructor|lia]|].
    destruct (isRetryable e); [|destruct H as [-> ->]; split; simpl; [constructor|lia]].
    by apply IH in H. }
  split; [by apply Forall_app|]. destruct (k =? 0)%nat; lia.
Qed.

(** The first attempt of a call does not wait: [n] attempts wait [n - 1] times. *)
Lemma sum_le (l : list Z) b :
  Forall (fun d => 0 < d <= b) l -> 0 <= foldr Z.add 0 l <= Z.of_nat (length l) * b.
Proof. induction 1; simpl; [lia|]. nia. Qed.
End Delays.
