(* ===== verification/ClientPaths.v ===== *)
(** The request lines of the four endpoints, taken apart again. *)
From S2P Require Import Prelude GoStrings Utf8 Runtime Quote Errors Json Types ZoneCache Effects.
From S2P Require Import Client.

Definition slash : ascii := "/"%char.

(** The calls of the API, and the request line each one sends. *)
Inductive api_call :=
| CallListZones
| CallCreateRRSet (zoneID : Z)
| CallSetRRSetRecords (zoneID : Z) (name rrType : string)
| CallDeleteRRSet (zoneID : Z) (name rrType : string).

Definition request_line (call : api_call) : string * string :=
  match call with
  | CallListZones => ("GET", zones_path)
  | CallCreateRRSet z => ("POST", rrsets_path z)
  | CallSetRRSetRecords z name rrType => ("POST", set_records_path z name rrType)
  | CallDeleteRRSet z name rrType => ("DELETE", rrset_path z name rrType)
  end.

Definition call_zone (call : api_call) : Z :=
  match call with
  | CallListZones => 0
  | CallCreateRRSet z | CallSetRRSetRecords z _ _ | CallDeleteRRSet z _ _ => z
  end.

(** A router: what a server that splits the path at its slashes and decodes the
    segments makes of a request line. *)
Definition parse_request_line (method path : string) : option api_call :=
  match Split path slash with
  | [e; v; zs] =>
      if (method =? "GET")%string && (e =? EmptyString)%string && (v =? "v1")%string
         && (zs =? "zones")%string
      then Some CallListZones else None
  | [e; v; zs; z; rs] =>
      if (method =? "POST")%string && (e =? EmptyString)%string && (v =? "v1")%string
         && (zs =? "zones")%string && (rs =? "rrsets")%string
      then CallCreateRRSet <$> Atoi z else None
  | [e; v; zs; z; rs; name; rrType] =>
      if (method =? "DELETE")%string && (e =? EmptyString)%string && (v =? "v1")%string
         && (zs =? "zones")%string && (rs =? "rrsets")%string
      then match Atoi z, PathUnescape name, PathUnescape rrType with
           | Some z, Some name, Some rrType => Some (CallDeleteRRSet z name rrType)
           | _, _, _ => None
           end
      else None
  | [e; v; zs; z; rs; name; rrType; a; s] =>
      if (method =? "POST")%string && (e =? EmptyString)%string && (v =? "v1")%string
         && (zs =? "zones")%string && (rs =? "rrsets")%string && (a =? "actions")%string
         && (s =? "set_records")%string
      then match Atoi z, PathUnescape name, PathUnescape rrType with
           | Some z, Some name, Some rrType => Some (CallSetRRSetRecords z name rrType)
           | _, _, _ => None
           end
      else None
  | _ => None
  end.

(** ** Lemmas *)

Lemma FormatInt_no_slash z : all_bytes not_slash (FormatInt z) = true.
Proof.
  eapply all_bytes_impl, FormatInt_bytes. intros c Hc. unfold not_slash.
  apply negb_true_iff, Ascii.eqb_neq. by intros ->.
Qed.

Lemma Split_segment s t :
  all_bytes not_slash s = true -> Split (s +:+ String slash t) slash = s :: Split t slash.
Proof. intros H. by rewrite Split_app_sep, Split_single. Qed.

Lemma Split_zone z t :
  Split ("/v1/zones/" +:+ FormatInt z +:+ String slash t) slash =
  EmptyString :: "v1" :: "zones" :: FormatInt z :: Split t slash.
Proof.
  change ("/v1/zones/" +:+ ?s) with (EmptyString +:+ String slash ("v1" +:+ String slash
    ("zones" +:+ String slash s))).
  rewrite !Split_segment by (done || apply FormatInt_no_slash). reflexivity.
Qed.

Lemma Split_rrsets_path z :
  Split (rrsets_path z) slash = [EmptyString; "v1"; "zones"; FormatInt z; "rrsets"].
Proof. unfold rrsets_path. apply (Split_zone z "rrsets"). Qed.

Lemma Split_rrset_path z name rrType :
  Split (rrset_path z name rrType) slash =
  [EmptyString; "v1"; "zones"; FormatInt z; "rrsets"; PathEscape name; PathEscape rrType].
Proof.
  unfold rrset_path. etransitivity; [apply (Split_zone z ("rrsets" +:+ String slash
    (PathEscape name +:+ String slash (PathEscape rrType))))|].
  rewrite !Split_segment, Split_single by (done || apply PathEscape_no_slash). done.
Qed.

Lemma Split_set_records_path z name rrType :
  Split (set_records_path z name rrType) slash =
  [EmptyString; "v1"; "zones"; FormatInt z; "rrsets"; PathEscape name; PathEscape rrType;
   "actions"; "set_records"].
Proof.
  unfold set_records_path. etransitivity; [apply (Split_zone z ("rrsets" +:+ String slash
    (PathEscape name +:+ String slash (PathEscape rrType +:+ String slash
       ("actions" +:+ String slash "set_records")))))|].
  rewrite !Split_segment, Split_single by (done || apply PathEscape_no_slash). done.
Qed.

Lemma parse_request_line_correct call :
  in_int64 (call_zone call) = true ->
  parse_request_line (fst (request_line call)) (snd (request_line call)) = Some call.
Proof.
  unfold parse_request_line. destruct call as [|z|z name rrType|z name rrType];
    cbn [request_line fst snd call_zone]; intros Hz.
  - reflexivity.
  - rewrite Split_rrsets_path. simpl. by rewrite Atoi_FormatInt.
  - rewrite Split_set_records_path. simpl. by rewrite Atoi_FormatInt, !PathUnescape_PathEscape.
  - rewrite Split_rrset_path. simpl. by rewrite Atoi_FormatInt, !PathUnescape_PathEscape.
Qed.
