(* ===== verification/Interference.v ===== *)
(** Programs among others.  [holds R G p Q w]: run from [w] by a handler, with the
    world changing as [R] allows before every event and after the last, [p]
    changes the world only as [G] allows and returns with [Q].  It is by this
    judgement that a call is proved correct whatever other calls do meanwhile; a
    run without interference is the special case [holds_run]. *)
From S2P Require Import Prelude GoStrings Utf8 Runtime Quote Errors ZoneCache Effects.

Section Interference.
Context {RT : Runtime} {W : Type} (h : handler W).

Fixpoint holds {A} (R G : relation W) (p : prog A) (Q : A -> W -> Prop) (w : W) : Prop :=
  match p with
  | Ret a => forall w', R w w' -> Q a w'
  | Op e k => forall w', R w w' ->
      let '(r, w'') := h e w' in G w' w'' /\ holds R G (k r) Q w''
  end.

Section Rules.
Context (R G : relation W) `{!PreOrder R}.

(** Interference before the program starts is no different. *)
Lemma holds_rely {A} (p : prog A) Q w w' : R w w' -> holds R G p Q w -> holds R G p Q w'.
Proof. intros Hw. destruct p; simpl; intros H w'' Hw'; apply H; by transitivity w'. Qed.

Lemma holds_mono {A} (p : prog A) (Q Q' : A -> W -> Prop) w :
  (forall a w', Q a w' -> Q' a w') -> holds R G p Q w -> holds R G p Q' w.
Proof.
  intros HQ. revert w. induction p as [a|e k IH]; intros w; simpl; [by eauto|].
  intros H w' Hw. specialize (H w' Hw). destruct (h e w') as [r w'']. destruct H. eauto.
Qed.

Lemma holds_bind {A B} (p : prog A) (f : A -> prog B) Q w :
  holds R G p (fun a => holds R G (f a) Q) w -> holds R G (bind p f) Q w.
Proof.
  revert w. induction p as [a|e k IH]; intros w; simpl.
  - intros H. by apply H.
  - intros H w' Hw. specialize (H w' Hw). destruct (h e w') as [r w'']. destruct H. eauto.
Qed.

Lemma holds_ret {A} (a : A) (Q : A -> W -> Prop) w :
  (forall w', R w w' -> Q a w') -> holds R G (Ret a) Q w.
Proof. done. Qed.

(** An event that leaves the world alone. *)
Lemma holds_quiet {A} e (f : answer e -> prog A) Q w :
  Reflexive G -> (forall w', R w w' -> exists r, h e w' = (r, w') /\ holds R G (f r) Q w') ->
  holds R G (bind (perform e) f) Q w.
Proof.
  intros HG H w' Hw. destruct (H w' Hw) as (r & -> & Hr). by split.
Qed.

(** What neither side disturbs stays. *)
Lemma holds_invariant {A} (I : W -> Prop) (p : prog A) Q w :
  (forall w1 w2, R w1 w2 -> I w1 -> I w2) -> (forall w1 w2, G w1 w2 -> I w1 -> I w2) -> I w ->
  holds R G p Q w -> holds R G p (fun a w' => I w' /\ Q a w') w.
Proof.
  intros HR HG. revert w. induction p as [a|e k IH]; intros w Hw; simpl; [by eauto|].
  intros H w' Hw'. specialize (H w' Hw'). destruct (h e w') as [r w'']. destruct H. eauto 6.
Qed.

(** Without interference: a run. *)
Lemma holds_run {A} (p : prog A) Q w :
  PreOrder G -> holds R G p Q w ->
  exists a w', run h p w = (a, w') /\ G w w' /\ Q a w'.
Proof.
  intros HG. revert w. induction p as [a|e k IH]; intros w; simpl.
  - intros H. exists a, w. split; [done|]. split; [done|]. by apply H.
  - intros H. specialize (H w ltac:(done)). destruct (h e w) as [r w']. destruct H as [Hg H].
    destruct (IH r w' H) as (a & w'' & -> & Hg' & HQ). exists a, w''.
    split; [done|]. split; [|done]. by transitivity w'.
Qed.
End Rules.

(** More interference proves less, a weaker guarantee promises less. *)
Lemma holds_weaken {A} (R R' G G' : relation W) (p : prog A) Q w :
  (forall w w', R' w w' -> R w w') -> (forall w w', G w w' -> G' w w') ->
  holds R G p Q w -> holds R' G' p Q w.
Proof.
  intros HR HG. revert w. induction p as [a|e k IH]; intros w; simpl; [by eauto|].
  intros H w' Hw. specialize (H w' (HR _ _ Hw)). destruct (h e w') as [r w'']. destruct H. eauto.
Qed.
End Interference.

#[global] Arguments holds {RT W} h {A} R G p Q w.
