(* ===== verification/ZonesAPI.v ===== *)
(** The environment of the end-to-end theorems: the contract of the Hetzner Cloud
    Zones API as the program relies on it, and a world in which the solver runs
    against an implementation of that contract over a network that is slow and
    loses requests and replies.

    The contract says what docs/app-concept.md section 3 and the client's
    comments say of the four endpoints: record sets are identified by zone, name
    and type; creating an existing one is a 409 that changes nothing;
    [set_records] replaces the records and keeps the TTL; deleting or replacing a
    missing one is a 404; writes to a secondary zone are refused.

    The record sets of the contract are those the API has accepted.  It answers
    [set_records] with an asynchronous Action, so the name servers may publish the
    records later; the program does not wait for that, and cert-manager checks
    the DNS itself before it goes on. *)
From S2P Require Import Prelude GoStrings Utf8 Runtime Quote Errors Json Types ZoneCache Effects.
From S2P Require Import Client ClientPaths.

Abbreviation rrkey := (Z * string * string)%type.

Record RRSetState := mkRRSetState { st_records : list Record_; st_ttl : option Z }.

#[export] Instance RRSetState_eq_dec : EqDecision RRSetState.
Proof. solve_decision. Defined.

Class ZonesAPI := {
  api_base : string;
  api_state : Type;
  api_serve : Request -> api_state -> Response * api_state;
  (** the tokens in force, each of a project *)
  api_tokens : list string;
  (** the zones of a token's project *)
  api_zones : string -> api_state -> list (Z * string);
  (** those of them on the first page of a listing *)
  api_page : string -> api_state -> list (Z * string);
  (** whether a zone is a primary one; secondary zones are read-only replicas *)
  api_primary : api_state -> Z -> bool;
  (** the record sets of all projects *)
  api_rrsets : api_state -> gmap rrkey RRSetState
}.

(** A call's request, as the client sends it with a token. *)
Definition api_request {API : ZonesAPI} (tok : string) (call : api_call) (body : option string)
    (req : Request) : Prop :=
  tok ∈ api_tokens /\
  req_method req = fst (request_line call) /\
  req_url req = api_base +:+ snd (request_line call) /\
  req_header req !! "Authorization" = Some ("Bearer " +:+ tok) /\
  req_body req = body.

(** No project gained or lost a zone, and none changed its mode. *)
Definition same_zones {API : ZonesAPI} (s s' : api_state) : Prop :=
  (forall tok, api_zones tok s' = api_zones tok s /\ api_page tok s' = api_page tok s) /\
  forall zid, api_primary s' zid = api_primary s zid.

(** A zone of the token's project that takes writes. *)
Definition writable {API : ZonesAPI} (tok : string) (s : api_state) (zid : Z) : Prop :=
  zid ∈ map fst (api_zones tok s) /\ api_primary s zid = true.

(** The status of a request that the API understands and will not carry out. *)
Definition refused (status : Z) : bool :=
  (400 <=? status) && (status <? 500) &&
  negb (status =? 404) && negb (status =? 409) && negb (status =? 429).

Definition zone_view (z : Zone) : Z * string := (Zone_ID z, Zone_Name z).

(** Values a request can carry without loss: ASCII text, 64-bit numbers. *)
Definition ascii_text (s : string) : Prop := all_bytes ascii_byte s = true.

Definition record_ok (r : Record_) : Prop :=
  ascii_text (Record_Value r) /\ ascii_text (Record_Comment r).

Definition create_ok (r : CreateRRSetRequest) : Prop :=
  ascii_text (Create_Name r) /\ ascii_text (Create_Type r) /\
  (forall ttl, Create_TTL r = Some ttl -> in_int64 ttl = true) /\
  Forall record_ok (Create_Records r) /\ Create_Labels r = [].

Class ZonesAPILaws {RT : Runtime} (API : ZonesAPI) : Prop := {
  (** Zone IDs are 64-bit, and a page shows zones of the project. *)
  law_zones : forall tok s z, z ∈ api_zones tok s -> in_int64 (fst z) = true;
  law_page : forall tok s z, z ∈ api_page tok s -> z ∈ api_zones tok s;
  (** GET /v1/zones *)
  law_list : forall tok s req, api_request tok CallListZones None req ->
    exists resp out, api_serve req s = (resp, s) /\
      is_2xx (resp_StatusCode resp) = true /\
      decode_out "GET" zones_path out_zones (resp_Body resp) = Ok out /\
      map zone_view (lzr_Zones out) = api_page tok s;
  (** POST /v1/zones/{id}/rrsets *)
  law_create : forall tok s req zid r,
    create_ok r -> writable tok s zid ->
    api_request tok (CallCreateRRSet zid) (Some (Marshal_CreateRRSetRequest r)) req ->
    let key := (zid, Create_Name r, Create_Type r) in
    exists resp s', api_serve req s = (resp, s') /\
      same_zones s s' /\
      match api_rrsets s !! key with
      | Some _ => resp_StatusCode resp = 409 /\ api_rrsets s' = api_rrsets s
      | None =>
          is_2xx (resp_StatusCode resp) = true /\
          (exists v, decode_out "POST" (rrsets_path zid) out_rrset (resp_Body resp) = Ok v) /\
          api_rrsets s' =
            <[key := mkRRSetState (Create_Records r) (Create_TTL r)]> (api_rrsets s)
      end;
  (** the same for a zone that is in no project *)
  law_create_missing : forall tok s req zid r,
    create_ok r -> in_int64 zid = true -> (forall tok', zid ∉ map fst (api_zones tok' s)) ->
    api_request tok (CallCreateRRSet zid) (Some (Marshal_CreateRRSetRequest r)) req ->
    exists resp, api_serve req s = (resp, s) /\ resp_StatusCode resp = 404;
  (** writes to a secondary zone *)
  law_secondary : forall tok s req call body,
    call <> CallListZones -> call_zone call ∈ map fst (api_zones tok s) ->
    api_primary s (call_zone call) = false -> api_request tok call body req ->
    exists resp, api_serve req s = (resp, s) /\ refused (resp_StatusCode resp) = true;
  (** POST /v1/zones/{id}/rrsets/{name}/{type}/actions/set_records: accepted *)
  law_set_records : forall tok s req zid name rrType rs st,
    ascii_text name -> ascii_text rrType -> Forall record_ok rs ->
    writable tok s zid -> api_rrsets s !! (zid, name, rrType) = Some st ->
    api_request tok (CallSetRRSetRecords zid name rrType)
      (Some (Marshal_SetRRSetRecordsRequest (mkSetRRSetRecordsRequest rs))) req ->
    exists resp s', api_serve req s = (resp, s') /\
      same_zones s s' /\
      is_2xx (resp_StatusCode resp) = true /\
      (exists v, decode_out "POST" (set_records_path zid name rrType) out_action
                   (resp_Body resp) = Ok v) /\
      api_rrsets s' = <[(zid, name, rrType) := mkRRSetState rs (st_ttl st)]> (api_rrsets s);
  (** the same for a record set that is not there *)
  law_set_records_missing : forall tok s req zid name rrType rs,
    ascii_text name -> ascii_text rrType -> Forall record_ok rs ->
    writable tok s zid -> api_rrsets s !! (zid, name, rrType) = None ->
    api_request tok (CallSetRRSetRecords zid name rrType)
      (Some (Marshal_SetRRSetRecordsRequest (mkSetRRSetRecordsRequest rs))) req ->
    exists resp, api_serve req s = (resp, s) /\ resp_StatusCode resp = 404;
  (** DELETE /v1/zones/{id}/rrsets/{name}/{type} *)
  law_delete : forall tok s req zid name rrType,
    ascii_text name -> ascii_text rrType -> writable tok s zid ->
    api_request tok (CallDeleteRRSet zid name rrType) None req ->
    exists resp s', api_serve req s = (resp, s') /\
      same_zones s s' /\
      match api_rrsets s !! (zid, name, rrType) with
      | Some _ => is_2xx (resp_StatusCode resp) = true
      | None => resp_StatusCode resp = 404
      end /\
      api_rrsets s' = delete (zid, name, rrType) (api_rrsets s)
}.

(** ** The world *)

Section World.
Context {RT : Runtime} {API : ZonesAPI}.

(** A request that fails on the network or in front of the API: what the client
    gets to see, and whether the API was reached all the same, so that only its
    reply is lost. *)
Record fault := mkFault { f_answer : result string Response; f_delivered : bool }.

(** What becomes of a request: how long it takes, and whether it fails. *)
Record hop := mkHop { hop_time : Z; hop_fault : option fault }.

(** [w_network]: what becomes of the next requests, in order; those beyond the
    list get through and take no time. *)
Record world := mkWorld {
  w_now : Z;
  w_cache : zoneCache;
  w_secrets : gmap (string * string) (gmap string string);
  w_network : list hop;
  w_api : api_state
}.

Definition set_cache (w : world) (c : zoneCache) : world :=
  mkWorld (w_now w) c (w_secrets w) (w_network w) (w_api w).

Definition set_api (w : world) (s : api_state) : world :=
  mkWorld (w_now w) (w_cache w) (w_secrets w) (w_network w) s.

(** The same world at another instant, with another network. *)
Definition later (w : world) (t : Z) (net : list hop) : world :=
  mkWorld t (w_cache w) (w_secrets w) net (w_api w).

(** The deadline of a context, if it has passed by [t]. *)
Definition expired (ctx : Ctx) (t : Z) : option Z :=
  match ctx_deadline ctx with
  | Some dl => if dl <=? t then Some dl else None
  | None => None
  end.

(** What the client gets of a request that it gives up. *)
Definition gave_up : result string Response := Err "context deadline exceeded".

(** A request that is sent now: not at all if its context has expired; else it
    takes its time, or is given up when the context expires, whether or not the API
    serves it. *)
Definition send (ctx : Ctx) (req : Request) (w : world) : result string Response * world :=
  match expired ctx (w_now w) with
  | Some _ => (gave_up, w)
  | None =>
      let '(resp, s) := api_serve req (w_api w) in
      match w_network w with
      | [] => (Ok resp, set_api w s)
      | h :: l =>
          let until := w_now w + Z.max 0 (hop_time h) in
          let '(a, s') := match hop_fault h with
                          | Some f => (f_answer f, if f_delivered f then s else w_api w)
                          | None => (Ok resp, s)
                          end in
          match expired ctx until with
          | Some dl => (gave_up, set_api (later w dl l) s')
          | None => (a, set_api (later w until l) s')
          end
      end
  end.

(** Requests and waits take time, and end when their context expires, also when
    they would have ended at that very instant; nothing else takes time. *)
Definition in_world : handler world := fun e w =>
  match e return answer e * world with
  | ENow => (w_now w, w)
  | ECtxErr ctx =>
      (match expired ctx (w_now w) with Some _ => Some CtxDeadlineExceeded | None => None end, w)
  | ETimer ctx d =>
      let until := w_now w + Z.max 0 d in
      match expired ctx until with
      | Some dl => (Some CtxDeadlineExceeded, later w (Z.max (w_now w) dl) (w_network w))
      | None => (None, later w until (w_network w))
      end
  | EDo _ ctx req => send ctx req w
  | ESecret _ ctx ns name =>
      (match expired ctx (w_now w), w_secrets w !! (ns, name) with
       | Some _, _ => Err (ctx_error_error CtxDeadlineExceeded)
       | None, Some d => Ok d
       | None, None => Err (EText "not found")
       end, w)
  | ELog _ _ => (tt, w)
  | ECacheLookup k =>
      let '(r, c) := zoneCache_Lookup (w_cache w) (w_now w) (secretRef k) (zoneName k) in
      (r, set_cache w c)
  | ECacheStore k id =>
      (tt, set_cache w (zoneCache_Store (w_cache w) (w_now w) (secretRef k) (zoneName k) id))
  | ECacheInvalidate k =>
      (tt, set_cache w (zoneCache_Invalidate (w_cache w) (secretRef k) (zoneName k)))
  end.

(** ** Lemmas *)

Lemma later_same w : later w (w_now w) (w_network w) = w.
Proof. by destruct w. Qed.

(** The context has not expired at [t]. *)
Definition timely (ctx : Ctx) (t : Z) : Prop := expired ctx t = None.

Lemma timely_alt ctx t : timely ctx t <-> forall dl, ctx_deadline ctx = Some dl -> t < dl.
Proof.
  unfold timely, expired. destruct (ctx_deadline ctx) as [dl|]; [|by split].
  destruct (dl <=? t) eqn:E; to_prop.
  - split; [done|]. intros H. specialize (H dl eq_refl). lia.
  - split; [by intros _ ? [= <-]|done].
Qed.

Lemma timely_earlier ctx t t' : t <= t' -> timely ctx t' -> timely ctx t.
Proof. rewrite !timely_alt. intros Ht H dl Hd. specialize (H dl Hd). lia. Qed.

(** The context [context.WithTimeout] derives at [now]. *)
Definition derived (parent : Ctx) (now timeout : Z) : Ctx :=
  let d := now + timeout in
  match ctx_deadline parent with
  | Some cur => if cur <? d then parent else mkCtx (Some d)
  | None => mkCtx (Some d)
  end.

Lemma derived_timely parent now timeout t :
  timely parent t -> t < now + timeout -> timely (derived parent now timeout) t.
Proof.
  rewrite !timely_alt. unfold derived. intros H Ht dl.
  destruct (ctx_deadline parent) as [cur|] eqn:E; [|by intros [= <-]].
  destruct (cur <? now + timeout); [by rewrite E; intros [= <-]; apply H|by intros [= <-]].
Qed.

Lemma derived_expired parent now timeout t :
  timely parent (now + timeout) -> now + timeout <= t ->
  expired (derived parent now timeout) t = Some (now + timeout).
Proof.
  rewrite timely_alt. unfold derived, expired. intros H Ht.
  assert ((match ctx_deadline parent with
           | Some cur => if cur <? now + timeout then parent else mkCtx (Some (now + timeout))
           | None => mkCtx (Some (now + timeout)) end) = mkCtx (Some (now + timeout))) as ->.
  { destruct (ctx_deadline parent) as [cur|]; [|done]. specialize (H cur eq_refl).
    by rewrite (proj2 (Z.ltb_ge _ _)) by lia. }
  simpl. by rewrite (proj2 (Z.leb_le _ _)).
Qed.
End World.
