(* ===== verification/Adversity.v ===== *)
(** Programs in an environment that may fail them.  [Interference] runs a program
    by a handler; here what an event does is a relation: [may e w r w'] says that
    in the world [w] the event [e] may be answered by [r] and leave [w'].
    [keeps may S R G p Q w] judges all that can happen: however the events are
    answered, and while others change the world as [R] allows, [p] performs only
    events in [S], changes the world only as [G] allows, event by event, and has
    [Q] if it returns.  As [S] and [G] hold of every single event, they say as much
    of a program that is killed half way. *)
From S2P Require Import Prelude GoStrings Utf8 Runtime Quote Errors Json Types ZoneCache Effects.
From S2P Require Import Client ClientSpec ClientPaths Interference ZonesAPI.

Section Keeps.
Context {RT : Runtime} {W : Type} (may : forall e : eff, W -> answer e -> W -> Prop).

Fixpoint keeps {A} (S : eff -> Prop) (R G : relation W) (p : prog A) (Q : A -> W -> Prop) (w : W) :
    Prop :=
  match p with
  | Ret a => forall w', R w w' -> Q a w'
  | Op e k => S e /\ forall w' r w'', R w w' -> may e w' r w'' ->
      G w' w'' /\ keeps S R G (k r) Q w''
  end.

Context (S : eff -> Prop) (R G : relation W) `{!PreOrder R}.

Lemma keeps_rely {A} (p : prog A) Q w w' : R w w' -> keeps S R G p Q w -> keeps S R G p Q w'.
Proof.
  intros Hw. destruct p as [a|e k]; simpl; [|intros [HS H]; split; [done|revert H]];
    intros H w''; [|intros r w3]; intros Hw'; apply H; by transitivity w'.
Qed.

Lemma keeps_mono {A} (p : prog A) (Q Q' : A -> W -> Prop) w :
  (forall a w', Q a w' -> Q' a w') -> keeps S R G p Q w -> keeps S R G p Q' w.
Proof.
  intros HQ. revert w. induction p as [a|e k IH]; intros w; simpl; [by eauto|].
  intros [HS H]. split; [done|]. intros w' r w'' Hw Hm. destruct (H w' r w'' Hw Hm). eauto.
Qed.

Lemma keeps_bind {A B} (p : prog A) (f : A -> prog B) Q w :
  keeps S R G p (fun a => keeps S R G (f a) Q) w -> keeps S R G (bind p f) Q w.
Proof.
  revert w. induction p as [a|e k IH]; intros w; simpl.
  - intros H. by apply H.
  - intros [HS H]. split; [done|]. intros w' r w'' Hw Hm. destruct (H w' r w'' Hw Hm). eauto.
Qed.

(** An event that leaves the world alone. *)
Lemma keeps_quiet {A} e (f : answer e -> prog A) Q w :
  Reflexive G -> S e -> (forall w0 r w1, may e w0 r w1 -> w1 = w0) ->
  (forall r w', R w w' -> keeps S R G (f r) Q w') -> keeps S R G (bind (perform e) f) Q w.
Proof.
  intros HG HS Hq H. split; [done|]. intros w' r w'' Hw Hm. rewrite (Hq _ _ _ Hm).
  split; [done|]. by apply H.
Qed.

(** What neither side disturbs stays. *)
Lemma keeps_invariant {A} (I : W -> Prop) (p : prog A) Q w :
  (forall w1 w2, R w1 w2 -> I w1 -> I w2) -> (forall w1 w2, G w1 w2 -> I w1 -> I w2) -> I w ->
  keeps S R G p Q w -> keeps S R G p (fun a w' => I w' /\ Q a w') w.
Proof.
  intros HR HG. revert w. induction p as [a|e k IH]; intros w Hw; simpl; [by eauto|].
  intros [HS H]. split; [done|]. intros w' r w'' Hw' Hm. destruct (H w' r w'' Hw' Hm). eauto 6.
Qed.
End Keeps.

#[global] Arguments keeps {RT W} may {A} S R G p Q w.

Lemma keeps_weaken {RT : Runtime} {W A} may S (R R' G G' : relation W) (p : prog A) Q w :
  (forall w w', R' w w' -> R w w') -> (forall w w', G w w' -> G' w w') ->
  keeps may S R G p Q w -> keeps may S R' G' p Q w.
Proof.
  intros HR HG. revert w. induction p as [a|e k IH]; intros w; simpl; [by eauto|].
  intros [HS H]. split; [done|]. intros w' r w'' Hw Hm. destruct (H w' r w'' (HR _ _ Hw) Hm). eauto.
Qed.

(** A handler is an environment without choice. *)
Definition answers_of {RT : Runtime} {W} (h : handler W) (e : eff) (w : W) (r : answer e) (w' : W) :
    Prop := h e w = (r, w').

Lemma keeps_holds {RT : Runtime} {W A} (h : handler W) R G (p : prog A) Q w :
  keeps (answers_of h) (fun _ => True) R G p Q w <-> holds h R G p Q w.
Proof.
  unfold answers_of. revert w. induction p as [a|e k IH]; intros w; simpl; [done|]. split.
  - intros [_ H] w' Hw. destruct (h e w') as [r w''] eqn:E. destruct (H w' r w'' Hw E).
    split; [done|]. by apply IH.
  - intros H. split; [done|]. intros w' r w'' Hw E. specialize (H w' Hw). rewrite E in H.
    destruct H. split; [done|]. by apply IH.
Qed.

(** ** What may happen to the solver *)

Section Happens.
Context {RT : Runtime} {API : ZonesAPI}.

(** The answer to a request that failed: none, or one that something on the way
    gave, or the API about the request rather than the record sets: 401, 403, 429,
    5xx and so on.  That a thing is not there (404) or is there already (409)
    only the API itself says. *)
Definition failed_answer (a : result string Response) : bool :=
  match a with
  | Err _ => true
  | Ok resp =>
      negb (is_2xx (resp_StatusCode resp)) &&
      negb (resp_StatusCode resp =? 404) && negb (resp_StatusCode resp =? 409)
  end.

(** A request is answered by the API, or fails; then it may have been served all
    the same. *)
Definition exchange (req : Request) (w : world) (a : result string Response) (w' : world) : Prop :=
  let '(resp, s) := api_serve req (w_api w) in
  a = Ok resp /\ w' = set_api w s \/
  failed_answer a = true /\ (w' = w \/ w' = set_api w s).

(** Any request and any read of a Secret may fail, at any time, any number of
    times; any context may have expired or been cancelled, any wait be cut short;
    the clock shows anything.  The zone cache works. *)
Definition happens (e : eff) (w : world) : answer e -> world -> Prop :=
  match e return answer e -> world -> Prop with
  | EDo _ _ req => exchange req w
  | ESecret _ _ ns name => fun r w' =>
      w' = w /\ match r with Ok d => w_secrets w !! (ns, name) = Some d | Err _ => True end
  | ECacheLookup k => fun r w' => in_world (ECacheLookup k) w = (r, w')
  | ECacheStore k id => fun r w' => in_world (ECacheStore k id) w = (r, w')
  | ECacheInvalidate k => fun r w' => in_world (ECacheInvalidate k) w = (r, w')
  | _ => fun _ w' => w' = w
  end.

Lemma set_api_same w : set_api w (w_api w) = w.
Proof. by destruct w. Qed.

(** The requests a program may send. *)
Definition sends (H : Request -> Prop) (e : eff) : Prop :=
  match e with EDo _ _ req => H req | _ => True end.

(** An error that says nothing of the record sets. *)
Definition unclear (e : error) : Prop :=
  errors_Is e ErrConflict = false /\ errors_Is e ErrNotFound = false.

Lemma failed_unclear {A} method path (out : dest A) a r :
  failed_answer a = true -> outcome method path out a r -> exists e, r = Err e /\ unclear e.
Proof.
  intros Ha Ho. inversion Ho as [msg|resp H|resp now H]; subst; [by eexists| |]; simpl in Ha; to_prop.
  - congruence.
  - eexists. split; [done|]. by split; apply Z.eqb_neq.
Qed.

Lemma ctx_unclear e : unclear (ctx_error_error e).
Proof. by destruct e. Qed.

(** Such environments can be run: what befalls an event, and what comes of it. *)
Inductive fate :=
| Fine
| Faulty (a : result string Response) (delivered : bool)  (* a request that fails *)
| Cut (e : ctx_error).                                    (* a context that is done *)

Definition bearable_fate (x : fate) : bool :=
  match x with Faulty a _ => failed_answer a | _ => true end.

Definition meet (x : fate) (e : eff) (w : world) : answer e * world :=
  match e return answer e * world with
  | EDo _ _ req =>
      let '(resp, s) := api_serve req (w_api w) in
      match x with
      | Faulty a delivered => (a, if delivered then set_api w s else w)
      | _ => (Ok resp, set_api w s)
      end
  | ECtxErr _ => (match x with Cut err => Some err | _ => None end, w)
  | ETimer _ _ => (match x with Cut err => Some err | _ => None end, w)
  | ESecret _ _ ns name =>
      (match x with
       | Cut err => Err (ctx_error_error err)
       | _ => match w_secrets w !! (ns, name) with Some d => Ok d | None => Err (EText "not found") end
       end, w)
  | e => in_world e w
  end.

Lemma meet_happens x e w r w' :
  bearable_fate x = true -> meet x e w = (r, w') -> happens e w r w'.
Proof.
  intros Hx. destruct e; simpl; try done; try (by intros [= _ <-]).
  - unfold exchange. destruct (api_serve req (w_api w)) as [resp s].
    destruct x as [|a []|]; intros [= <- <-]; [by left|by right; auto..|by left].
  - destruct x, (w_secrets w !! (ns, name)) eqn:E; intros [= <- <-]; by split.
Qed.
End Happens.
