(* ===== verification/RequestRoundtrip.v ===== *)
(** The bodies of the two mutating requests decode to what was encoded. *)
From S2P Require Import Prelude GoStrings Utf8 Runtime Quote Errors Json JsonFuel JsonRoundtrip.
From S2P Require Import Types ZoneCache Effects Client ClientPaths ZonesAPI.

(** The decoders of the request types, by the same struct tags.  Labels, which
    the program never sends, are left out. *)
Definition CreateRRSetRequest_fields : list (field CreateRRSetRequest) := [
  mk_field "name" Create_Name (fun v r => mkCreateRRSetRequest v (Create_Type r) (Create_TTL r) (Create_Records r) (Create_Labels r)) store_string;
  mk_field "type" Create_Type (fun v r => mkCreateRRSetRequest (Create_Name r) v (Create_TTL r) (Create_Records r) (Create_Labels r)) store_string;
  mk_field "ttl" Create_TTL (fun v r => mkCreateRRSetRequest (Create_Name r) (Create_Type r) v (Create_Records r) (Create_Labels r)) (store_pointer store_int 0);
  mk_field "records" Create_Records (fun v r => mkCreateRRSetRequest (Create_Name r) (Create_Type r) (Create_TTL r) v (Create_Labels r)) (store_slice (store_struct Record_fields) zero_Record)].

Definition SetRRSetRecordsRequest_fields : list (field SetRRSetRecordsRequest) := [
  mk_field "records" SetRecords_Records (fun v _ => mkSetRRSetRecordsRequest v)
    (store_slice (store_struct Record_fields) zero_Record)].

Definition Unmarshal_CreateRRSetRequest (body : string) : option CreateRRSetRequest :=
  Unmarshal (store_struct CreateRRSetRequest_fields)
    (mkCreateRRSetRequest EmptyString EmptyString None [] []) body.

Definition Unmarshal_SetRRSetRecordsRequest (body : string) : option SetRRSetRecordsRequest :=
  Unmarshal (store_struct SetRRSetRecordsRequest_fields) (mkSetRRSetRecordsRequest []) body.

(** ** Storing what was printed *)

(** Find the fields of the constant keys in the goal. *)
Ltac find_fields :=
  repeat match goal with
  | |- context [find_field ?F ?k] =>
      let r := eval hnf in (find_field F k) in
      change (find_field F k) with r; cbn [snd mk_field]
  end.

Lemma store_json_string s cur : ascii_text s -> store_string (json_string s) cur = Some s.
Proof. intros H. simpl. by apply unquote_escape. Qed.

Lemma store_json_int z cur : in_int64 z = true -> store_int (json_int z) cur = Some z.
Proof. intros H. simpl. by apply Atoi_FormatInt. Qed.

Lemma good_json_string s : ascii_text s -> good (json_string s).
Proof. intros H. by exists s. Qed.

Lemma store_Record r : record_ok r -> store_struct Record_fields (Record_json r) zero_Record = Some r.
Proof.
  destruct r as [v cm]. intros [Hv Hc]. unfold Record_json, omitempty.
  cbn [Record_Value Record_Comment] in *.
  destruct (cm =? EmptyString)%string eqn:E; to_prop; subst; cbn [store_struct foldl app];
    find_fields; by rewrite !store_json_string by done.
Qed.

Lemma store_Records rs :
  Forall record_ok rs ->
  store_slice (store_struct Record_fields) zero_Record (JArr (map Record_json rs)) [] = Some rs.
Proof.
  intros H. cbn [store_slice]. induction H as [|r rs Hr Hrs IH]; [done|].
  cbn [map store_elems hd tl]. by rewrite store_Record, IH.
Qed.

Lemma good_Record r : record_ok r -> good (Record_json r) /\ nesting (Record_json r) = 1.
Proof.
  destruct r as [v cm]. intros [Hv Hc]. unfold Record_json, omitempty.
  cbn [Record_Value Record_Comment] in *.
  destruct (cm =? EmptyString)%string; (split; [|done]); cbn [good app foldr fst snd];
    repeat split; try (by apply good_json_string); done.
Qed.

Lemma good_Records rs :
  Forall record_ok rs ->
  good (JArr (map Record_json rs)) /\ nesting (JArr (map Record_json rs)) <= 2.
Proof.
  intros H. cbn [good nesting]. induction H as [|r rs Hr Hrs [IHg IHn]]; [split; [done|simpl; lia]|].
  destruct (good_Record r Hr) as [Hg Hn]. cbn [map foldr]. rewrite Hn. split; [done|lia].
Qed.

(** Decoding what [json.Marshal] printed. *)
Lemma Unmarshal_print {A} (st : store A) zero j :
  good j -> nesting j <= maxNestingDepth -> Unmarshal st zero (print_json j) = st j zero.
Proof. intros Hg Hn. unfold Unmarshal. by rewrite parse_print. Qed.

Lemma create_roundtrip r :
  create_ok r -> Unmarshal_CreateRRSetRequest (Marshal_CreateRRSetRequest r) = Some r.
Proof.
  destruct r as [name ty ttl rs labels]. intros (Hn & Ht & Httl & Hrs & Hl). simpl in *. subst labels.
  destruct (good_Records rs Hrs) as [Hg Hd].
  unfold Unmarshal_CreateRRSetRequest, Marshal_CreateRRSetRequest. rewrite Unmarshal_print;
    unfold CreateRRSetRequest_json, omitempty; cbn [Create_Name Create_Type Create_TTL
      Create_Records Create_Labels length Nat.eqb].
  - destruct ttl as [ttl|]; cbn [store_struct foldl app]; find_fields;
      rewrite !store_json_string by done; cbn [Create_Name Create_Type Create_TTL
      Create_Records Create_Labels].
    + change (store_pointer store_int 0 (json_int ttl) None)
        with (match store_int (json_int ttl) 0 with Some a => Some (Some a) | None => None end).
      rewrite store_json_int by auto. cbn [Create_Name Create_Type Create_TTL Create_Records
        Create_Labels]. by rewrite store_Records.
    + by rewrite store_Records.
  - destruct ttl as [ttl|]; cbn [good app foldr fst snd];
      repeat split; try (by apply good_json_string); try done. by exists ttl; auto.
  - destruct ttl as [ttl|]; cbn [nesting app foldr snd] in *; unfold maxNestingDepth;
      simpl (nesting (json_string _)); simpl (nesting (json_int _)); lia.
Qed.

Lemma set_records_roundtrip rs :
  Forall record_ok rs ->
  Unmarshal_SetRRSetRecordsRequest
    (Marshal_SetRRSetRecordsRequest (mkSetRRSetRecordsRequest rs)) =
  Some (mkSetRRSetRecordsRequest rs).
Proof.
  intros Hrs. destruct (good_Records rs Hrs) as [Hg Hd].
  unfold Unmarshal_SetRRSetRecordsRequest, Marshal_SetRRSetRecordsRequest. rewrite Unmarshal_print;
    unfold SetRRSetRecordsRequest_json; cbn [SetRecords_Records].
  - cbn [store_struct foldl]. find_fields. cbn [SetRecords_Records]. by rewrite store_Records.
  - by cbn [good foldr fst snd].
  - cbn [nesting foldr snd] in *. unfold maxNestingDepth. lia.
Qed.
