(* ===== verification/ResponseRoundtrip.v ===== *)
(** The documents the API answers with, and that the client decodes them to the
    values they show, whatever else they hold. *)
From S2P Require Import Prelude GoStrings Utf8 Runtime Quote Errors Json JsonFuel JsonRoundtrip.
From S2P Require Import Types ZoneCache Effects Client ClientPaths ZonesAPI RequestRoundtrip.

Section Documents.
Context {RT : Runtime}.

(** ** The documents *)

(** Members of an object that the program does not know: named otherwise, in any
    case, than the [known] ones. *)
Definition foreign (known : list string) (ms : list (string * json)) : Prop :=
  Forall (fun kv => Forall (fun n => fold_name n <> fold_name (fst kv)) known /\
                    ascii_text (fst kv) /\ good (snd kv) /\ nesting (snd kv) <= 1000) ms.

(** A zone, its time of creation as the API writes it, and what else it shows. *)
Record ZoneDoc := mkZoneDoc {
  zd_zone : Zone; zd_created : string; zd_more : list (string * json)
}.

Definition ZoneDoc_json (d : ZoneDoc) : json :=
  let z := zd_zone d in
  JObj ([("id", json_int (Zone_ID z)); ("name", json_string (Zone_Name z));
         ("mode", json_string (Zone_Mode z)); ("status", json_string (Zone_Status z));
         ("ttl", json_int (Zone_TTL z)); ("records_count", json_int (Zone_RecordsCnt z));
         ("created", json_string (zd_created d))] ++ zd_more d).

Definition ZoneDoc_ok (d : ZoneDoc) : Prop :=
  let z := zd_zone d in
  in_int64 (Zone_ID z) = true /\ ascii_text (Zone_Name z) /\ ascii_text (Zone_Mode z) /\
  ascii_text (Zone_Status z) /\ in_int64 (Zone_TTL z) = true /\
  in_int64 (Zone_RecordsCnt z) = true /\ ascii_text (zd_created d) /\
  rt_time_UnmarshalJSON (escape (zd_created d)) = Some (Zone_Created z) /\
  foreign ["id"; "name"; "mode"; "status"; "ttl"; "records_count"; "created"] (zd_more d).

Definition pagination_json (p : pagination) : json :=
  JObj [("page", json_int (Page p)); ("per_page", json_int (PerPage p));
        ("previous_page", json_int (PreviousPage p)); ("next_page", json_int (NextPage p));
        ("last_page", json_int (LastPage p)); ("total_entries", json_int (TotalEntries p))].

Definition pagination_ok (p : pagination) : Prop :=
  in_int64 (Page p) = true /\ in_int64 (PerPage p) = true /\ in_int64 (PreviousPage p) = true /\
  in_int64 (NextPage p) = true /\ in_int64 (LastPage p) = true /\
  in_int64 (TotalEntries p) = true.

(** The answer to GET /v1/zones. *)
Definition zones_json (ds : list ZoneDoc) (p : pagination) : json :=
  JObj [("zones", JArr (map ZoneDoc_json ds)); ("meta", JObj [("pagination", pagination_json p)])].

(** A record set, its labels in the order in which the API writes them. *)
Record RRSetDoc := mkRRSetDoc {
  rd_rrset : RRSet; rd_labels : list (string * string); rd_more : list (string * json)
}.

(** The answer to POST /v1/zones/{id}/rrsets. *)
Definition RRSetDoc_json (d : RRSetDoc) : json :=
  let r := rd_rrset d in
  JObj [("rrset",
    JObj ([("id", json_string (RRSet_ID r)); ("name", json_string (RRSet_Name r));
           ("type", json_string (RRSet_Type r));
           ("ttl", match RRSet_TTL r with Some t => json_int t | None => JNull end);
           ("labels", JObj (map (fun '(k, v) => (k, json_string v)) (rd_labels d)));
           ("protected", JBool (RRSet_Protect r));
           ("records", JArr (map Record_json (RRSet_Records r)));
           ("zone_id", json_int (RRSet_ZoneID r))] ++ rd_more d))].

Definition RRSetDoc_ok (d : RRSetDoc) : Prop :=
  let r := rd_rrset d in
  ascii_text (RRSet_ID r) /\ ascii_text (RRSet_Name r) /\ ascii_text (RRSet_Type r) /\
  (forall t, RRSet_TTL r = Some t -> in_int64 t = true) /\ Forall record_ok (RRSet_Records r) /\
  in_int64 (RRSet_ZoneID r) = true /\
  Forall (fun kv => ascii_text (fst kv) /\ ascii_text (snd kv)) (rd_labels d) /\
  NoDup (map fst (rd_labels d)) /\ RRSet_Labels r = list_to_map (rd_labels d) /\
  foreign ["id"; "name"; "type"; "ttl"; "records"; "protected"; "zone_id"; "labels"] (rd_more d).

(** The answer to the action set_records. *)
Record ActionDoc := mkActionDoc { ad_action : Action; ad_more : list (string * json) }.

Definition ActionDoc_json (d : ActionDoc) : json :=
  let a := ad_action d in
  JObj [("action",
    JObj ([("id", json_int (Action_ID a)); ("command", json_string (Action_Command a));
           ("status", json_string (Action_Status a)); ("progress", json_int (Action_Progress a))]
          ++ ad_more d))].

Definition ActionDoc_ok (d : ActionDoc) : Prop :=
  let a := ad_action d in
  in_int64 (Action_ID a) = true /\ ascii_text (Action_Command a) /\
  ascii_text (Action_Status a) /\ in_int64 (Action_Progress a) = true /\
  foreign ["id"; "command"; "status"; "progress"] (ad_more d).

(** ** Storing them *)

Lemma find_field_foreign {A} (fields : list (field A)) k :
  Forall (fun n => fold_name n <> fold_name k) (map fst fields) -> find_field fields k = None.
Proof.
  intros H. unfold find_field. rewrite Forall_forall in H.
  assert (forall f, In f fields -> fold_name (fst f) <> fold_name k) as Hf
    by (intros f Hin; by apply H, list_elem_of_In, List.in_map).
  repeat match goal with |- context [List.find ?p fields] =>
    let E := fresh "E" in destruct (List.find p fields) as [f|] eqn:E;
      [apply List.find_some in E as [Hin E]; exfalso; apply (Hf f Hin)|] end; [|..|done].
  - by apply String.eqb_eq in E as ->.
  - by apply bool_decide_eq_true in E0.
Qed.

Lemma store_struct_foreign {A} (fields : list (field A)) ms more cur :
  foreign (map fst fields) more ->
  store_struct fields (JObj (ms ++ more)) cur = store_struct fields (JObj ms) cur.
Proof.
  intros H. cbn [store_struct]. rewrite foldl_app.
  match goal with |- _ = ?o => generalize o end.
  induction H as [|[k v] more [Hk _] H IH]; [done|]. intros o. cbn [foldl]. rewrite IH.
  destruct o; [|done]. by rewrite find_field_foreign.
Qed.

Lemma store_labels l :
  Forall (fun kv => ascii_text (fst kv) /\ ascii_text (snd kv)) l -> NoDup (map fst l) ->
  store_string_map (JObj (map (fun '(k, v) => (k, json_string v)) l)) ∅ = Some (list_to_map l).
Proof.
  intros Hl Hn. cbn [store_string_map]. rewrite <- (right_id_L ∅ (∪) (list_to_map l)).
  generalize (∅ : gmap string string) as m.
  induction Hl as [|[k v] l [Hk Hv] Hl IH]; intros m; simpl in *; [by rewrite (left_id_L ∅ (∪))|].
  inversion Hn as [|? ? Hin Hn']; subst. rewrite unquote_escape by done. rewrite IH by done. f_equal.
  rewrite <- insert_union_l. symmetry. apply insert_union_r.
  apply not_elem_of_list_to_map_1. by rewrite list_fmap_alt.
Qed.

(** Store the known members of an object one after the other; [reduce] computes the
    fields of the values on the way. *)
Ltac store_members fields reduce :=
  rewrite ?(store_struct_foreign fields) by done; cbn [store_struct foldl]; find_fields;
  repeat first [rewrite store_json_int by done; reduce | rewrite store_json_string by done; reduce
               | progress (cbn beta iota; reduce)].

Ltac red_Zone := cbn [Zone_ID Zone_Name Zone_Mode Zone_Status Zone_TTL Zone_RecordsCnt
  Zone_Created zero_Zone].
Ltac red_RRSet := cbn [RRSet_ID RRSet_Name RRSet_Type RRSet_TTL RRSet_Records RRSet_Protect
  RRSet_ZoneID RRSet_Labels zero_RRSet].
Ltac red_Action := cbn [Action_ID Action_Command Action_Status Action_Progress zero_Action].
Ltac red_pagination := cbn [Page PerPage PreviousPage NextPage LastPage TotalEntries].

Lemma store_ZoneDoc d :
  ZoneDoc_ok d -> store_struct Zone_fields (ZoneDoc_json d) zero_Zone = Some (zd_zone d).
Proof.
  destruct d as [[i n m s t c cr] created more]. unfold ZoneDoc_ok, ZoneDoc_json.
  cbn [zd_zone zd_created zd_more]. red_Zone.
  intros (Hi & Hn & Hm & Hs & Ht & Hc & _ & Hcr & Hmore). store_members Zone_fields red_Zone.
  cbn [store_time json_string]. by rewrite Hcr.
Qed.

Lemma store_Action d :
  ActionDoc_ok d ->
  store_struct actionEnvelope_fields (ActionDoc_json d) zero_Action = Some (ad_action d).
Proof.
  destruct d as [[i cm s p] more]. unfold ActionDoc_ok, ActionDoc_json.
  cbn [ad_action ad_more]. red_Action.
  intros (Hi & Hc & Hs & Hp & Hmore). cbn [store_struct foldl]. find_fields.
  by store_members Action_fields red_Action.
Qed.

Lemma store_RRSet d :
  RRSetDoc_ok d ->
  store_struct rrsetEnvelope_fields (RRSetDoc_json d) zero_RRSet = Some (rd_rrset d).
Proof.
  destruct d as [[i n ty ttl rs pr z lb] labels more]. unfold RRSetDoc_ok, RRSetDoc_json.
  cbn [rd_rrset rd_labels rd_more]. red_RRSet.
  intros (Hi & Hn & Ht & Httl & Hrs & Hz & Hl & Hnd & -> & Hmore).
  assert (store_pointer store_int 0 (match ttl with Some t => json_int t | None => JNull end) None
    = Some ttl) as Hp.
  { destruct ttl as [t|]; [|done].
    change (match store_int (json_int t) 0 with Some a => Some (Some a) | None => None end = Some (Some t)).
    rewrite store_json_int; [done|by apply Httl]. }
  cbn [store_struct foldl]. find_fields. store_members RRSet_fields red_RRSet.
  rewrite Hp. cbn beta iota. red_RRSet. rewrite (store_labels labels) by done.
  cbn beta iota. cbn [store_bool]. red_RRSet. rewrite store_Records by done.
  cbn beta iota. red_RRSet. by rewrite store_json_int.
Qed.

Lemma store_pagination p cur :
  pagination_ok p -> store_struct pagination_fields (pagination_json p) cur = Some p.
Proof.
  destruct p as [a b c d e f]. unfold pagination_ok, pagination_json.
  red_pagination. intros (Ha & Hb & Hc & Hd & He & Hf). by store_members pagination_fields red_pagination.
Qed.

Lemma store_zones ds p :
  Forall ZoneDoc_ok ds -> pagination_ok p ->
  store_struct listZonesResponse_fields (zones_json ds p) zero_listZonesResponse =
    Some (mkListZonesResponse (map zd_zone ds) p).
Proof.
  intros Hds Hp.
  assert (store_slice (store_struct Zone_fields) zero_Zone (JArr (map ZoneDoc_json ds)) []
    = Some (map zd_zone ds)) as Hs.
  { cbn [store_slice]. induction Hds as [|d ds Hd Hds IH]; [done|].
    cbn [map store_elems hd tl]. by rewrite store_ZoneDoc, IH. }
  unfold zones_json. cbn [store_struct foldl]. find_fields. cbn [lzr_Zones zero_listZonesResponse].
  rewrite Hs. cbn beta iota. cbn [store_struct foldl]. find_fields. by rewrite store_pagination.
Qed.

(** ** They are documents the parser takes *)

Lemma nesting_foreign known more :
  foreign known more -> foldr (fun kv acc => Z.max (nesting (snd kv)) acc) 0 more <= 1000.
Proof. induction 1 as [|kv more (_ & _ & _ & Hn) H IH]; simpl; lia. Qed.

Lemma good_foreign known more :
  foreign known more ->
  foldr (fun kv acc => (all_bytes ascii_byte (fst kv) = true /\ good (snd kv)) /\ acc) True more.
Proof. by induction 1 as [|kv more (_ & Ha & Hg & _) H IH]. Qed.

(** A member that a document may hold, nested at most [b] deep. *)
Definition member_ok (b : Z) (kv : string * json) : Prop :=
  ascii_text (fst kv) /\ good (snd kv) /\ nesting (snd kv) <= b.

Lemma string_member b k s : 0 <= b -> ascii_text k -> ascii_text s -> member_ok b (k, json_string s).
Proof. intros Hb Hk Hs. split; [done|]. by split; [apply good_json_string|]. Qed.

Lemma int_member b k z : 0 <= b -> ascii_text k -> in_int64 z = true -> member_ok b (k, json_int z).
Proof. intros Hb Hk Hz. split; [done|]. split; [by exists z|done]. Qed.

(** The members with a string or a number, one after the other. *)
Ltac scalar_members :=
  repeat first
    [apply List.Forall_cons; [apply string_member; [lia|reflexivity|assumption]|]
    |apply List.Forall_cons; [apply int_member; [lia|reflexivity|assumption]|]].

(** An object and what else it shows. *)
Lemma good_members known ms more b :
  Forall (member_ok b) ms ->
  foreign known more -> 0 <= b <= 1000 ->
  good (JObj (ms ++ more)) /\ nesting (JObj (ms ++ more)) <= 1001.
Proof.
  intros Hms Hmore Hb. cbn [good nesting]. induction Hms as [|kv ms (Ha & Hg & Hn) Hms [IHg IHn]].
  - split; [by eapply good_foreign|]. pose proof (nesting_foreign _ _ Hmore). simpl. lia.
  - simpl. split; [done|lia].
Qed.

Lemma good_envelope key j :
  ascii_text key -> good j /\ nesting j <= 1001 ->
  good (JObj [(key, j)]) /\ nesting (JObj [(key, j)]) <= maxNestingDepth.
Proof.
  intros Hk [Hg Hn]. cbn [good nesting foldr fst snd]. split; [done|]. unfold maxNestingDepth. lia.
Qed.

Lemma good_elements {A} (f : A -> json) b l :
  Forall (fun a => good (f a) /\ nesting (f a) <= b) l -> 0 <= b ->
  good (JArr (map f l)) /\ nesting (JArr (map f l)) <= b + 1.
Proof.
  intros H Hb. cbn [good nesting]. induction H as [|a l [Hg Hn] Hl [IHg IHn]]; simpl;
    (split; [done|lia]).
Qed.

Lemma good_ZoneDoc d :
  ZoneDoc_ok d -> good (ZoneDoc_json d) /\ nesting (ZoneDoc_json d) <= 1001.
Proof.
  intros (Hi & Hn & Hm & Hs & Ht & Hc & Hcr & _ & Hmore).
  eapply (good_members _ _ _ 0); [|exact Hmore|lia]. scalar_members. constructor.
Qed.

Lemma good_pagination p :
  pagination_ok p -> good (pagination_json p) /\ nesting (pagination_json p) <= 1001.
Proof.
  intros (Ha & Hb & Hc & Hd & He & Hf).
  apply (good_members [] [_; _; _; _; _; _] [] 0); [|constructor|lia]. scalar_members. constructor.
Qed.

Lemma good_zones ds p :
  Forall ZoneDoc_ok ds -> pagination_ok p ->
  good (zones_json ds p) /\ nesting (zones_json ds p) <= maxNestingDepth.
Proof.
  intros Hds Hp. destruct (good_pagination p Hp) as [Hg Hn].
  destruct (good_elements ZoneDoc_json 1001 ds) as [Hg' Hn']; [|lia|].
  { eapply Forall_impl; [exact Hds|]. apply good_ZoneDoc. }
  unfold zones_json, maxNestingDepth. cbn [good nesting foldr fst snd] in *. split; [done|lia].
Qed.

Lemma good_RRSet d :
  RRSetDoc_ok d -> good (RRSetDoc_json d) /\ nesting (RRSetDoc_json d) <= maxNestingDepth.
Proof.
  intros (Hi & Hn & Ht & Httl & Hrs & Hz & Hl & _ & _ & Hmore).
  destruct (good_Records _ Hrs) as [Hrg Hrn].
  set (ls := JObj (map (fun '(k, v) => (k, json_string v)) (rd_labels d))).
  assert (good ls /\ nesting ls <= 1) as [Hlg Hln].
  { unfold ls. cbn [good nesting]. induction Hl as [|[k v] l [Hk Hv] Hl [IHg IHn]]; simpl.
    - split; [done|lia].
    - split; [split; [split; [done|by apply good_json_string]|done]|lia]. }
  apply good_envelope; [reflexivity|]. eapply (good_members _ _ _ 2); [|exact Hmore|lia].
  scalar_members. constructor.
  { split; [reflexivity|]. destruct (RRSet_TTL _) as [t|] eqn:E; [|simpl; by split; [|lia]].
    split; [|simpl; lia]. exists t. by auto. }
  constructor; [split; [reflexivity|]; split; [exact Hlg|exact (Z.le_trans _ 1 2 Hln ltac:(lia))]|].
  constructor; [by split|]. constructor; [done|]. scalar_members. constructor.
Qed.

Lemma good_Action d :
  ActionDoc_ok d -> good (ActionDoc_json d) /\ nesting (ActionDoc_json d) <= maxNestingDepth.
Proof.
  intros (Hi & Hc & Hs & Hp & Hmore).
  apply good_envelope; [reflexivity|]. eapply (good_members _ _ _ 0); [|exact Hmore|lia].
  scalar_members. constructor.
Qed.

(** ** Decoding them *)

Lemma decode_document {A} method path (out : dest A) go_type st j :
  dest_store out = Some (go_type, st) -> good j -> nesting j <= maxNestingDepth ->
  print_json j <> EmptyString ->
  decode_out method path out (print_json j) =
    match st j (dest_zero out) with
    | Some v => Ok v
    | None => Err (Errorf_w ("hcloud: decode " +:+ method +:+ " " +:+ path +:+ ": ")
                     (EText (rt_json_error go_type (print_json j))) EmptyString)
    end.
Proof.
  intros Hst Hg Hn Hne. unfold decode_out. rewrite Hst.
  destruct (print_json j =? EmptyString)%string eqn:E; [by to_prop|]. by rewrite Unmarshal_print.
Qed.

Lemma decode_zones method path ds p :
  Forall ZoneDoc_ok ds -> pagination_ok p ->
  decode_out method path out_zones (print_json (zones_json ds p)) =
    Ok (mkListZonesResponse (map zd_zone ds) p).
Proof.
  intros Hds Hp. destruct (good_zones ds p Hds Hp).
  erewrite decode_document by (reflexivity || done). by rewrite store_zones.
Qed.

Lemma decode_rrset method path d :
  RRSetDoc_ok d ->
  decode_out method path out_rrset (print_json (RRSetDoc_json d)) = Ok (rd_rrset d).
Proof.
  intros Hd. destruct (good_RRSet d Hd).
  erewrite decode_document by (reflexivity || done). by rewrite store_RRSet.
Qed.

Lemma decode_action method path d :
  ActionDoc_ok d ->
  decode_out method path out_action (print_json (ActionDoc_json d)) = Ok (ad_action d).
Proof.
  intros Hd. destruct (good_Action d Hd).
  erewrite decode_document by (reflexivity || done). by rewrite store_Action.
Qed.
End Documents.
