(* ===== verification/ExampleAPI.v ===== *)
(** An implementation of the contract of the Zones API, in the manner of the test
    suite's mock server: it decodes paths and bodies and keeps its record sets in
    a map.  It instantiates the contract's parameters; its laws are proved, so
    the end-to-end theorems are not vacuous. *)
From S2P Require Import Prelude GoStrings Utf8 Runtime Quote Errors Json JsonFuel JsonRoundtrip.
From S2P Require Import Types ZoneCache Effects Client ClientSpec ClientPaths ZonesAPI.
From S2P Require Import RequestRoundtrip.

#[local] Existing Instance example_runtime.

(** Two projects. *)
Definition example_token : string := "t0ken".
Definition other_token : string := "0ther".
Definition example_tokens : list string := [example_token; other_token].

Definition example_zones (tok : string) : list (Z * string) :=
  if String.eqb tok example_token
  then [(7, "example.com"); (8, "example.dev"); (11, "example.net")]
  else if String.eqb tok other_token then [(9, "example.org")]
  else [].

(** One of them is secondary. *)
Definition example_primary (zid : Z) : bool := negb (zid =? 8).

(** A page holds two zones. *)
Definition example_page (tok : string) : list (Z * string) := take 2 (example_zones tok).

Definition zone_json (z : Z * string) : json :=
  JObj [("id", json_int (fst z)); ("name", json_string (snd z))].

Definition list_body (tok : string) : string :=
  print_json (JObj [("zones", JArr (map zone_json (example_page tok)))]).

Definition error_reply (status : Z) (code : string) : Response :=
  mkResponse status ∅ (print_json (JObj [("error", JObj [("code", json_string code)])])).

Definition zone_exists (tok : string) (zid : Z) : bool :=
  bool_decide (zid ∈ map fst (example_zones tok)).

(** The project a request asks for. *)
Definition bearer (req : Request) : option string :=
  List.find (fun tok => String.eqb (Header_Get (req_header req) "Authorization") ("Bearer " +:+ tok))
    example_tokens.

Definition example_serve (req : Request) (s : gmap rrkey RRSetState) :
    Response * gmap rrkey RRSetState :=
  match bearer req, parse_request_line (req_method req) (TrimPrefix (req_url req) DefaultBaseURL) with
  | None, _ => (error_reply 401 "unauthorized", s)
  | _, None => (error_reply 404 "not_found", s)
  | Some tok, Some CallListZones => (mkResponse 200 ∅ (list_body tok), s)
  | Some tok, Some (CallCreateRRSet zid) =>
      match Unmarshal_CreateRRSetRequest (default EmptyString (req_body req)) with
      | None => (error_reply 400 "bad_json", s)
      | Some r =>
          let key := (zid, Create_Name r, Create_Type r) in
          if negb (zone_exists tok zid) then (error_reply 404 "not_found", s)
          else if negb (example_primary zid) then (error_reply 422 "zone_is_secondary", s)
          else match s !! key with
               | Some _ => (error_reply 409 "rrset_exists", s)
               | None => (mkResponse 201 ∅ EmptyString,
                          <[key := mkRRSetState (Create_Records r) (Create_TTL r)]> s)
               end
      end
  | Some tok, Some (CallSetRRSetRecords zid name rrType) =>
      if negb (zone_exists tok zid) then (error_reply 404 "not_found", s)
      else if negb (example_primary zid) then (error_reply 422 "zone_is_secondary", s)
      else
        match Unmarshal_SetRRSetRecordsRequest (default EmptyString (req_body req)),
              s !! (zid, name, rrType) with
        | Some r, Some st =>
            (mkResponse 201 ∅ EmptyString,
             <[(zid, name, rrType) := mkRRSetState (SetRecords_Records r) (st_ttl st)]> s)
        | None, _ => (error_reply 400 "bad_json", s)
        | _, None => (error_reply 404 "not_found", s)
        end
  | Some tok, Some (CallDeleteRRSet zid name rrType) =>
      if negb (zone_exists tok zid) then (error_reply 404 "not_found", s)
      else if negb (example_primary zid) then (error_reply 422 "zone_is_secondary", s)
      else
        match s !! (zid, name, rrType) with
        | Some _ => (mkResponse 204 ∅ EmptyString, delete (zid, name, rrType) s)
        | None => (error_reply 404 "not_found", s)
        end
  end.

Definition example_api : ZonesAPI := {|
  api_base := DefaultBaseURL;
  api_state := gmap rrkey RRSetState;
  api_serve := example_serve;
  api_tokens := example_tokens;
  api_zones := fun tok _ => example_zones tok;
  api_page := fun tok _ => example_page tok;
  api_primary := fun _ => example_primary;
  api_rrsets := fun s => s
|}.

#[local] Existing Instance example_api.

Lemma example_tokens_cases tok : tok ∈ example_tokens -> tok = example_token \/ tok = other_token.
Proof. unfold example_tokens. set_solver. Qed.

Lemma bearer_token req tok :
  tok ∈ example_tokens -> req_header req !! "Authorization" = Some ("Bearer " +:+ tok) ->
  bearer req = Some tok.
Proof.
  intros Ht Ha. unfold bearer, Header_Get. rewrite Ha.
  by destruct (example_tokens_cases tok Ht) as [->| ->].
Qed.

(** A call's request gets past the token check and the router. *)
Lemma example_serve_call tok call body req :
  api_request tok call body req -> in_int64 (call_zone call) = true ->
  bearer req = Some tok /\
  parse_request_line (req_method req) (TrimPrefix (req_url req) DefaultBaseURL) = Some call /\
  req_body req = body.
Proof.
  intros (Ht & Hm & Hu & Ha & Hb) Hz. split; [by apply bearer_token|]. split; [|done].
  rewrite Hm, Hu. change api_base with DefaultBaseURL.
  rewrite TrimPrefix_app. by apply parse_request_line_correct.
Qed.

Lemma example_zone_range tok zid : zid ∈ map fst (example_zones tok) -> in_int64 zid = true.
Proof.
  unfold example_zones. destruct (tok =? example_token)%string; [|destruct (tok =? other_token)%string];
    intros H%list_elem_of_In; simpl in H; repeat (destruct H as [<-|H]; [done|]); done.
Qed.

Lemma zone_exists_true tok zid : zid ∈ map fst (example_zones tok) -> zone_exists tok zid = true.
Proof. apply bool_decide_eq_true_2. Qed.

(** What the server does with the two requests whose effect depends on its state. *)
Lemma example_create (tok : string) (s : gmap rrkey RRSetState) req zid r :
  create_ok r -> writable (API := example_api) tok s zid ->
  api_request tok (CallCreateRRSet zid) (Some (Marshal_CreateRRSetRequest r)) req ->
  example_serve req s =
    match s !! (zid, Create_Name r, Create_Type r) with
    | Some _ => (error_reply 409 "rrset_exists", s)
    | None => (mkResponse 201 ∅ EmptyString,
               <[(zid, Create_Name r, Create_Type r) :=
                   mkRRSetState (Create_Records r) (Create_TTL r)]> s)
    end.
Proof.
  intros Hok [Hz Hpr] Hr. pose proof (example_zone_range _ _ Hz) as Hi.
  destruct (example_serve_call _ _ _ _ Hr Hi) as (Ha & Hp & Hb). simpl in Hpr.
  unfold example_serve. rewrite Ha, Hp, Hb. simpl. by rewrite create_roundtrip, zone_exists_true, Hpr.
Qed.

Lemma example_delete (tok : string) (s : gmap rrkey RRSetState) req zid name rrType :
  writable (API := example_api) tok s zid -> api_request tok (CallDeleteRRSet zid name rrType) None req ->
  example_serve req s =
    match s !! (zid, name, rrType) with
    | Some _ => (mkResponse 204 ∅ EmptyString, delete (zid, name, rrType) s)
    | None => (error_reply 404 "not_found", s)
    end.
Proof.
  intros [Hz Hpr] Hr. pose proof (example_zone_range _ _ Hz) as Hi. simpl in Hpr.
  destruct (example_serve_call _ _ _ _ Hr Hi) as (Ha & Hp & Hb).
  unfold example_serve. by rewrite Ha, Hp, zone_exists_true, Hpr.
Qed.

#[export] Instance example_api_laws : ZonesAPILaws example_api.
Proof.
  split.
  - intros tok s z Hz. apply (example_zone_range tok). by apply (list_elem_of_fmap_2 fst).
  - intros tok s z Hz. apply elem_of_take in Hz. destruct Hz as (i & Hi & _).
    by eapply list_elem_of_lookup_2.
  - intros tok s req Hr. destruct (example_serve_call _ _ _ _ Hr eq_refl) as (Ha & Hp & _).
    simpl. unfold example_serve. rewrite Ha, Hp. destruct Hr as [Ht _].
    destruct (example_tokens_cases tok Ht) as [->| ->]; eexists _, _; (split; [reflexivity|]);
      (split; [reflexivity|]); split; vm_compute; reflexivity.
  - intros tok s req zid r Hok Hz Hr key. cbn [api_serve example_api].
    rewrite (example_create tok s req zid r) by done. fold key. cbn [api_rrsets example_api].
    destruct ((s : gmap rrkey RRSetState) !! key); eexists _, _; (split; [reflexivity|]); [done|].
    split; [done|]. split; [done|]. split; [by eexists|done].
  - intros tok s req zid r Hok Hi Hz Hr.
    destruct (example_serve_call _ _ _ _ Hr Hi) as (Ha & Hp & Hb).
    simpl. unfold example_serve. rewrite Ha, Hp, Hb. simpl. rewrite create_roundtrip by done.
    unfold zone_exists. rewrite bool_decide_eq_false_2 by apply Hz. simpl. by eexists.
  - intros tok s req call body Hc Hz Hpr Hr. pose proof (example_zone_range _ _ Hz) as Hi.
    destruct (example_serve_call _ _ _ _ Hr Hi) as (Ha & Hp & Hb). simpl in Hpr.
    cbn [api_serve example_api]. unfold example_serve. rewrite Ha, Hp.
    destruct call as [|zid|zid name rrType|zid name rrType]; [done|..]; simpl in Hz, Hpr;
      rewrite zone_exists_true, Hpr by done; [|by eexists..].
    by destruct (Unmarshal_CreateRRSetRequest _); eexists.
  - intros tok s req zid name rrType rs st Hn Ht Hrs [Hz Hpr] Hst Hr.
    pose proof (example_zone_range _ _ Hz) as Hi. simpl in Hpr.
    destruct (example_serve_call _ _ _ _ Hr Hi) as (Ha & Hp & Hb).
    simpl. unfold example_serve. rewrite Ha, Hp, Hb, zone_exists_true, Hpr by done. simpl.
    rewrite set_records_roundtrip by done.
    simpl in Hst. rewrite Hst. eexists _, _. split; [reflexivity|]. split; [done|].
    split; [done|]. split; [by eexists|done].
  - intros tok s req zid name rrType rs Hn Ht Hrs [Hz Hpr] Hst Hr.
    pose proof (example_zone_range _ _ Hz) as Hi. simpl in Hpr.
    destruct (example_serve_call _ _ _ _ Hr Hi) as (Ha & Hp & Hb).
    simpl. unfold example_serve. rewrite Ha, Hp, Hb, zone_exists_true, Hpr by done. simpl.
    rewrite set_records_roundtrip by done. simpl in Hst. rewrite Hst. by eexists.
  - intros tok s req zid name rrType Hn Ht Hz Hr. cbn [api_serve example_api].
    rewrite (example_delete tok s req zid name rrType) by done. cbn [api_rrsets example_api].
    destruct ((s : gmap rrkey RRSetState) !! (zid, name, rrType)) eqn:E;
      eexists _, _; (split; [reflexivity|]); [done|].
    split; [done|]. split; [done|]. symmetry. by apply delete_id.
Qed.
