(* ===== verification/Endpoints.v ===== *)
(** What the API makes of the client's requests: the zones and the record set that
    a caller finds and leaves, whatever else happens to the API meanwhile.  The
    client's calls are proved correct from this in [WorldClient], where its
    retries absorb what fails, and in [FaultyClient], where anything may fail. *)
From S2P Require Import Prelude GoStrings Utf8 Runtime Quote Errors Json Types ZoneCache Effects.
From S2P Require Import Client ClientSpec ClientPaths ZonesAPI.

(** The clients in question: a token in hand, the real clock, the API's base
    URL, and URLs that [net/http] accepts. *)
Class WorldClient {RT : Runtime} {API : ZonesAPI} (c : Client) (tok : string) : Prop := {
  wc_token : token c = StaticToken tok;
  wc_valid : tok ∈ api_tokens;
  wc_clock : clock c = realClock;
  wc_base : baseURL c = api_base;
  wc_retries : 0 <= maxRetries c;
  wc_timeout : 0 < requestTimeout c;
  wc_url : forall call, rt_NewRequest_error (fst (request_line call))
                          (api_base +:+ snd (request_line call)) = None
}.

(** A record set that is left alone or comes to be in [N]. *)
Definition moves (N : option RRSetState -> Prop) (o o' : option RRSetState) : Prop := o' = o \/ N o'.

#[export] Instance moves_preorder N : PreOrder (moves N).
Proof.
  split; [by left|]. intros o1 o2 o3 H1 [->|H2]; [done|by right].
Qed.

#[export] Instance same_zones_preorder {API : ZonesAPI} : PreOrder same_zones.
Proof.
  split; [done|]. intros s1 s2 s3 [H1 M1] [H2 M2]. split.
  - intros tok. destruct (H1 tok), (H2 tok). split; congruence.
  - intros zid. by rewrite M2.
Qed.

(** What a caller of the API may be exposed to, and do: others change the zones as
    [Zs] allows; its own requests may fail, and take time. *)
Class Undisturbed {RT : Runtime} {API : ZonesAPI} (Zs : relation api_state) (R G : relation world) :
    Prop := {
  und_rely :: PreOrder R;
  und_guar :: PreOrder G;
  und_kept :: PreOrder Zs;
  und_same : forall s s', same_zones s s' -> Zs s s';
  und_zones : forall w w', R w w' -> Zs (w_api w) (w_api w');
  und_attempt : forall w t l, G w (later w t l)
}.

(** Its clock and its network are its own. *)
Class Private {RT : Runtime} {API : ZonesAPI} (R : relation world) : Prop := {
  own_now : forall w w', R w w' -> w_now w' = w_now w;
  own_network : forall w w', R w w' -> w_network w' = w_network w
}.

#[export] Instance private_alone {RT : Runtime} {API : ZonesAPI} : Private (API := API) eq.
Proof. split; by intros w w' ->. Qed.

(** A caller that has a record set to itself, or shares it with others that want it
    in [N] as well. *)
Class Owns {RT : Runtime} {API : ZonesAPI} (Zs : relation api_state) (R G : relation world)
    (key : rrkey) (N : option RRSetState -> Prop) : Prop := {
  owns_undisturbed :: Undisturbed Zs R G;
  owns_key : forall w w', R w w' ->
    moves N (api_rrsets (w_api w) !! key) (api_rrsets (w_api w') !! key);
  owns_step : forall w t l s, same_zones (w_api w) s ->
    (forall k, k <> key -> api_rrsets s !! k = api_rrsets (w_api w) !! k) ->
    moves N (api_rrsets (w_api w) !! key) (api_rrsets s !! key) ->
    G w (set_api (later w t l) s)
}.

(** The error of a response by its status. *)
Lemma outcome_status {RT : Runtime} {A} method path (out : dest A) resp r :
  outcome method path out (Ok resp) r -> is_2xx (resp_StatusCode resp) = false ->
  exists e, r = Err (EAPI e) /\ StatusCode e = resp_StatusCode resp.
Proof.
  intros H Hs. inversion H; subst; [congruence|]. by eexists.
Qed.

Lemma outcome_2xx_ok {RT : Runtime} {A} method path (out : dest A) resp r v :
  outcome method path out (Ok resp) r -> is_2xx (resp_StatusCode resp) = true ->
  decode_out method path out (resp_Body resp) = Ok v -> r = Ok v.
Proof. intros H H2 Hd. inversion H; subst; [done|congruence]. Qed.

Lemma status_final resp n : resp_StatusCode resp = n -> retryable_answer (Ok resp) =
  (n =? 0) || (n =? 429) || ((500 <=? n) && (n <? 600)).
Proof. by intros <-. Qed.

(** A zone that the project has and keeps, as one that takes writes. *)
Definition project_zone {API : ZonesAPI} (tok : string) (Zs : relation api_state) (s : api_state)
    (zid : Z) : Prop :=
  forall s', Zs s s' -> writable tok s' zid.

(** A request that, served in any state with [P] whose zones can have come of those
    of [s0], changes at most the record set [key], and that to a state in [N]. *)
Definition harmless {API : ZonesAPI} (Zs : relation api_state) (key : rrkey)
    (P N : option RRSetState -> Prop) (s0 : api_state) (req : Request) : Prop :=
  forall s, Zs s0 s -> P (api_rrsets s !! key) ->
    let s' := snd (api_serve req s) in
    same_zones s s' /\ (forall k, k <> key -> api_rrsets s' !! k = api_rrsets s !! k) /\
    moves N (api_rrsets s !! key) (api_rrsets s' !! key).

Section Requests.
Context {RT : Runtime} {API : ZonesAPI} (c : Client) (tok : string) `{!WorldClient c tok}.

Definition request_of (call : api_call) (body : option string) : Request :=
  attempt_request c (fst (request_line call)) (snd (request_line call)) body tok.

Lemma request_of_api call body : api_request tok call body (request_of call body).
Proof.
  unfold api_request, request_of, attempt_request. cbn [req_method req_url req_header req_body].
  rewrite wc_base. split; [apply wc_valid|]. repeat split.
  unfold request_header. destruct body; by rewrite !lookup_insert_ne, lookup_insert_eq by done.
Qed.

Context `{!ZonesAPILaws API} (Zs : relation api_state) (s0 : api_state).

(** *** Reading *)

Lemma list_harmless key P N : harmless Zs key P N s0 (request_of CallListZones None).
Proof.
  intros s Hs HP. destruct (law_list tok s (request_of CallListZones None))
    as (resp & out & -> & _); [by apply request_of_api|]. split; [done|]. split; [done|by left].
Qed.

(** *** Writing *)

Section Writing.
Context (zid : Z) (name rrType : string) (P N : option RRSetState -> Prop).
Context (Hzone : project_zone tok Zs s0 zid).

#[local] Abbreviation key := (zid, name, rrType).
#[local] Abbreviation harmless := (harmless Zs key P N s0).

(** What the API answers, if the record set is in [P'], is final and means [Q]. *)
Definition answered {A} (call : api_call) (body : option string) (out : dest A)
    (P' : option RRSetState -> Prop) (Q : res A -> option RRSetState -> Prop) : Prop :=
  forall s resp s', Zs s0 s -> P' (api_rrsets s !! key) ->
    api_serve (request_of call body) s = (resp, s') ->
    retryable_answer (Ok resp) = false /\
    forall r, outcome (fst (request_line call)) (snd (request_line call)) out (Ok resp) r ->
      Q r (api_rrsets s' !! key).

(** Creating the record set: unless it is there it is created, in [N]. *)
Definition create_to (r : CreateRRSetRequest) : Prop :=
  create_ok r /\ Create_Name r = name /\ Create_Type r = rrType /\
  (P None -> N (Some (mkRRSetState (Create_Records r) (Create_TTL r)))) /\ ~ N None.

Definition created (res : res RRSet) (o : option RRSetState) : Prop :=
  (exists v, res = Ok v) /\ N o \/
  exists e, res = Err e /\ errors_Is e ErrConflict = true /\ o <> None.

Lemma created_stable res o o' : ~ N None -> created res o -> N o' -> created res o'.
Proof.
  intros Hnone [[Hv _]|(e & He & Hc & _)] HN; [by left|]. right. exists e.
  do 2 (split; [done|]). by intros ->.
Qed.

#[local] Abbreviation create_request r :=
  (request_of (CallCreateRRSet zid) (marshalled (Some (BodyCreate r)))).

Lemma create_harmless r : create_to r -> harmless (create_request r).
Proof.
  intros (Hr & Hn & Ht & Hfresh & _) s Hs HP.
  destruct (law_create tok s (create_request r) zid r Hr) as (resp & s' & -> & Hss & Hm);
    [by apply Hzone|by apply request_of_api|].
  rewrite Hn, Ht in Hm. split; [done|]. cbn [snd].
  destruct (api_rrsets s !! key) as [st|] eqn:Ek.
  - destruct Hm as [_ Hm]. rewrite Hm. split; [done|by left].
  - destruct Hm as (_ & _ & Hm). rewrite Hm. split; [intros k Hk; by apply lookup_insert_ne|].
    right. rewrite lookup_insert_eq. by apply Hfresh.
Qed.

Lemma create_answered r :
  create_to r ->
  answered (CallCreateRRSet zid) (marshalled (Some (BodyCreate r))) out_rrset P created.
Proof.
  intros (Hr & Hn & Ht & Hfresh & _) s resp s' Hs HP Es.
  destruct (law_create tok s (create_request r) zid r Hr) as (resp' & s'' & Es' & Hss & Hm);
    [by apply Hzone|by apply request_of_api|].
  rewrite Es in Es'. injection Es' as <- <-. rewrite Hn, Ht in Hm.
  destruct (api_rrsets s !! key) as [st|] eqn:Ek.
  - destruct Hm as [Hst Hm]. split; [by rewrite (status_final _ _ Hst)|]. intros res Ho. right.
    destruct (outcome_status _ _ _ _ _ Ho) as (e & -> & He); [by rewrite Hst|].
    eexists. split; [done|]. rewrite Hm, Ek. split; [|done]. simpl in *. by rewrite He, Hst.
  - destruct Hm as (H2 & [v Hd] & Hm). split; [by apply is_2xx_not_retryable|]. intros res Ho. left.
    rewrite Hm, lookup_insert_eq. split; [|by apply Hfresh].
    exists v. by apply (outcome_2xx_ok _ _ _ _ _ _ Ho).
Qed.

(** Replacing its records. *)
Definition set_to (rs : list Record_) : Prop :=
  ascii_text name /\ ascii_text rrType /\ Forall record_ok rs /\
  (forall st, P (Some st) -> N (Some (mkRRSetState rs (st_ttl st)))) /\ ~ N None.

Definition replaced (res : res Action) (o : option RRSetState) : Prop :=
  (exists v, res = Ok v) /\ N o.

#[local] Abbreviation set_request rs :=
  (request_of (CallSetRRSetRecords zid name rrType)
     (marshalled (Some (BodySetRecords (mkSetRRSetRecordsRequest rs))))).

Lemma set_harmless rs : set_to rs -> harmless (set_request rs).
Proof.
  intros (Hn & Ht & Hrs & Hset & _) s Hs HP. specialize (Hzone s Hs). cbn zeta.
  destruct (api_rrsets s !! key) as [st|] eqn:Ek.
  - destruct (law_set_records tok s (set_request rs) zid name rrType rs st Hn Ht Hrs Hzone Ek)
      as (resp & s' & -> & Hss & _ & _ & Hm); [by apply request_of_api|]. cbn [snd].
    split; [done|]. rewrite Hm. split; [intros k Hk; by apply lookup_insert_ne|].
    right. rewrite lookup_insert_eq. by apply Hset.
  - destruct (law_set_records_missing tok s (set_request rs) zid name rrType rs Hn Ht Hrs Hzone Ek)
      as (resp & -> & _); [by apply request_of_api|]. cbn [snd]. rewrite Ek. by repeat split; left.
Qed.

Lemma set_answered rs :
  set_to rs ->
  answered (CallSetRRSetRecords zid name rrType)
    (marshalled (Some (BodySetRecords (mkSetRRSetRecordsRequest rs)))) out_action
    (fun o => P o /\ o <> None) replaced.
Proof.
  intros (Hn & Ht & Hrs & Hset & _) s resp s' Hs [HP Hsome] Es. specialize (Hzone s Hs).
  destruct (api_rrsets s !! key) as [st|] eqn:Ek; [|done].
  destruct (law_set_records tok s (set_request rs) zid name rrType rs st Hn Ht Hrs Hzone Ek)
    as (resp' & s'' & Es' & Hss & H2 & [v Hd] & Hm); [by apply request_of_api|].
  rewrite Es in Es'. injection Es' as <- <-. split; [by apply is_2xx_not_retryable|]. intros res Ho.
  rewrite Hm, lookup_insert_eq. split; [|by apply Hset]. exists v. by apply (outcome_2xx_ok _ _ _ _ _ _ Ho).
Qed.

(** Deleting it: it is gone afterwards; the client may be told that it was not
    there. *)
Definition delete_to : Prop := ascii_text name /\ ascii_text rrType /\ N None.

Definition deleted (res : res unit) (o : option RRSetState) : Prop :=
  N o /\ ((exists v, res = Ok v) \/ exists e, res = Err e /\ errors_Is e ErrNotFound = true).

Lemma delete_harmless : delete_to -> harmless (request_of (CallDeleteRRSet zid name rrType) None).
Proof.
  intros (Hn & Ht & Hnone) s Hs HP.
  destruct (law_delete tok s (request_of (CallDeleteRRSet zid name rrType) None) zid name rrType Hn Ht)
    as (resp & s' & -> & Hss & _ & Hrr); [by apply Hzone|by apply request_of_api|].
  cbn [snd]. rewrite Hrr. split; [done|]. split; [intros k Hk; by apply lookup_delete_ne|].
  right. by rewrite lookup_delete_eq.
Qed.

Lemma delete_answered P' :
  delete_to -> answered (CallDeleteRRSet zid name rrType) None out_nil P' deleted.
Proof.
  intros (Hn & Ht & Hnone) s resp s' Hs _ Es.
  destruct (law_delete tok s (request_of (CallDeleteRRSet zid name rrType) None) zid name rrType Hn Ht)
    as (resp' & s'' & Es' & Hss & Hm & Hrr); [by apply Hzone|by apply request_of_api|].
  rewrite Es in Es'. injection Es' as <- <-. unfold deleted. rewrite Hrr, lookup_delete_eq.
  assert (is_2xx (resp_StatusCode resp) = true \/ resp_StatusCode resp = 404) as [H2|Hst]
    by (destruct (_ !! _) in Hm; auto).
  - split; [by apply is_2xx_not_retryable|]. intros res Ho. split; [done|]. left.
    inversion Ho as [|? Hx|? ? Hx]; subst; [by exists tt|]. by rewrite H2 in Hx.
  - split; [by rewrite (status_final _ _ Hst)|]. intros res Ho. split; [done|]. right.
    destruct (outcome_status _ _ _ _ _ Ho) as (e & -> & He); [by rewrite Hst|].
    eexists. split; [done|]. simpl in *. by rewrite He, Hst.
Qed.
End Writing.
End Requests.
