(* ===== verification/WorldClient.v ===== *)
(** The client in the world, among other callers: a call whose network failures
    the retries can absorb, before its context expires, comes to what the API makes
    of its request, in one of the states that requests whose replies were lost can
    have left, whatever happens meanwhile to other record sets and zones, and
    though others that want the same of its record set may be at it too. *)
From S2P Require Import Prelude GoStrings Utf8 Runtime Quote Errors Json Types ZoneCache Effects.
From S2P Require Import Client ClientSpec ClientPaths Interference ZonesAPI Endpoints.

(** ** What the network has in store for a call *)

Section Network.
Context {RT : Runtime} (c : Client).

(** What the client gets instead of the API's answer, if the request fails. *)
Definition hop_answer (h : hop) : option (result string Response) :=
  if requestTimeout c <=? hop_time h then Some gave_up else f_answer <$> hop_fault h.

(** The time the request takes. *)
Definition hop_cost (h : hop) : Z := Z.min (requestTimeout c) (Z.max 0 (hop_time h)).

(** No request is hopeless: every failure is of the kind that is retried, at most
    [left] come before the next request that gets through, and at most [max]
    between any two that do. *)
Fixpoint absorbable (max left : nat) (l : list hop) : bool :=
  match l with
  | [] => true
  | h :: l' =>
      match hop_answer h with
      | None => absorbable max max l'
      | Some a =>
          retryable_answer a &&
          match left with O => false | S left' => absorbable max left' l' end
      end
  end.

(** The error a failed answer becomes at an instant of the clock. *)
Definition answer_error (a : result string Response) (t : Z) : error :=
  EAPI match a with
       | Err msg => mkAPIError 0 "transport_error" msg 0
       | Ok resp => api_error resp t
       end.

(** The end of the wait before attempt [k], if there is one. *)
Definition resumes (k : nat) (last : option error) (t : Z) : Z :=
  if (k =? 0)%nat then t else t + Z.max 0 (backoffDelay c k last).

(** When the last of these requests has ended, if attempt [k] of a call sends the
    first of them at [t], and what comes after one that gets through comes at
    once. *)
Fixpoint finish (k : nat) (t : Z) (l : list hop) : Z :=
  match l with
  | [] => t
  | h :: l' =>
      let t' := t + hop_cost h in
      match hop_answer h with
      | None => finish 0 t' l'
      | Some a => finish (S k) (resumes (S k) (Some (answer_error a t')) t') l'
      end
  end.
Lemma resumes_after k last t : t <= resumes k last t.
Proof. unfold resumes. destruct (k =? 0)%nat; lia. Qed.

Context (Hpos : 0 < requestTimeout c).

Lemma hop_cost_pos h : 0 <= hop_cost h.
Proof. unfold hop_cost. lia. Qed.

Lemma finish_no_sooner k t l : t <= finish k t l.
Proof.
  revert k t. induction l as [|h l IH]; intros k t; simpl; [done|].
  pose proof (hop_cost_pos h). destruct (hop_answer h) as [a|].
  - etransitivity; [|apply IH]. etransitivity; [|apply resumes_after]. lia.
  - etransitivity; [|apply IH]. lia.
Qed.
End Network.

Section Client.
Context {RT : Runtime} {API : ZonesAPI} (c : Client) (tok : string) `{!WorldClient c tok}.

#[local] Abbreviation request_of := (request_of c tok).

(** Failures that the retries of calls with this context absorb, in time. *)
Definition absorbed (ctx : Ctx) (w : world) : Prop :=
  absorbable c (Z.to_nat (maxRetries c)) (Z.to_nat (maxRetries c)) (w_network w) = true /\
  timely ctx (finish c 0 (w_now w) (w_network w)).
Lemma hop_cost_nonneg h : 0 <= hop_cost c h.
Proof. apply hop_cost_pos. apply wc_timeout. Qed.

Lemma finish_after k t l : t <= finish c k t l.
Proof. apply finish_no_sooner. apply wc_timeout. Qed.

(** ** One attempt *)

(** A request in an attempt's context, which ends by the request's timeout. *)
Lemma send_hop ctx req w h l resp s :
  w_network w = h :: l -> api_serve req (w_api w) = (resp, s) ->
  timely ctx (w_now w + hop_cost c h) ->
  exists s', send (derived ctx (w_now w) (requestTimeout c)) req w =
      (default (Ok resp) (hop_answer c h), set_api (later w (w_now w + hop_cost c h) l) s') /\
    (s' = s \/ s' = w_api w /\ hop_answer c h <> None).
Proof.
  intros Hn Hs Ht. pose proof (wc_timeout (c := c) (tok := tok)) as Hpos.
  pose proof (hop_cost_nonneg h) as Hcost. unfold send.
  replace (expired (derived ctx (w_now w) (requestTimeout c)) (w_now w)) with (@None Z).
  2: { symmetry. apply derived_timely; [|lia]. by eapply timely_earlier; [|exact Ht]; lia. }
  rewrite Hs, Hn. revert Ht. unfold hop_answer, hop_cost.
  destruct (requestTimeout c <=? hop_time h) eqn:E; to_prop.
  - rewrite (Z.min_l (requestTimeout c)) by lia. intros Ht. rewrite derived_expired by (done || lia).
    destruct (hop_fault h) as [[a []]|]; eexists; (split; [reflexivity|]); auto.
  - rewrite (Z.min_r (requestTimeout c)) by lia. intros Ht.
    replace (expired _ (w_now w + Z.max 0 (hop_time h))) with (@None Z)
      by (symmetry; apply derived_timely; [done|lia]).
    destruct (hop_fault h) as [[a []]|]; simpl; eexists; (split; [reflexivity|]); auto.
Qed.

Lemma send_through ctx req w resp s :
  w_network w = [] -> api_serve req (w_api w) = (resp, s) -> timely ctx (w_now w) ->
  send (derived ctx (w_now w) (requestTimeout c)) req w = (Ok resp, set_api w s).
Proof.
  intros Hn Hs Ht. pose proof (wc_timeout (c := c) (tok := tok)) as Hpos. unfold send.
  replace (expired _ (w_now w)) with (@None Z) by (symmetry; apply derived_timely; [done|lia]).
  by rewrite Hs, Hn.
Qed.

(** What an attempt returns for what came back. *)
Definition answer_result {A} method path (out : dest A) (a : result string Response) (t : Z) : res A :=
  match a with
  | Err _ => Err (answer_error a t)
  | Ok resp =>
      if is_2xx (resp_StatusCode resp) then decode_out method path out (resp_Body resp)
      else Err (answer_error a t)
  end.

Lemma answer_result_outcome {A} method path (out : dest A) a t :
  outcome method path out a (answer_result method path out a t).
Proof.
  destruct a as [resp|msg]; [|constructor]. unfold answer_result.
  destruct (is_2xx (resp_StatusCode resp)) eqn:E; by constructor.
Qed.

Lemma answer_result_retryable {A} method path (out : dest A) a t :
  retryable_answer a = true -> answer_result method path out a t = Err (answer_error a t).
Proof.
  destruct a as [resp|msg]; [|done]. intros H. unfold answer_result.
  destruct (is_2xx (resp_StatusCode resp)) eqn:E; [|done]. by rewrite is_2xx_not_retryable in H.
Qed.

Context {Zs : relation api_state} (R G : relation world) `{!Undisturbed Zs R G, !Private R}.

#[local] Abbreviation holds := (holds in_world R G).

Lemma holds_log {A} l level msg attrs (f : unit -> prog A) Q w :
  (forall w', R w w' -> holds (f tt) Q w') -> holds (bind (LogAttrs l level msg attrs) f) Q w.
Proof. intros H. apply holds_quiet; [typeclasses eauto|]. intros w' Hw. exists tt. by split; [|apply H]. Qed.

Lemma holds_now {A} (f : Z -> prog A) Q w :
  (forall w', R w w' -> holds (f (w_now w)) Q w') -> holds (bind (perform ENow) f) Q w.
Proof.
  intros H. apply holds_quiet; [typeclasses eauto|]. intros w' Hw. rewrite <- (own_now _ _ Hw) in H.
  eexists. by split; [|apply H].
Qed.

Lemma holds_return {A} (a : A) (Q : A -> world -> Prop) w :
  (forall w', R w w' -> Q a w') -> holds (Ret a) Q w.
Proof. done. Qed.

Lemma holds_handle_response {A} method path (out : dest A) resp Q w :
  (forall w', R w w' -> Q (answer_result method path out (Ok resp) (w_now w)) w') ->
  holds (handle_response c method path out resp) Q w.
Proof.
  unfold handle_response, answer_result. destruct (is_2xx (resp_StatusCode resp)) eqn:E; [done|].
  unfold parseAPIError, answer_error, api_error.
  destruct (default _ (error_body (resp_Body resp))) as [code message]. rewrite wc_clock. intros H.
  destruct (resp_StatusCode resp =? 429).
  - apply (holds_bind _ R G), holds_now. intros w1 H1. intros w2 H2 w3 H3.
    apply H. by transitivity w2; [transitivity w1|].
  - intros w1 H1. by apply H.
Qed.

Lemma holds_doOnce {A} call ctx body (out : dest A) Q w :
  (forall w0 a w1, R w w0 ->
     send (derived ctx (w_now w0) (requestTimeout c)) (request_of call body) w0 = (a, w1) ->
     G w0 w1 /\ forall w2, R w1 w2 ->
       Q (answer_result (fst (request_line call)) (snd (request_line call)) out a (w_now w1)) w2) ->
  holds (doOnce c ctx (fst (request_line call)) (snd (request_line call)) body out) Q w.
Proof.
  intros H. unfold doOnce. rewrite wc_token. unfold StaticToken. rewrite bind_ret_l.
  apply (holds_bind _ R G). unfold context_WithTimeout. apply holds_now. intros w1 H1 w2 H2.
  replace (rt_NewRequest_error _ _) with (@None string) by (by rewrite wc_base, wc_url).
  apply holds_log. intros w3 H3 w4 H4. unfold in_world at 1. cbn iota beta.
  fold (derived ctx (w_now w) (requestTimeout c)).
  fold (attempt_request c (fst (request_line call)) (snd (request_line call)) body tok).
  fold (Endpoints.request_of c tok call body).
  assert (R w w4) as H04 by (by transitivity w3; [transitivity w2; [transitivity w1|]|]).
  rewrite <- (own_now _ _ H04).
  destruct (send _ (request_of call body) w4) as [a w5] eqn:Ha.
  destruct (H w4 a w5 H04 Ha) as [Hg HQ]. split; [done|].
  destruct a as [resp|msg]; apply holds_log; intros w6 H6.
  - apply holds_handle_response. rewrite (own_now _ _ H6). intros w7 H7. apply HQ. by transitivity w6.
  - intros w7 H7. apply HQ. by transitivity w6.
Qed.

Lemma holds_wait {A} k last ctx method path (f : option error -> prog A) Q w :
  timely ctx (resumes c k last (w_now w)) ->
  (forall w1 w', R w w1 -> R (later w1 (resumes c k last (w_now w)) (w_network w)) w' ->
     holds (f None) Q w') ->
  holds (bind (wait_before k last c ctx method path) f) Q w.
Proof.
  unfold wait_before, resumes. intros Ht H. destruct (k =? 0)%nat.
  { apply (H w); [done|by rewrite later_same]. }
  apply (holds_bind _ R G), holds_log. intros w1 H1. rewrite wc_clock. cbn [clock_Sleep realClock].
  unfold realClock_Sleep. set (d := backoffDelay c k last) in *.
  assert (forall w2, R w1 w2 -> R w w2 /\ w_now w2 = w_now w /\ w_network w2 = w_network w) as Hsame.
  { intros w2 H2. assert (R w w2) as H02 by (by transitivity w1).
    split; [done|]. split; [by apply own_now|by apply own_network]. }
  destruct (d <=? 0) eqn:E; to_prop; intros w2 H2; destruct (Hsame w2 H2) as (H02 & En & El).
  - rewrite Z.max_l, Z.add_0_r in Ht, H by done. simpl. rewrite En, Ht. split; [reflexivity|].
    intros w3 H3. apply (H w2); [done|]. by rewrite <- En, <- El, later_same.
  - simpl. rewrite En, El, Ht. split; [apply und_attempt|]. intros w3 H3. by apply (H w2).
Qed.

(** ** The loop *)

(** A call is correct with [Q] if [I] holds when it starts, [I] is undisturbed,
    every request leaves [I] whether its reply is lost or not, and what the API
    answers in a world with [I] is final and gives [Q]. *)
Definition served {A} (call : api_call) (body : option string) (out : dest A)
    (I : world -> Prop) (final : Z -> list hop -> Prop) (Q : res A -> world -> Prop) : Prop :=
  forall w0 resp s, I w0 -> api_serve (request_of call body) (w_api w0) = (resp, s) ->
    retryable_answer (Ok resp) = false /\
    forall t l, let w1 := set_api (later w0 t l) s in
      G w0 w1 /\ I w1 /\ I (later w0 t l) /\
      (final t l -> forall r w', R w1 w' ->
         outcome (fst (request_line call)) (snd (request_line call)) out (Ok resp) r -> Q r w').

#[local] Abbreviation loop call body out n k last ctx :=
  (do_loop (S n) k last c ctx (fst (request_line call)) (snd (request_line call)) body out).

(** What still is to be borne before attempt [k]. *)
Definition ahead (ctx : Ctx) (max left k : nat) (last : option error) (w : world) : Prop :=
  absorbable c max left (w_network w) = true /\
  timely ctx (finish c k (resumes c k last (w_now w)) (w_network w)).

(** The last attempt of a call is the first whose answer is the API's. *)
Lemma holds_attempt {A} call ctx body (out : dest A) (I : world -> Prop) max left k Q w :
  (forall w w', R w w' -> I w -> I w') ->
  served call body out I (fun t l => absorbable c max max l = true /\ timely ctx (finish c 0 t l)) Q ->
  absorbable c max left (w_network w) = true -> timely ctx (finish c k (w_now w) (w_network w)) -> I w ->
  holds (doOnce c ctx (fst (request_line call)) (snd (request_line call)) body out) (fun r w' =>
    (exists e left', left = S left' /\ r = Err e /\ isRetryable e = true /\ I w' /\
       ahead ctx max left' (S k) (Some e) w') \/
    (forall e, r = Err e -> isRetryable e = false) /\ forall w'', R w' w'' -> Q r w'') w.
Proof.
  intros HI Hs Hl Ht Hw. apply holds_doOnce. intros w0 a w1 H0 Ha.
  rewrite <- (own_now _ _ H0), <- (own_network _ _ H0) in Ht. rewrite <- (own_network _ _ H0) in Hl.
  assert (I w0) as Hw0 by eauto.
  destruct (api_serve (request_of call body) (w_api w0)) as [resp s] eqn:Es.
  destruct (Hs w0 resp s Hw0 Es) as [Hr Hf].
  assert (forall t e, answer_result (fst (request_line call)) (snd (request_line call)) out (Ok resp) t
    = Err e -> isRetryable e = false) as Hlast.
  { intros t e He. pose proof (answer_result_outcome (fst (request_line call)) (snd (request_line call)) out (Ok resp) t) as Ho.
    rewrite He in Ho. by rewrite (outcome_retryable _ _ _ _ _ Ho). }
  destruct (w_network w0) as [|h l] eqn:En; cbn [absorbable finish] in *.
  - rewrite (send_through ctx _ w0 resp s En Es Ht) in Ha. injection Ha as <- <-.
    destruct (Hf (w_now w0) []) as (Hg & _ & _ & HQ). rewrite <- En, later_same in Hg, HQ.
    split; [done|]. intros w2 H2. right. split; [by eapply Hlast|]. intros w3 H3.
    apply HQ; [by rewrite En|by transitivity w2|apply answer_result_outcome].
  - assert (timely ctx (w_now w0 + hop_cost c h)) as Ht'.
    { destruct (hop_answer c h); eapply timely_earlier; [|exact Ht| |exact Ht]; cbn zeta;
        [etransitivity; [apply resumes_after|]|]; apply finish_after. }
    destruct (send_hop ctx (request_of call body) w0 h l resp s En Es Ht') as (s' & Hsend & Hs').
    rewrite Hsend in Ha. injection Ha as <- <-. set (t' := w_now w0 + hop_cost c h) in *.
    destruct (Hf t' l) as (Hg & Hi & Hi' & HQ). set (w1 := set_api (later w0 t' l) s').
    assert (G w0 w1 /\ I w1) as [Hg' Hw1].
    { unfold w1. destruct Hs' as [->|[-> _]]; [done|]. split; [apply (und_attempt w0 t' l)|done]. }
    split; [done|]. intros w2 H2. destruct (hop_answer c h) as [b|]; cbn [default from_option id].
    + to_prop. destruct left as [|left]; [done|]. left. rewrite answer_result_retryable by done.
      eexists _, left. do 2 (split; [reflexivity|]).
      pose proof (answer_result_outcome (fst (request_line call)) (snd (request_line call)) out b t') as Ho.
      rewrite answer_result_retryable in Ho by done. split; [by etransitivity; [exact (outcome_retryable _ _ _ _ _ Ho)|]|].
      split; [by eapply HI|]. unfold ahead. rewrite (own_now _ _ H2), (own_network _ _ H2). by split.
    + destruct Hs' as [->|[_ []]]; [|done]. right. split; [by eapply Hlast|]. intros w3 H3.
      apply HQ; [by split|by transitivity w2|apply answer_result_outcome].
Qed.

(** One round, and what comes after it. *)
Lemma holds_round {A} call ctx body (out : dest A) (I : world -> Prop) max n k last Q w :
  (forall w w', R w w' -> I w -> I w') ->
  served call body out I (fun t l => absorbable c max max l = true /\ timely ctx (finish c 0 t l)) Q ->
  ahead ctx max n k last w -> I w ->
  (forall n' e w', n = S n' -> ahead ctx max n' (S k) (Some e) w' -> I w' ->
     holds (loop call body out n' (S k) (Some e) ctx) Q w') ->
  holds (loop call body out n k last ctx) Q w.
Proof.
  intros HI Hs [Hl Ht] Hw Hnext. rewrite do_loop_succ.
  apply holds_wait; [eapply timely_earlier; [|exact Ht]; apply finish_after|]. intros w1 w2 H1 H2.
  assert (I w2) as Hw2.
  { apply (HI _ _ H2). apply (HI _ _ H1) in Hw.
    destruct (api_serve (request_of call body) (w_api w1)) as [resp s] eqn:Es.
    destruct (Hs w1 resp s Hw Es) as [_ Hf]. apply Hf. }
  apply (holds_bind _ R G). eapply holds_mono; [|apply (holds_attempt call ctx body out I max n k Q);
    [done|done|by rewrite (own_network _ _ H2)|by rewrite (own_now _ _ H2), (own_network _ _ H2)|done]].
  cbn beta. intros r w3 [(e & n' & -> & -> & He & Hw3 & Ha)|[He HQ]].
  - rewrite He. by apply Hnext.
  - destruct r as [v|e]; [done|]. by rewrite (He e eq_refl).
Qed.

Lemma holds_do_loop {A} call ctx body (out : dest A) (I : world -> Prop) max Q :
  (forall w w', R w w' -> I w -> I w') ->
  served call body out I (fun t l => absorbable c max max l = true /\ timely ctx (finish c 0 t l)) Q ->
  forall n k last w, ahead ctx max n k last w -> I w -> holds (loop call body out n k last ctx) Q w.
Proof.
  intros HI Hs. induction n as [|n IH]; intros k last w Ha Hw;
    (eapply holds_round; [done|done|done|done|]); intros n' e w' [= <-]. by apply IH.
Qed.

Lemma absorbed_rely ctx w w' : R w w' -> absorbed ctx w -> absorbed ctx w'.
Proof. unfold absorbed. intros H. by rewrite (own_now _ _ H), (own_network _ _ H). Qed.

Lemma absorbed_now ctx w : absorbed ctx w -> timely ctx (w_now w).
Proof. intros [_ H]. eapply timely_earlier; [apply finish_after|exact H]. Qed.

Lemma holds_do_request {A} call ctx body (out : dest A) (I : world -> Prop) Q w :
  absorbed ctx w -> I w -> (forall w w', R w w' -> I w -> I w') ->
  served call (marshalled body) out I (fun t l => absorbed ctx (later w t l)) Q ->
  holds (do_request c ctx (fst (request_line call)) (snd (request_line call)) body out) Q w.
Proof.
  intros Hl Hw HI Hs. pose proof (wc_retries (c := c) (tok := tok)) as Hm.
  rewrite do_request_loop. replace (rounds c) with (S (Z.to_nat (maxRetries c))) by (unfold rounds; lia).
  by apply (holds_do_loop call ctx _ out I (Z.to_nat (maxRetries c))).
Qed.
End Client.

(** ** The four endpoints *)

Section Endpoints.
Context {RT : Runtime} {API : ZonesAPI} `{!ZonesAPILaws API}
  (c : Client) (tok : string) `{!WorldClient c tok}
  {Zs : relation api_state} (R G : relation world).

#[local] Abbreviation holds := (holds in_world R G).
#[local] Abbreviation absorbed := (absorbed c).

Section Reading.
Context `{!Undisturbed Zs R G}.

(** The zones, as they may become while the call runs. *)
Lemma kept_rely (s0 : api_state) w w' : R w w' -> Zs s0 (w_api w) -> Zs s0 (w_api w').
Proof. intros H Hs. transitivity (w_api w); [done|by apply und_zones]. Qed.

Context `{!Private R}.

(** The zones are those of some moment of the call. *)
Lemma holds_ListZones w ctx :
  absorbed ctx w ->
  holds (ListZones c ctx) (fun r w' => absorbed ctx w' /\
    exists zs s, r = Ok zs /\ Zs (w_api w) s /\ map zone_view zs = api_page tok s) w.
Proof.
  intros Hw. unfold ListZones, try_bind. apply (holds_bind _ R G).
  change (do_request c ctx "GET" zones_path None out_zones)
    with (do_request c ctx (fst (request_line CallListZones)) (snd (request_line CallListZones))
            None out_zones).
  apply (holds_do_request c tok R G _ _ _ _ (fun w' => Zs (w_api w) (w_api w')));
    [done|reflexivity|apply kept_rely|].
  intros w0 resp s Hs0 Es. simpl marshalled in Es.
  destruct (law_list tok (w_api w0) (request_of c tok CallListZones None))
    as (resp' & out & Hs & H2 & Hd & Hp); [by apply request_of_api|].
  rewrite Hs in Es. injection Es as <- <-. split; [by apply is_2xx_not_retryable|].
  intros t l w1. replace w1 with (later w0 t l) by done. split; [apply und_attempt|].
  split; [done|]. split; [done|]. intros Hl r w2 H Ho.
  rewrite (outcome_2xx_ok _ _ _ _ _ _ Ho H2 Hd). intros w3 H3.
  split; [do 2 (eapply absorbed_rely; [done..|]); exact Hl|]. by exists (lzr_Zones out), (w_api w0).
Qed.

(** Creating a record set, when the API will not and answers with a final error. *)
Lemma holds_CreateRRSet_fails w ctx zid r (status : Z -> bool) :
  absorbed ctx w ->
  (forall st, status st = true -> 400 <= st < 500 /\ st <> 429) ->
  (forall s, Zs (w_api w) s -> exists resp,
     api_serve (request_of c tok (CallCreateRRSet zid) (marshalled (Some (BodyCreate r)))) s = (resp, s) /\
     status (resp_StatusCode resp) = true) ->
  holds (CreateRRSet c ctx zid r) (fun res w' => absorbed ctx w' /\
    exists e, res = Err (EAPI e) /\ status (StatusCode e) = true) w.
Proof.
  intros Hw Hst Hserve. set (call := CallCreateRRSet zid).
  apply (holds_do_request c tok R G call ctx (Some (BodyCreate r)) out_rrset
    (fun w' => Zs (w_api w) (w_api w'))); [done|reflexivity|apply kept_rely|].
  intros w0 resp s Hs0 Es. destruct (Hserve _ Hs0) as (resp' & Hs & Hres). fold call in Hs.
  rewrite Hs in Es. injection Es as <- <-. destruct (Hst _ Hres) as [Hrange H429].
  split; [rewrite (status_final _ _ eq_refl), !orb_false_iff, andb_false_iff; repeat split;
    [by apply Z.eqb_neq; lia..|left; by apply Z.leb_gt; lia]|].
  intros t l w1. replace w1 with (later w0 t l) by done. split; [apply und_attempt|].
  split; [done|]. split; [done|]. intros Hl res w2 H Ho. split; [by eapply absorbed_rely|].
  destruct (outcome_status _ _ _ _ _ Ho) as (e & -> & He).
  { unfold is_2xx. apply andb_false_iff. right. apply Z.ltb_ge. lia. }
  exists e. by rewrite He.
Qed.
End Reading.

Section Writing.
Context (s0 : api_state) (zid : Z) (name rrType : string) (P N : option RRSetState -> Prop).
Context `{!Owns Zs R G (zid, name, rrType) N, !Private R} (Hzone : project_zone tok Zs s0 zid).

#[local] Abbreviation key := (zid, name, rrType).
#[local] Abbreviation harmless := (harmless Zs key P N s0).
#[local] Abbreviation answered := (answered c tok Zs s0 zid name rrType).

(** What the three writing calls keep of the world while they run: the zones, and
    a property of the record set. *)
Definition holding (P' : option RRSetState -> Prop) (w : world) : Prop :=
  Zs s0 (w_api w) /\ P' (api_rrsets (w_api w) !! key).

Lemma holding_rely (P' : option RRSetState -> Prop) w w' :
  (forall o, N o -> P' o) -> R w w' -> holding P' w -> holding P' w'.
Proof.
  intros HN H [Hz HP]. split; [by eapply kept_rely|].
  destruct (owns_key _ _ H) as [->|HNo]; [done|by apply HN].
Qed.

(** A harmless request whose answer is final; [Q] is stable. *)
Lemma served_write {A} call body (out : dest A) (P' : option RRSetState -> Prop) (final : Z -> list hop -> Prop) Q :
  harmless (request_of c tok call body) -> (forall o, P' o -> P o) -> (forall o, N o -> P' o) ->
  (forall r o o', Q r o -> N o' -> Q r o') -> answered call body out P' Q ->
  served c tok R G call body out (holding P') final
    (fun r w' => final (w_now w') (w_network w') /\ Q r (api_rrsets (w_api w') !! key)).
Proof.
  intros Hsafe HPP HNP HQ Ha w0 resp s [Hs0 HP] Es.
  destruct (Hsafe _ Hs0 (HPP _ HP)) as (Hss & Hoff & Hkey). rewrite Es in Hss, Hoff, Hkey. cbn [snd] in *.
  destruct (Ha _ _ _ Hs0 HP Es) as [Hr Hq]. split; [done|]. intros t l.
  split; [by apply (owns_step (key := key) (N := N))|].
  split; [split; [transitivity (w_api w0); [done|by apply und_same]|]|].
  { simpl. destruct Hkey as [->|HN]; [done|by apply HNP]. }
  split; [done|]. intros Hl r w2 H2 Ho. split.
  - by rewrite (own_now _ _ H2), (own_network _ _ H2).
  - specialize (Hq r Ho). destruct (owns_key _ _ H2) as [->|HN]; [done|by eapply HQ].
Qed.

Lemma holds_write {A} call ctx body (out : dest A) (P' : option RRSetState -> Prop) Q w :
  absorbed ctx w -> holding P' w ->
  harmless (request_of c tok call (marshalled body)) -> (forall o, P' o -> P o) -> (forall o, N o -> P' o) ->
  (forall r o o', Q r o -> N o' -> Q r o') -> answered call (marshalled body) out P' Q ->
  holds (do_request c ctx (fst (request_line call)) (snd (request_line call)) body out)
    (fun r w' => absorbed ctx w' /\ Q r (api_rrsets (w_api w') !! key)) w.
Proof.
  intros Hw Hh Hsafe HPP HNP HQ Ha.
  eapply holds_mono; [|apply (holds_do_request c tok R G call ctx body out (holding P'));
    [done|done|intros w1 w2; by apply holding_rely|by apply served_write]].
  intros r w' [Hl Hq]. by split.
Qed.

Context (HNP : forall o, N o -> P o).

Lemma holds_CreateRRSet w ctx r :
  absorbed ctx w -> holding P w -> create_to name rrType P N r ->
  holds (CreateRRSet c ctx zid r) (fun res w' => absorbed ctx w' /\
    created N res (api_rrsets (w_api w') !! key)) w.
Proof.
  intros Hw Hh Hto. apply (holds_write (CallCreateRRSet zid) ctx (Some (BodyCreate r)) out_rrset P);
    try done; [by apply create_harmless| |by apply create_answered].
  intros res o o'. apply created_stable, Hto.
Qed.

Lemma holds_SetRRSetRecords w ctx rs :
  absorbed ctx w -> holding P w -> api_rrsets (w_api w) !! key <> None -> set_to name rrType P N rs ->
  holds (SetRRSetRecords c ctx zid name rrType (mkSetRRSetRecordsRequest rs)) (fun res w' =>
    absorbed ctx w' /\ replaced N res (api_rrsets (w_api w') !! key)) w.
Proof.
  intros Hw [Hz HP] Hsome Hto.
  apply (holds_write (CallSetRRSetRecords zid name rrType) ctx
    (Some (BodySetRecords (mkSetRRSetRecordsRequest rs))) out_action (fun o => P o /\ o <> None));
    [done|by split|by apply set_harmless|by intros o []| | |by apply set_answered].
  - intros o HN. split; [by apply HNP|]. intros ->. by destruct Hto as (_ & _ & _ & _ & []).
  - by intros res o o' [Hv _].
Qed.

Lemma holds_DeleteRRSet w ctx :
  absorbed ctx w -> holding P w -> delete_to name rrType N ->
  holds (DeleteRRSet c ctx zid name rrType) (fun res w' =>
    absorbed ctx w' /\ N (api_rrsets (w_api w') !! key) /\
    (res = None \/ exists e, res = Some e /\ errors_Is e ErrNotFound = true)) w.
Proof.
  intros Hw Hh Hto. unfold DeleteRRSet.
  apply (holds_bind _ R G). eapply holds_mono; [|apply (holds_write (CallDeleteRRSet zid name rrType) ctx
    None out_nil P (deleted N)); [done|done|by apply delete_harmless|done|done|by intros res o o' [_ Hv]|by apply delete_answered]].
  cbn beta. intros res w1 (Hw1 & Hk & Hres) w2 H2.
  split; [by apply (absorbed_rely c R _ _ _ H2)|].
  split; [by destruct (owns_key _ _ H2) as [->|HN]|].
  destruct Hres as [[v ->]|(e & -> & He)]; [by left|]. right. by exists e.
Qed.
End Writing.
End Endpoints.
