(* ===== verification/FaultyClient.v ===== *)
(** The client in an environment that may fail it: whatever becomes of its
    requests, and even if the API serves some of them when the client has long
    given them up, a call that returns a value or a conflict or a missing record set
    learnt it from the API, and its requests are [harmless]: served whenever, they
    leave the record set alone or make it what it is to become. *)
From S2P Require Import Prelude GoStrings Utf8 Runtime Quote Errors Json Types ZoneCache Effects.
From S2P Require Import Client ClientSpec ClientPaths Interference ZonesAPI Endpoints Adversity WorldClient.

Section Client.
Context {RT : Runtime} {API : ZonesAPI} (c : Client) (tok : string) `{!WorldClient c tok}.
Context (H : Request -> Prop) {Zs : relation api_state} (R G : relation world) `{!Undisturbed Zs R G}.

#[local] Abbreviation keeps := (keeps happens (sends H) R G).
#[local] Abbreviation request_of := (request_of c tok).

Lemma keeps_log {A} l level msg attrs (f : unit -> prog A) Q w :
  (forall w', R w w' -> keeps (f tt) Q w') -> keeps (bind (LogAttrs l level msg attrs) f) Q w.
Proof.
  intros Hf. apply keeps_quiet; [typeclasses eauto|done|done|]. intros [] w' Hw. by apply Hf.
Qed.

Lemma keeps_now {A} (f : Z -> prog A) Q w :
  (forall now w', R w w' -> keeps (f now) Q w') -> keeps (bind (perform ENow) f) Q w.
Proof. intros Hf. apply keeps_quiet; [typeclasses eauto|done|done|done]. Qed.

(** ** One attempt *)

Lemma keeps_handle_response {A} method path (out : dest A) resp Q w :
  (forall r w', R w w' -> outcome method path out (Ok resp) r -> Q r w') ->
  keeps (handle_response c method path out resp) Q w.
Proof.
  intros HQ. unfold handle_response. destruct (is_2xx (resp_StatusCode resp)) eqn:E.
  { intros w' Hw. apply HQ; [done|by constructor]. }
  unfold parseAPIError. pose proof (fun now => outcome_error method path out resp now E) as Ho.
  unfold api_error in Ho. destruct (default _ (error_body (resp_Body resp))) as [code message].
  rewrite wc_clock. destruct (resp_StatusCode resp =? 429).
  - apply (keeps_bind happens (sends H) R G), keeps_now. intros now w1 H1 w2 H2 w3 H3.
    apply HQ; [|apply Ho]. by transitivity w2; [transitivity w1|].
  - intros w1 H1. apply HQ; [done|apply (Ho 0)].
Qed.

Lemma keeps_doOnce {A} call ctx body (out : dest A) Q w :
  H (request_of call body) ->
  (forall w0 a w1, R w w0 -> exchange (request_of call body) w0 a w1 ->
     G w0 w1 /\ forall r w2, R w1 w2 ->
       outcome (fst (request_line call)) (snd (request_line call)) out a r -> Q r w2) ->
  keeps (doOnce c ctx (fst (request_line call)) (snd (request_line call)) body out) Q w.
Proof.
  intros Hsafe Hx. unfold doOnce. rewrite wc_token. unfold StaticToken. rewrite bind_ret_l.
  apply (keeps_bind happens (sends H) R G). unfold context_WithTimeout. apply keeps_now. intros now w1 H1 w2 H2.
  replace (rt_NewRequest_error _ _) with (@None string) by (by rewrite wc_base, wc_url).
  apply keeps_log. intros w3 H3. split; [exact Hsafe|]. intros w4 a w5 H4 Ha.
  assert (R w w4) as H04 by (by transitivity w3; [transitivity w2; [transitivity w1|]|]).
  destruct (Hx w4 a w5 H04 Ha) as [Hg HQ]. split; [done|].
  destruct a as [resp|msg]; apply keeps_log; intros w6 H6.
  - apply keeps_handle_response. intros r w7 H7. apply HQ. by transitivity w6.
  - intros w7 H7. apply HQ; [by transitivity w6|constructor].
Qed.

Lemma keeps_wait {A} k last ctx method path (f : option error -> prog A) Q w :
  (forall r w', R w w' -> (forall e, r = Some e -> unclear e) -> keeps (f r) Q w') ->
  keeps (bind (wait_before k last c ctx method path) f) Q w.
Proof.
  intros Hf. unfold wait_before. destruct (k =? 0)%nat; [by apply Hf|].
  apply (keeps_bind happens (sends H) R G), keeps_log. intros w1 H1. rewrite wc_clock. cbn [clock_Sleep realClock].
  assert (forall done w3 w2, R w1 w2 -> R w2 w3 -> keeps (f (ctx_error_error <$> done)) Q w3) as Hend.
  { intros done w3 w2 H2 H3. apply Hf; [by transitivity w2; [transitivity w1|]|].
    intros e He. destruct done as [d|]; [|done]. injection He as <-. apply ctx_unclear. }
  unfold realClock_Sleep.
  destruct (_ <=? 0); (split; [done|]); intros w2 d w2' H2 ->; (split; [reflexivity|]);
    intros w3 H3; by eapply Hend.
Qed.

(** ** The loop *)

(** A request keeps [J] if the API serves it in a world with [J], and what the API
    answers then gives [Q]. *)
Definition serves {A} (call : api_call) (body : option string) (out : dest A) (J : world -> Prop)
    (Q : res A -> world -> Prop) : Prop :=
  forall w0 resp s, J w0 -> api_serve (request_of call body) (w_api w0) = (resp, s) ->
    G w0 (set_api w0 s) /\ J (set_api w0 s) /\
    forall r w', R (set_api w0 s) w' ->
      outcome (fst (request_line call)) (snd (request_line call)) out (Ok resp) r -> Q r w'.

Section Loop.
Context {A : Type} (call : api_call) (ctx : Ctx) (body : option string) (out : dest A).
Context (J : world -> Prop) (Q : res A -> world -> Prop).
Context (HJ : forall w w', R w w' -> J w -> J w') (Hs : serves call body out J Q).
Context (HQ : forall e w, unclear e -> J w -> Q (Err e) w) (Hsafe : H (request_of call body)).

#[local] Abbreviation loop n k last :=
  (do_loop n k last c ctx (fst (request_line call)) (snd (request_line call)) body out).

(** One round, and what comes after it. *)
Lemma keeps_round n k last w :
  J w ->
  (forall e w', J w' -> (forall w'', R w' w'' -> Q (Err e) w'') ->
     keeps (loop n (S k) (Some e)) Q w') ->
  keeps (loop (S n) k last) Q w.
Proof.
  intros Hw Hnext. rewrite do_loop_succ. apply keeps_wait. intros [err|] w1 H1 Herr.
  { intros w2 H2. apply HQ; [by apply Herr|]. apply (HJ w1); [done|]. by apply (HJ w). }
  apply (keeps_bind happens (sends H) R G), keeps_doOnce; [done|]. intros w2 a w3 H2 Hx.
  assert (J w2) as Hw2 by (apply (HJ w1); [done|by apply (HJ w)]). unfold exchange in Hx.
  destruct (api_serve _ (w_api w2)) as [resp s] eqn:Es.
  destruct (Hs w2 resp s Hw2 Es) as (Hg & Hj & Hq).
  assert (G w2 w3 /\ J w3) as [Hg' Hj'].
  { destruct Hx as [[_ ->]|[_ [->| ->]]]; by split; [first [done|reflexivity]|]. }
  split; [done|]. intros r w4 H4 Ho.
  assert (forall w5, R w4 w5 -> Q r w5) as Hr.
  { intros w5 H5. destruct Hx as [[-> ->]|[Hf Hx]].
    - apply Hq; [by transitivity w4|done].
    - destruct (failed_unclear _ _ _ _ _ Hf Ho) as (e & -> & He). apply HQ; [done|].
      apply (HJ w4); [done|]. by apply (HJ w3). }
  destruct r as [v|e]; [done|]. destruct (isRetryable e); [|done].
  apply Hnext; [by apply (HJ w3)|done].
Qed.

Lemma keeps_do_loop n : forall k e w,
  J w -> (forall w', R w w' -> Q (Err e) w') -> keeps (loop n k (Some e)) Q w.
Proof.
  induction n as [|n IH]; intros k e w Hw He; [done|]. apply keeps_round; [done|].
  intros e' w' Hw' He'. by apply IH.
Qed.
End Loop.

Lemma keeps_do_request {A} call ctx body (out : dest A) J Q w :
  J w -> (forall w w', R w w' -> J w -> J w') ->
  (forall e w, unclear e -> J w -> Q (Err e) w) -> H (request_of call (marshalled body)) ->
  serves call (marshalled body) out J Q ->
  keeps (do_request c ctx (fst (request_line call)) (snd (request_line call)) body out) Q w.
Proof.
  intros Hw HJ HQ Hsafe Hs. pose proof (wc_retries (c := c) (tok := tok)) as Hm.
  rewrite do_request_loop. replace (rounds c) with (S (Z.to_nat (maxRetries c))) by (unfold rounds; lia).
  apply (keeps_round call ctx _ out J Q HJ Hs HQ Hsafe); [done|]. intros e w' Hw' He.
  by apply (keeps_do_loop call ctx _ out J Q HJ Hs HQ Hsafe).
Qed.
End Client.

(** ** The four endpoints *)

Section Endpoints.
Context {RT : Runtime} {API : ZonesAPI} `{!ZonesAPILaws API}
  (c : Client) (tok : string) `{!WorldClient c tok}
  {Zs : relation api_state} (R G : relation world) (s0 : api_state).

Lemma keeps_ListZones H `{!Undisturbed Zs R G} w ctx :
  H (request_of c tok CallListZones None) ->
  keeps happens (sends H) R G (ListZones c ctx) (fun r w' =>
    (exists zs s, r = Ok zs /\ Zs (w_api w) s /\ map zone_view zs = api_page tok s) \/
    exists e, r = Err e /\ unclear e) w.
Proof.
  intros Hsafe. unfold ListZones, try_bind. apply (keeps_bind happens (sends H) R G).
  change (do_request c ctx "GET" zones_path None out_zones)
    with (do_request c ctx (fst (request_line CallListZones)) (snd (request_line CallListZones))
            None out_zones).
  apply (keeps_do_request c tok H R G _ _ _ _ (fun w' => Zs (w_api w) (w_api w')));
    [reflexivity|apply (kept_rely R G)|..|done|].
  - intros e w1 He _ w2 H2. right. by exists e.
  - intros w0 resp s Hs0 Es. simpl marshalled in Es.
    destruct (law_list tok (w_api w0) (request_of c tok CallListZones None))
      as (resp' & out & Hs & H2 & Hd & Hp); [by apply request_of_api|].
    rewrite Hs in Es. injection Es as <- <-. rewrite set_api_same.
    split; [reflexivity|]. split; [done|]. intros r w1 H1 Ho.
    rewrite (outcome_2xx_ok _ _ _ _ _ _ Ho H2 Hd). intros w3 H3. left.
    by exists (lzr_Zones out), (w_api w0).
Qed.

Section Writing.
Context (zid : Z) (name rrType : string) (P N : option RRSetState -> Prop).
Context `{!Owns Zs R G (zid, name, rrType) N} (Hzone : project_zone tok Zs s0 zid).

#[local] Abbreviation key := (zid, name, rrType).
#[local] Abbreviation H := (harmless Zs key P N s0).
#[local] Abbreviation keeps := (keeps happens (sends H) R G).
#[local] Abbreviation holding := (holding (Zs := Zs) s0 zid name rrType).

Lemma owns_serve w s :
  same_zones (w_api w) s -> (forall k, k <> key -> api_rrsets s !! k = api_rrsets (w_api w) !! k) ->
  moves N (api_rrsets (w_api w) !! key) (api_rrsets s !! key) -> G w (set_api w s).
Proof. destruct w. exact (owns_step (key := key) (N := N) (mkWorld _ _ _ _ _) _ _ s). Qed.

(** Nothing is learnt, or what [Q] says. *)
Definition or_unclear {A} (Q : res A -> option RRSetState -> Prop) (r : res A) (o : option RRSetState) :
    Prop :=
  Q r o \/ exists e, r = Err e /\ unclear e.

(** A call that writes: its requests are harmless, and what is answered gives [Q]. *)
Lemma keeps_write {A} call ctx body (out : dest A) (P' : option RRSetState -> Prop) Q w :
  holding P' w ->
  H (request_of c tok call (marshalled body)) -> (forall o, P' o -> P o) -> (forall o, N o -> P' o) ->
  (forall r o o', Q r o -> N o' -> Q r o') ->
  answered c tok Zs s0 zid name rrType call (marshalled body) out P' Q ->
  keeps (do_request c ctx (fst (request_line call)) (snd (request_line call)) body out)
    (fun r w' => or_unclear Q r (api_rrsets (w_api w') !! key)) w.
Proof.
  intros Hw Hsafe HPP HNP HQ Ha.
  apply (keeps_do_request c tok H R G call ctx body out (holding P')); [done|..|done|].
  - intros w1 w2. by apply (holding_rely R G s0 zid name rrType N).
  - intros e w1 He _. right. by exists e.
  - intros w0 resp s [Hs0 HP] Es. destruct (Hsafe _ Hs0 (HPP _ HP)) as (Hss & Hoff & Hkey).
    rewrite Es in Hss, Hoff, Hkey. cbn [snd] in *. destruct (Ha _ _ _ Hs0 HP Es) as [_ Hq].
    split; [by apply owns_serve|].
    split; [split; [transitivity (w_api w0); [done|by apply und_same]|]|].
    { simpl. destruct Hkey as [->|HN]; [done|by apply HNP]. }
    intros r w1 H1 Ho. left. specialize (Hq r Ho).
    destruct (owns_key _ _ H1) as [->|HN]; [done|by eapply HQ].
Qed.

Context (HNP : forall o, N o -> P o).

Lemma keeps_CreateRRSet w ctx r :
  holding P w -> create_to name rrType P N r ->
  keeps (CreateRRSet c ctx zid r) (fun res w' =>
    or_unclear (created N) res (api_rrsets (w_api w') !! key)) w.
Proof.
  intros Hh Hto. apply (keeps_write (CallCreateRRSet zid) ctx (Some (BodyCreate r)) out_rrset P);
    try done; [by apply create_harmless| |by apply create_answered].
  intros res o o'. apply created_stable, Hto.
Qed.

Lemma keeps_SetRRSetRecords w ctx rs :
  holding P w -> api_rrsets (w_api w) !! key <> None -> set_to name rrType P N rs ->
  keeps (SetRRSetRecords c ctx zid name rrType (mkSetRRSetRecordsRequest rs)) (fun res w' =>
    or_unclear (replaced N) res (api_rrsets (w_api w') !! key)) w.
Proof.
  intros [Hz HP] Hsome Hto.
  apply (keeps_write (CallSetRRSetRecords zid name rrType) ctx
    (Some (BodySetRecords (mkSetRRSetRecordsRequest rs))) out_action (fun o => P o /\ o <> None));
    [by split|by apply set_harmless|by intros o []| | |by apply set_answered].
  - intros o HN. split; [by apply HNP|]. intros ->. by destruct Hto as (_ & _ & _ & _ & []).
  - by intros res o o' [Hv _].
Qed.

Lemma keeps_DeleteRRSet w ctx :
  holding P w -> delete_to name rrType N ->
  keeps (DeleteRRSet c ctx zid name rrType) (fun res w' =>
    (res = None \/ exists e, res = Some e /\ errors_Is e ErrNotFound = true) /\
      N (api_rrsets (w_api w') !! key) \/
    exists e, res = Some e /\ unclear e) w.
Proof.
  intros Hh Hto. unfold DeleteRRSet. apply (keeps_bind happens (sends H) R G).
  eapply keeps_mono; [|apply (keeps_write (CallDeleteRRSet zid name rrType) ctx None out_nil P (deleted N));
    [done|by apply delete_harmless|done|done|by intros res o o' [_ Hv]|by apply delete_answered]].
  cbn beta. intros res w1 Hres w2 H2. destruct Hres as [[Hk Hres]|(e & -> & He)]; [|right; by exists e].
  left. split; [|by destruct (owns_key _ _ H2) as [->|HN]].
  destruct Hres as [[v ->]|(e & -> & He)]; [by left|right; by exists e].
Qed.
End Writing.
End Endpoints.
