(* ===== verification/Redaction.v ===== *)
(** Token redaction as noninterference: two programs are related when they
    perform the same events, except that requests may differ in their
    [Authorization] header and that the data of a Secret may differ in what its
    tokens are (not in whether they are there and non-blank).  Related programs
    write the same logs and return the same results. *)
From S2P Require Import Prelude GoStrings Utf8 Runtime Quote Errors Json Types ZoneCache Effects.
From S2P Require Import Client ClientSpec.

Section Redaction.
Context {RT : Runtime}.

(** A request without its credential. *)
Definition strip (req : Request) : Request :=
  mkRequest (req_method req) (req_url req) (delete "Authorization" (req_header req))
    (req_body req).

Definition same_data (d1 d2 : gmap string string) : Prop :=
  forall key, (d1 !! key = None <-> d2 !! key = None) /\
    forall v1 v2, d1 !! key = Some v1 -> d2 !! key = Some v2 ->
      (TrimSpace v1 = EmptyString <-> TrimSpace v2 = EmptyString).

Definition same_secret (r1 r2 : res (gmap string string)) : Prop :=
  match r1, r2 with
  | Ok d1, Ok d2 => same_data d1 d2
  | Err e1, Err e2 => e1 = e2
  | _, _ => False
  end.

Definition not_secret (e : eff) : Prop := match e with ESecret _ _ _ _ => False | _ => True end.

Inductive low {A B} (R : A -> B -> Prop) : prog A -> prog B -> Prop :=
| low_ret a b : R a b -> low R (Ret a) (Ret b)
| low_do hc ctx q1 q2 k1 k2 :
    strip q1 = strip q2 -> (forall r, low R (k1 r) (k2 r)) ->
    low R (Op (EDo hc ctx q1) k1) (Op (EDo hc ctx q2) k2)
| low_secret kc ctx ns name k1 k2 :
    (forall r1 r2, same_secret r1 r2 -> low R (k1 r1) (k2 r2)) ->
    low R (Op (ESecret kc ctx ns name) k1) (Op (ESecret kc ctx ns name) k2)
| low_same e k1 k2 :
    not_secret e -> (forall r, low R (k1 r) (k2 r)) -> low R (Op e k1) (Op e k2).

Lemma low_bind {A B A' B'} (R : A -> B -> Prop) (S : A' -> B' -> Prop) p q f g :
  low R p q -> (forall a b, R a b -> low S (f a) (g b)) -> low S (bind p f) (bind q g).
Proof.
  intros Hp Hf. induction Hp; simpl; [by apply Hf | by constructor..].
Qed.

Lemma low_refl {A} (p : prog A) : all_events not_secret p -> low eq p p.
Proof.
  induction p as [a|e k IH]; [by constructor|]. intros [He Hk]. apply low_same; [done|].
  intros r. by apply IH.
Qed.

Lemma low_perform {B B'} (S : B -> B' -> Prop) e f g :
  not_secret e -> (forall r, low S (f r) (g r)) ->
  low S (bind (perform e) f) (bind (perform e) g).
Proof. intros He Hf. by apply low_same. Qed.

(** ** Traces of related programs *)

(** The answers to two related events are alike: equal, up to the tokens in the
    data of a Secret. *)
Definition answer_agree (e1 e2 : eff) : answer e1 -> answer e2 -> Prop :=
  match e1, e2 return answer e1 -> answer e2 -> Prop with
  | ENow, ENow => fun r1 r2 => r1 = r2
  | ECtxErr c1, ECtxErr c2 => fun r1 r2 => c1 = c2 -> r1 = r2
  | ETimer c1 d1, ETimer c2 d2 => fun r1 r2 => c1 = c2 -> d1 = d2 -> r1 = r2
  | EDo h1 c1 q1, EDo h2 c2 q2 =>
      fun r1 r2 => h1 = h2 -> c1 = c2 -> strip q1 = strip q2 -> r1 = r2
  | ESecret k1 c1 ns1 n1, ESecret k2 c2 ns2 n2 =>
      fun r1 r2 => k1 = k2 -> c1 = c2 -> ns1 = ns2 -> n1 = n2 -> same_secret r1 r2
  | ELog _ _, ELog _ _ => fun r1 r2 => r1 = r2
  | ECacheLookup key1, ECacheLookup key2 => fun r1 r2 => key1 = key2 -> r1 = r2
  | ECacheStore _ _, ECacheStore _ _ => fun r1 r2 => r1 = r2
  | ECacheInvalidate _, ECacheInvalidate _ => fun r1 r2 => r1 = r2
  | _, _ => fun _ _ => True
  end.

Definition agree_step (s1 s2 : step) : Prop :=
  answer_agree (step_eff s1) (step_eff s2) (step_answer s1) (step_answer s2).

Lemma answer_agree_same e r1 r2 : not_secret e -> answer_agree e e r1 r2 -> r1 = r2.
Proof. destruct e; simpl; try done; by auto. Qed.

Fixpoint agree (tr1 tr2 : list step) : Prop :=
  match tr1, tr2 with
  | s1 :: tr1, s2 :: tr2 => agree_step s1 s2 /\ agree tr1 tr2
  | _, _ => True
  end.

(** What an observer without the token sees of a trace. *)
Definition observed (tr : list step) : list (Ctx * Request * result string Response) :=
  map (fun '(ctx, req, r) => (ctx, strip req, r)) (do_steps tr).

Lemma low_exec {A B} (R : A -> B -> Prop) p q tr1 tr2 a b :
  low R p q -> exec p tr1 a -> exec q tr2 b -> agree tr1 tr2 ->
  R a b /\ logs tr1 = logs tr2 /\ observed tr1 = observed tr2.
Proof.
  intros H. revert tr1 tr2.
  induction H as [a' b' HR|hc ctx q1 q2 k1 k2 Hq Hk IH|kc ctx ns name k1 k2 Hk IH|e k1 k2 He Hk IH];
    intros tr1 tr2.
  - by intros [-> ->] [-> ->] _.
  - intros (r1 & t1 & -> & H1) (r2 & t2 & -> & H2) [Ha Hr].
    specialize (Ha eq_refl eq_refl Hq). simpl in Ha. subst r2.
    destruct (IH r1 t1 t2 H1 H2 Hr) as (HR & Hl & Ho). split; [done|]. split; [done|].
    unfold observed. rewrite !do_steps_op. simpl. rewrite Hq. by f_equal.
  - intros (r1 & t1 & -> & H1) (r2 & t2 & -> & H2) [Ha Hr].
    specialize (Ha eq_refl eq_refl eq_refl eq_refl).
    by destruct (IH r1 r2 Ha t1 t2 H1 H2 Hr) as (HR & Hl & Ho).
  - intros (r1 & t1 & -> & H1) (r2 & t2 & -> & H2) [Ha Hr].
    apply answer_agree_same in Ha; [|done]. simpl in Ha. subst r2.
    destruct (IH r1 t1 t2 H1 H2 Hr) as (HR & Hl & Ho). split; [done|].
    rewrite !logs_op, Hl. split; [done|]. unfold observed in *. rewrite !do_steps_op.
    destruct (do_step _) as [[[c q] a']|]; simpl; [by f_equal | done].
Qed.

(** Environments that answer alike: they do not look at the credential, and their
    Secrets differ in nothing but tokens. *)
Record alike {W} (h1 h2 : handler W) : Prop := {
  alike_do : forall hc ctx q1 q2 w, strip q1 = strip q2 ->
    h1 (EDo hc ctx q1) w = h2 (EDo hc ctx q2) w;
  alike_secret : forall kc ctx ns name w,
    same_secret (fst (h1 (ESecret kc ctx ns name) w)) (fst (h2 (ESecret kc ctx ns name) w)) /\
    snd (h1 (ESecret kc ctx ns name) w) = snd (h2 (ESecret kc ctx ns name) w);
  alike_same : forall e w, not_secret e -> h1 e w = h2 e w
}.

Lemma answer_agree_refl e r : not_secret e -> answer_agree e e r r.
Proof. by destruct e; simpl. Qed.

Lemma low_run {A B W} (R : A -> B -> Prop) (p : prog A) (q : prog B) (h1 h2 : handler W) w :
  low R p q -> alike h1 h2 -> agree (run_trace h1 p w) (run_trace h2 q w).
Proof.
  intros H Hb. revert w.
  induction H as [a b HR|hc ctx q1 q2 k1 k2 Hq Hk IH|kc ctx ns name k1 k2 Hk IH|e k1 k2 He Hk IH];
    intros w; simpl; [done|..].
  - rewrite (alike_do _ _ Hb hc ctx q1 q2 w Hq). destruct (h2 (EDo hc ctx q2) w).
    split; [by intros _ _ _ | apply IH].
  - destruct (alike_secret _ _ Hb kc ctx ns name w) as [Hs Hw].
    destruct (h1 (ESecret kc ctx ns name) w) as [r1 w1], (h2 (ESecret kc ctx ns name) w) as [r2 w2].
    simpl in *. subst w2. split; [by intros _ _ _ _ | by apply IH].
  - rewrite (alike_same _ _ Hb e w He). destruct (h2 e w) as [r w'].
    split; [by apply answer_agree_refl | apply IH].
Qed.

(** ** The client *)

(** The same client with another token source. *)
Definition with_token (c : Client) (t : TokenSource) : Client :=
  mkClient (baseURL c) (httpClient c) t (logger c) (clock c) (requestTimeout c)
    (maxRetries c) (initialBackoff c) (maxBackoff c) (userAgent c).

(** Token sources that fail alike. *)
Definition token_low (r1 r2 : res string) : Prop :=
  match r1, r2 with Ok _, Ok _ => True | Err e1, Err e2 => e1 = e2 | _, _ => False end.

(** A clock that reads no Secret. *)
Class ClockNoSecret (k : Clock) : Prop := {
  clock_now_no_secret : all_events not_secret (clock_Now k);
  clock_sleep_no_secret : forall ctx d, all_events not_secret (clock_Sleep k ctx d)
}.

#[export] Instance realClock_no_secret : ClockNoSecret realClock.
Proof. split; [done|]. intros ctx d. simpl. unfold realClock_Sleep. by case_match. Qed.

Lemma strip_attempt c method path body t1 t2 tok1 tok2 :
  strip (attempt_request (with_token c t1) method path body tok1) =
  strip (attempt_request (with_token c t2) method path body tok2).
Proof.
  unfold strip, attempt_request, request_header. simpl. f_equal.
  apply map_eq. intros k. destruct (decide (k = "Authorization")) as [->|Hk].
  - by rewrite !lookup_delete_eq.
  - rewrite !lookup_delete_ne by done. destruct body; rewrite ?lookup_insert; repeat case_decide; done.
Qed.

Lemma doOnce_low {A} c t1 t2 ctx method path body (out : dest A) :
  ClockNoSecret (clock c) -> (forall ctx, low token_low (t1 ctx) (t2 ctx)) ->
  low eq (doOnce (with_token c t1) ctx method path body out)
         (doOnce (with_token c t2) ctx method path body out).
Proof.
  intros Hk Ht. unfold doOnce. eapply low_bind; [apply Ht|].
  intros [tok1|e1] [tok2|e2] H; try done; [|simpl in H; subst; by constructor].
  eapply low_bind; [apply low_refl; by repeat split|]. intros ctx1 ? <-.
  change (baseURL (with_token c t1)) with (baseURL c).
  change (baseURL (with_token c t2)) with (baseURL c).
  destruct (rt_NewRequest_error _ _); [by constructor|].
  apply low_perform; [done|]. intros _.
  apply low_do; [apply (strip_attempt c method path body t1 t2)|]. intros [resp|msg]; simpl.
  - apply low_same; [done|]. intros _. apply low_refl.
    unfold handle_response, parseAPIError. case_match; [done|].
    apply all_events_bind; [|done]. case_match. case_match; [|done].
    apply all_events_bind; [apply clock_now_no_secret | done].
  - apply low_same; [done|]. intros _. by constructor.
Qed.

Lemma do_loop_low {A} c t1 t2 n ctx method path body (out : dest A) :
  ClockNoSecret (clock c) -> (forall ctx, low token_low (t1 ctx) (t2 ctx)) ->
  forall k last,
  low eq (do_loop n k last (with_token c t1) ctx method path body out)
         (do_loop n k last (with_token c t2) ctx method path body out).
Proof.
  intros Hk Ht. induction n as [|n IH]; intros k last; [by constructor|].
  rewrite !do_loop_succ. eapply low_bind; [apply low_refl|].
  { unfold wait_before. case_match; [done|]. split; [done|]. intros []. simpl.
    apply clock_sleep_no_secret. }
  intros st ? <-. destruct st; [by constructor|].
  eapply low_bind; [by apply doOnce_low|]. intros r ? <-. destruct r; [by constructor|].
  case_match; [apply IH | by constructor].
Qed.

Lemma do_request_low {A} c t1 t2 ctx method path body (out : dest A) :
  ClockNoSecret (clock c) -> (forall ctx, low token_low (t1 ctx) (t2 ctx)) ->
  low eq (do_request (with_token c t1) ctx method path body out)
         (do_request (with_token c t2) ctx method path body out).
Proof.
  intros Hk Ht. unfold do_request. destruct body as [b|]; [|by apply do_loop_low].
  destruct (json_Marshal b); [by apply do_loop_low | by constructor].
Qed.
End Redaction.
