(* ===== verification/ClientTheorems.v ===== *)
(** What the API client guarantees: which requests a call sends and when it
    stops, what it returns, how long it waits, that nothing but the
    [Authorization] header depends on the token, and that requests say what was
    asked for and responses are read for what they show. *)
From S2P Require Import Prelude GoStrings Utf8 Runtime Quote Errors Json JsonRoundtrip Types ZoneCache Effects.
From S2P Require Import Client ClientSpec ClientDelays ClientPaths ZonesAPI RequestRoundtrip.
From S2P Require Import ResponseRoundtrip Redaction.

(** ** An environment for the examples *)

(** It answers requests from a script; timers fire at once, the clock stands
    still, no context expires, every Secret holds the same data and the cache is
    empty. *)
Definition scripted_with {RT : Runtime} (data : gmap string string) : handler (list (result string Response)) := fun e w =>
  match e return answer e * list (result string Response) with
  | ENow => (0, w)
  | ECtxErr _ => (None, w)
  | ETimer _ _ => (None, w)
  | EDo _ _ _ => match w with r :: w => (r, w) | [] => (Err "connection refused", []) end
  | ESecret _ _ _ _ => (Ok data, w)
  | ELog _ _ => (tt, w)
  | ECacheLookup _ => (None, w)
  | ECacheStore _ _ => (tt, w)
  | ECacheInvalidate _ => (tt, w)
  end.

Definition scripted {RT : Runtime} := scripted_with ∅.

Definition reply (status : Z) (body : string) : result string Response :=
  Ok (mkResponse status ∅ body).

#[local] Existing Instance example_runtime.

(** A client with a fixed token and the defaults. *)
Definition example_client (tok : string) : Client :=
  mkClient DefaultBaseURL http_DefaultClient (StaticToken tok) slog_Default realClock
    defaultRequestTimeout defaultMaxRetries defaultInitialBackoff defaultMaxBackoff
    defaultUserAgent.

#[local] Instance example_client_well_behaved tok : WellBehaved (example_client tok).
Proof. by eapply static_well_behaved. Qed.

#[local] Instance example_client_no_timers tok : NoTimers (example_client tok).
Proof. by split. Qed.

Definition two_failures : list (result string Response) :=
  [reply 503 EmptyString; Err "connection reset by peer"; reply 200 (qt "{'zones':[]}")].

Definition example_run : prog (res listZonesResponse) :=
  do_request (example_client "s3cret") context_Background "GET" zones_path None out_zones.

(** C9: one API call, from its answers.  It sends at most [maxRetries + 1]
    requests, all of them the same but for the token, each with a token its source
    returned for it and a deadline no later than the caller's.  An answer asks for
    a retry if it is a transport error, a 429 or a 5xx ([retryable_answer]).  Every
    answer but the last asks for one.  The call returns what its last answer comes
    to, and that answer asks for no retry unless the attempts are used up; only
    when the next request could not be sent does it return that failure instead,
    and then attempts were left and every answer had asked for a retry.  It succeeds
    only with what the last answer, a 2xx, decodes to. *)
Theorem retry_correct {RT : Runtime} {A} (c : Client) ctx method path body (out : dest A) tr r :
  WellBehaved c -> 0 <= maxRetries c ->
  exec (do_request c ctx method path body out) tr r ->
  let answers := map snd (do_steps tr) in
  let most := Z.to_nat (maxRetries c + 1) in
  (length answers <= most)%nat /\
  Forall (sent c ctx method path (marshalled body)) (do_steps tr) /\
  (forall l1 a l2, answers = l1 ++ a :: l2 -> l2 <> [] -> retryable_answer a = true) /\
  ((exists l a, answers = l ++ [a] /\ outcome method path out a r /\
      (retryable_answer a = true -> length answers = most)) \/
   ((length answers < most)%nat /\ Forall (fun a => retryable_answer a = true) answers /\
      exists e, r = Err e /\ stopped c ctx method path tr e)) /\
  (forall v, r = Ok v -> exists l resp, answers = l ++ [Ok resp] /\
     is_2xx (resp_StatusCode resp) = true /\
     decode_out method path out (resp_Body resp) = Ok v).
Proof.
  intros Hwb Hm H. pose proof (do_request_sent _ _ _ _ _ _ _ _ H) as Hs.
  rewrite do_request_loop in H. unfold rounds in H. rewrite Z2Nat.inj_add in * by lia.
  replace (Z.to_nat (maxRetries c) + Z.to_nat 1)%nat with (S (Z.to_nat (maxRetries c))) in * by lia.
  apply do_loop_exec in H as [Ha _]; [|done].
  split; [by eapply attempts_length|]. split; [done|].
  split; [by eapply attempts_all_but_last|].
  split; [by apply attempts_end in Ha|]. intros v ->. by eapply attempts_ok.
Qed.

(** A server that is never available: seven attempts, and its last answer. *)
Definition unavailable : list (result string Response) := repeat (reply 503 EmptyString) 7.

Lemma retry_correct_witness :
  let tr := run_trace scripted example_run two_failures in
  let tr' := run_trace scripted example_run unavailable in
  (exists l resp, map snd (do_steps tr) = l ++ [Ok resp] /\
     is_2xx (resp_StatusCode resp) = true /\
     decode_out "GET" zones_path out_zones (resp_Body resp) =
       Ok (mkListZonesResponse [] (mkPagination 0 0 0 0 0 0))) /\
  (exists l a, map snd (do_steps tr') = l ++ [a] /\ retryable_answer a = true /\
     outcome "GET" zones_path out_zones a (fst (run scripted example_run unavailable))).
Proof.
  split.
  - pose proof (retry_correct (example_client "s3cret") context_Background "GET" zones_path None
      out_zones (run_trace scripted example_run two_failures)
      (Ok (mkListZonesResponse [] (mkPagination 0 0 0 0 0 0)))
      (example_client_well_behaved _) ltac:(by vm_compute)
      (run_exec scripted example_run two_failures)) as (_ & _ & _ & _ & H).
    by apply H.
  - pose proof (retry_correct (example_client "s3cret") context_Background "GET" zones_path None
      out_zones (run_trace scripted example_run unavailable)
      (fst (run scripted example_run unavailable))
      (example_client_well_behaved _) ltac:(by vm_compute)
      (run_exec scripted example_run unavailable)) as (_ & _ & _ & [H|H] & _).
    + destruct H as (l & a & Hl & Ho & _). exists l, a. split; [exact Hl|]. split; [|exact Ho].
      assert (map snd (do_steps (run_trace scripted example_run unavailable)) = unavailable)
        as E by (vm_compute; reflexivity).
      rewrite E in Hl. change unavailable with (repeat (reply 503 EmptyString) 6 ++
        [reply 503 EmptyString]) in Hl. apply app_inj_tail in Hl as [_ <-]. reflexivity.
    + exfalso. destruct H as [H _].
      assert (length (map snd (do_steps (run_trace scripted example_run unavailable))) = 7%nat)
        as E by (vm_compute; reflexivity).
      rewrite E in H. vm_compute in H. lia.
Defined.

(** C29: the delay before a retry, for backoffs with
    [0 < initialBackoff <= maxBackoff < 2^62] (the defaults, for one).  A
    Retry-After hint is honoured up to [maxBackoff]; otherwise the delay before
    the [k]-th retry is [initialBackoff * 2 ^ (k - 1)], capped at [maxBackoff].  It
    is positive and at most [maxBackoff], and without hints later retries do not
    wait less than earlier ones. *)
Theorem backoff_correct {RT : Runtime} (c : Client) (k : nat) (last : option error) :
  0 < initialBackoff c <= maxBackoff c -> maxBackoff c < 2 ^ 62 -> (1 <= k)%nat ->
  backoffDelay c k last =
    (if 0 <? retry_hint last then Z.min (maxBackoff c) (retry_hint last)
     else Z.min (maxBackoff c) (initialBackoff c * 2 ^ (Z.of_nat k - 1))) /\
  0 < backoffDelay c k last <= maxBackoff c /\
  (forall k' last', (k <= k')%nat -> retry_hint last <= 0 -> retry_hint last' <= 0 ->
     backoffDelay c k last <= backoffDelay c k' last').
Proof.
  intros Hi Hm Hk.
  assert (forall k' last', (1 <= k')%nat -> backoffDelay c k' last' =
    if 0 <? retry_hint last' then Z.min (maxBackoff c) (retry_hint last')
    else Z.min (maxBackoff c) (initialBackoff c * 2 ^ (Z.of_nat k' - 1))) as Hd.
  { intros k' last' Hk'. destruct (0 <? retry_hint last') eqn:E; to_prop.
    - by apply backoffDelay_hint.
    - rewrite backoffDelay_no_hint, backoff_loop_pow by lia.
      by replace (Z.of_nat (k' - 1)) with (Z.of_nat k' - 1) by lia. }
  split; [by apply Hd|]. pose proof (Z.pow_pos_nonneg 2 (Z.of_nat k - 1)). split.
  - rewrite Hd by done. destruct (0 <? retry_hint last) eqn:E; to_prop; nia.
  - intros k' last' Hk' Hl Hl'. rewrite !Hd by lia. rewrite !(proj2 (Z.ltb_ge _ _)) by lia.
    pose proof (Z.pow_le_mono_r 2 (Z.of_nat k - 1) (Z.of_nat k' - 1)). nia.
Qed.

Lemma backoff_correct_witness :
  let last := Some (EAPI (mkAPIError 503 "x" "y" 0)) in
  backoffDelay (example_client "t") 3 last = 2 * Second /\
  0 < backoffDelay (example_client "t") 3 last <= 30 * Second /\
  backoffDelay (example_client "t") 3 last <= backoffDelay (example_client "t") 9 None.
Proof.
  pose proof (backoff_correct (example_client "t") 3 (Some (EAPI (mkAPIError 503 "x" "y" 0)))
    ltac:(by vm_compute) ltac:(by vm_compute) ltac:(lia)) as (H1 & H2 & H3).
  split; [rewrite H1; vm_compute; reflexivity|]. split; [exact H2|].
  apply H3; [lia|by vm_compute..].
Defined.

(** C30: a call waits at most [maxRetries] times, and never longer in all than
    that many times the larger of its two backoffs, whatever Retry-After the
    server sends and whatever overflows on the way. *)
Theorem waiting_bounded {RT : Runtime} {A} (c : Client) ctx method path body (out : dest A) tr r :
  NoTimers c -> clock c = realClock -> 0 <= maxRetries c -> 0 <= max_wait c ->
  exec (do_request c ctx method path body out) tr r ->
  Z.of_nat (length (timers tr)) <= maxRetries c /\
  0 <= foldr Z.add 0 (timers tr) <= maxRetries c * max_wait c.
Proof.
  intros Hnt Hk Hm Hw H.
  assert (exists bytes, exec (do_loop (rounds c) 0 None c ctx method path bytes out) tr r)
    as (bytes & Hl).
  { unfold do_request in H. destruct body as [[]|]; simpl in H; eauto. }
  apply do_loop_timers in Hl; [|done..]. destruct Hl as [Hf Hn]. simpl in Hn. unfold rounds in Hn.
  assert (Z.of_nat (length (timers tr)) <= maxRetries c) as Hlen by lia.
  split; [done|]. apply sum_le in Hf. nia.
Qed.

Lemma waiting_bounded_witness :
  Z.of_nat (length (timers (run_trace scripted example_run two_failures))) <= 6 /\
  0 <= foldr Z.add 0 (timers (run_trace scripted example_run two_failures)) <= 6 * (30 * Second).
Proof.
  apply (waiting_bounded (example_client "s3cret") context_Background "GET" zones_path None
    out_zones _ _ (example_client_no_timers _) eq_refl ltac:(by vm_compute) ltac:(by vm_compute)
    (run_exec scripted example_run two_failures)).
Defined.

(** C31: [parseRetryAfter] on what servers send: a decimal number of seconds up
    to 2^63 / 10^9 is that many seconds, a negative one none; an HTTP date is the
    time until it, none if it has passed, saturated at 2^63 - 1; anything else
    counts as no header. *)
Theorem parseRetryAfter_correct {RT : Runtime} (now : Z) :
  (forall n, 0 <= n <= 9223372036 -> parseRetryAfter (FormatInt n) now = n * Second) /\
  (forall n, int64_min <= n < 0 -> parseRetryAfter (FormatInt n) now = 0) /\
  (forall h t, TrimSpace h <> EmptyString -> Atoi (TrimSpace h) = None ->
     rt_http_ParseTime (TrimSpace h) = Some t ->
     parseRetryAfter h now = Z.min int64_max (Z.max 0 (t - now))) /\
  (forall h, TrimSpace h = EmptyString \/
       (Atoi (TrimSpace h) = None /\ rt_http_ParseTime (TrimSpace h) = None) ->
     parseRetryAfter h now = 0).
Proof.
  split; [|split; [|split]].
  - intros n Hn. rewrite parseRetryAfter_number by (unfold int64_min, int64_max; lia).
    rewrite (proj2 (Z.ltb_ge n 0)) by lia. apply wrap64_id.
    unfold in_int64, int64_min, int64_max, Second. apply andb_true_iff.
    split; apply Z.leb_le; lia.
  - intros n Hn. rewrite parseRetryAfter_number by (unfold int64_max; lia).
    by rewrite (proj2 (Z.ltb_lt n 0)) by lia.
  - intros h t Hne Ha Ht. unfold parseRetryAfter, time_Sub.
    rewrite (proj2 (String.eqb_neq _ _) Hne), Ha, Ht.
    destruct (_ <? 0) eqn:E; to_prop; unfold int64_min, int64_max in *; lia.
  - intros h Hh. unfold parseRetryAfter.
    destruct (TrimSpace h =? EmptyString)%string eqn:E; [done|].
    to_prop. destruct Hh as [Hh|[-> ->]]; done.
Qed.

(** Larger numbers of seconds overflow the multiplication.  From 9223372037 on
    the result is not what the header says; it can come out negative, which
    counts as no hint, or as a fraction of a second, for which the retry loop
    then waits instead of [maxBackoff]. *)
Theorem parseRetryAfter_overflow {RT : Runtime} (now : Z) :
  (forall n, 9223372037 <= n <= int64_max -> parseRetryAfter (FormatInt n) now <> n * Second) /\
  parseRetryAfter "9223372037" now = - 9223372036709551616 /\
  parseRetryAfter "18446744074" now = 290448384 /\
  backoffDelay (example_client "t") 1
    (Some (EAPI (mkAPIError 429 "x" "y" (parseRetryAfter "18446744074" now)))) = 290448384.
Proof.
  split; [|split; [|split]].
  - intros n Hn. rewrite parseRetryAfter_number by (unfold int64_min; lia).
    rewrite (proj2 (Z.ltb_ge n 0)) by lia. intros E.
    pose proof (wrap64_range (n * Second)) as Hr. rewrite E in Hr.
    unfold in_int64, int64_max, Second in Hr. to_prop. lia.
  - reflexivity.
  - reflexivity.
  - reflexivity.
Qed.

(** What a server reads of a request: the call, and the body. *)
Definition asks {RT : Runtime} (c : Client) (call : api_call) (body : option string -> Prop)
    (x : Ctx * Request * result string Response) : Prop :=
  let q := snd (fst x) in
  exists path, req_url q = baseURL c +:+ path /\
    parse_request_line (req_method q) path = Some call /\ body (req_body q).

Lemma sent_asks {RT : Runtime} (c : Client) ctx call bytes (body : option string -> Prop) l :
  in_int64 (call_zone call) = true -> body bytes ->
  Forall (sent c ctx (fst (request_line call)) (snd (request_line call)) bytes) l ->
  Forall (asks c call body) l.
Proof.
  intros Hz Hb Hl. eapply Forall_impl; [exact Hl|]. intros [[rctx q] a] (tok & Hq & _ & _). simpl in Hq. subst q.
  exists (snd (request_line call)). split; [done|]. by split; [apply parse_request_line_correct|].
Qed.

(** C11: the requests say what was meant.  A server that splits the path at its
    slashes, decodes the segments and decodes the body as JSON recovers, from every
    request a call sends, the operation, the zone, the name, the type and the
    whole request value (its texts ASCII, its numbers 64-bit, without labels, which
    the program does not set): no name (with slashes, dots or percent signs) and no
    value (with quotes or backslashes) can make it address or write another. *)
Theorem requests_faithful {RT : Runtime} (c : Client) ctx zid name rrType req rs :
  WellBehaved c -> in_int64 zid = true -> create_ok req -> Forall record_ok rs ->
  (forall tr r, exec (ListZones c ctx) tr r ->
     Forall (asks c CallListZones (fun b => b = None)) (do_steps tr)) /\
  (forall tr r, exec (CreateRRSet c ctx zid req) tr r ->
     Forall (asks c (CallCreateRRSet zid)
       (fun b => b ≫= Unmarshal_CreateRRSetRequest = Some req)) (do_steps tr)) /\
  (forall tr r, exec (SetRRSetRecords c ctx zid name rrType (mkSetRRSetRecordsRequest rs)) tr r ->
     Forall (asks c (CallSetRRSetRecords zid name rrType)
       (fun b => b ≫= Unmarshal_SetRRSetRecordsRequest = Some (mkSetRRSetRecordsRequest rs)))
       (do_steps tr)) /\
  (forall tr r, exec (DeleteRRSet c ctx zid name rrType) tr r ->
     Forall (asks c (CallDeleteRRSet zid name rrType) (fun b => b = None)) (do_steps tr)).
Proof.
  intros Hwb Hz Hreq Hrs. split; [|split; [|split]]; intros tr r H.
  - unfold ListZones in H. rewrite exec_try in H.
    destruct H as [(tr1 & v & tr2 & -> & H & -> & _)|(e & H & _)]; rewrite ?app_nil_r;
      apply (sent_asks c ctx CallListZones None); try done; exact (do_request_sent _ _ _ _ _ _ _ _ H).
  - eapply (sent_asks c ctx (CallCreateRRSet zid)); [done| |exact (do_request_sent _ _ _ _ _ _ _ _ H)].
    by apply create_roundtrip.
  - eapply (sent_asks c ctx (CallSetRRSetRecords zid name rrType));
      [done| |exact (do_request_sent _ _ _ _ _ _ _ _ H)].
    by apply set_records_roundtrip.
  - unfold DeleteRRSet in H. apply exec_bind in H.
    destruct H as (tr1 & v & tr2 & -> & H & -> & _). rewrite app_nil_r.
    apply (sent_asks c ctx (CallDeleteRRSet zid name rrType) None); try done.
    exact (do_request_sent _ _ _ _ _ _ _ _ H).
Qed.

Definition example_create : CreateRRSetRequest :=
  mkCreateRRSetRequest "a/b" "TXT" (Some 60) [mkRecord (qt "'x\y'") EmptyString] [].

Lemma requests_faithful_witness :
  Forall (asks (example_client "s3cret") (CallCreateRRSet 7)
            (fun b => b ≫= Unmarshal_CreateRRSetRequest = Some example_create))
    (do_steps (run_trace scripted
       (CreateRRSet (example_client "s3cret") context_Background 7 example_create) two_failures)).
Proof.
  eapply (requests_faithful (example_client "s3cret") context_Background 7 "a/b" "TXT"
    example_create []); [apply example_client_well_behaved | reflexivity | | constructor |].
  - split; [reflexivity|]. split; [reflexivity|]. split; [intros ttl [= <-]; reflexivity|].
    split; [by repeat constructor|reflexivity].
  - apply (run_exec scripted).
Defined.

(** The token reaches nothing but the [Authorization] header.  The same call
    made with two tokens, in environments that answer alike, returns the same,
    writes the same log records and sends the same requests up to that header. *)
Theorem client_redacts {RT : Runtime} {A} (c : Client) tok1 tok2 ctx method path body
    (out : dest A) tr1 tr2 r1 r2 :
  ClockNoSecret (clock c) ->
  exec (do_request (with_token c (StaticToken tok1)) ctx method path body out) tr1 r1 ->
  exec (do_request (with_token c (StaticToken tok2)) ctx method path body out) tr2 r2 ->
  agree tr1 tr2 ->
  r1 = r2 /\ logs tr1 = logs tr2 /\ observed tr1 = observed tr2.
Proof.
  intros Hk H1 H2 Ha. eapply low_exec; [|done..]. apply do_request_low; [done|].
  intros ctx'. by constructor.
Qed.

Lemma scripted_alike {RT : Runtime} d1 d2 :
  same_data d1 d2 -> alike (scripted_with d1) (scripted_with d2).
Proof. intros Hd. split; [done|by split|by intros [] w]. Qed.

Definition redacted_run (tok : string) : prog (res RRSet) :=
  do_request (with_token (example_client "x") (StaticToken tok)) context_Background "POST"
    (rrsets_path 7) None out_rrset.

Lemma client_redacts_witness :
  fst (run scripted (redacted_run "alpha") two_failures) =
    fst (run scripted (redacted_run "beta") two_failures) /\
  logs (run_trace scripted (redacted_run "alpha") two_failures) =
    logs (run_trace scripted (redacted_run "beta") two_failures) /\
  observed (run_trace scripted (redacted_run "alpha") two_failures) =
    observed (run_trace scripted (redacted_run "beta") two_failures).
Proof.
  apply (client_redacts (example_client "x") "alpha" "beta" context_Background "POST"
    (rrsets_path 7) None out_rrset).
  - apply realClock_no_secret.
  - apply run_exec.
  - apply run_exec.
  - eapply low_run; [|by apply scripted_alike]. apply do_request_low; [apply realClock_no_secret|].
    intros ctx'. by constructor.
Defined.

(** Whatever options of the package it is given, [New] builds a usable client:
    its token source is the caller's, the timeout and both backoffs are
    positive, the retry count is not negative (so there is always a first
    attempt), and the base URL does not end in a slash. *)
Theorem New_usable {RT : Runtime} t opts c :
  Forall client_option opts -> Client.New (Some t) opts = Ok c ->
  client_ok t c /\ (1 <= rounds c)%nat.
Proof.
  intros Ho Hn. pose proof (New_ok t opts c Ho Hn) as H. split; [done|].
  destruct H as [_ _ H _ _ _ _]. unfold rounds. lia.
Qed.

Lemma New_usable_witness :
  client_ok (StaticToken "t") (WithMaxRetries (-5) (WithBaseURL "http://x//" (example_client "t")))
  /\ (1 <= rounds (WithMaxRetries (-5) (WithBaseURL "http://x//" (example_client "t"))))%nat.
Proof.
  apply (New_usable (StaticToken "t") [WithBaseURL "http://x//"; WithMaxRetries (-5)]).
  - repeat constructor.
  - reflexivity.
Defined.

(** What came back last, with a 2xx status, is the document [j]. *)
Definition answered {RT : Runtime} (tr : list step) (j : json) : Prop :=
  exists status h, is_2xx status = true /\
    last (map snd (do_steps tr)) = Some (Ok (mkResponse status h (print_json j))).

Lemma answered_result {RT : Runtime} {A} (c : Client) ctx method path body (out : dest A) tr r j :
  WellBehaved c -> exec (do_request c ctx method path body out) tr r -> answered tr j ->
  r = decode_out method path out (print_json j).
Proof.
  intros Hwb H (st & h & Hst & Hl). apply last_Some in Hl as [l Hl].
  rewrite do_request_loop in H. destruct (rounds c) as [|n].
  { destruct H as [-> _]. by destruct l. }
  apply do_loop_exec in H as [Ha _]; [|done]. rewrite Hl in Ha.
  apply attempts_final_answer in Ha; [|by apply is_2xx_not_retryable].
  inversion Ha; subst; [done|]. simpl in *. congruence.
Qed.

(** C26: what the API answers arrives.  When the last answer to a call is a 2xx
    with the document the API writes for zones (and their page), for a record set
    or for an action, the call returns exactly the values the document shows: ID
    beside ID and name beside name, a TTL of [null] as none, the labels in any
    order, and members the program does not know ignored, in every object that
    shows them.  The texts are ASCII, the numbers 64-bit. *)
Theorem responses_faithful {RT : Runtime} (c : Client) ctx zid name rrType req rs tr :
  WellBehaved c ->
  (forall ds p r, Forall ZoneDoc_ok ds -> pagination_ok p ->
     exec (ListZones c ctx) tr r -> answered tr (zones_json ds p) ->
     r = Ok (map zd_zone ds)) /\
  (forall d r, RRSetDoc_ok d ->
     exec (CreateRRSet c ctx zid req) tr r -> answered tr (RRSetDoc_json d) ->
     r = Ok (rd_rrset d)) /\
  (forall d r, ActionDoc_ok d ->
     exec (SetRRSetRecords c ctx zid name rrType rs) tr r -> answered tr (ActionDoc_json d) ->
     r = Ok (ad_action d)).
Proof.
  intros Hwb. split; [|split].
  - intros ds p r Hds Hp H Ha. unfold ListZones in H. rewrite exec_try in H.
    destruct H as [(tr1 & v & tr2 & -> & H & -> & ->)|(e & H & ->)].
    + rewrite app_nil_r in Ha. eapply answered_result in H; [|done..].
      rewrite decode_zones in H by done. by injection H as ->.
    + eapply answered_result in H; [|done..]. by rewrite decode_zones in H.
  - intros d r Hd H Ha. rewrite (answered_result _ _ _ _ _ _ _ _ _ Hwb H Ha). by apply decode_rrset.
  - intros d r Hd H Ha. rewrite (answered_result _ _ _ _ _ _ _ _ _ Hwb H Ha). by apply decode_action.
Qed.

(** Two zones, one with a member the program does not know. *)
Definition shown_zones : list ZoneDoc := [
  mkZoneDoc (mkZone 7 "example.com" "primary" "ok" 3600 12 0) "2026-01-02T03:04:05Z" [];
  mkZoneDoc (mkZone 9 "example.org" "secondary" "ok" 86400 3 0) "2026-02-03T04:05:06Z"
    [("registrar", json_string "hetzner")]].

Lemma shown_zones_ok : Forall ZoneDoc_ok shown_zones.
Proof.
  apply Forall_cons_2; [|apply Forall_cons_2; [|apply Forall_nil_2]];
    repeat (split; [reflexivity|]); unfold foreign; cbn [zd_more]; [apply Forall_nil_2|].
  apply Forall_cons_2; [|apply Forall_nil_2].
  split; [repeat (apply Forall_cons_2; [by vm_compute|]); apply Forall_nil_2|].
  split; [reflexivity|]. split; [by apply good_json_string|]. by vm_compute.
Qed.

Definition shown_listing : list (result string Response) :=
  [reply 503 EmptyString;
   reply 200 (print_json (zones_json shown_zones (mkPagination 1 25 0 0 1 2)))].

Lemma responses_faithful_witness :
  fst (run scripted (ListZones (example_client "s3cret") context_Background) shown_listing) =
    Ok [mkZone 7 "example.com" "primary" "ok" 3600 12 0;
        mkZone 9 "example.org" "secondary" "ok" 86400 3 0].
Proof.
  eapply (responses_faithful (example_client "s3cret") context_Background 7 "a" "TXT" example_create
    (mkSetRRSetRecordsRequest [])
    (run_trace scripted (ListZones (example_client "s3cret") context_Background) shown_listing)
    (example_client_well_behaved _)) with (ds := shown_zones) (p := mkPagination 1 25 0 0 1 2).
  - apply shown_zones_ok.
  - repeat split.
  - exact (run_exec scripted (ListZones (example_client "s3cret") context_Background) shown_listing).
  - exists 200, ∅. split; [reflexivity|]. vm_compute. reflexivity.
Defined.
