(* ===== verification/SolverConfig.v ===== *)
(** [internal/solver/config.go]: the webhook's configuration block. *)
From S2P Require Import Prelude GoStrings Utf8 Runtime Quote Errors Routing Json.

(** cert-manager's [SecretKeySelector]: its type, the two fields the program
    reads, and how [encoding/json] stores a document into it. *)
Class CertManager := {
  SecretKeySelector : Type;
  selector_zero : SecretKeySelector;
  selector_Name : SecretKeySelector -> string;
  selector_Key : SecretKeySelector -> string;
  selector_store : store SecretKeySelector
}.

(** A concrete one, for evaluating the model on examples: the fields [name] and
    [key], as the documentation's examples write them. *)
Definition example_cert_manager : CertManager := {|
  SecretKeySelector := string * string;
  selector_zero := (EmptyString, EmptyString);
  selector_Name := fst;
  selector_Key := snd;
  selector_store := store_struct [
    mk_field "name" fst (fun v s => (v, snd s)) store_string;
    mk_field "key" snd (fun v s => (fst s, v)) store_string]
|}.

Section Config.
Context {RT : Runtime} {CM : CertManager}.

Record CredentialConfig := mkCredentialConfig {
  cc_Name : string;
  cc_Zones : list string;
  cc_APITokenSecretRef : SecretKeySelector;
  cc_Namespace : string
}.

Definition zero_CredentialConfig : CredentialConfig :=
  mkCredentialConfig EmptyString [] selector_zero EmptyString.

(** [solver.Config] is a struct of one field, [credentials]. *)
Definition CredentialConfig_fields : list (field CredentialConfig) := [
  mk_field "name" cc_Name (fun v c => mkCredentialConfig v (cc_Zones c) (cc_APITokenSecretRef c) (cc_Namespace c)) store_string;
  mk_field "zones" cc_Zones (fun v c => mkCredentialConfig (cc_Name c) v (cc_APITokenSecretRef c) (cc_Namespace c)) (store_slice store_string EmptyString);
  mk_field "apiTokenSecretRef" cc_APITokenSecretRef (fun v c => mkCredentialConfig (cc_Name c) (cc_Zones c) v (cc_Namespace c)) selector_store;
  mk_field "namespace" cc_Namespace (fun v c => mkCredentialConfig (cc_Name c) (cc_Zones c) (cc_APITokenSecretRef c) v) store_string].

Definition Config_fields : list (field (list CredentialConfig)) := [
  mk_field "credentials" (fun c => c) (fun v _ => v)
    (store_slice (store_struct CredentialConfig_fields) zero_CredentialConfig)].

Record SecretRef := mkSecretRef {
  sr_Namespace : string;
  sr_Name : string;
  sr_Key : string
}.

Definition SecretRef_String (r : SecretRef) : string :=
  sr_Namespace r +:+ "/" +:+ sr_Name r +:+ "#" +:+ sr_Key r.

Definition resolveSecretRef (cred : CredentialConfig) (defaultNamespace : string) (idx : Z) :
    res SecretRef :=
  let name := TrimSpace (selector_Name (cc_APITokenSecretRef cred)) in
  if String.eqb name EmptyString then
    Err (EText ("solver: credential at index " +:+ FormatInt idx +:+ " ("
                +:+ strconv_Quote (cc_Name cred) +:+ "): apiTokenSecretRef.name is empty"))
  else
    let namespace := TrimSpace (cc_Namespace cred) in
    let namespace :=
      if String.eqb namespace EmptyString then TrimSpace defaultNamespace else namespace in
    if String.eqb namespace EmptyString then
      Err (EText ("solver: credential " +:+ strconv_Quote (cc_Name cred)
                  +:+ ": apiTokenSecretRef namespace is empty and no default namespace is available; "
                  +:+ "set the `namespace` field on the credential or run via an Issuer (not ClusterIssuer) "
                  +:+ "so cert-manager supplies the resource namespace"))
    else
      let key := TrimSpace (selector_Key (cc_APITokenSecretRef cred)) in
      let key := if String.eqb key EmptyString then "token" else key in
      Ok (mkSecretRef namespace name key).

(** [for i, cred := range cfg.Credentials], from index [i] on. *)
Fixpoint config_loop (i : Z) (creds : list CredentialConfig) (defaultNamespace : string)
    (routingCreds : list Credential) (secretRefs : gmap string SecretRef) :
    res (list Credential * gmap string SecretRef) :=
  match creds with
  | [] => Ok (routingCreds, secretRefs)
  | cred :: creds =>
      let? ref := resolveSecretRef cred defaultNamespace i in
      config_loop (i + 1) creds defaultNamespace
        (routingCreds ++ [mkCredential (cc_Name cred) (cc_Zones cred) (SecretRef_String ref)])
        (<[cc_Name cred := ref]> secretRefs)
  end.

(** [raw] is the [Raw] of the JSON blob, [None] for a nil blob. *)
Definition parseConfig (raw : option string) (defaultNamespace : string) :
    res (Config * gmap string SecretRef) :=
  let empty := Err (EText "solver: webhook config is empty; expected a `credentials` block per docs/app-concept.md § 3.2") in
  match raw with
  | None => empty
  | Some raw =>
      if String.eqb raw EmptyString then empty
      else
        match Unmarshal (store_struct Config_fields) [] raw with
        | None => Err (Errorf_w "solver: parse webhook config: "
                         (EText (rt_json_error "solver.Config" raw)) EmptyString)
        | Some [] => Err (EText "solver: webhook config has no credentials; at least one is required")
        | Some creds =>
            let? '(routingCreds, secretRefs) := config_loop 0 creds defaultNamespace [] ∅ in
            match ValidateConfig (Some (mkConfig routingCreds)) with
            | Some err => Err (Errorf_w "solver: validate webhook config: " err EmptyString)
            | None => Ok (mkConfig routingCreds, secretRefs)
            end
        end
  end.
End Config.
