(* ===== verification/ConfigTheorems.v ===== *)
(** What reading the configuration block guarantees: a parsed configuration is
    valid and comes with the Secret reference of each of its credentials. *)
From S2P Require Import Prelude GoStrings Utf8 Runtime Quote Errors Routing RoutingSpec ValidateSpec Json SolverConfig.

Section Lemmas.
Context {RT : Runtime} {CM : CertManager}.

(** The routing credentials and the map from names to references agree. *)
Definition refs_ok (creds : list Credential) (refs : gmap string SecretRef) : Prop :=
  (forall cred, cred ∈ creds -> exists ref,
     refs !! Name cred = Some ref /\ APITokenSecretRef cred = SecretRef_String ref) /\
  (forall n, is_Some (refs !! n) <-> n ∈ map Name creds).

Lemma refs_ok_snoc creds refs cred ref :
  refs_ok creds refs -> Name cred ∉ map Name creds ->
  APITokenSecretRef cred = SecretRef_String ref ->
  refs_ok (creds ++ [cred]) (<[Name cred := ref]> refs).
Proof.
  intros [H1 H2] Hn Hs. split.
  - intros c Hc. apply elem_of_app in Hc. destruct Hc as [Hc|Hc].
    + destruct (H1 c Hc) as (r & Hr & ?). exists r. split; [|done].
      rewrite lookup_insert_ne; [done|]. intros E. apply Hn. rewrite E.
      by apply (list_elem_of_fmap_2 Name).
    + apply list_elem_of_singleton in Hc as ->. exists ref. by rewrite lookup_insert_eq.
  - intros n. rewrite map_app, elem_of_app, <- H2. simpl. rewrite list_elem_of_singleton.
    destruct (decide (n = Name cred)) as [->|Hne].
    + rewrite lookup_insert_eq. by split; [right|eauto].
    + rewrite lookup_insert_ne by done. by split; [left|intros [?|?]].
Qed.

Lemma config_loop_prefix i creds ns acc refs acc' refs' :
  config_loop i creds ns acc refs = Ok (acc', refs') -> exists l, acc' = acc ++ l.
Proof.
  revert i acc refs. induction creds as [|cred creds IH]; intros i acc refs; simpl.
  - intros [= -> ->]. exists []. by rewrite app_nil_r.
  - rewrite result_bind_ok. intros (ref & _ & H). apply IH in H. destruct H as [l ->].
    eexists. by rewrite <- app_assoc.
Qed.

Lemma config_loop_refs i creds ns acc refs acc' refs' :
  config_loop i creds ns acc refs = Ok (acc', refs') ->
  NoDup (map Name acc') -> refs_ok acc refs -> refs_ok acc' refs'.
Proof.
  revert i acc refs. induction creds as [|cred creds IH]; intros i acc refs; simpl.
  - by intros [= -> ->].
  - rewrite result_bind_ok. intros (ref & _ & H) Hnd Hr. pose proof H as Hl.
    apply config_loop_prefix in Hl. destruct Hl as [l El]. eapply IH; [exact H|done|].
    apply (refs_ok_snoc acc refs (mkCredential (cc_Name cred) _ _)); [done| |done].
    rewrite El, <- app_assoc, map_app in Hnd. apply NoDup_app in Hnd.
    destruct Hnd as (_ & Hd & _). intros Hin. apply (Hd _ Hin). simpl. left.
Qed.

Lemma parseConfig_ok raw ns c refs :
  parseConfig raw ns = Ok (c, refs) ->
  ValidateConfig (Some c) = None /\ refs_ok (Credentials c) refs.
Proof.
  unfold parseConfig. destruct raw as [raw|]; [|done].
  destruct (raw =? EmptyString)%string; [done|].
  destruct (Unmarshal _ _ raw) as [[|cred creds]|]; [done| |done].
  rewrite result_bind_ok. intros ([acc refs'] & Hl & H).
  destruct (ValidateConfig (Some (mkConfig acc))) eqn:Hv; [done|]. injection H as <- <-.
  split; [done|]. simpl. eapply config_loop_refs; [exact Hl| |].
  - by apply ValidateConfig_iff, vc_names in Hv.
  - split; [by intros ? ?%not_elem_of_nil|]. intros n. rewrite lookup_empty. simpl.
    split; [by intros [? ?] | by intros ?%not_elem_of_nil].
Qed.

(** Where a reference comes from. *)
Lemma resolveSecretRef_ok cred ns idx ref :
  resolveSecretRef cred ns idx = Ok ref <->
  sr_Name ref = TrimSpace (selector_Name (cc_APITokenSecretRef cred)) /\
  sr_Name ref <> EmptyString /\
  sr_Namespace ref = (if String.eqb (TrimSpace (cc_Namespace cred)) EmptyString
                      then TrimSpace ns else TrimSpace (cc_Namespace cred)) /\
  sr_Namespace ref <> EmptyString /\
  sr_Key ref = (if String.eqb (TrimSpace (selector_Key (cc_APITokenSecretRef cred))) EmptyString
                then "token" else TrimSpace (selector_Key (cc_APITokenSecretRef cred))).
Proof.
  unfold resolveSecretRef. set (name := TrimSpace (selector_Name _)).
  set (nspace := if (TrimSpace (cc_Namespace cred) =? EmptyString)%string then _ else _).
  destruct (name =? EmptyString)%string eqn:En; to_prop.
  { split; [done|]. intros (-> & ? & _). done. }
  destruct (nspace =? EmptyString)%string eqn:Es; to_prop.
  { split; [done|]. intros (_ & _ & -> & ? & _). done. }
  split.
  - intros [= <-]. done.
  - destruct ref. simpl. by intros (-> & _ & -> & _ & ->).
Qed.

Lemma resolveSecretRef_err cred ns idx e :
  resolveSecretRef cred ns idx = Err e ->
  TrimSpace (selector_Name (cc_APITokenSecretRef cred)) = EmptyString \/
  (TrimSpace (cc_Namespace cred) = EmptyString /\ TrimSpace ns = EmptyString).
Proof.
  unfold resolveSecretRef.
  destruct (TrimSpace (selector_Name _) =? EmptyString)%string eqn:En; to_prop; [by left|].
  destruct (TrimSpace (cc_Namespace cred) =? EmptyString)%string eqn:Ec.
  - destruct (TrimSpace ns =? EmptyString)%string eqn:Es; to_prop; [by right|done].
  - by rewrite Ec.
Qed.

Definition no_byte (b : ascii) (s : string) : Prop :=
  all_bytes (fun c => negb (Ascii.eqb c b)) s = true.

Lemma SecretRef_String_inj r1 r2 :
  no_byte "/" (sr_Namespace r1) -> no_byte "/" (sr_Namespace r2) ->
  no_byte "#" (sr_Name r1) -> no_byte "#" (sr_Name r2) ->
  SecretRef_String r1 = SecretRef_String r2 -> r1 = r2.
Proof.
  destruct r1 as [a1 b1 c1], r2 as [a2 b2 c2]. unfold SecretRef_String. simpl.
  intros H1 H2 H3 H4 E.
  assert (forall a a' b b' s, no_byte s a -> no_byte s a' ->
            a +:+ String s b = a' +:+ String s b' -> a = a' /\ b = b') as Hsplit.
  { intros a a' b b' s Ha. revert a'.
    induction a as [|c a IH]; intros [|c' a'] Ha' Hab; simplify_eq/=; [done| | |].
    - unfold no_byte in Ha'. simpl in Ha'. by rewrite Ascii.eqb_refl in Ha'.
    - unfold no_byte in Ha. simpl in Ha. by rewrite Ascii.eqb_refl in Ha.
    - unfold no_byte in Ha, Ha'. simpl in Ha, Ha'. to_prop.
      destruct (IH ltac:(done) a') as [-> ->]; done. }
  change ("/" +:+ ?s) with (String "/" s) in E. apply Hsplit in E; [|done..].
  destruct E as [-> E]. change ("#" +:+ ?s) with (String "#" s) in E.
  apply Hsplit in E; [|done..]. by destruct E as [-> ->].
Qed.
End Lemmas.

#[local] Existing Instance example_runtime.
#[local] Existing Instance example_cert_manager.

(** The documentation's example: two projects, one with its own namespace. *)
Definition example_config : string := qt
  "{'credentials':[
    {'name':'project-a','zones':['example.com','example.net'],
     'apiTokenSecretRef':{'name':'hcloud-a','key':'api-token'}},
    {'name':'project-b','zones':['Example.org'],'namespace':'dns',
     'apiTokenSecretRef':{'name':'hcloud-b'}}]}".

Definition example_routing : Config := mkConfig [
  mkCredential "project-a" ["example.com"; "example.net"] "cert-manager/hcloud-a#api-token";
  mkCredential "project-b" ["Example.org"] "dns/hcloud-b#token"].

Definition example_refs : gmap string SecretRef :=
  <["project-b" := mkSecretRef "dns" "hcloud-b" "token"]>
    (<["project-a" := mkSecretRef "cert-manager" "hcloud-a" "api-token"]> ∅).

Lemma example_config_parses :
  parseConfig (Some example_config) "cert-manager" = Ok (example_routing, example_refs).
Proof. vm_compute. reflexivity. Qed.

(** C22: a configuration that parses is valid, and its map of references has an
    entry for exactly its credentials' names, each the reference the routing
    credential carries as text: the lookup after routing cannot miss. *)
Theorem parseConfig_sound {RT : Runtime} {CM : CertManager} raw ns c refs :
  parseConfig raw ns = Ok (c, refs) ->
  ValidateConfig (Some c) = None /\
  (forall cred, cred ∈ Credentials c -> exists ref,
     refs !! Name cred = Some ref /\ APITokenSecretRef cred = SecretRef_String ref) /\
  (forall n, is_Some (refs !! n) <-> n ∈ map Name (Credentials c)).
Proof. intros H. by apply parseConfig_ok in H. Qed.

Lemma parseConfig_sound_witness :
  ValidateConfig (Some example_routing) = None /\
  (forall cred, cred ∈ Credentials example_routing -> exists ref,
     example_refs !! Name cred = Some ref /\ APITokenSecretRef cred = SecretRef_String ref) /\
  (forall n, is_Some (example_refs !! n) <-> n ∈ map Name (Credentials example_routing)).
Proof.
  apply (parseConfig_sound (Some example_config) "cert-manager"). vm_compute. reflexivity.
Defined.

(** C34: a Secret reference is the credential's selector, trimmed, in the
    credential's own namespace if it declares one and else in the issuer's; the
    key defaults to [token].  It is refused exactly when the name is blank or no
    namespace is left. *)
Theorem resolveSecretRef_correct {RT : Runtime} {CM : CertManager} cred ns idx :
  match resolveSecretRef cred ns idx with
  | Ok ref =>
      sr_Name ref = TrimSpace (selector_Name (cc_APITokenSecretRef cred)) /\
      sr_Name ref <> EmptyString /\ sr_Namespace ref <> EmptyString /\
      (TrimSpace (cc_Namespace cred) <> EmptyString ->
         sr_Namespace ref = TrimSpace (cc_Namespace cred)) /\
      (TrimSpace (cc_Namespace cred) = EmptyString -> sr_Namespace ref = TrimSpace ns) /\
      (TrimSpace (selector_Key (cc_APITokenSecretRef cred)) <> EmptyString ->
         sr_Key ref = TrimSpace (selector_Key (cc_APITokenSecretRef cred))) /\
      (TrimSpace (selector_Key (cc_APITokenSecretRef cred)) = EmptyString -> sr_Key ref = "token")
  | Err _ =>
      TrimSpace (selector_Name (cc_APITokenSecretRef cred)) = EmptyString \/
      (TrimSpace (cc_Namespace cred) = EmptyString /\ TrimSpace ns = EmptyString)
  end.
Proof.
  destruct (resolveSecretRef cred ns idx) as [ref|e] eqn:E.
  - apply resolveSecretRef_ok in E. destruct E as (H1 & H2 & H3 & H4 & H5).
    do 3 (split; [done|]). rewrite H3, H5.
    repeat split; intros Hn;
      first [by rewrite (proj2 (String.eqb_neq _ _) Hn)|by rewrite (proj2 (String.eqb_eq _ _) Hn)].
  - by eapply resolveSecretRef_err.
Qed.

(** The text of a reference, which keys the zone cache and stands in logs,
    identifies it, as long as the namespace has no slash and the name no hash
    sign (Kubernetes object names have neither). *)
Theorem SecretRef_String_injective r1 r2 :
  no_byte "/" (sr_Namespace r1) -> no_byte "/" (sr_Namespace r2) ->
  no_byte "#" (sr_Name r1) -> no_byte "#" (sr_Name r2) ->
  SecretRef_String r1 = SecretRef_String r2 -> r1 = r2.
Proof. apply SecretRef_String_inj. Qed.

Lemma SecretRef_String_injective_witness :
  mkSecretRef "cert-manager" "hcloud-a" "token" = mkSecretRef "cert-manager" "hcloud-a" "token".
Proof. by apply SecretRef_String_injective. Defined.
