(* ===== verification/Secrets.v ===== *)
(** [internal/solver/secrets.go]: reading the API token from a Kubernetes Secret. *)
From S2P Require Import Prelude GoStrings Utf8 Runtime Quote Errors Routing Json ZoneCache.
From S2P Require Import Effects SolverConfig.

Section Secrets.
Context {RT : Runtime} {CM : CertManager}.

Record SecretGetter := mkSecretGetter { GetToken : Ctx -> SecretRef -> prog (res string) }.

Record kubeSecretGetter := mkKubeSecretGetter { ksg_client : rt_KubeClient }.

Definition newKubeSecretGetter (cfg : option rt_RestConfig) : res kubeSecretGetter :=
  match cfg with
  | None => Err (EText "solver: rest.Config is nil; Initialize must be called before Present/CleanUp")
  | Some cfg =>
      match rt_NewForConfig cfg with
      | Err msg => Err (Errorf_w "solver: build Kubernetes client: " (EText msg) EmptyString)
      | Ok client => Ok (mkKubeSecretGetter client)
      end
  end.

(** What [GetToken] makes of the data of the Secret it read. *)
Definition token_of_data (ref : SecretRef) (data : gmap string string) : res string :=
  let path := sr_Namespace ref +:+ "/" +:+ sr_Name ref in
  match data !! sr_Key ref with
  | None => Err (EText ("solver: Secret " +:+ path +:+ " has no key " +:+ strconv_Quote (sr_Key ref)
                        +:+ "; configure data." +:+ sr_Key ref +:+ " with the hcloud token"))
  | Some raw =>
      let token := TrimSpace raw in
      if String.eqb token EmptyString
      then Err (EText ("solver: Secret " +:+ path +:+ " key " +:+ strconv_Quote (sr_Key ref)
                       +:+ " is empty"))
      else Ok token
  end.

Definition kubeSecretGetter_GetToken (g : kubeSecretGetter) (ctx : Ctx) (ref : SecretRef) :
    prog (res string) :=
  let! r := perform (ESecret (ksg_client g) ctx (sr_Namespace ref) (sr_Name ref)) in
  Ret match r with
      | Err err => Err (Errorf_w ("solver: get Secret " +:+ sr_Namespace ref +:+ "/"
                                  +:+ sr_Name ref +:+ ": ") err EmptyString)
      | Ok data => token_of_data ref data
      end.

Definition kubeSecretGetter_as_SecretGetter (g : kubeSecretGetter) : SecretGetter :=
  mkSecretGetter (kubeSecretGetter_GetToken g).
End Secrets.
