(* ===== verification/Solver.v ===== *)
(** [internal/solver/solver.go]: the solver that cert-manager calls. *)
From S2P Require Import Prelude GoStrings Utf8 Runtime Quote Errors Routing Json Types ZoneCache.
From S2P Require Import Effects Client SolverConfig Secrets.

Definition SolverName : string := "hcloud-zones".
Definition defaultRRSetTTL : Z := 60.
Definition defaultZoneCacheTTL : Z := 30 * Second.
Definition defaultChallengeLabel : string := "_acme-challenge".
Definition defaultRRSetType : string := "TXT".
Definition defaultRequestBudget : Z := 2 * Minute.

Definition quoteTXT {RT : Runtime} (key : string) : string := strconv_Quote key.

Definition relativeRecordName (resolvedFQDN zoneApex : string) : string :=
  let fqdn := ToLower (TrimSuffix resolvedFQDN ".") in
  let apex := ToLower zoneApex in
  if String.eqb fqdn apex then "@"
  else
    let suffix := "." +:+ apex in
    if HasSuffix fqdn suffix then TrimSuffix fqdn suffix
    else defaultChallengeLabel.

Section Solver.
Context {RT : Runtime} {CM : CertManager}.

(** The interface [HCloudClient].  A client that reports success returns an
    RRSet and an action, not nil pointers. *)
Record HCloudClient := mkHCloudClient {
  hc_ListZones : Ctx -> prog (res (list Zone));
  hc_CreateRRSet : Ctx -> Z -> CreateRRSetRequest -> prog (res RRSet);
  hc_SetRRSetRecords : Ctx -> Z -> string -> string -> SetRRSetRecordsRequest -> prog (res Action);
  hc_DeleteRRSet : Ctx -> Z -> string -> string -> prog (option error)
}.

Definition ClientFactory : Type := string -> res HCloudClient.

(** A [*hcloud.Client] as an [HCloudClient]. *)
Definition Client_as_HCloudClient (c : Client) : HCloudClient :=
  mkHCloudClient (ListZones c) (CreateRRSet c) (SetRRSetRecords c) (DeleteRRSet c).

Definition DefaultClientFactory (logger : option Logger) : ClientFactory := fun token =>
  let opts := match logger with Some _ => [WithLogger logger] | None => [] end in
  let? c := Client.New (Some (StaticToken token)) opts in
  Ok (Client_as_HCloudClient c).

(** ** The solver *)

(** [zones] is the cache the solver is built with: its TTL, its clock and no
    entries.  The cache it shares between calls lives in the environment, which
    answers the cache events. *)
Record Solver := mkSolver {
  s_logger : Logger;
  clientFactory : option ClientFactory;
  secrets : option SecretGetter;
  zones : zoneCache;
  s_now : NowFunc;
  rrsetTTL : Z;
  clientFactorySet : bool;
  requestBudget : Z;
  kubeConfig : option rt_RestConfig
}.

Definition Option : Type := Solver -> Solver.

Definition WithLogger (l : option Logger) : Option := fun s =>
  match l with
  | Some l => mkSolver l (clientFactory s) (secrets s) (zones s) (s_now s) (rrsetTTL s)
                (clientFactorySet s) (requestBudget s) (kubeConfig s)
  | None => s
  end.

Definition WithClientFactory (f : option ClientFactory) : Option := fun s =>
  match f with
  | Some f => mkSolver (s_logger s) (Some f) (secrets s) (zones s) (s_now s) (rrsetTTL s)
                true (requestBudget s) (kubeConfig s)
  | None => s
  end.

Definition WithSecretGetter (g : option SecretGetter) : Option := fun s =>
  match g with
  | Some g => mkSolver (s_logger s) (clientFactory s) (Some g) (zones s) (s_now s) (rrsetTTL s)
                (clientFactorySet s) (requestBudget s) (kubeConfig s)
  | None => s
  end.

Definition WithZoneCacheTTL (d : Z) : Option := fun s =>
  if 0 <? d
  then mkSolver (s_logger s) (clientFactory s) (secrets s) (newZoneCache d (Some (s_now s)))
         (s_now s) (rrsetTTL s) (clientFactorySet s) (requestBudget s) (kubeConfig s)
  else s.

Definition WithRRSetTTL (seconds : Z) : Option := fun s =>
  if 0 <? seconds
  then mkSolver (s_logger s) (clientFactory s) (secrets s) (zones s) (s_now s) seconds
         (clientFactorySet s) (requestBudget s) (kubeConfig s)
  else s.

Definition WithRequestBudget (d : Z) : Option := fun s =>
  if 0 <? d
  then mkSolver (s_logger s) (clientFactory s) (secrets s) (zones s) (s_now s) (rrsetTTL s)
         (clientFactorySet s) d (kubeConfig s)
  else s.

Definition WithClock (now : option NowFunc) : Option := fun s =>
  match now with
  | Some now => mkSolver (s_logger s) (clientFactory s) (secrets s)
                  (newZoneCache (zc_ttl (zones s)) (Some now)) now (rrsetTTL s)
                  (clientFactorySet s) (requestBudget s) (kubeConfig s)
  | None => s
  end.

Definition New (opts : list Option) : Solver :=
  let s := mkSolver slog_Default None None (newZoneCache defaultZoneCacheTTL (Some time_Now))
             time_Now defaultRRSetTTL false defaultRequestBudget None in
  let s := foldl (fun s opt => opt s) s opts in
  if clientFactorySet s then s
  else mkSolver (s_logger s) (Some (DefaultClientFactory (Some (s_logger s)))) (secrets s)
         (zones s) (s_now s) (rrsetTTL s) (clientFactorySet s) (requestBudget s) (kubeConfig s).

Definition SolverNameOf (s : Solver) : string := SolverName.

Definition Initialize (s : Solver) (cfg : option rt_RestConfig) : option error * Solver :=
  match cfg with
  | None => (Some (EText "solver: Initialize called with nil rest.Config"), s)
  | Some _ =>
      let s' := mkSolver (s_logger s) (clientFactory s) (secrets s) (zones s) (s_now s)
                  (rrsetTTL s) (clientFactorySet s) (requestBudget s) cfg in
      match secrets s with
      | Some _ => (None, s')
      | None =>
          match newKubeSecretGetter cfg with
          | Err err => (Some err, s')
          | Ok getter =>
              (None, mkSolver (s_logger s) (clientFactory s)
                       (Some (kubeSecretGetter_as_SecretGetter getter)) (zones s) (s_now s)
                       (rrsetTTL s) (clientFactorySet s) (requestBudget s) cfg)
          end
      end
  end.

(** ** Challenges *)

(** The fields of cert-manager's [ChallengeRequest] the solver reads; [ch_Config]
    is the [Raw] of its JSON blob. *)
Record ChallengeRequest := mkChallengeRequest {
  ch_Config : option string;
  ch_ResourceNamespace : string;
  ch_ResolvedFQDN : string;
  ch_Key : string
}.

Definition wrapError (stage credName zoneApex : string) (cause : error) : error :=
  Errorf_w ("solver: " +:+ stage +:+ " failed for credential " +:+ strconv_Quote credName
            +:+ " zone " +:+ strconv_Quote zoneApex +:+ ": ") cause EmptyString.

Definition contextFor (s : Solver) : prog Ctx :=
  context_WithTimeout context_Background (requestBudget s).

Record prepared := mkPrepared {
  pr_cred : Credential;
  pr_secretRef : SecretRef;
  pr_client : HCloudClient;
  pr_zoneApex : string
}.

(** The part of [prepare] that reads nothing but its arguments. *)
Definition route_challenge (ch : ChallengeRequest) : res (Credential * SecretRef * string) :=
  let? '(routingCfg, secretRefs) := parseConfig (ch_Config ch) (ch_ResourceNamespace ch) in
  match Resolve (Some routingCfg) (ch_ResolvedFQDN ch) with
  | Err err =>
      Err (Errorf_w ("solver: route FQDN " +:+ strconv_Quote (ch_ResolvedFQDN ch) +:+ ": ")
             err EmptyString)
  | Ok (cred, zoneApex) =>
      match secretRefs !! Name cred with
      | None => Err (EText ("solver: internal error — no secret ref for credential "
                            +:+ strconv_Quote (Name cred)))
      | Some secretRef => Ok (cred, secretRef, zoneApex)
      end
  end.

(** A nil [clientFactory] field is only possible in a solver not built by [New];
    the code would panic. *)
Definition no_client_factory : error := EText "runtime error: invalid memory address or nil pointer dereference".

Definition prepare (s : Solver) (ctx : Ctx) (ch : ChallengeRequest) : prog (res prepared) :=
  match route_challenge ch with
  | Err err => Ret (Err err)
  | Ok (cred, secretRef, zoneApex) =>
      match secrets s with
      | None => Ret (Err (EText "solver: not initialised — Initialize() must be called before Present/CleanUp, or WithSecretGetter must be supplied"))
      | Some getter =>
          try! token := GetToken getter ctx secretRef in
          Ret match clientFactory s with
              | None => Err no_client_factory
              | Some factory =>
                  match factory token with
                  | Err err => Err (Errorf_w "solver: build hcloud client: " err EmptyString)
                  | Ok client => Ok (mkPrepared cred secretRef client zoneApex)
                  end
              end
      end
  end.

Definition zone_not_found (zoneApex : string) : error :=
  EAPI (mkAPIError 404 "not_found"
    ("zone " +:+ strconv_Quote zoneApex +:+ " not found via this credential's token; verify the zone lives in the Hetzner Cloud project the credential points at") 0).

(** The first zone of that name. *)
Definition find_zone (zs : list Zone) (zoneApex : string) : option Zone :=
  List.find (fun z => String.eqb (Zone_Name z) zoneApex) zs.

Definition resolveZoneID (ctx : Ctx) (client : HCloudClient) (secretRefKey zoneApex : string) :
    prog (res Z) :=
  let key := mkZoneCacheKey secretRefKey zoneApex in
  let! cached := perform (ECacheLookup key) in
  match cached with
  | Some id => Ret (Ok id)
  | None =>
      try! zs := hc_ListZones client ctx in
      match find_zone zs zoneApex with
      | Some z => perform (ECacheStore key (Zone_ID z)) ;; Ret (Ok (Zone_ID z))
      | None => Ret (Err (zone_not_found zoneApex))
      end
  end.

Definition reconcileExisting (s : Solver) (ctx : Ctx) (client : HCloudClient)
    (credName zoneApex recordName : string) (zoneID : Z) (key : string) : prog (option error) :=
  let req := mkSetRRSetRecordsRequest [mkRecord (quoteTXT key) EmptyString] in
  let! r := hc_SetRRSetRecords client ctx zoneID recordName defaultRRSetType req in
  match r with
  | Err err =>
      Ret (Some (wrapError "set existing RRSet records (conflict path)" credName zoneApex err))
  | Ok _ =>
      LogAttrs (s_logger s) LevelInfo "solver: reconciled existing challenge RRSet"
        [("credential", AString credName); ("zone", AString zoneApex);
         ("record_name", AString recordName); ("zone_id", AInt zoneID)] ;;
      Ret None
  end.

(** [Present] and [CleanUp] once the setup has succeeded. *)
Definition present_prepared (s : Solver) (ctx : Ctx) (ch : ChallengeRequest) (p : prepared) :
    prog (option error) :=
  let '(mkPrepared cred secretRef client zoneApex) := p in
  let! rz := resolveZoneID ctx client (SecretRef_String secretRef) zoneApex in
  match rz with
  | Err err => Ret (Some (wrapError "resolve zone" (Name cred) zoneApex err))
  | Ok zoneID =>
      let recordName := relativeRecordName (ch_ResolvedFQDN ch) zoneApex in
      let req := mkCreateRRSetRequest recordName defaultRRSetType (Some (rrsetTTL s))
                   [mkRecord (quoteTXT (ch_Key ch)) EmptyString] [] in
      let! rc := hc_CreateRRSet client ctx zoneID req in
      match rc with
      | Ok rrset =>
          LogAttrs (s_logger s) LevelInfo "solver: presented challenge"
            [("credential", AString (Name cred)); ("zone", AString zoneApex);
             ("record_name", AString recordName); ("zone_id", AInt zoneID);
             ("rrset_id", AString (RRSet_ID rrset))] ;;
          Ret None
      | Err err =>
          if errors_Is err ErrConflict then
            reconcileExisting s ctx client (Name cred) zoneApex recordName zoneID (ch_Key ch)
          else if errors_Is err ErrNotFound then
            perform (ECacheInvalidate (mkZoneCacheKey (SecretRef_String secretRef) zoneApex)) ;;
            Ret (Some (wrapError "create RRSet" (Name cred) zoneApex err))
          else Ret (Some (wrapError "create RRSet" (Name cred) zoneApex err))
      end
  end.

Definition cleanup_prepared (s : Solver) (ctx : Ctx) (ch : ChallengeRequest) (p : prepared) :
    prog (option error) :=
  let '(mkPrepared cred secretRef client zoneApex) := p in
  let! rz := resolveZoneID ctx client (SecretRef_String secretRef) zoneApex in
  match rz with
  | Err err =>
      if errors_Is err ErrNotFound then
        LogAttrs (s_logger s) LevelInfo "solver: cleanup no-op (zone not found)"
          [("credential", AString (Name cred)); ("zone", AString zoneApex)] ;;
        Ret None
      else Ret (Some (wrapError "resolve zone" (Name cred) zoneApex err))
  | Ok zoneID =>
      let recordName := relativeRecordName (ch_ResolvedFQDN ch) zoneApex in
      let! rd := hc_DeleteRRSet client ctx zoneID recordName defaultRRSetType in
      match rd with
      | None =>
          LogAttrs (s_logger s) LevelInfo "solver: cleaned up challenge"
            [("credential", AString (Name cred)); ("zone", AString zoneApex);
             ("record_name", AString recordName); ("zone_id", AInt zoneID)] ;;
          Ret None
      | Some err =>
          if errors_Is err ErrNotFound then
            LogAttrs (s_logger s) LevelInfo "solver: cleanup no-op (RRSet already gone)"
              [("credential", AString (Name cred)); ("zone", AString zoneApex);
               ("record_name", AString recordName)] ;;
            Ret None
          else Ret (Some (wrapError "delete RRSet" (Name cred) zoneApex err))
      end
  end.

Definition Present (s : Solver) (ch : option ChallengeRequest) : prog (option error) :=
  match ch with
  | None => Ret (Some (EText "solver: Present called with nil ChallengeRequest"))
  | Some ch =>
      let! ctx := contextFor s in
      let! r := prepare s ctx ch in
      match r with
      | Err err => Ret (Some err)
      | Ok p => present_prepared s ctx ch p
      end
  end.

Definition CleanUp (s : Solver) (ch : option ChallengeRequest) : prog (option error) :=
  match ch with
  | None => Ret (Some (EText "solver: CleanUp called with nil ChallengeRequest"))
  | Some ch =>
      let! ctx := contextFor s in
      let! r := prepare s ctx ch in
      match r with
      | Err err => Ret (Some err)
      | Ok p => cleanup_prepared s ctx ch p
      end
  end.
End Solver.
