(* ===== verification/RecordNames.v ===== *)
(** The name and the value of the record a challenge asks for. *)
From S2P Require Import Prelude GoStrings Utf8 Runtime Quote Errors Routing RoutingSpec ValidateSpec RoutingTheorems Json.
From S2P Require Import Types ZoneCache Effects Client SolverConfig Secrets Solver.

(** The FQDN of a challenge as [relativeRecordName] compares it. *)
Definition canonical (fqdn : string) : string := ToLower (TrimSuffix fqdn ".").

(** ** Lemmas *)

Lemma ToLower_TrimSuffix_dot s : ToLower (TrimSuffix s ".") = TrimSuffix (ToLower s) ".".
Proof.
  destruct (TrimSuffix_cases s ".") as [E|[E ->]].
  - rewrite E at 2. rewrite ToLower_app by done. change (ToLower ".") with ".".
    by rewrite TrimSuffix_app.
  - symmetry. apply TrimSuffix_no. destruct (HasSuffix (ToLower s) ".") eqn:H; [|done].
    apply (HasSuffix_byte _ "."), (proj1 (ToLower_last_dot s)), HasSuffix_byte in H.
    unfold byte1 in H. congruence.
Qed.

(** A label suffix of the routed name is one of the whole name. *)
Lemma normalised_suffix fqdn z :
  TrimSpace fqdn = fqdn -> label_suffix z (normaliseFQDN fqdn) -> label_suffix z (canonical fqdn).
Proof.
  intros Ht. unfold normaliseFQDN, canonical. cbv zeta.
  change (byte1 dot) with ".". rewrite Ht, ToLower_TrimSuffix_dot.
  destruct (TrimPrefix_cases (TrimSuffix (ToLower fqdn) ".") acmeChallengePrefix) as [E|[_ ->]];
    [|done].
  intros Hs. rewrite E. set (n := TrimPrefix _ acmeChallengePrefix) in *.
  change acmeChallengePrefix with ("_acme-challenge" +:+ String dot EmptyString).
  rewrite sapp_assoc. simpl (String dot EmptyString +:+ n).
  destruct Hs as [->|[p ->]]; right.
  - by exists "_acme-challenge".
  - exists ("_acme-challenge" +:+ String dot p). by rewrite sapp_assoc.
Qed.

Lemma relativeRecordName_suffix fqdn z :
  ToLower z = z -> label_suffix z (canonical fqdn) ->
  (canonical fqdn = z /\ relativeRecordName fqdn z = "@") \/
  (canonical fqdn = relativeRecordName fqdn z +:+ "." +:+ z /\ canonical fqdn <> z).
Proof.
  intros Hz Hs. unfold relativeRecordName. fold (canonical fqdn). rewrite Hz.
  destruct (canonical fqdn =? z)%string eqn:E; to_prop; [by left|]. right. split; [|done].
  destruct Hs as [Hs|[p Hs]]; [done|]. change (String dot z) with ("." +:+ z) in Hs.
  by rewrite Hs, HasSuffix_app, TrimSuffix_app.
Qed.

Lemma relative_suffix_inj fqdn fqdn' z :
  ToLower z = z -> label_suffix z (canonical fqdn) -> label_suffix z (canonical fqdn') ->
  canonical fqdn <> z -> canonical fqdn' <> z ->
  relativeRecordName fqdn z = relativeRecordName fqdn' z -> canonical fqdn = canonical fqdn'.
Proof.
  intros Hz H H' Hn Hn' E.
  destruct (relativeRecordName_suffix fqdn z Hz H) as [[? _]|[-> _]]; [done|].
  destruct (relativeRecordName_suffix fqdn' z Hz H') as [[? _]|[-> _]]; [done|].
  by rewrite E.
Qed.

(** What a route tells about the name. *)
Lemma route_suffix {RT : Runtime} c fqdn cred z :
  ValidateConfig (Some c) = None -> Resolve (Some c) fqdn = Ok (cred, z) ->
  TrimSpace fqdn = fqdn -> ToLower z = z /\ label_suffix z (canonical fqdn).
Proof.
  intros Hv Hr Ht. apply ValidateConfig_iff in Hv. apply Resolve_ok_iff in Hr.
  destruct Hr as (_ & Hs & Hserves & _). split.
  - apply (valid_configured_lower c Hv). apply valid_serves_iff in Hserves; [|done].
    by exists cred.
  - by apply normalised_suffix.
Qed.

(** C12: the record addressed is the record asked for.  For a routed FQDN without
    surrounding white space the relative name and the zone make up exactly the
    lower-cased FQDN: either it is the zone itself, written [@], or it is the
    relative name, a dot and the zone.  The fallback to the apex label is never
    taken for such a name. *)
Theorem relativeRecordName_correct {RT : Runtime} c fqdn cred z :
  ValidateConfig (Some c) = None -> Resolve (Some c) fqdn = Ok (cred, z) ->
  TrimSpace fqdn = fqdn ->
  (canonical fqdn = z /\ relativeRecordName fqdn z = "@") \/
  (canonical fqdn = relativeRecordName fqdn z +:+ "." +:+ z /\ canonical fqdn <> z).
Proof.
  intros Hv Hr Ht. destruct (route_suffix c fqdn cred z Hv Hr Ht).
  by apply relativeRecordName_suffix.
Qed.

#[local] Existing Instance example_runtime.

Lemma relativeRecordName_correct_witness :
  (canonical "_acme-challenge.App.example.org." = "example.org" /\
     relativeRecordName "_acme-challenge.App.example.org." "example.org" = "@") \/
  (canonical "_acme-challenge.App.example.org." =
     relativeRecordName "_acme-challenge.App.example.org." "example.org" +:+ "." +:+ "example.org"
   /\ canonical "_acme-challenge.App.example.org." <> "example.org").
Proof.
  apply (relativeRecordName_correct two_projects _
           (mkCredential "project-b" ["Example.org"] "cert-manager/b#token"));
    vm_compute; reflexivity.
Defined.

(** C33: challenges for different names below a zone's apex do not share a record,
    if their FQDNs carry no surrounding white space: the relative name then
    determines the lower-cased FQDN.  (At the apex it is [@]; with white space
    around, see [relativeRecordName_whitespace].) *)
Theorem relativeRecordName_injective {RT : Runtime} c fqdn fqdn' cred cred' z :
  ValidateConfig (Some c) = None ->
  Resolve (Some c) fqdn = Ok (cred, z) -> Resolve (Some c) fqdn' = Ok (cred', z) ->
  TrimSpace fqdn = fqdn -> TrimSpace fqdn' = fqdn' ->
  canonical fqdn <> z -> canonical fqdn' <> z ->
  relativeRecordName fqdn z = relativeRecordName fqdn' z -> canonical fqdn = canonical fqdn'.
Proof.
  intros Hv Hr Hr' Ht Ht'.
  destruct (route_suffix c fqdn cred z Hv Hr Ht). destruct (route_suffix c fqdn' cred' z Hv Hr' Ht').
  by apply relative_suffix_inj.
Qed.

Lemma relativeRecordName_injective_witness :
  canonical "_acme-challenge.App.example.org." = canonical "_acme-challenge.app.Example.org".
Proof.
  apply (relativeRecordName_injective two_projects _ _
    (mkCredential "project-b" ["Example.org"] "cert-manager/b#token")
    (mkCredential "project-b" ["Example.org"] "cert-manager/b#token") "example.org");
    vm_compute; done.
Defined.

(** The canonical form of plain text, and every label suffix of it, is plain. *)
Lemma canonical_plain fqdn :
  all_bytes plain_byte fqdn = true -> all_bytes plain_byte (canonical fqdn) = true.
Proof.
  intros Hp. unfold canonical. assert (all_bytes plain_byte (TrimSuffix fqdn ".") = true) as Ht.
  { destruct (TrimSuffix_cases fqdn ".") as [E|[_ ->]]; [|done].
    rewrite E, all_bytes_app in Hp. by to_prop. }
  rewrite ToLower_ascii by (by apply ascii_plain). clear Hp.
  induction (TrimSuffix fqdn ".") as [|c s IH]; [done|]. simpl in *. to_prop.
  apply andb_true_iff. split; [|by apply IH].
  revert H. clear. destruct c as [[] [] [] [] [] [] [] []]; vm_compute; done.
Qed.

Lemma label_suffix_plain z s :
  label_suffix z s -> all_bytes plain_byte s = true -> all_bytes plain_byte z = true.
Proof.
  intros [->|[p ->]]; [done|]. rewrite all_bytes_app. intros H. to_prop.
  cbn [all_bytes] in *. by to_prop.
Qed.

Lemma no_space_suffix x z :
  all_bytes plain_byte z = true -> x +:+ " " <> z /\ HasSuffix (x +:+ " ") ("." +:+ z) = false.
Proof.
  intros Hz. assert (last_byte ("." +:+ z) <> Some " "%char) as Hl.
  { destruct z as [|c z]; [done|]. rewrite last_byte_app by done. intros H.
    apply last_byte_split in H as [p E]. rewrite E, all_bytes_app in Hz. by to_prop. }
  split.
  - intros <-. rewrite last_byte_app in Hl by (by destruct x). by rewrite last_byte_app in Hl.
  - destruct (HasSuffix _ _) eqn:E; [|done]. exfalso. apply HasSuffix_spec in E as [p E].
    apply (f_equal last_byte) in E. rewrite (last_byte_app x), (last_byte_app p) in E by done.
    by rewrite <- E in Hl.
Qed.

(** White space around the FQDN defeats that.  Routing trims it, the record
    name does not: with a space behind it, the same FQDN is routed as before, but
    its record is the apex label's, whatever name it is for. *)
Theorem relativeRecordName_whitespace {RT : Runtime} c fqdn cred z :
  ValidateConfig (Some c) = None -> Resolve (Some c) fqdn = Ok (cred, z) ->
  all_bytes plain_byte fqdn = true -> fqdn <> EmptyString ->
  Resolve (Some c) (fqdn +:+ " ") = Ok (cred, z) /\
  relativeRecordName (fqdn +:+ " ") z = "_acme-challenge".
Proof.
  intros Hv Hr Hp Hne.
  destruct (route_suffix c fqdn cred z Hv Hr (TrimSpace_plain _ Hp)) as [Hz Hs].
  apply label_suffix_plain in Hs; [|by apply canonical_plain]. split.
  - rewrite <- Hr. apply Resolve_normalised. unfold normaliseFQDN.
    change (fqdn +:+ " ") with (EmptyString +:+ fqdn +:+ " ").
    rewrite TrimSpace_padded by done. by rewrite TrimSpace_plain.
  - unfold relativeRecordName. rewrite Hz.
    rewrite (TrimSuffix_no (fqdn +:+ " ")) by (destruct (HasSuffix _ _) eqn:E; [|done];
      change "." with (byte1 dot) in E; by apply HasSuffix_byte in E; rewrite last_byte_app in E).
    rewrite ToLower_app by done. change (ToLower " ") with " ".
    destruct (no_space_suffix (ToLower fqdn) z Hs) as [H1 H2].
    destruct (ToLower fqdn +:+ " " =? z)%string eqn:E; to_prop; [done|]. by rewrite H2.
Qed.

Lemma relativeRecordName_whitespace_witness :
  Resolve (Some two_projects) ("_acme-challenge.app.example.com" +:+ " ") =
    Ok (mkCredential "project-a" ["example.com"; "example.net"] "cert-manager/a#token",
        "example.com") /\
  relativeRecordName ("_acme-challenge.app.example.com" +:+ " ") "example.com" = "_acme-challenge".
Proof. by apply relativeRecordName_whitespace; vm_compute. Defined.

(** The alphabet of ACME keys: base64url. *)
Definition base64url (c : ascii) : bool :=
  in_range 65 90 (code c) || in_range 97 122 (code c) || in_range 48 57 (code c)
  || (code c =? 45) || (code c =? 95).

Lemma base64url_plain c : base64url c = true -> quote_plain c = true.
Proof. destruct c as [[] [] [] [] [] [] [] []]; vm_compute; done. Qed.

(** The value of the record is the challenge key between double quotes,
    unchanged, for every key of the ACME alphabet. *)
Theorem quoteTXT_correct {RT : Runtime} key :
  all_bytes base64url key = true -> quoteTXT key = byte1 dquote +:+ key +:+ byte1 dquote.
Proof.
  intros H. unfold quoteTXT. rewrite strconv_Quote_plain; [done|].
  eapply all_bytes_impl, H. apply base64url_plain.
Qed.

Lemma quoteTXT_correct_witness : quoteTXT "Zm9v-_x" = qt "'Zm9v-_x'".
Proof. apply (quoteTXT_correct "Zm9v-_x"). vm_compute. reflexivity. Defined.
