(* ===== verification/Main.v ===== *)
(** [cmd/cert-manager-webhook-hcloud-zones/main.go]. *)
From S2P Require Import Prelude GoStrings Utf8 Runtime Quote Errors Routing Json Types ZoneCache.
From S2P Require Import Effects Client SolverConfig Secrets Solver.

Definition defaultGroupName : string := "acme.hcloud-zones.cert-manager.io".

(** [getenv] is [os.Getenv] at the start: empty for an unset variable. *)
Definition envOrDefault (getenv : string -> string) (name fallback : string) : string :=
  let v := getenv name in
  if negb (String.eqb v EmptyString) then v else fallback.

(** The group name and the solver the webhook server is run with. *)
Definition main {RT : Runtime} {CM : CertManager} (getenv : string -> string) : string * Solver :=
  (envOrDefault getenv "GROUP_NAME" defaultGroupName, Solver.New []).
