(* ===== verification/Tasks.v ===== *)
(** Tasks: what a call of the solver is about, what it relies on while others change
    the world, and what it does itself. *)
From S2P Require Import Prelude GoStrings Utf8 Runtime Quote Errors Routing RoutingSpec ValidateSpec Json Types ZoneCache.
From S2P Require Import Effects Client ClientSpec ClientPaths ZonesAPI Endpoints SolverConfig.
From S2P Require Import Secrets Solver.

(** ** Zones by name *)

Definition page_id (page : list (Z * string)) (zoneApex : string) : option Z :=
  fst <$> List.find (fun z => String.eqb (snd z) zoneApex) page.

Lemma find_zone_page zs zoneApex :
  Zone_ID <$> find_zone zs zoneApex = page_id (map zone_view zs) zoneApex.
Proof.
  unfold find_zone, page_id. induction zs as [|z zs IH]; [done|]. simpl.
  by destruct (Zone_Name z =? zoneApex)%string.
Qed.

Lemma page_id_in page zoneApex zid : page_id page zoneApex = Some zid -> (zid, zoneApex) ∈ page.
Proof.
  unfold page_id. induction page as [|[i n] page IH]; [done|]. simpl.
  destruct (n =? zoneApex)%string eqn:E; to_prop; [|by right; apply IH].
  intros [= ->]. subst. left.
Qed.

(** What the others leave of the zones: in every project whose first page shows
    [zid] as the zone of that name, it goes on doing so, and a primary zone stays
    one.  Other zones may come and go. *)
Definition zone_kept {API : ZonesAPI} (zoneApex : string) (zid : Z) (s s' : api_state) : Prop :=
  (forall tok, page_id (api_page tok s) zoneApex = Some zid ->
               page_id (api_page tok s') zoneApex = Some zid) /\
  (api_primary s zid = true -> api_primary s' zid = true).

#[export] Instance zone_kept_preorder {API : ZonesAPI} zoneApex zid : PreOrder (zone_kept zoneApex zid).
Proof.
  split; [by split|]. intros s1 s2 s3 [H1 P1] [H2 P2]. split; [|by auto].
  intros tok H. by apply H2, H1.
Qed.

Lemma same_zones_kept {API : ZonesAPI} zoneApex zid s s' :
  same_zones s s' -> zone_kept zoneApex zid s s'.
Proof. intros [H Hp]. split; [|by rewrite Hp]. intros tok. by destruct (H tok) as [_ ->]. Qed.

Lemma kept_project_zone `{ZonesAPILaws} tok zoneApex zid s :
  page_id (api_page tok s) zoneApex = Some zid -> api_primary s zid = true ->
  project_zone tok (zone_kept zoneApex zid) s zid.
Proof.
  intros Hp Hm s' [Hs Hms]. split; [|by apply Hms].
  apply Hs, page_id_in, law_page in Hp. by apply (list_elem_of_fmap_2 fst _ _ Hp).
Qed.

(** ** ASCII record names *)

Lemma ascii_TrimSuffix s suf : ascii_text s -> ascii_text (TrimSuffix s suf).
Proof.
  unfold ascii_text. destruct (TrimSuffix_cases s suf) as [E|[_ ->]]; [|done].
  rewrite E at 1. rewrite all_bytes_app. intros H. by to_prop.
Qed.

Lemma ascii_ToLower s : ascii_text s -> ascii_text (ToLower s).
Proof.
  intros H. unfold ascii_text. rewrite ToLower_ascii by done.
  apply map_bytes_all; [apply lower_byte_ascii | done].
Qed.

Lemma ascii_relativeRecordName fqdn z : ascii_text fqdn -> ascii_text (relativeRecordName fqdn z).
Proof.
  intros H. unfold relativeRecordName. repeat case_match; [done| |done].
  by apply ascii_TrimSuffix, ascii_ToLower, ascii_TrimSuffix.
Qed.

(** ** What calls may do to each other *)

(** The record set a challenge is about. *)
Definition challenge_key (ch : ChallengeRequest) (zoneApex : string) (zid : Z) : rrkey :=
  (zid, relativeRecordName (ch_ResolvedFQDN ch) zoneApex, "TXT").

Section Tasks.
Context {RT : Runtime} {API : ZonesAPI}.

(** What a call is about: the Secret it reads, the cache key it uses and the record
    set that is its own. *)
Record Task := mkTask {
  tk_secret : string * string;
  tk_ref : string;
  tk_zone : string;
  tk_key : rrkey
}.

Definition tk_zid (T : Task) : Z := fst (fst (tk_key T)).
Definition tk_cache (T : Task) : zoneCacheKey := mkZoneCacheKey (tk_ref T) (tk_zone T).

Definition challenge_task (ref : SecretRef) (zoneApex : string) (zid : Z) (ch : ChallengeRequest) :
    Task :=
  mkTask (sr_Namespace ref, sr_Name ref) (SecretRef_String ref) zoneApex
    (challenge_key ch zoneApex zid).

(** What a lookup would answer. *)
Definition cached (w : world) (refKey zoneApex : string) : option Z :=
  fst (zoneCache_Lookup (w_cache w) (w_now w) refKey zoneApex).

(** No lookup of the call's cache key answers with another zone's ID, and the
    cache has none for it, expired or not. *)
Definition fits (T : Task) (w : world) : Prop :=
  forall i, cached w (tk_ref T) (tk_zone T) = Some i -> i = tk_zid T.
Definition known (T : Task) (w : world) : Prop :=
  forall e, zc_store (w_cache w) !! tk_cache T = Some e -> entry_id e = tk_zid T.

(** What others do to the zone of a call. *)
Definition tk_kept (T : Task) : relation api_state := zone_kept (tk_zone T) (tk_zid T).

(** What a call relies on: others keep off its zone and its Secret, do not put a
    wrong zone into the cache, and leave its record set alone or make it one of
    [N], the states that the call and those who share its aim want. *)
Record rely (T : Task) (N : option RRSetState -> Prop) (w w' : world) : Prop := {
  rely_secret : w_secrets w' !! tk_secret T = w_secrets w !! tk_secret T;
  rely_zones : tk_kept T (w_api w) (w_api w');
  rely_key : moves N (api_rrsets (w_api w) !! tk_key T) (api_rrsets (w_api w') !! tk_key T);
  rely_fits : fits T w -> fits T w';
  rely_known : known T w -> known T w'
}.

(** What a call does: of the record sets it changes its own only, and in the cache
    it drops entries or stores its zone's ID under its key. *)
Record guar (T : Task) (w w' : world) : Prop := {
  guar_secrets : w_secrets w' = w_secrets w;
  guar_zones : same_zones (w_api w) (w_api w');
  guar_rrsets : forall k, k <> tk_key T -> api_rrsets (w_api w') !! k = api_rrsets (w_api w) !! k;
  guar_clock : zc_ttl (w_cache w') = zc_ttl (w_cache w) /\ zc_now (w_cache w') = zc_now (w_cache w);
  guar_cache : forall k, zc_store (w_cache w') !! k = zc_store (w_cache w) !! k \/
    zc_store (w_cache w') !! k = None \/
    k = tk_cache T /\ exists e, zc_store (w_cache w') !! k = Some e /\ entry_id e = tk_zid T
}.

(** And its record set, if it changes it, comes to be in [N]. *)
Definition guar_within (T : Task) (N : option RRSetState -> Prop) (w w' : world) : Prop :=
  guar T w w' /\ moves N (api_rrsets (w_api w) !! tk_key T) (api_rrsets (w_api w') !! tk_key T).

#[export] Instance rely_preorder T N : PreOrder (rely T N).
Proof.
  split; [by split|]. intros w1 w2 w3 [] []. split; [congruence|..|by auto|by auto].
  - by transitivity (w_api w2).
  - by etransitivity.
Qed.

#[export] Instance guar_preorder T : PreOrder (guar T).
Proof.
  split; [split; by auto|]. intros w1 w2 w3 [? ? Hr1 [? ?] Hc1] [? ? Hr2 [? ?] Hc2].
  split; [congruence|..].
  - by transitivity (w_api w2).
  - intros k Hk. by rewrite Hr2, Hr1.
  - split; congruence.
  - intros k. destruct (Hc2 k) as [->|]; auto.
Qed.

#[export] Instance guar_within_preorder T N : PreOrder (guar_within T N).
Proof.
  split; [by split|]. intros w1 w2 w3 [H1 N1] [H2 N2]. split; [by transitivity w2|by etransitivity].
Qed.

#[export] Instance task_owns T N : Owns (tk_kept T) (rely T N) (guar_within T N) (tk_key T) N.
Proof.
  split; [split; [typeclasses eauto..| | |]|..].
  - intros s s'. apply same_zones_kept.
  - intros w w' H. apply H.
  - intros w t l. split; [split; by auto|by left].
  - intros w w' H. apply H.
  - intros w t l s Hs Hk HN. split; [split; by auto|done].
Qed.

(** The same of a call whose clock and network are its own. *)
Definition rely_own (T : Task) (N : option RRSetState -> Prop) (w w' : world) : Prop :=
  rely T N w w' /\ w_now w' = w_now w /\ w_network w' = w_network w.

#[export] Instance rely_own_preorder T N : PreOrder (rely_own T N).
Proof.
  split; [by split|]. intros w1 w2 w3 (H1 & E1 & L1) (H2 & E2 & L2).
  split; [by transitivity w2|]. split; congruence.
Qed.

#[export] Instance rely_own_private T N : Private (rely_own T N).
Proof. split; by intros w w' (_ & H & H'). Qed.

#[export] Instance task_owns_privately T N : Owns (tk_kept T) (rely_own T N) (guar_within T N) (tk_key T) N.
Proof.
  split; [split; [typeclasses eauto..| | |]|..].
  - intros s s'. apply same_zones_kept.
  - intros w w' [H _]. apply H.
  - apply (und_attempt (R := rely T N)).
  - intros w w' [H _]. apply H.
  - intros w t l s. apply (owns_step (key := tk_key T) (N := N)).
Qed.

(** A call that only reads the API. *)
Definition reading (T : Task) (w w' : world) : Prop := guar T w w' /\ w_api w' = w_api w.

#[export] Instance reading_preorder T : PreOrder (reading T).
Proof.
  split; [by split|]. intros w1 w2 w3 [H1 E1] [H2 E2]. split; [by transitivity w2|congruence].
Qed.

Lemma reading_within T N w w' : reading T w w' -> guar_within T N w w'.
Proof. intros [H E]. split; [done|]. rewrite E. by left. Qed.

#[export] Instance task_reads T N : Undisturbed (tk_kept T) (rely T N) (reading T).
Proof.
  split; try typeclasses eauto.
  - intros s s'. apply same_zones_kept.
  - intros w w' H. apply H.
  - intros w t l. split; [split; by auto|done].
Qed.

#[export] Instance task_reads_privately T N : Undisturbed (tk_kept T) (rely_own T N) (reading T).
Proof.
  split; try typeclasses eauto.
  - intros s s'. apply same_zones_kept.
  - intros w w' [H _]. apply H.
  - apply (und_attempt (R := rely T N)).
Qed.

(** Calls do not disturb each other that agree on the zones they share a cache key
    for, and on what is to become of a record set they share. *)
Definition agree_on_zones (T T' : Task) : Prop := tk_cache T = tk_cache T' -> tk_zid T = tk_zid T'.

Definition compatible (T : Task) (N : option RRSetState -> Prop) (T' : Task)
    (N' : option RRSetState -> Prop) : Prop :=
  agree_on_zones T T' /\ (tk_key T = tk_key T' -> forall o, N o -> N' o).

Lemma guar_known T T' w w' : agree_on_zones T T' -> guar T w w' -> known T' w -> known T' w'.
Proof.
  intros Hz [] Hk e He. destruct (guar_cache0 (tk_cache T')) as [H|[H|(Hc & e' & H & Hid)]];
    [apply Hk; by rewrite <- H|congruence|]. assert (e = e') as -> by congruence.
  rewrite Hid. by apply Hz.
Qed.

Lemma known_fits T w : known T w -> fits T w.
Proof.
  unfold known, fits, cached, zoneCache_Lookup. intros H i. fold (tk_cache T).
  destruct (zc_store (w_cache w) !! tk_cache T) as [e|] eqn:E; [|done].
  destruct (_ <? _); [done|]. intros [= <-]. by apply H.
Qed.

(** So a lookup answers with the call's zone, if at all. *)
Lemma known_cached T w :
  known T w -> cached w (tk_ref T) (tk_zone T) = None \/ cached w (tk_ref T) (tk_zone T) = Some (tk_zid T).
Proof.
  intros H%known_fits. unfold fits in H. destruct (cached _ _ _) as [i|]; [|by left].
  right. f_equal. by apply H.
Qed.

Lemma cached_entry w w' a b :
  w_now w' = w_now w -> zc_now (w_cache w') = zc_now (w_cache w) ->
  zc_store (w_cache w') !! mkZoneCacheKey a b = zc_store (w_cache w) !! mkZoneCacheKey a b ->
  cached w' a b = cached w a b.
Proof.
  intros Hn Hc He. unfold cached, zoneCache_Lookup. rewrite Hn, Hc, He.
  by repeat case_match.
Qed.

(** At the same instant, what one call does another can rely on. *)
Lemma guar_rely T N T' N' w w' :
  compatible T N T' N' -> guar_within T N w w' -> w_now w' = w_now w -> rely T' N' w w'.
Proof.
  intros [Hz HN] [G HG] Hnow. pose proof G as [Hsec Hzn Hrr [_ Hcl] Hca]. split.
  - by rewrite Hsec.
  - by apply same_zones_kept.
  - destruct (decide (tk_key T' = tk_key T)) as [E|E]; [|left; by apply Hrr].
    rewrite E. destruct HG as [HG|HG]; [by left|right; by apply HN].
  - intros Hf i Hi. unfold fits in Hf. destruct (Hca (tk_cache T')) as [He|[He|(He & e & He' & Hid)]].
    + apply Hf. rewrite <- Hi. symmetry. by apply (cached_entry w w').
    + unfold cached, zoneCache_Lookup in Hi. simpl in Hi. unfold tk_cache in He. by rewrite He in Hi.
    + unfold cached, zoneCache_Lookup in Hi. simpl in Hi. unfold tk_cache in He'. rewrite He' in Hi.
      destruct (_ <? _); [done|]. injection Hi as <-. rewrite Hid. by apply Hz.
  - intros H. by apply (guar_known T T' w w').
Qed.

(** Neither instants nor networks matter to what a call does. *)
Lemma guar_later T N w w' t l t' l' :
  guar_within T N w w' -> guar_within T N (later w t l) (later w' t' l').
Proof. intros [[] HN]. by split. Qed.
End Tasks.

