(* ===== verification/WorldSolver.v ===== *)
(** The solver in the world, among other calls: what a challenge does to the record
    sets of the API. *)
From S2P Require Import Prelude GoStrings Utf8 Runtime Quote Errors Routing RoutingSpec ValidateSpec Json Types ZoneCache.
From S2P Require Import Effects Client ClientSpec ClientPaths Interference ZonesAPI Endpoints WorldClient SolverConfig.
From S2P Require Import Secrets Solver Tasks.

(** ** The solver's calls *)

(** The record set after [Present]: the key, with the solver's TTL if it is new. *)
Definition presented (ttl : Z) (value : string) (old : option RRSetState) : RRSetState :=
  mkRRSetState [mkRecord value EmptyString]
    (match old with Some st => st_ttl st | None => Some ttl end).

(** [Present] leads from [P] to [N], both of which it and those who share its record
    set stay in. *)
Definition presents (ttl : Z) (value : string) (P N : option RRSetState -> Prop) : Prop :=
  (forall o, P o -> N (Some (presented ttl value o))) /\ (forall o, N o -> P o) /\ ~ N None.

Lemma create_request_ok name ttl value :
  ascii_text name -> in_int64 ttl = true -> ascii_text value ->
  create_ok (mkCreateRRSetRequest name defaultRRSetType (Some ttl) [mkRecord value EmptyString] []).
Proof.
  intros Hn Ht Hv. unfold create_ok. simpl. split; [done|]. split; [done|].
  split; [by intros t [= <-]|]. split; [|done]. by repeat constructor.
Qed.

Section Solver.
Context {RT : Runtime} {CM : CertManager} {API : ZonesAPI} `{!ZonesAPILaws API}.

(** A client that the solver uses in the world. *)
Context (c : Client) (tok : string) `{!WorldClient c tok}.

(** Looking a key up may drop it, if it has expired. *)
Lemma cached_lookup w refKey zoneApex :
  in_world (ECacheLookup (mkZoneCacheKey refKey zoneApex)) w =
  (cached w refKey zoneApex,
   set_cache w (snd (zoneCache_Lookup (w_cache w) (w_now w) refKey zoneApex))).
Proof. simpl. unfold cached. by destruct (zoneCache_Lookup _ _ _ _). Qed.

Lemma lookup_guar T w a b :
  guar T w (set_cache w (snd (zoneCache_Lookup (w_cache w) (w_now w) a b))).
Proof.
  unfold zoneCache_Lookup. destruct (zc_store _ !! _) eqn:E; [|split; by auto].
  destruct (_ <? _); [|split; by auto]. split; try by auto. intros k. simpl.
  destruct (decide (k = mkZoneCacheKey a b)) as [->|Hk].
  - right. left. apply lookup_delete_eq.
  - left. by apply lookup_delete_ne.
Qed.

Lemma lookup_known T w :
  fits T w -> known T (set_cache w (snd (zoneCache_Lookup (w_cache w) (w_now w) (tk_ref T) (tk_zone T)))).
Proof.
  unfold fits, known, cached, zoneCache_Lookup. fold (tk_cache T).
  destruct (zc_store (w_cache w) !! tk_cache T) as [e|] eqn:E; [|simpl; congruence].
  destruct (_ <? _); simpl; intros H e'; [by rewrite lookup_delete_eq|].
  intros He. assert (e' = e) as -> by congruence. by apply H.
Qed.

Section Task.
Context (T : Task) (N : option RRSetState -> Prop).
#[local] Abbreviation R := (rely_own T N).
#[local] Abbreviation G := (guar_within T N).
#[local] Abbreviation holds := (holds in_world R G).
#[local] Abbreviation reads := (Interference.holds in_world R (reading T)).

Lemma reads_holds {A} (p : prog A) Q w : reads p Q w -> holds p Q w.
Proof. apply holds_weaken; [done|]. intros w1 w2. apply reading_within. Qed.

(** What is kept by all that happens: the zone, the states of the record set, and
    that the cache is right. *)
Lemma holds_kept {A} (P : option RRSetState -> Prop) (p : prog A) Q w :
  (forall o, N o -> P o) -> P (api_rrsets (w_api w) !! tk_key T) -> holds p Q w ->
  holds p (fun a w' => (tk_kept T (w_api w) (w_api w') /\ P (api_rrsets (w_api w') !! tk_key T)) /\
    Q a w') w.
Proof.
  intros HN Hw. apply holds_invariant; [| |by split]; intros w1 w2 H [Hz HP].
  - split; [transitivity (w_api w1); [done|apply H]|].
    destruct (rely_key _ _ _ _ (proj1 H)) as [->|HNo]; [done|by apply HN].
  - destruct H as [H HNo]. split; [transitivity (w_api w1); [done|apply same_zones_kept, H]|].
    destruct HNo as [->|HNo]; [done|by apply HN].
Qed.

Lemma holds_known {A} (p : prog A) Q w :
  known T w -> holds p Q w -> holds p (fun a w' => known T w' /\ Q a w') w.
Proof. apply holds_invariant; [by intros w1 w2 [[] _]|intros w1 w2 [H _]; by apply (guar_known T T)]. Qed.

Lemma reads_ListZones ctx w :
  absorbed c ctx w -> page_id (api_page tok (w_api w)) (tk_zone T) = Some (tk_zid T) ->
  reads (ListZones c ctx) (fun r w' => absorbed c ctx w' /\
    exists zs, r = Ok zs /\ Zone_ID <$> find_zone zs (tk_zone T) = Some (tk_zid T)) w.
Proof.
  intros Hw Hp. eapply holds_mono; [|exact (holds_ListZones c tok R (reading T) w ctx Hw)].
  intros r w' (Hw' & zs & s & -> & Hs & Hz). split; [done|]. exists zs. split; [done|].
  rewrite find_zone_page, Hz. by apply Hs.
Qed.

(** The zone's ID is found, and the cache knows it, if anything, from then on. *)
Lemma reads_resolveZoneID w ctx :
  absorbed c ctx w -> fits T w ->
  page_id (api_page tok (w_api w)) (tk_zone T) = Some (tk_zid T) ->
  reads (resolveZoneID ctx (Client_as_HCloudClient c) (tk_ref T) (tk_zone T)) (fun r w' =>
    absorbed c ctx w' /\ known T w' /\ r = Ok (tk_zid T)) w.
Proof.
  intros Hw Hf Hp. unfold resolveZoneID. fold (tk_cache T). apply (holds_bind in_world R (reading T)).
  intros w1 H1. pose proof (rely_fits T N _ _ (proj1 H1) Hf) as Hf1. unfold tk_cache. rewrite cached_lookup.
  set (w2 := set_cache w1 _). split; [split; [apply lookup_guar|done]|].
  pose proof (lookup_known T w1 Hf1) as Hk2. fold w2 in Hk2. fold (tk_cache T).
  intros w3 H3.
  assert (absorbed c ctx w3) as Hw3.
  { apply (absorbed_rely c R _ _ _ H3).
    by apply (absorbed_rely c R _ _ _ H1). }
  assert (known T w3) as Hk3 by (by apply H3).
  destruct (cached w1 (tk_ref T) (tk_zone T)) as [i|] eqn:Ec.
  { intros w4 H4. split; [by apply (absorbed_rely c R _ _ _ H4)|].
    split; [by apply H4|]. by rewrite (Hf1 i Ec). }
  assert (page_id (api_page tok (w_api w3)) (tk_zone T) = Some (tk_zid T)) as Hp3.
  { apply (rely_zones T N _ _ (proj1 H3)), (rely_zones T N _ _ (proj1 H1)), Hp. }
  unfold try_bind. apply (holds_bind in_world R (reading T)). eapply holds_mono; [|by apply reads_ListZones].
  cbn beta. intros r w5 (Hw5 & zs & -> & Hz).
  destruct (find_zone zs (tk_zone T)) as [z|]; [|done]. injection Hz as Hz.
  apply (holds_bind in_world R (reading T)). intros w6 H6. simpl. rewrite Hz. split.
  - split; [|done]. split; try by auto. intros k. simpl.
    destruct (decide (k = tk_cache T)) as [->|Hk].
    + right. right. split; [done|]. eexists. split; [apply lookup_insert_eq|done].
    + left. by apply lookup_insert_ne.
  - intros w7 H7 w8 H8. split; [|split; [|done]].
    + apply (absorbed_rely c R _ _ _ H8).
      apply (absorbed_rely c R _ _ _ H7).
      by apply (absorbed_rely c R _ _ _ H6).
    + apply H8, H7. intros e. simpl. rewrite lookup_insert_eq. by intros [= <-].
Qed.
End Task.

(** ** The body of the handlers *)

Section Handlers.
Context (s : Solver) (ctx : Ctx) (ch : ChallengeRequest) (cred : Credential) (ref : SecretRef)
  (zoneApex : string) (zid : Z) (P N : option RRSetState -> Prop).

#[local] Abbreviation T := (challenge_task ref zoneApex zid ch).
#[local] Abbreviation R := (rely_own T N).
#[local] Abbreviation G := (guar_within T N).
#[local] Abbreviation holds := (holds in_world R G).
#[local] Abbreviation prepared := (mkPrepared cred ref (Client_as_HCloudClient c) zoneApex).
#[local] Abbreviation name := (relativeRecordName (ch_ResolvedFQDN ch) zoneApex).
#[local] Abbreviation holding w := (holding (Zs := tk_kept T) (w_api w) zid name "TXT" P).

(** The zone is found, whatever else, and the record set not yet out of [P]. *)
Lemma holds_resolved {A} (f : res Z -> prog A) Q w :
  absorbed c ctx w -> fits T w -> page_id (api_page tok (w_api w)) zoneApex = Some zid ->
  (forall o, N o -> P o) -> P (api_rrsets (w_api w) !! tk_key T) ->
  (forall w', absorbed c ctx w' -> known T w' -> holding w w' -> holds (f (Ok zid)) Q w') ->
  holds (bind (resolveZoneID ctx (Client_as_HCloudClient c) (SecretRef_String ref) zoneApex) f) Q w.
Proof.
  intros Hw Hf Hp HN HP H. apply (holds_bind in_world R G).
  eapply holds_mono; [|apply (holds_kept T N P), reads_holds; [done..|];
    by apply (reads_resolveZoneID T N w ctx Hw Hf)].
  cbn beta. intros r w' (Hh & Hw' & Hkn & ->). by apply H.
Qed.

Lemma holds_logged l level msg attrs (r : option error) Q w :
  (forall w', R w w' -> Q r w') ->
  holds (LogAttrs l level msg attrs ;; Ret r) Q w.
Proof.
  intros H. apply (holds_log R G). intros w1 H1 w2 H2. apply H. by transitivity w1.
Qed.

(** What the two handlers achieve before their context expires. *)
Definition achieves (r : option error) (w' : world) : Prop :=
  r = None /\ timely ctx (w_now w') /\ known T w' /\ N (api_rrsets (w_api w') !! tk_key T).

Lemma achieved w w' :
  R w w' -> absorbed c ctx w -> known T w -> N (api_rrsets (w_api w) !! tk_key T) -> achieves None w'.
Proof.
  intros H Hw Hk HN. split; [done|].
  split; [by rewrite (own_now _ _ H); eapply absorbed_now|]. split; [by apply (proj1 H)|].
  by destruct (rely_key _ _ _ _ (proj1 H)) as [->|].
Qed.

Lemma holds_present_prepared w :
  absorbed c ctx w -> fits T w -> page_id (api_page tok (w_api w)) zoneApex = Some zid ->
  api_primary (w_api w) zid = true -> ascii_text (ch_ResolvedFQDN ch) -> ascii_text (quoteTXT (ch_Key ch)) ->
  in_int64 (rrsetTTL s) = true -> presents (rrsetTTL s) (quoteTXT (ch_Key ch)) P N ->
  P (api_rrsets (w_api w) !! tk_key T) ->
  holds (present_prepared s ctx ch prepared) achieves w.
Proof.
  intros Hw Hf Hp Hm Hfq Hq Httl (HPN & HN & Hnone) HP. unfold present_prepared.
  pose proof (ascii_relativeRecordName _ zoneApex Hfq) as Hname.
  apply holds_resolved; try done. intros w1 Hw1 Hk1 Hh1. set (req := mkCreateRRSetRequest _ _ _ _ _).
  change (hc_CreateRRSet (Client_as_HCloudClient c)) with (CreateRRSet c).
  pose proof (kept_project_zone tok zoneApex zid (w_api w) Hp Hm) as Hzone.
  apply (holds_bind in_world R G). eapply holds_mono; [|apply (holds_kept T N P), (holds_known T N);
    [done|apply Hh1|done|apply (holds_CreateRRSet c tok R G (w_api w) zid name "TXT" P N); try done]].
  2: { split; [by apply create_request_ok|]. do 2 (split; [done|]). split; [by apply HPN|done]. }
  cbn beta. intros r w2 ([Hz2 HP2] & Hk2 & Hw2 & Hr).
  destruct Hr as [[[v ->] HNo]|(e & -> & He & Hsome)].
  { apply holds_logged. intros w3 H3. by apply (achieved w2). }
  rewrite He. unfold reconcileExisting. apply (holds_bind in_world R G).
  change (hc_SetRRSetRecords (Client_as_HCloudClient c)) with (SetRRSetRecords c).
  eapply holds_mono; [|apply (holds_known T N); [done|];
    apply (holds_SetRRSetRecords c tok R G (w_api w) zid name "TXT" P N); try done].
  - cbn beta. intros r w3 (Hk3 & Hw3 & [v ->] & HNo). apply holds_logged. intros w4 H4.
    by apply (achieved w3).
  - split; [transitivity (w_api w1); [apply Hh1|done]|done].
  - do 2 (split; [done|]). split; [by repeat constructor|]. split; [by intros st Hst; apply HPN in Hst|done].
Qed.

Lemma holds_cleanup_prepared w :
  absorbed c ctx w -> fits T w -> page_id (api_page tok (w_api w)) zoneApex = Some zid ->
  api_primary (w_api w) zid = true -> ascii_text (ch_ResolvedFQDN ch) -> N None -> (forall o, N o -> P o) ->
  P (api_rrsets (w_api w) !! tk_key T) ->
  holds (cleanup_prepared s ctx ch prepared) achieves w.
Proof.
  intros Hw Hf Hp Hm Hfq Hnone HN HP. unfold cleanup_prepared.
  apply holds_resolved; try done. intros w1 Hw1 Hk1 Hh1.
  pose proof (kept_project_zone tok zoneApex zid (w_api w) Hp Hm) as Hzone.
  change (hc_DeleteRRSet (Client_as_HCloudClient c)) with (DeleteRRSet c).
  apply (holds_bind in_world R G). eapply holds_mono; [|apply (holds_known T N); [done|];
    apply (holds_DeleteRRSet c tok R G (w_api w) zid name "TXT" P N); try done].
  2: { split; [by apply ascii_relativeRecordName|done]. }
  cbn beta. intros r w2 (Hk2 & Hw2 & HNo & Hr).
  assert (forall w3, R w2 w3 -> achieves None w3) as Hend by (intros w3 H3; by apply (achieved w2)).
  destruct Hr as [->|(e & -> & ->)]; by apply holds_logged.
Qed.

(** ** Zones that are gone, and zones that take no writes *)

(** Nobody else is about. *)
#[local] Instance alone_reads : Undisturbed same_zones eq (reading T).
Proof.
  split; try typeclasses eauto; [done|by intros w w' ->|].
  intros w t l. apply (und_attempt (R := rely T (fun _ => True))).
Qed.

#[local] Abbreviation alone := (Interference.holds in_world eq (reading T)).

Lemma alone_known bad w :
  absorbed c ctx w -> cached w (SecretRef_String ref) zoneApex = Some bad ->
  alone (resolveZoneID ctx (Client_as_HCloudClient c) (SecretRef_String ref) zoneApex)
    (fun r w' => absorbed c ctx w' /\ r = Ok bad /\ w_api w' = w_api w) w.
Proof.
  intros Hw Hc. unfold resolveZoneID. apply (holds_bind in_world eq (reading T)). intros w0 <-.
  rewrite cached_lookup, Hc. split; [split; [apply lookup_guar|done]|]. by intros w1 <- w2 <-.
Qed.

Lemma alone_resolved w :
  absorbed c ctx w -> fits T w -> page_id (api_page tok (w_api w)) zoneApex = Some zid ->
  alone (resolveZoneID ctx (Client_as_HCloudClient c) (SecretRef_String ref) zoneApex)
    (fun r w' => absorbed c ctx w' /\ r = Ok zid /\ w_api w' = w_api w) w.
Proof.
  intros Hw Hf Hp.
  eapply holds_mono; [|apply (holds_invariant in_world eq (reading T) (fun w' => w_api w' = w_api w));
    [by intros w1 w2 <-|by intros w1 w2 [_ ->]|done|
     eapply holds_weaken; [| |by apply (reads_resolveZoneID T N w ctx Hw Hf)]]].
  - by intros r w' (Ha & Hw' & _ & ->).
  - by intros w1 w2 <-.
  - done.
Qed.

(** A creation that the API turns down for good.  After a 404 the cache has no
    entry for the zone. *)
Lemma alone_present_fails zid' (status : Z -> bool) w :
  let req := mkCreateRRSetRequest name defaultRRSetType (Some (rrsetTTL s))
               [mkRecord (quoteTXT (ch_Key ch)) EmptyString] [] in
  alone (resolveZoneID ctx (Client_as_HCloudClient c) (SecretRef_String ref) zoneApex)
    (fun r w' => absorbed c ctx w' /\ r = Ok zid' /\ w_api w' = w_api w) w ->
  (forall st, status st = true -> 400 <= st < 500 /\ st <> 429 /\ st <> 409) ->
  (forall s', same_zones (w_api w) s' -> exists resp,
     api_serve (request_of c tok (CallCreateRRSet zid') (marshalled (Some (BodyCreate req)))) s' = (resp, s') /\
     status (resp_StatusCode resp) = true) ->
  alone (present_prepared s ctx ch prepared) (fun r w' => timely ctx (w_now w') /\
    exists e, r = Some (wrapError "create RRSet" (Name cred) zoneApex (EAPI e)) /\
      status (StatusCode e) = true /\
      (StatusCode e = 404 -> zc_store (w_cache w') !! tk_cache T = None)) w.
Proof.
  intros req Hres Hst Hserve. unfold present_prepared. apply (holds_bind in_world eq (reading T)).
  eapply holds_mono; [|exact Hres]. cbn beta. intros r w1 (Hw1 & -> & Ha1). fold req.
  change (hc_CreateRRSet (Client_as_HCloudClient c)) with (CreateRRSet c).
  apply (holds_bind in_world eq (reading T)).
  eapply holds_mono; [|apply (holds_CreateRRSet_fails c tok eq (reading T) w1 ctx zid' req status); [done| |]].
  2: { intros st H. by destruct (Hst st H) as (? & ? & ?). }
  2: { rewrite Ha1. exact Hserve. }
  cbn beta. intros r w2 (Hw2 & e & -> & He). destruct (Hst _ He) as (Hr & _ & H409).
  assert (errors_Is (EAPI e) ErrConflict = false) as -> by (by apply Z.eqb_neq).
  pose proof (absorbed_now c tok ctx w2 Hw2) as Ht.
  destruct (errors_Is (EAPI e) ErrNotFound) eqn:E; simpl in E; to_prop.
  - intros w3 <-. simpl. split.
    + split; [|done]. split; try by auto. intros k. simpl.
      destruct (decide (k = tk_cache T)) as [->|Hk]; [right; left; apply lookup_delete_eq|].
      left. by apply lookup_delete_ne.
    + intros w4 <-. split; [done|]. exists e. split; [done|]. split; [done|]. intros _. apply lookup_delete_eq.
  - intros w3 <-. split; [done|]. exists e. by split.
Qed.

(** A zone the listing does not show: [CleanUp] does nothing. *)
Lemma reads_cleanup_unlisted w :
  absorbed c ctx w -> cached w (SecretRef_String ref) zoneApex = None ->
  page_id (api_page tok (w_api w)) zoneApex = None ->
  alone (cleanup_prepared s ctx ch prepared) (fun r _ => r = None) w.
Proof.
  intros Hw Hc Hp. unfold cleanup_prepared. apply (holds_bind in_world eq (reading T)).
  unfold resolveZoneID. apply (holds_bind in_world eq (reading T)). intros w0 <-.
  rewrite cached_lookup, Hc. split; [split; [apply lookup_guar|done]|]. set (w1 := set_cache w _).
  intros w' <-. unfold try_bind. apply (holds_bind in_world eq (reading T)).
  eapply holds_mono; [|exact (holds_ListZones c tok eq (reading T) w1 ctx Hw)].
  cbn beta. intros r w2 (_ & zs & s1 & -> & Hs & Hz). pose proof (find_zone_page zs zoneApex) as Hf.
  destruct (proj1 Hs tok) as [_ Hpg]. rewrite Hz, Hpg in Hf. change (w_api w1) with (w_api w) in Hf. rewrite Hp in Hf.
  destruct (find_zone zs zoneApex) as [z|]; [done|]. intros w3 <-.
  change (errors_Is (zone_not_found zoneApex) ErrNotFound) with true.
  intros w4 <-. split; [reflexivity|]. by intros w5 <-.
Qed.
End Handlers.
End Solver.
