(* ===== verification/EndToEnd.v ===== *)
(** End to end: what [Present] and [CleanUp] of the production solver do to the
    record sets of the Zones API. *)
From S2P Require Import Prelude GoStrings Utf8 Runtime Quote Errors Routing RoutingSpec ValidateSpec Json Types ZoneCache.
From S2P Require Import Effects Client ClientSpec ClientPaths Interference ZonesAPI Endpoints WorldClient SolverConfig.
From S2P Require Import Secrets Solver RecordNames Tasks WorldSolver.

(** The API is where the client looks for it, and its URLs are accepted. *)
Class Reachable {RT : Runtime} (API : ZonesAPI) : Prop := {
  reach_base : api_base = DefaultBaseURL;
  reach_url : forall call, rt_NewRequest_error (fst (request_line call))
                             (api_base +:+ snd (request_line call)) = None
}.

Section Production.
Context {RT : Runtime} {CM : CertManager}.

(** What [Present] and [CleanUp] have in common. *)
Definition handle (s : Solver) (ch : ChallengeRequest)
    (body : Ctx -> prepared -> prog (option error)) : prog (option error) :=
  let! ctx := contextFor s in
  let! r := prepare s ctx ch in
  match r with
  | Err err => Ret (Some err)
  | Ok p => body ctx p
  end.

Lemma Present_handle s ch : Present s (Some ch) = handle s ch (fun ctx => present_prepared s ctx ch).
Proof. reflexivity. Qed.

Lemma CleanUp_handle s ch : CleanUp s (Some ch) = handle s ch (fun ctx => cleanup_prepared s ctx ch).
Proof. reflexivity. Qed.

(** A solver that reads Kubernetes Secrets and talks to the public API. *)
Record production (s : Solver) (kc : rt_KubeClient) (l : Logger) : Prop := {
  prod_secrets : secrets s = Some (kubeSecretGetter_as_SecretGetter (mkKubeSecretGetter kc));
  prod_factory : clientFactory s = Some (DefaultClientFactory (Some l))
}.

(** The client its factory makes of a token. *)
Definition default_client (l : Logger) (tok : string) : Client :=
  mkClient DefaultBaseURL http_DefaultClient (StaticToken tok) l realClock
    defaultRequestTimeout defaultMaxRetries defaultInitialBackoff defaultMaxBackoff
    defaultUserAgent.

Lemma factory_client l tok :
  DefaultClientFactory (Some l) tok = Ok (Client_as_HCloudClient (default_client l tok)).
Proof. reflexivity. Qed.

Lemma prepare_production s kc l ctx ch :
  production s kc l ->
  prepare s ctx ch =
  match route_challenge ch with
  | Err err => Ret (Err err)
  | Ok (cred, ref, zoneApex) =>
      let! r := kubeSecretGetter_GetToken (mkKubeSecretGetter kc) ctx ref in
      match r with
      | Ok tok => Ret (Ok (mkPrepared cred ref (Client_as_HCloudClient (default_client l tok))
                             zoneApex))
      | Err e => Ret (Err e)
      end
  end.
Proof.
  intros [Hs Hf]. unfold prepare. destruct (route_challenge ch) as [[[cred ref] z]|e]; [|done].
  by rewrite Hs, Hf.
Qed.
End Production.

Section World.
Context {RT : Runtime} {CM : CertManager} {API : ZonesAPI} `{!ZonesAPILaws API, !Reachable API}.

Lemma default_world_client l tok : tok ∈ api_tokens -> WorldClient (default_client l tok) tok.
Proof. intros Ht. split; [done|done|done|by rewrite reach_base|done|done|apply reach_url]. Qed.

(** A network that a call made at [t] copes with: requests take their time, fail
    and lose their replies in any pattern, but never more of them in a row than a
    call retries, only in ways that are retried, and all of that, the waits between
    attempts included, within the budget of one call. *)
Definition bearable (s : Solver) (t : Z) (l : list hop) : Prop :=
  let c := default_client slog_Default EmptyString in
  absorbable c (Z.to_nat defaultMaxRetries) (Z.to_nat defaultMaxRetries) l = true /\
  finish c 0 t l < t + requestBudget s.

(** The context of a call made at [t]. *)
Definition call_ctx (s : Solver) (t : Z) : Ctx := mkCtx (Some (t + requestBudget s)).

(** A challenge the solver can serve in a world: it routes, the Secret holds a
    token, the zone is a primary zone on the first page of that token's project,
    the cache answers with nothing else for it, and the FQDN and the key are of the
    alphabets cert-manager uses. *)
Record ready (s : Solver) (ch : ChallengeRequest) (cred : Credential) (ref : SecretRef)
    (zoneApex : string) (zid : Z) (tok : string) (w : world) : Prop := {
  rd_route : route_challenge ch = Ok (cred, ref, zoneApex);
  rd_secret : exists data, w_secrets w !! (sr_Namespace ref, sr_Name ref) = Some data /\
               token_of_data ref data = Ok tok;
  rd_token : tok ∈ api_tokens;
  rd_zone : page_id (api_page tok (w_api w)) zoneApex = Some zid;
  rd_primary : api_primary (w_api w) zid = true;
  rd_cache : cached w (SecretRef_String ref) zoneApex = None \/
             cached w (SecretRef_String ref) zoneApex = Some zid;
  rd_fqdn : ascii_text (ch_ResolvedFQDN ch);
  rd_key : all_bytes base64url (ch_Key ch) = true;
  rd_rrsetTTL : in_int64 (rrsetTTL s) = true
}.

(** ** Lemmas *)

Lemma quoteTXT_ascii key : all_bytes base64url key = true -> ascii_text (quoteTXT key).
Proof.
  intros H. unfold quoteTXT, ascii_text.
  rewrite strconv_Quote_plain by (eapply all_bytes_impl, H; apply base64url_plain).
  cbn [all_bytes]. rewrite all_bytes_app. simpl. rewrite !andb_true_r.
  eapply all_bytes_impl, H. intros c Hc. by apply quote_plain_ascii, base64url_plain.
Qed.

Lemma ready_fits s ch cred ref zoneApex zid tok w :
  ready s ch cred ref zoneApex zid tok w -> fits (challenge_task ref zoneApex zid ch) w.
Proof. intros [] i Hi. change (i = zid). simpl in Hi. destruct rd_cache0; congruence. Qed.

Lemma timely_call s t t' : timely (call_ctx s t) t' <-> t' < t + requestBudget s.
Proof.
  rewrite timely_alt. unfold call_ctx. simpl. split; [intros H; by apply H|by intros H dl [= <-]].
Qed.

Lemma bearable_absorbed s l tok w :
  bearable s (w_now w) (w_network w) ->
  absorbed (default_client l tok) (call_ctx s (w_now w)) w.
Proof. intros [Ha Ht]. split; [exact Ha|]. by apply timely_call. Qed.

Lemma bearable_budget s t l : bearable s t l -> 0 < requestBudget s.
Proof.
  intros [_ H]. pose proof (finish_no_sooner (default_client slog_Default EmptyString) eq_refl 0 t l).
  cbn zeta in H. lia.
Qed.

(** The set-up that [Present] and [CleanUp] share, among others. *)
Lemma holds_handle s kc l ch cred ref zoneApex tok w R G `{!Private R} Q data
    (body : Ctx -> prepared -> prog (option error)) :
  production s kc l -> route_challenge ch = Ok (cred, ref, zoneApex) -> 0 < requestBudget s ->
  PreOrder R -> PreOrder G ->
  (forall w', R w w' -> w_secrets w' !! (sr_Namespace ref, sr_Name ref) = Some data) ->
  token_of_data ref data = Ok tok ->
  (forall w', R w w' -> holds in_world R G
     (body (call_ctx s (w_now w)) (mkPrepared cred ref (Client_as_HCloudClient (default_client l tok)) zoneApex))
     Q w') ->
  holds in_world R G (handle s ch body) Q w.
Proof.
  intros Hp Hr Hpos HR HG Hd Ht Hb. unfold handle. intros w1 H1. cbn. split; [reflexivity|].
  rewrite (prepare_production s kc l), Hr by done. intros w2 H2.
  assert (R w w2) as H02 by (by transitivity w1). rewrite (own_now _ _ H1).
  change (mkCtx (Some (w_now w + requestBudget s))) with (call_ctx s (w_now w)).
  assert (expired (call_ctx s (w_now w)) (w_now w2) = None) as E.
  { rewrite (own_now _ _ H02). apply timely_call. lia. }
  cbn in E |- *. rewrite E, (Hd w2 H02). split; [reflexivity|]. rewrite Ht. cbn. by apply Hb.
Qed.

Section Call.
Context (s : Solver) (kc : rt_KubeClient) (l : Logger) (ch : ChallengeRequest) (cred : Credential)
  (ref : SecretRef) (zoneApex : string) (zid : Z) (tok : string) (w : world).
Context (Hp : production s kc l) (Hr : ready s ch cred ref zoneApex zid tok w)
  (Hb : bearable s (w_now w) (w_network w)).

#[local] Abbreviation T := (challenge_task ref zoneApex zid ch).
#[local] Abbreviation old := (api_rrsets (w_api w) !! tk_key T).

(** Among other calls, some of them about the same record set. *)
Section Among.
Context (P N : option RRSetState -> Prop) (HP : P old).

#[local] Abbreviation achieved := (achieves (call_ctx s (w_now w)) ch ref zoneApex zid N).

Lemma rely_within w' : (forall o, N o -> P o) -> rely T N w w' -> P (api_rrsets (w_api w') !! tk_key T).
Proof. intros HN H. destruct (rely_key _ _ _ _ H) as [->|HNo]; [done|by apply HN]. Qed.

Lemma holds_Present :
  presents (rrsetTTL s) (quoteTXT (ch_Key ch)) P N ->
  holds in_world (rely_own T N) (guar_within T N) (Present s (Some ch)) achieved w.
Proof.
  intros HPN. rewrite Present_handle. pose proof (ready_fits _ _ _ _ _ _ _ _ Hr) as Hf.
  destruct Hr as [Hrt (data & Hd & Ht) Hv Hz Hm _ Hfq Hk Httl].
  pose proof (default_world_client l tok Hv) as Hc.
  apply (holds_handle s kc l ch cred ref zoneApex tok w _ _ _ data); try done; try typeclasses eauto.
  { by eapply bearable_budget. }
  { intros w' [H _]. etransitivity; [apply H|done]. }
  intros w' H. apply (holds_present_prepared (default_client l tok) tok) with (P := P); try done.
  - by apply (absorbed_rely (default_client l tok) (rely_own T N) _ _ _ H), bearable_absorbed.
  - by apply H.
  - by apply (rely_zones _ _ _ _ (proj1 H)).
  - by apply (rely_zones _ _ _ _ (proj1 H)).
  - by apply quoteTXT_ascii.
  - apply rely_within; [apply HPN|apply H].
Qed.

Lemma holds_CleanUp :
  N None -> (forall o, N o -> P o) ->
  holds in_world (rely_own T N) (guar_within T N) (CleanUp s (Some ch)) achieved w.
Proof.
  intros Hnone HN. rewrite CleanUp_handle. pose proof (ready_fits _ _ _ _ _ _ _ _ Hr) as Hf.
  destruct Hr as [Hrt (data & Hd & Ht) Hv Hz Hm _ Hfq Hk Httl].
  pose proof (default_world_client l tok Hv) as Hc.
  apply (holds_handle s kc l ch cred ref zoneApex tok w _ _ _ data); try done; try typeclasses eauto.
  { by eapply bearable_budget. }
  { intros w' [H _]. etransitivity; [apply H|done]. }
  intros w' H. apply (holds_cleanup_prepared (default_client l tok) tok) with (P := P); try done.
  - by apply (absorbed_rely (default_client l tok) (rely_own T N) _ _ _ H), bearable_absorbed.
  - by apply H.
  - by apply (rely_zones _ _ _ _ (proj1 H)).
  - by apply (rely_zones _ _ _ _ (proj1 H)).
  - apply rely_within; [done|apply H].
Qed.
End Among.

(** With the record set to itself. *)
Lemma holds_Present_own (new := Some (presented (rrsetTTL s) (quoteTXT (ch_Key ch)) old)) :
  holds in_world (rely_own T (eq new)) (guar_within T (eq new)) (Present s (Some ch))
    (achieves (call_ctx s (w_now w)) ch ref zoneApex zid (eq new)) w.
Proof.
  apply (holds_Present (fun o => o = old \/ o = new)); [by left|]. split; [|split; [by right|done]].
  intros o [->| ->]; [done|]. unfold new. by destruct old.
Qed.

Lemma holds_CleanUp_own :
  holds in_world (rely_own T (eq None)) (guar_within T (eq None)) (CleanUp s (Some ch))
    (achieves (call_ctx s (w_now w)) ch ref zoneApex zid (eq None)) w.
Proof. by apply (holds_CleanUp (fun _ => True)). Qed.
End Call.

(** ** Alone *)

(** What a call leaves behind: the record sets, otherwise what it may change. *)
Definition leaves (T : Task) (w w' : world) (rrsets : gmap rrkey RRSetState) : Prop :=
  api_rrsets (w_api w') = rrsets /\ guar T w w' /\ known T w'.

Lemma guar_alter T w w' st :
  guar T w w' -> api_rrsets (w_api w') !! tk_key T = st ->
  api_rrsets (w_api w') = partial_alter (fun _ => st) (tk_key T) (api_rrsets (w_api w)).
Proof.
  intros H Hst. apply map_eq. intros k. destruct (decide (k = tk_key T)) as [->|Hk].
  - by rewrite lookup_partial_alter_eq.
  - rewrite lookup_partial_alter_ne by done. by apply H.
Qed.

Lemma present_world s kc l ch cred ref zoneApex zid tok w :
  let T := challenge_task ref zoneApex zid ch in
  production s kc l -> ready s ch cred ref zoneApex zid tok w ->
  bearable s (w_now w) (w_network w) ->
  exists w', run in_world (Present s (Some ch)) w = (None, w') /\
    w_now w' < w_now w + requestBudget s /\
    leaves T w w'
      (<[tk_key T := presented (rrsetTTL s) (quoteTXT (ch_Key ch)) (api_rrsets (w_api w) !! tk_key T)]>
         (api_rrsets (w_api w))).
Proof.
  intros T Hp Hr Hb.
  destruct (holds_run in_world _ _ _ _ _ _ (holds_Present_own s kc l ch cred ref zoneApex zid tok w Hp Hr Hb))
    as (r & w' & Hrun & [Hg _] & -> & Ht & Hk & Hst).
  exists w'. split; [done|]. split; [by apply timely_call|]. split; [|done]. by apply (guar_alter T).
Qed.

Lemma cleanup_world s kc l ch cred ref zoneApex zid tok w :
  let T := challenge_task ref zoneApex zid ch in
  production s kc l -> ready s ch cred ref zoneApex zid tok w ->
  bearable s (w_now w) (w_network w) ->
  exists w', run in_world (CleanUp s (Some ch)) w = (None, w') /\
    w_now w' < w_now w + requestBudget s /\
    leaves T w w' (delete (tk_key T) (api_rrsets (w_api w))).
Proof.
  intros T Hp Hr Hb.
  destruct (holds_run in_world _ _ _ _ _ _ (holds_CleanUp_own s kc l ch cred ref zoneApex zid tok w Hp Hr Hb))
    as (r & w' & Hrun & [Hg _] & -> & Ht & Hk & Hst).
  exists w'. split; [done|]. split; [by apply timely_call|]. split; [|done]. by apply (guar_alter T).
Qed.

(** What a call leaves, the next call finds, however much later. *)
Lemma ready_later s ch cred ref zoneApex zid tok w w' rrsets t net :
  ready s ch cred ref zoneApex zid tok w ->
  leaves (challenge_task ref zoneApex zid ch) w w' rrsets ->
  ready s ch cred ref zoneApex zid tok (later w' t net).
Proof.
  intros [] (_ & Hg & Hk). destruct (guar_zones _ _ _ Hg) as [Hz Hm]. split; try done; simpl.
  - by rewrite (guar_secrets _ _ _ Hg).
  - by destruct (Hz tok) as [_ ->].
  - by rewrite Hm.
  - by apply (known_cached (challenge_task ref zoneApex zid ch) (later w' t net)).
Qed.

(** The same when the cache has nothing for the zone. *)
Lemma ready_uncached s ch cred ref zoneApex zid tok w w' t net :
  ready s ch cred ref zoneApex zid tok w -> w_secrets w' = w_secrets w -> w_api w' = w_api w ->
  zc_store (w_cache w') !! mkZoneCacheKey (SecretRef_String ref) zoneApex = None ->
  ready s ch cred ref zoneApex zid tok (later w' t net).
Proof.
  intros [] Hs Ha Hc. split; try done; simpl; [by rewrite Hs|by rewrite Ha..|].
  left. unfold cached, zoneCache_Lookup. simpl. by rewrite Hc.
Qed.

(** ** Zones that are gone, out of sight, or secondary *)

Section Lost.
Context (s : Solver) (kc : rt_KubeClient) (l : Logger) (ch : ChallengeRequest) (cred : Credential)
  (ref : SecretRef) (zoneApex tok : string) (w : world) (data : gmap string string).
Context (Hp : production s kc l) (Hrt : route_challenge ch = Ok (cred, ref, zoneApex))
  (Hd : w_secrets w !! (sr_Namespace ref, sr_Name ref) = Some data)
  (Ht : token_of_data ref data = Ok tok) (Hv : tok ∈ api_tokens)
  (Hb : bearable s (w_now w) (w_network w)).

#[local] Abbreviation c := (default_client l tok).
#[local] Abbreviation ctx := (call_ctx s (w_now w)).
#[local] Abbreviation p := (mkPrepared cred ref (Client_as_HCloudClient c) zoneApex).
#[local] Abbreviation req :=
  (mkCreateRRSetRequest (relativeRecordName (ch_ResolvedFQDN ch) zoneApex) defaultRRSetType (Some (rrsetTTL s))
     [mkRecord (quoteTXT (ch_Key ch)) EmptyString] []).

#[local] Instance lost_client : WorldClient c tok.
Proof. by apply default_world_client. Qed.

Lemma lost_absorbed : absorbed c ctx w.
Proof. by apply bearable_absorbed. Qed.

(** A call alone in the world. *)
Lemma alone_handle T (body : Ctx -> prepared -> prog (option error)) Q :
  holds in_world eq (reading T) (body ctx p) Q w ->
  exists r w', run in_world (handle s ch body) w = (r, w') /\ reading T w w' /\ Q r w'.
Proof.
  intros H. apply (holds_run in_world eq (reading T)); [typeclasses eauto|].
  apply (holds_handle s kc l ch cred ref zoneApex tok w _ _ _ data); try done; try typeclasses eauto.
  - by eapply bearable_budget.
  - by intros w' <-.
  - by intros w' <-.
Qed.

(** The cache has the ID of a zone that is gone. *)
Lemma present_stale_world bad :
  ascii_text (ch_ResolvedFQDN ch) -> all_bytes base64url (ch_Key ch) = true -> in_int64 (rrsetTTL s) = true ->
  cached w (SecretRef_String ref) zoneApex = Some bad ->
  in_int64 bad = true -> (forall tok', bad ∉ map fst (api_zones tok' (w_api w))) ->
  exists e w', run in_world (Present s (Some ch)) w = (Some e, w') /\
    errors_Is e ErrNotFound = true /\ w_api w' = w_api w /\ w_secrets w' = w_secrets w /\
    zc_store (w_cache w') !! mkZoneCacheKey (SecretRef_String ref) zoneApex = None.
Proof.
  intros Hfq Hk Httl Hc Hi Hz. rewrite Present_handle.
  destruct (alone_handle (challenge_task ref zoneApex 0 ch) (fun ctx => present_prepared s ctx ch) (fun r w' =>
      timely ctx (w_now w') /\
      exists e, r = Some (wrapError "create RRSet" (Name cred) zoneApex (EAPI e)) /\ (StatusCode e =? 404) = true /\
        (StatusCode e = 404 ->
         zc_store (w_cache w') !! mkZoneCacheKey (SecretRef_String ref) zoneApex = None)))
    as (r & w' & Hrun & [Hg Ha] & _ & e & -> & He & Hs).
  - eapply (alone_present_fails c tok s ctx ch cred ref zoneApex 0 bad (fun st => st =? 404));
      [apply alone_known; [apply lost_absorbed|done]|by intros st H; to_prop; lia|].
    intros s' [Hsame _].
    destruct (law_create_missing tok s'
      (request_of c tok (CallCreateRRSet bad) (marshalled (Some (BodyCreate req)))) bad req) as (resp & Hserve & Hst);
      [apply create_request_ok; [by apply ascii_relativeRecordName|done|by apply quoteTXT_ascii]|done| |apply (request_of_api c tok)|].
    + intros tok'. destruct (Hsame tok') as [-> _]. apply Hz.
    + exists resp. split; [exact Hserve|]. by apply Z.eqb_eq.
  - to_prop. eexists _, w'. split; [exact Hrun|]. split; [simpl; by rewrite He|].
    split; [done|]. split; [apply Hg|]. by apply Hs.
Qed.

(** The zone is a secondary one. *)
Lemma present_secondary_world zid :
  page_id (api_page tok (w_api w)) zoneApex = Some zid -> api_primary (w_api w) zid = false ->
  cached w (SecretRef_String ref) zoneApex = None \/ cached w (SecretRef_String ref) zoneApex = Some zid ->
  exists e w',
    run in_world (Present s (Some ch)) w =
      (Some (wrapError "create RRSet" (Name cred) zoneApex (EAPI e)), w') /\
    refused (StatusCode e) = true /\ w_api w' = w_api w.
Proof.
  intros Hpg Hm Hc. rewrite Present_handle.
  destruct (alone_handle (challenge_task ref zoneApex zid ch) (fun ctx => present_prepared s ctx ch) (fun r w' =>
      timely ctx (w_now w') /\
      exists e, r = Some (wrapError "create RRSet" (Name cred) zoneApex (EAPI e)) /\ refused (StatusCode e) = true /\
        (StatusCode e = 404 ->
         zc_store (w_cache w') !! mkZoneCacheKey (SecretRef_String ref) zoneApex = None)))
    as (r & w' & Hrun & [Hg Ha] & _ & e & -> & He & _); [|by exists e, w'].
  eapply (alone_present_fails c tok s ctx ch cred ref zoneApex zid zid refused).
  - apply (alone_resolved c tok ctx ch ref zoneApex zid (fun _ => True)); [apply lost_absorbed| |done].
    intros i Hi. change (i = zid). simpl in Hi. destruct Hc; congruence.
  - intros st H. unfold refused in H. to_prop. lia.
  - intros s' [Hsame Hmode]. apply (law_secondary tok s' _ (CallCreateRRSet zid) (marshalled (Some (BodyCreate req)))); [done| | |apply (request_of_api c tok)].
    + destruct (Hsame tok) as [-> _]. apply page_id_in, law_page in Hpg. by apply (list_elem_of_fmap_2 fst _ _ Hpg).
    + simpl. by rewrite Hmode.
Qed.

(** The listing does not show it. *)
Lemma cleanup_unlisted_world :
  cached w (SecretRef_String ref) zoneApex = None ->
  page_id (api_page tok (w_api w)) zoneApex = None ->
  exists w', run in_world (CleanUp s (Some ch)) w = (None, w') /\ w_api w' = w_api w.
Proof.
  intros Hc Hpg. rewrite CleanUp_handle.
  destruct (alone_handle (challenge_task ref zoneApex 0 ch) (fun ctx => cleanup_prepared s ctx ch) (fun r _ => r = None))
    as (r & w' & Hrun & [Hg Ha] & ->); [|by exists w'].
  apply (reads_cleanup_unlisted c tok); [apply lost_absorbed|done|done].
Qed.
End Lost.

(** Another challenge for the same name, as a certificate for a domain and its
    wildcard has. *)
Definition with_key (ch : ChallengeRequest) (key : string) : ChallengeRequest :=
  mkChallengeRequest (ch_Config ch) (ch_ResourceNamespace ch) (ch_ResolvedFQDN ch) key.

Lemma ready_with_key s ch cred ref zoneApex zid tok w key :
  all_bytes base64url key = true ->
  ready s ch cred ref zoneApex zid tok w -> ready s (with_key ch key) cred ref zoneApex zid tok w.
Proof. intros Hk []. by split. Qed.
End World.
