(* ===== verification/FaultySolver.v ===== *)
(** [Present] and [CleanUp] in an environment that may fail them: at every moment
    the challenge's record set is what it was or is to become, a call that reports
    success has done its work, and none of its requests does harm that the API
    serves only later. *)
From S2P Require Import Prelude GoStrings Utf8 Runtime Quote Errors Routing RoutingSpec ValidateSpec Json Types ZoneCache.
From S2P Require Import Effects Client ClientSpec ClientPaths Interference ZonesAPI Adversity.
From S2P Require Import Endpoints WorldClient FaultyClient.
From S2P Require Import SolverConfig Secrets Solver RecordNames Tasks WorldSolver EndToEnd.

Section Within.
Context {RT : Runtime} {API : ZonesAPI}.

(** The requests of a call that began when the API was in [s0]. *)
Definition modest (T : Task) (P N : option RRSetState -> Prop) (s0 : api_state) : eff -> Prop :=
  sends (harmless (tk_kept T) (tk_key T) P N s0).

Section Solver.
Context {CM : CertManager} `{!ZonesAPILaws API}.
Context (c : Client) (tok : string) `{!WorldClient c tok}.

Section Task.
Context (T : Task) (P N : option RRSetState -> Prop) (HN : forall o, N o -> P o) (s0 : api_state).
#[local] Abbreviation R := (rely T N).
#[local] Abbreviation S := (modest T P N s0).
#[local] Abbreviation keeps := (Adversity.keeps happens S R (guar_within T N)).
#[local] Abbreviation reads := (Adversity.keeps happens S R (reading T)).

Lemma keeps_resolveZoneID w ctx :
  fits T w -> page_id (api_page tok (w_api w)) (tk_zone T) = Some (tk_zid T) ->
  reads (resolveZoneID ctx (Client_as_HCloudClient c) (tk_ref T) (tk_zone T)) (fun r _ =>
    r = Ok (tk_zid T) \/ exists e, r = Err e /\ unclear e) w.
Proof.
  intros Hf Hp. unfold resolveZoneID. fold (tk_cache T). apply (keeps_bind happens S R (reading T)).
  split; [done|]. intros w1 r w2 H1 Hm. pose proof (rely_fits T N _ _ H1 Hf) as Hf1.
  unfold happens, tk_cache in Hm.
  rewrite cached_lookup in Hm. injection Hm as <- <-. split; [split; [apply lookup_guar|done]|].
  intros w3 H3. destruct (cached w1 (tk_ref T) (tk_zone T)) as [i|] eqn:Ec.
  { intros w4 H4. left. by rewrite (Hf1 i Ec). }
  assert (page_id (api_page tok (w_api w3)) (tk_zone T) = Some (tk_zid T)) as Hp3.
  { apply (rely_zones T N _ _ H3), (rely_zones T N _ _ H1), Hp. }
  unfold try_bind. apply (keeps_bind happens S R (reading T)).
  eapply keeps_mono; [|apply (keeps_ListZones c tok (Zs := tk_kept T) R (reading T)); [typeclasses eauto|by apply list_harmless]].
  cbn beta. intros r w5 [(zs & s1 & -> & Hs1 & Hz)|(e & -> & He)].
  2:{ intros w6 H6. right. by exists e. }
  pose proof (find_zone_page zs (tk_zone T)) as Hfz. rewrite Hz, (proj1 Hs1 tok Hp3) in Hfz.
  destruct (find_zone zs (tk_zone T)) as [z|]; [|done]. injection Hfz as Hid.
  apply (keeps_bind happens S R (reading T)). split; [done|].
  intros w6 [] w7 H6 Hm. unfold happens in Hm. cbn in Hm.
  injection Hm as <-. rewrite Hid. split; [|by intros w8 H8 w9 H9; left].
  split; [|done]. split; try by auto. intros k. simpl.
  destruct (decide (k = tk_cache T)) as [->|Hk].
  - right. right. split; [done|]. eexists. split; [apply lookup_insert_eq|done].
  - left. by apply lookup_insert_ne.
Qed.

Lemma reads_within {A} (p : prog A) Q w : reads p Q w -> keeps p Q w.
Proof. apply keeps_weaken; [done|]. intros w1 w2. apply reading_within. Qed.

(** What is kept by all that happens: the zone, and the states of the record set. *)
Lemma keeps_kept {A} (p : prog A) Q w :
  P (api_rrsets (w_api w) !! tk_key T) -> keeps p Q w ->
  keeps p (fun a w' => (tk_kept T (w_api w) (w_api w') /\ P (api_rrsets (w_api w') !! tk_key T)) /\
    Q a w') w.
Proof.
  intros Hw. apply keeps_invariant; [| |by split]; intros w1 w2 H [Hz HP].
  - split; [transitivity (w_api w1); [done|apply H]|].
    destruct (rely_key _ _ _ _ H) as [->|HNo]; [done|by apply HN].
  - destruct H as [H HNo]. split; [transitivity (w_api w1); [done|apply same_zones_kept, H]|].
    destruct HNo as [->|HNo]; [done|by apply HN].
Qed.

(** What a call promises: success is not reported in vain. *)
Definition honest (r : option error) (w : world) : Prop :=
  r = None -> N (api_rrsets (w_api w) !! tk_key T).

(** The work is done and stays done. *)
Lemma keeps_done l level msg attrs w :
  N (api_rrsets (w_api w) !! tk_key T) -> keeps (LogAttrs l level msg attrs ;; Ret None) honest w.
Proof.
  intros Hw. assert (forall w1 w2, R w1 w2 -> N (api_rrsets (w_api w1) !! tk_key T) ->
    N (api_rrsets (w_api w2) !! tk_key T)) as HR.
  { intros w1 w2 H1 H. by destruct (rely_key _ _ _ _ H1) as [->|]. }
  apply (keeps_log _ (Zs := tk_kept T)); [typeclasses eauto|]. intros w1 H1 w2 H2 _. eauto.
Qed.
End Task.

(** ** The body of the handlers *)

Section Handlers.
Context (s : Solver) (ctx : Ctx) (ch : ChallengeRequest) (cred : Credential) (ref : SecretRef)
  (zoneApex : string) (zid : Z) (P N : option RRSetState -> Prop) (w0 : world).

#[local] Abbreviation T := (challenge_task ref zoneApex zid ch).
#[local] Abbreviation R := (rely T N).
#[local] Abbreviation G := (guar_within T N).
#[local] Abbreviation prepared := (mkPrepared cred ref (Client_as_HCloudClient c) zoneApex).
#[local] Abbreviation name := (relativeRecordName (ch_ResolvedFQDN ch) zoneApex).
#[local] Abbreviation keeps := (Adversity.keeps happens (modest T P N (w_api w0)) R G).
#[local] Abbreviation holding := (holding (Zs := tk_kept T) (w_api w0) zid name "TXT" P).

Context (Hzone : project_zone tok (tk_kept T) (w_api w0) zid) (HN : forall o, N o -> P o).

(** The zone is found or the call fails; the record set is not yet out of [P]. *)
Lemma keeps_resolved (f : res Z -> prog (option error)) w :
  fits T w -> page_id (api_page tok (w_api w)) zoneApex = Some zid -> holding w ->
  (forall e w', unclear e -> keeps (f (Err e)) (honest T N) w') ->
  (forall w', holding w' -> keeps (f (Ok zid)) (honest T N) w') ->
  keeps (bind (resolveZoneID ctx (Client_as_HCloudClient c) (SecretRef_String ref) zoneApex) f)
    (honest T N) w.
Proof.
  intros Hf Hp [Hz HP] Herr Hok. apply (keeps_bind happens _ R _).
  eapply keeps_mono; [|apply (keeps_kept T P N HN), reads_within; [done|];
    by apply (keeps_resolveZoneID T P N (w_api w0) w ctx Hf)].
  cbn beta. intros r w' [[Hz' HP'] [->|(e & -> & He)]]; [|by apply Herr].
  apply Hok. split; [by transitivity (w_api w)|done].
Qed.

Lemma keeps_present_prepared w :
  fits T w -> page_id (api_page tok (w_api w)) zoneApex = Some zid -> holding w ->
  ascii_text (ch_ResolvedFQDN ch) -> ascii_text (quoteTXT (ch_Key ch)) ->
  in_int64 (rrsetTTL s) = true -> presents (rrsetTTL s) (quoteTXT (ch_Key ch)) P N ->
  keeps (present_prepared s ctx ch prepared) (honest T N) w.
Proof.
  intros Hf Hp Hh Hfq Hq Httl (HPN & _ & Hnone). unfold present_prepared.
  pose proof (ascii_relativeRecordName _ zoneApex Hfq) as Hname.
  apply keeps_resolved; try done. intros w1 [Hz1 HP1]. set (req := mkCreateRRSetRequest _ _ _ _ _).
  change (hc_CreateRRSet (Client_as_HCloudClient c)) with (CreateRRSet c).
  apply (keeps_bind happens _ R _).
  eapply keeps_mono; [|apply (keeps_kept T P N HN (w_api w0)); [done|];
    apply (keeps_CreateRRSet c tok R G (w_api w0) zid name "TXT" P N); try done].
  2: { split; [by apply create_request_ok|]. do 2 (split; [done|]). split; [by apply HPN|done]. }
  cbn beta. intros r w2 [[Hz2 HP2] [Hr|(e & -> & -> & ->)]]; [|by intros w3 H3].
  destruct Hr as [[[v ->] HNo]|(e & -> & He & Hsome)]; [by apply keeps_done|]. rewrite He.
  unfold reconcileExisting. apply (keeps_bind happens _ R _).
  change (hc_SetRRSetRecords (Client_as_HCloudClient c)) with (SetRRSetRecords c).
  eapply keeps_mono; [|apply (keeps_SetRRSetRecords c tok R G (w_api w0) zid name "TXT" P N); try done].
  - cbn beta. intros r w3 [[[v ->] HNo]|(e' & -> & He')]; [by apply keeps_done|by intros w4 H4].
  - split; [by transitivity (w_api w1)|done].
  - do 2 (split; [done|]). split; [by repeat constructor|]. split; [by intros st Hst; apply HPN in Hst|done].
Qed.

Lemma keeps_cleanup_prepared w :
  fits T w -> page_id (api_page tok (w_api w)) zoneApex = Some zid -> holding w ->
  ascii_text (ch_ResolvedFQDN ch) -> N None ->
  keeps (cleanup_prepared s ctx ch prepared) (honest T N) w.
Proof.
  intros Hf Hp Hh Hfq Hnone. unfold cleanup_prepared. apply keeps_resolved; try done.
  { intros e w' [_ ->] w'' H. done. }
  intros w1 Hh1. change (hc_DeleteRRSet (Client_as_HCloudClient c)) with (DeleteRRSet c).
  apply (keeps_bind happens _ R _).
  eapply keeps_mono; [|apply (keeps_DeleteRRSet c tok R G (w_api w0) zid name "TXT" P N); try done].
  2: { split; [by apply ascii_relativeRecordName|done]. }
  cbn beta. intros r w2 [[Hr Ho]|(e & -> & [_ ->])]; [|by intros w3 H3].
  destruct Hr as [->|(e & -> & ->)]; by apply keeps_done.
Qed.
End Handlers.
End Solver.

(** ** The calls *)

Section Calls.
Context {CM : CertManager} `{!ZonesAPILaws API, !Reachable API}.
Context (s : Solver) (kc : rt_KubeClient) (l : Logger) (ch : ChallengeRequest) (cred : Credential)
  (ref : SecretRef) (zoneApex : string) (zid : Z) (tok : string) (w : world).
Context (Hp : production s kc l) (Hr : ready s ch cred ref zoneApex zid tok w).

#[local] Abbreviation T := (challenge_task ref zoneApex zid ch).

Context (P N : option RRSetState -> Prop) (HP : P (api_rrsets (w_api w) !! tk_key T))
  (HN : forall o, N o -> P o).
#[local] Abbreviation keeps :=
  (Adversity.keeps happens (modest T P N (w_api w)) (rely T N) (guar_within T N)).

Lemma ready_zone : project_zone tok (tk_kept T) (w_api w) zid.
Proof. destruct Hr as [_ _ _ Hz Hm _ _ _ _]. by apply kept_project_zone. Qed.

(** The set-up either fails, or gives the right client. *)
Lemma keeps_handle (body : Ctx -> prepared -> prog (option error)) :
  (forall ctx w', fits T w' -> page_id (api_page tok (w_api w')) zoneApex = Some zid ->
     holding (Zs := tk_kept T) (w_api w) zid (relativeRecordName (ch_ResolvedFQDN ch) zoneApex) "TXT" P w' ->
     keeps (body ctx (mkPrepared cred ref (Client_as_HCloudClient (default_client l tok)) zoneApex))
       (honest T N) w') ->
  keeps (handle s ch body) (honest T N) w.
Proof.
  intros Hb. pose proof (ready_fits _ _ _ _ _ _ _ _ Hr) as Hf.
  destruct Hr as [Hrt (data & Hd & Ht) _ Hz _ _ _ _ _].
  unfold handle. split; [done|]. intros w1 now w1' H1 ->. split; [reflexivity|]. cbn.
  rewrite (prepare_production s kc l), Hrt by done. split; [done|].
  intros w2 r w2' H2 [-> Hm]. split; [reflexivity|].
  assert (rely T N w w2) as H02 by (by transitivity w1).
  destruct r as [d|e]; [|by intros w3 H3].
  assert (d = data) as ->.
  { pose proof (rely_secret _ _ _ _ H02) as E. simpl in E. congruence. }
  cbn. rewrite Ht. apply Hb.
  - by apply H02.
  - by apply (rely_zones _ _ _ _ H02).
  - split; [apply H02|]. by apply (rely_within ch ref zoneApex zid w P N).
Qed.

Lemma keeps_Present :
  presents (rrsetTTL s) (quoteTXT (ch_Key ch)) P N -> keeps (Present s (Some ch)) (honest T N) w.
Proof.
  intros HPN. pose proof ready_zone as Hzn. rewrite Present_handle. apply keeps_handle. intros ctx w' Hf Hz Hh.
  destruct Hr as [_ _ Hv _ _ _ Hfq Hkey Httl]. pose proof (default_world_client l tok Hv) as Hc.
  apply (keeps_present_prepared _ tok); try done. by apply quoteTXT_ascii.
Qed.

Lemma keeps_CleanUp : N None -> keeps (CleanUp s (Some ch)) (honest T N) w.
Proof.
  intros Hnone. pose proof ready_zone as Hzn. rewrite CleanUp_handle. apply keeps_handle. intros ctx w' Hf Hz Hh.
  destruct Hr as [_ _ Hv _ _ _ Hfq Hkey Httl]. pose proof (default_world_client l tok Hv) as Hc.
  by apply (keeps_cleanup_prepared _ tok).
Qed.
End Calls.
End Within.
