(* ===== verification/Steps.v ===== *)
(** How long programs run: [returns_within n p] says that [p] has returned after at
    most [n] events, whatever is answered; the bounds of the client's and the
    solver's programs. *)
From S2P Require Import Prelude GoStrings Utf8 Runtime Quote Errors Routing RoutingSpec ValidateSpec Json Types ZoneCache.
From S2P Require Import Effects Client ClientSpec ClientPaths ZonesAPI Endpoints WorldClient SolverConfig.
From S2P Require Import Secrets Solver RecordNames Tasks WorldSolver EndToEnd.

Section Steps.
Context {RT : Runtime}.

Fixpoint returns_within {A} (n : nat) (p : prog A) {struct p} : Prop :=
  match p with
  | Ret _ => True
  | Op e k => match n with O => False | S n' => forall r, returns_within n' (k r) end
  end.

Lemma returns_mono {A} n m (p : prog A) : (n <= m)%nat -> returns_within n p -> returns_within m p.
Proof.
  revert n m. induction p as [a|e k IH]; intros n m Hnm; [done|].
  destruct n as [|n]; [done|]. destruct m as [|m]; [lia|]. simpl. intros H r.
  eapply IH; [|apply H]. lia.
Qed.

Lemma returns_bind {A B} n m (p : prog A) (f : A -> prog B) :
  returns_within n p -> (forall a, returns_within m (f a)) -> returns_within (n + m) (bind p f).
Proof.
  revert n. induction p as [a|e k IH]; intros n Hp Hf; simpl.
  - eapply returns_mono; [|apply Hf]. lia.
  - destruct n as [|n]; [done|]. simpl. intros r. by apply IH.
Qed.

Lemma returns_perform e : returns_within 1 (perform e).
Proof. done. Qed.

Lemma returns_exec {A} n (p : prog A) tr a :
  returns_within n p -> exec p tr a -> (length tr <= n)%nat.
Proof.
  revert n tr. induction p as [a'|e k IH]; intros n tr; simpl.
  - intros _ [-> _]. simpl. lia.
  - destruct n as [|n]; [done|]. intros H (r & tr' & -> & Ht). simpl.
    pose proof (IH r n tr' (H r) Ht). lia.
Qed.

(** ** The client *)

(** A client whose token is at hand and whose clock is the real one. *)
Class Brisk (c : Client) : Prop := {
  brisk_token : forall ctx, returns_within 0 (token c ctx);
  brisk_clock : clock c = realClock
}.

Context (c : Client) `{!Brisk c}.

Lemma steps_handle_response {A} method path (out : dest A) resp :
  returns_within 1 (handle_response c method path out resp).
Proof.
  unfold handle_response. destruct (is_2xx _); [done|]. apply (returns_bind 1 0); [|done].
  unfold parseAPIError. destruct (default _ (error_body (resp_Body resp))). rewrite brisk_clock.
  by destruct (_ =? 429).
Qed.

Lemma steps_doOnce {A} ctx method path body (out : dest A) :
  returns_within 5 (doOnce c ctx method path body out).
Proof.
  unfold doOnce. apply (returns_bind 0 5); [apply brisk_token|]. intros [tok|e]; [|done].
  apply (returns_bind 1 4); [done|]. intros rctx. destruct (rt_NewRequest_error _ _); [done|].
  apply (returns_bind 1 3); [done|]. intros _. apply (returns_bind 1 2); [done|].
  intros [resp|msg]; apply (returns_bind 1 1); try done. intros _. apply steps_handle_response.
Qed.

Lemma steps_wait k last ctx method path :
  returns_within 2 (wait_before (S k) last c ctx method path).
Proof.
  unfold wait_before. apply (returns_bind 1 1); [done|]. intros _. rewrite brisk_clock.
  cbn [clock_Sleep realClock]. unfold realClock_Sleep. apply (returns_bind 1 0); [|done].
  by destruct (_ <=? 0).
Qed.

(** Seven events per attempt, two fewer for the first. *)
Lemma steps_retries {A} n : forall k last ctx method path body (out : dest A),
  returns_within (7 * n) (do_loop n (S k) last c ctx method path body out).
Proof.
  induction n as [|n IH]; intros k last ctx method path body out; [done|].
  rewrite do_loop_succ. replace (7 * S n)%nat with (2 + (5 + 7 * n))%nat by lia.
  apply returns_bind; [apply steps_wait|]. intros [e|]; [done|].
  apply returns_bind; [apply steps_doOnce|]. intros [a|e]; [done|].
  destruct (isRetryable e); [apply IH|done].
Qed.

Lemma steps_do_request {A} ctx method path body (out : dest A) :
  returns_within (7 * rounds c - 2) (do_request c ctx method path body out).
Proof.
  rewrite do_request_loop. destruct (rounds c) as [|n]; [done|]. rewrite do_loop_succ.
  replace (7 * S n - 2)%nat with (0 + (5 + 7 * n))%nat by lia.
  apply returns_bind; [done|]. intros [e|]; [done|].
  apply returns_bind; [apply steps_doOnce|]. intros [a|e]; [done|].
  destruct (isRetryable e); [apply steps_retries|done].
Qed.
End Steps.

(** ** The solver *)

Section Solver.
Context {RT : Runtime} {CM : CertManager}.

Section Client.
Context (l : Logger) (tok : string).

#[local] Abbreviation c := (default_client l tok).
#[local] Abbreviation client := (Client_as_HCloudClient (default_client l tok)).

#[local] Instance default_brisk : Brisk c.
Proof. by split. Qed.

Lemma steps_api {A} ctx method path body (out : dest A) :
  returns_within 47 (do_request c ctx method path body out).
Proof. apply (steps_do_request c). Qed.

Lemma steps_ListZones ctx : returns_within 47 (ListZones c ctx).
Proof. apply (returns_bind 47 0); [apply steps_api|]. by intros []. Qed.

Lemma steps_DeleteRRSet ctx zid name rrType :
  returns_within 47 (DeleteRRSet c ctx zid name rrType).
Proof. apply (returns_bind 47 0); [apply steps_api|done]. Qed.

Lemma steps_resolveZoneID ctx ref zoneApex :
  returns_within 49 (resolveZoneID ctx client ref zoneApex).
Proof.
  apply (returns_bind 1 48); [done|]. intros [id|]; [done|].
  apply (returns_bind 47 1); [apply steps_ListZones|]. intros [zs|e]; [|done].
  by destruct (find_zone _ _).
Qed.

Lemma steps_present s ctx ch cred ref zoneApex :
  returns_within 144 (present_prepared s ctx ch (mkPrepared cred ref client zoneApex)).
Proof.
  apply (returns_bind 49 95); [apply steps_resolveZoneID|]. intros [zid|e]; [|done].
  apply (returns_bind 47 48); [apply steps_api|]. intros [rr|e]; [done|].
  destruct (errors_Is e ErrConflict).
  - apply (returns_bind 47 1); [apply steps_api|]. by intros [].
  - by destruct (errors_Is e ErrNotFound).
Qed.

Lemma steps_cleanup s ctx ch cred ref zoneApex :
  returns_within 97 (cleanup_prepared s ctx ch (mkPrepared cred ref client zoneApex)).
Proof.
  apply (returns_bind 49 48); [apply steps_resolveZoneID|].
  intros [zid|e]; [|by destruct (errors_Is e ErrNotFound)].
  apply (returns_bind 47 1); [apply steps_DeleteRRSet|]. intros [e|]; [|done].
  by destruct (errors_Is e ErrNotFound).
Qed.
End Client.

Lemma steps_handle s kc l ch n (body : Ctx -> prepared -> prog (option error)) :
  production s kc l ->
  (forall ctx cred ref z tok, returns_within n
     (body ctx (mkPrepared cred ref (Client_as_HCloudClient (default_client l tok)) z))) ->
  returns_within (2 + n) (handle s ch body).
Proof.
  intros Hp Hb. apply (returns_bind 1 (1 + n)); [done|]. intros ctx.
  rewrite (prepare_production s kc l) by done.
  destruct (route_challenge ch) as [[[cred ref] z]|e]; [|done]. simpl. intros [data|e]; simpl; [|done].
  destruct (token_of_data ref data); [apply Hb|done].
Qed.

Lemma steps_Present s kc l ch : production s kc l -> returns_within 146 (Present s ch).
Proof.
  intros Hp. destruct ch as [ch|]; [|done]. rewrite Present_handle.
  apply (steps_handle s kc l ch 144); [done|]. intros. apply steps_present.
Qed.

Lemma steps_CleanUp s kc l ch : production s kc l -> returns_within 99 (CleanUp s ch).
Proof.
  intros Hp. destruct ch as [ch|]; [|done]. rewrite CleanUp_handle.
  apply (steps_handle s kc l ch 97); [done|]. intros. apply steps_cleanup.
Qed.
End Solver.
