(* ===== verification/Pool.v ===== *)
(** Calls at the same time.  The webhook serves every challenge in a goroutine of
    its own; the goroutines share the solver's zone cache, the Secrets and the API,
    which other programs change too.  A pool is the world with the calls that are
    under way, each as what is left of its program, with the time it is for it and
    with what the network still has in store for it; its steps are the events of
    the calls, in any order, and the doings of others.

    Requests and waits of different calls overlap, so each call has a clock of its
    own, which its own requests and waits move on.  An execution in real time is
    a run in which the call whose clock is behind goes next; the other runs are
    allowed too.

    Every call keeps to its guarantee and so within what the others rely on:
    that is [run_doing].  The mutex of the cache makes each of its methods one
    event. *)
From S2P Require Import Prelude GoStrings Utf8 Runtime Quote Errors Routing RoutingSpec ValidateSpec Json Types ZoneCache.
From S2P Require Import Effects Client ClientSpec ClientPaths Interference ZonesAPI Endpoints WorldClient.
From S2P Require Import SolverConfig ConfigTheorems Secrets Solver RecordNames Tasks WorldSolver EndToEnd Steps.

Section Pool.
Context {RT : Runtime} {API : ZonesAPI} {A : Type}.

Record thread := mkThread { th_prog : prog A; th_now : Z; th_network : list hop }.

Definition pool : Type := world * list thread.

(** The world as a call sees it, and as it leaves it to the others. *)
Definition view (w : world) (t : thread) : world := later w (th_now t) (th_network t).
Definition leave (w w' : world) : world := later w' (w_now w) (w_network w).

(** The next event of the [i]-th call. *)
Definition fire (i : nat) (p : pool) : option pool :=
  let '(w, ts) := p in
  match ts !! i with
  | Some (mkThread (Op e k) t net) =>
      let '(r, w') := in_world e (later w t net) in
      Some (leave w w', <[i := mkThread (k r) (w_now w') (w_network w')]> ts)
  | _ => None
  end.

(** [pool_run Env n p p']: [p] becomes [p'] with [n] events of the calls; in
    between, others change the world as [Env] allows. *)
Inductive pool_run (Env : relation world) : nat -> pool -> pool -> Prop :=
| run_done p : pool_run Env 0 p p
| run_event n i p p' p'' : fire i p = Some p' -> pool_run Env n p' p'' -> pool_run Env (S n) p p''
| run_others n w w' ts p : Env w w' -> pool_run Env n (w', ts) p -> pool_run Env n (w, ts) p.

(** A schedule: whose turn it is. *)
Fixpoint schedule (turns : list nat) (p : pool) : option pool :=
  match turns with
  | [] => Some p
  | i :: turns' => p' ← fire i p; schedule turns' p'
  end.

Lemma schedule_run Env turns p p' :
  schedule turns p = Some p' -> pool_run Env (length turns) p p'.
Proof.
  revert p. induction turns as [|i turns IH]; intros p; simpl; [by intros [= ->]; constructor|].
  destruct (fire i p) as [p1|] eqn:E; [|done]. simpl. intros H. by eapply run_event, IH.
Qed.

Definition returned (t : thread) (a : A) : Prop := th_prog t = Ret a.

(** ** Termination *)

Lemma sum_list_insert ns i n :
  ns !! i = Some (S n) -> sum_list ns = S (sum_list (<[i := n]> ns)).
Proof.
  revert i. induction ns as [|m ns IH]; intros [|i]; simpl; [done..|by intros [= ->]|].
  intros H. rewrite (IH i H). lia.
Qed.

Lemma fire_steps i w ts w' ts' ns :
  fire i (w, ts) = Some (w', ts') ->
  Forall2 (fun n t => returns_within n (th_prog t)) ns ts ->
  exists ns', Forall2 (fun n t => returns_within n (th_prog t)) ns' ts' /\
    sum_list ns = S (sum_list ns').
Proof.
  simpl. intros H HF. destruct (ts !! i) as [[[a|e k] t net]|] eqn:Ei; [done| |done].
  destruct (in_world e (later w t net)) as [r w1]. injection H as <- <-.
  destruct (Forall2_lookup_r _ _ _ _ _ HF Ei) as (n & Hn & Hr). simpl in Hr.
  destruct n as [|n]; [done|]. exists (<[i := n]> ns). split.
  - apply Forall2_insert; [done|]. simpl. apply Hr.
  - by apply sum_list_insert.
Qed.

Lemma run_returns Env n p p' ns :
  pool_run Env n p p' -> Forall2 (fun n t => returns_within n (th_prog t)) ns (snd p) ->
  exists ns', Forall2 (fun n t => returns_within n (th_prog t)) ns' (snd p').
Proof.
  intros H. revert ns. induction H as [p|n i [w ts] [w' ts'] p Hf _ IH|n w w' ts p _ _ IH];
    intros ns HF; [by exists ns| |by eapply IH].
  destruct (fire_steps _ _ _ _ _ _ Hf HF) as (ns' & HF' & _). by eapply IH.
Qed.

(** No run has more events than the calls can perform between them. *)
Lemma run_steps Env n p p' ns :
  pool_run Env n p p' -> Forall2 (fun n t => returns_within n (th_prog t)) ns (snd p) ->
  (n <= sum_list ns)%nat.
Proof.
  intros H. revert ns. induction H as [p|n i [w ts] [w' ts'] p Hf _ IH|n w w' ts p _ _ IH];
    intros ns HF; [lia| |by apply IH].
  destruct (fire_steps _ _ _ _ _ _ Hf HF) as (ns' & HF' & ->). specialize (IH ns' HF'). lia.
Qed.

Lemma run_app Env n m p p' p'' :
  pool_run Env n p p' -> pool_run Env m p' p'' -> pool_run Env (n + m) p p''.
Proof.
  intros H. induction H as [p|n i p p1 p2 Hf _ IH|n w w' ts p Hw _ IH]; intros Hm; [done|..].
  - by eapply run_event, IH.
  - by eapply run_others, IH.
Qed.

(** Calls that have not all returned can go on. *)
Lemma fire_ready p :
  Forall (fun t => exists a, returned t a) (snd p) \/ exists i p', fire i p = Some p'.
Proof.
  destruct p as [w ts]. cbn [snd].
  destruct (Forall_Exists_dec (fun t => exists a, returned t a) (fun t => exists e k, th_prog t = Op e k)
    (fun t => match th_prog t as q return {exists a, q = Ret a} + {exists e k, q = Op e k} with
              | Ret a => left (ex_intro _ a eq_refl)
              | Op e k => right (ex_intro _ e (ex_intro _ k eq_refl))
              end) ts) as [H|H]; [by left|].
  right. apply Exists_exists in H as ([p t net] & Hin & e & k & Ht). simpl in Ht. subst p.
  apply list_elem_of_lookup in Hin as [i Hi]. exists i. unfold fire. rewrite Hi.
  destruct (in_world e (later w t net)) as [r w']. by eexists.
Qed.

(** However far the calls have come, they can be completed. *)
Lemma can_return p ns :
  Forall2 (fun n t => returns_within n (th_prog t)) ns (snd p) ->
  exists turns p', schedule turns p = Some p' /\
    Forall (fun t => exists a, returned t a) (snd p').
Proof.
  remember (sum_list ns) as m eqn:Em. revert ns p Em.
  induction m as [|m IH]; intros ns [w ts] Em HF;
    destruct (fire_ready (w, ts)) as [H|(i & [w' ts'] & Hf)];
    try (by exists [], (w, ts)); destruct (fire_steps _ _ _ _ _ _ Hf HF) as (ns' & HF' & E); [lia|].
  destruct (IH ns' (w', ts')) as (turns & p' & Ht & Hp); [lia|done|].
  exists (i :: turns), p'. simpl. simpl in Hf. rewrite Hf. by split.
Qed.

(** ** Partial correctness *)

(** What a call is about, what it wants its record set to become, and what it
    promises on its return. *)
Record spec := mkSpec {
  sp_task : Task;
  sp_new : option RRSetState -> Prop;
  sp_post : A -> world -> Prop
}.

Definition sp_aim (sp : spec) : Task * (option RRSetState -> Prop) := (sp_task sp, sp_new sp).

Definition doing (w : world) (sp : spec) (t : thread) : Prop :=
  holds in_world (rely_own (sp_task sp) (sp_new sp)) (guar_within (sp_task sp) (sp_new sp)) (th_prog t)
    (sp_post sp) (view w t).

(** Different calls are compatible. *)
Definition apart (aims : list (Task * (option RRSetState -> Prop))) : Prop := forall i j a a',
  i <> j -> aims !! i = Some a -> aims !! j = Some a' -> compatible (fst a) (snd a) (fst a') (snd a').

Lemma doing_rely w w' sp t :
  rely (sp_task sp) (sp_new sp) (view w t) (view w' t) -> doing w sp t -> doing w' sp t.
Proof. intros H. apply holds_rely; [typeclasses eauto|by split]. Qed.

Lemma fire_doing sps w ts i w' ts' :
  apart (map sp_aim sps) -> Forall2 (doing w) sps ts -> fire i (w, ts) = Some (w', ts') ->
  Forall2 (doing w') sps ts' /\ exists sp, sp ∈ sps /\ guar (sp_task sp) w w'.
Proof.
  intros Ha HF. simpl. destruct (ts !! i) as [[[a|e k] t net]|] eqn:Ei; [done| |done].
  destruct (in_world e (later w t net)) as [r w1] eqn:Ew. intros [= <- <-].
  destruct (Forall2_lookup_r _ _ _ _ _ HF Ei) as (sp & Hsp & Hd).
  unfold doing, view in Hd. cbn [th_prog th_now th_network holds] in Hd.
  specialize (Hd (later w t net) ltac:(done)). rewrite Ew in Hd. destruct Hd as [Hg Hd].
  apply (guar_later _ _ _ _ (w_now w) (w_network w) (w_now w) (w_network w)) in Hg as Hg'.
  change (later (later w t net) (w_now w) (w_network w)) with (later w (w_now w) (w_network w)) in Hg'.
  rewrite later_same in Hg'. fold (leave w w1) in Hg'.
  split; [|exists sp; split; [by eapply list_elem_of_lookup_2|apply Hg']].
  apply Forall2_same_length_lookup_2; [by rewrite length_insert; eapply Forall2_length|].
  intros j sp' u Hj Hu. destruct (decide (i = j)) as [<-|Hij].
  - rewrite list_lookup_insert_eq in Hu by (by eapply lookup_lt_Some). simplify_eq.
    unfold doing, view, leave. cbn [th_prog th_now th_network]. by destruct w1.
  - rewrite list_lookup_insert_ne in Hu by done. apply (doing_rely w); [|by eapply Forall2_lookup_lr].
    apply (guar_rely (sp_task sp) (sp_new sp)); [|by apply guar_later|done].
    by apply (Ha i j (sp_aim sp) (sp_aim sp')); [|apply list_lookup_fmap_Some; eauto..].
Qed.

(** ** The others *)

(** What other programs may do while some tasks are under way: change record sets,
    zones and Secrets that are not the tasks', while time passes.  The cache is the
    solver's alone. *)
Record outside (Ts : list Task) (w w' : world) : Prop := {
  out_time : w_now w <= w_now w';
  out_cache : w_cache w' = w_cache w;
  out_secrets : forall T, T ∈ Ts -> w_secrets w' !! tk_secret T = w_secrets w !! tk_secret T;
  out_zones : forall T, T ∈ Ts -> tk_kept T (w_api w) (w_api w');
  out_rrsets : forall T, T ∈ Ts ->
    api_rrsets (w_api w') !! tk_key T = api_rrsets (w_api w) !! tk_key T
}.

Lemma outside_refl Ts w : outside Ts w w.
Proof. by split; [lia|..]. Qed.

Lemma outside_mono Ts Ts' w w' : Ts' ⊆ Ts -> outside Ts w w' -> outside Ts' w w'.
Proof. intros H []. split; auto. Qed.

(** The cache's clock does not go back. *)
Definition monotone_clock (w : world) : Prop :=
  forall t t', t <= t' -> zc_now (w_cache w) t <= zc_now (w_cache w) t'.

Lemma outside_rely Ts w w' T N t t' l l' :
  outside Ts w w' -> T ∈ Ts ->
  (t' = t \/ monotone_clock w /\ t <= t') -> rely T N (later w t l) (later w' t' l').
Proof.
  intros [] HT Ht. split; simpl; [by apply out_secrets0|by apply out_zones0|by left; apply out_rrsets0| |].
  - intros Hf i Hi. apply Hf. revert Hi. unfold cached, zoneCache_Lookup. simpl.
    rewrite out_cache0. destruct (zc_store _ !! _) as [e|]; [|done].
    destruct (entry_expiresAt e <? zc_now _ t') eqn:E; [done|]. apply Z.ltb_ge in E.
    assert (zc_now (w_cache w) t <= zc_now (w_cache w) t') by (destruct Ht as [->|[Hm Ht]]; [done|by apply Hm]).
    by rewrite (proj2 (Z.ltb_ge _ _)) by lia.
  - intros Hk e. unfold known in Hk. simpl in *. rewrite out_cache0. apply Hk.
Qed.

(** ** Runs *)

Section Run.
Context (Env : relation world) (sps : list spec).
Context (Ha : apart (map sp_aim sps))
  (He : forall w w', Env w w' -> outside (map sp_task sps) w w').

Lemma others_doing w w' ts : Env w w' -> Forall2 (doing w) sps ts -> Forall2 (doing w') sps ts.
Proof.
  intros Hw HF. apply Forall2_same_length_lookup_2; [by eapply Forall2_length|]. intros j sp t Hj Ht.
  apply (doing_rely w); [|by eapply Forall2_lookup_lr].
  eapply outside_rely; [by apply He| |by left]. apply (list_elem_of_fmap_2 sp_task).
  by eapply list_elem_of_lookup_2.
Qed.

Lemma run_doing n p p' :
  pool_run Env n p p' -> Forall2 (doing (fst p)) sps (snd p) -> Forall2 (doing (fst p')) sps (snd p').
Proof.
  intros H. induction H as [p|n i [w ts] [w' ts'] p Hf _ IH|n w w' ts p Hw _ IH]; intros HF; [done|..];
    apply IH; cbn [fst snd] in *; [by eapply fire_doing|by eapply others_doing].
Qed.

(** Record sets that belong to no task change only by the doings of others. *)
Lemma run_untouched n p p' k :
  (forall w w', Env w w' -> api_rrsets (w_api w') !! k = api_rrsets (w_api w) !! k) ->
  k ∉ map (fun sp => tk_key (sp_task sp)) sps ->
  pool_run Env n p p' -> Forall2 (doing (fst p)) sps (snd p) ->
  api_rrsets (w_api (fst p')) !! k = api_rrsets (w_api (fst p)) !! k.
Proof.
  intros Hk Hn H. induction H as [p|n i [w ts] [w' ts'] p Hf _ IH|n w w' ts p Hw _ IH];
    intros HF; [done|..]; cbn [fst snd] in *.
  - destruct (fire_doing _ _ _ _ _ _ Ha HF Hf) as (HF' & sp & Hsp & Hg). rewrite IH by done.
    apply Hg. intros ->. apply Hn. by apply (list_elem_of_fmap_2 (fun sp => tk_key (sp_task sp))).
  - rewrite IH; [by apply Hk|by eapply others_doing].
Qed.
End Run.
End Pool.
