(* ===== verification/Jobs.v ===== *)
(** The calls cert-manager makes, as data: which operation, on which challenge, and
    where the challenge leads.  The theorems on concurrent calls and on sessions
    of calls are about lists of them. *)
From S2P Require Import Prelude GoStrings Utf8 Runtime Quote Errors Routing RoutingSpec ValidateSpec Json Types ZoneCache.
From S2P Require Import Effects Client ClientSpec ClientPaths Interference ZonesAPI Endpoints WorldClient.
From S2P Require Import SolverConfig ConfigTheorems Secrets Solver RecordNames Tasks WorldSolver EndToEnd.
From S2P Require Import Steps Pool.

Section Jobs.
Context {RT : Runtime} {CM : CertManager} {API : ZonesAPI}.

(** A call of the solver, with where its challenge leads, when it is made and what
    the network has in store for its requests. *)
Inductive operation := DoPresent | DoCleanUp.

#[export] Instance operation_eq_dec : EqDecision operation.
Proof. solve_decision. Defined.

Record job := mkJob {
  j_op : operation;
  j_ch : ChallengeRequest;
  j_cred : Credential;
  j_ref : SecretRef;
  j_zone : string;
  j_zid : Z;
  j_tok : string;
  j_at : Z;
  j_network : list hop
}.

Definition operate (s : Solver) (op : operation) (ch : option ChallengeRequest) :
    prog (option error) :=
  match op with DoPresent => Present s ch | DoCleanUp => CleanUp s ch end.

Definition job_thread (s : Solver) (j : job) : thread :=
  mkThread (operate s (j_op j) (Some (j_ch j))) (j_at j) (j_network j).

Definition job_key (j : job) : rrkey := challenge_key (j_ch j) (j_zone j) (j_zid j).

Definition job_task (j : job) : Task := challenge_task (j_ref j) (j_zone j) (j_zid j) (j_ch j).

Definition job_ready (s : Solver) (w : world) (j : job) : Prop :=
  ready s (j_ch j) (j_cred j) (j_ref j) (j_zone j) (j_zid j) (j_tok j) w /\
  no_byte "/" (sr_Namespace (j_ref j)) /\ no_byte "#" (sr_Name (j_ref j)).

(** The world when a job is done. *)
Definition at_job (w : world) (j : job) : world := later w (j_at j) (j_network j).

(** The network lets it succeed. *)
Definition job_borne (s : Solver) (j : job) : Prop := bearable s (j_at j) (j_network j).

(** What a job makes of its record set, and what it leaves, had it the world to
    itself. *)
Definition job_effect (s : Solver) (j : job) (old : option RRSetState) : option RRSetState :=
  match j_op j with
  | DoPresent => Some (presented (rrsetTTL s) (quoteTXT (ch_Key (j_ch j))) old)
  | DoCleanUp => None
  end.

Definition job_result (s : Solver) (w : world) (j : job) : option RRSetState :=
  job_effect s j (api_rrsets (w_api w) !! job_key j).

(** Jobs at the same time: what the record set of one of them may become, by itself
    or by another job about it, and where it may be on the way. *)
Definition job_new (s : Solver) (w : world) (jobs : list job) (j : job) (o : option RRSetState) : Prop :=
  exists j', j' ∈ jobs /\ job_key j' = job_key j /\ o = job_result s w j'.

Definition job_around (s : Solver) (w : world) (jobs : list job) (j : job) (o : option RRSetState) : Prop :=
  o = api_rrsets (w_api w) !! job_key j \/ job_new s w jobs j o.

(** None presents what another cleans up. *)
Definition harmonious (jobs : list job) : Prop := forall j j',
  j ∈ jobs -> j' ∈ jobs -> job_key j = job_key j' -> j_op j = j_op j'.

Lemma job_presents s w jobs j :
  harmonious jobs -> j ∈ jobs -> j_op j = DoPresent ->
  presents (rrsetTTL s) (quoteTXT (ch_Key (j_ch j))) (job_around s w jobs j) (job_new s w jobs j).
Proof.
  intros Hh Hj Hop. assert (forall j', j' ∈ jobs -> job_key j' = job_key j -> j_op j' = DoPresent) as Hall
    by (intros j' Hj' E; by rewrite (Hh j' j)).
  unfold job_around. split; [|split; [by right|]].
  - intros o Ho. exists j. do 2 (split; [done|]). unfold job_result, job_effect. rewrite Hop.
    destruct Ho as [->|(j' & Hj' & E & ->)]; [done|]. unfold job_result, job_effect. rewrite (Hall j'), E by done.
    by destruct (api_rrsets (w_api w) !! job_key j).
  - intros (j' & Hj' & E & He). unfold job_result, job_effect in He. by rewrite (Hall j') in He.
Qed.

Lemma job_cleans s w jobs j : j ∈ jobs -> j_op j = DoCleanUp -> job_new s w jobs j None.
Proof. intros Hj Hop. exists j. unfold job_result, job_effect. by rewrite Hop. Qed.

Definition job_spec (s : Solver) (w : world) (jobs : list job) (j : job) : spec :=
  mkSpec (job_task j) (job_new s w jobs j)
    (achieves (call_ctx s (j_at j)) (j_ch j) (j_ref j) (j_zone j) (j_zid j) (job_new s w jobs j)).

Lemma job_doing `{!ZonesAPILaws API, !Reachable API} s kc l w jobs j :
  production s kc l -> harmonious jobs -> j ∈ jobs -> job_ready s (at_job w j) j ->
  job_borne s j -> doing w (job_spec s w jobs j) (job_thread s j).
Proof.
  intros Hp Hh Hj [Hr _] Hb. unfold doing, view, job_thread, operate.
  cbn [sp_task sp_new sp_post th_prog th_now th_network]. destruct (j_op j) eqn:Hop.
  - apply (holds_Present s kc l _ _ _ _ _ _ (at_job w j) Hp Hr Hb (job_around s w jobs j));
      [by left|exact (job_presents s w jobs j Hh Hj Hop)].
  - apply (holds_CleanUp s kc l _ _ _ _ _ _ (at_job w j) Hp Hr Hb (job_around s w jobs j));
      [by left|exact (job_cleans s w jobs j Hj Hop)|by right].
Qed.

(** Jobs that read the same Secret for the same zone mean the same zone. *)
Lemma jobs_agree s w t l t' l' j j' :
  job_ready s (later w t l) j -> job_ready s (later w t' l') j' -> agree_on_zones (job_task j) (job_task j').
Proof.
  intros [H Hn] [H' Hn']. unfold agree_on_zones, job_task, tk_cache, tk_zid. simpl.
  intros [= Hs Hz]. apply SecretRef_String_inj in Hs; [|naive_solver..].
  destruct H as [_ (d & Hd & Ht) _ Hp _ _ _ _ _], H' as [_ (d' & Hd' & Ht') _ Hp' _ _ _ _ _].
  simpl in *. rewrite Hs in Hd, Ht. assert (d = d') as -> by congruence.
  assert (j_tok j = j_tok j') as E by congruence. rewrite E, Hz in Hp. congruence.
Qed.

Definition job_aim (s : Solver) (w : world) (jobs : list job) (j : job) :
    Task * (option RRSetState -> Prop) := (job_task j, job_new s w jobs j).

Lemma jobs_apart s w jobs :
  Forall (fun j => exists t l, job_ready s (later w t l) j) jobs -> apart (map (job_aim s w jobs) jobs).
Proof.
  intros Hr i i' T T' Hi Hj Hj'. apply list_lookup_fmap_Some in Hj, Hj'.
  destruct Hj as (j & -> & Hj), Hj' as (j' & -> & Hj'). split.
  - destruct (Forall_lookup_1 _ _ _ _ Hr Hj) as (t & l & H), (Forall_lookup_1 _ _ _ _ Hr Hj') as (t' & l' & H').
    by eapply jobs_agree.
  - intros E o (j1 & Hj1 & E1 & ->). exists j1. split; [done|]. split; [|done]. etransitivity; [exact E1|exact E].
Qed.

Lemma job_tasks s w jobs js : map sp_task (map (job_spec s w jobs) js) = map job_task js.
Proof. apply map_map. Qed.

Lemma job_aims s w jobs js : map sp_aim (map (job_spec s w jobs) js) = map (job_aim s w jobs) js.
Proof. apply map_map. Qed.

Lemma jobs_doing `{!ZonesAPILaws API, !Reachable API} s kc l w jobs :
  production s kc l -> harmonious jobs -> Forall (fun j => job_ready s (at_job w j) j) jobs ->
  Forall (job_borne s) jobs ->
  Forall2 (doing w) (map (job_spec s w jobs) jobs) (map (job_thread s) jobs).
Proof.
  intros Hp Hh H Hb. apply Forall2_fmap_2, Forall2_same_length_lookup_2; [done|].
  intros i j j' Hj Hj'. assert (j' = j) as -> by congruence.
  apply (job_doing s kc l); [done|done|by eapply list_elem_of_lookup_2|
    exact (Forall_lookup_1 _ _ _ _ H Hj)|exact (Forall_lookup_1 _ _ _ _ Hb Hj)].
Qed.

(** Jobs about different record sets. *)
Lemma NoDup_job jobs j j' :
  NoDup (map job_key jobs) -> j ∈ jobs -> j' ∈ jobs -> job_key j = job_key j' -> j = j'.
Proof.
  intros Hn Hj Hj' E. apply list_elem_of_lookup in Hj as [i Hi], Hj' as [i' Hi'].
  assert (i = i') as <-; [|congruence].
  eapply (NoDup_lookup _ _ _ (job_key j) Hn); rewrite list_lookup_fmap; [by rewrite Hi|by rewrite Hi', E].
Qed.

Lemma NoDup_harmonious jobs : NoDup (map job_key jobs) -> harmonious jobs.
Proof. intros Hn j j' Hj Hj' E. by rewrite (NoDup_job jobs j j'). Qed.

Lemma NoDup_around s w jobs j o :
  NoDup (map job_key jobs) -> j ∈ jobs -> job_around s w jobs j o ->
  o = api_rrsets (w_api w) !! job_key j \/ o = job_result s w j.
Proof.
  intros Hn Hj [Ho|(j' & Hj' & E & ->)]; [by left|right]. by rewrite (NoDup_job jobs j' j).
Qed.

(** The world keeps the jobs' Secrets, zones and record sets but for the jobs. *)
Definition bystanders (jobs : list job) : relation world := outside (map job_task jobs).

(** ** One after the other *)

(** A job that the world is ready for at any time: its cache has no wrong entry for
    it, not even an expired one. *)
Definition job_steady (s : Solver) (w : world) (j : job) : Prop :=
  job_ready s w j /\ known (job_task j) w.

(** A session: jobs done one after the other. *)
Fixpoint serve (s : Solver) (jobs : list job) (w : world) : list (option error) * world :=
  match jobs with
  | [] => ([], w)
  | j :: jobs' =>
      let '(r, w') := run in_world (operate s (j_op j) (Some (j_ch j))) (at_job w j) in
      let '(rs, w'') := serve s jobs' w' in (r :: rs, w'')
  end.

(** The same among others, who may act between the calls. *)
Inductive session (Env : relation world) (s : Solver) :
    list job -> world -> list (option error) -> world -> Prop :=
| session_end w : session Env s [] w [] w
| session_job j jobs w r w1 rs w2 :
    run in_world (operate s (j_op j) (Some (j_ch j))) (at_job w j) = (r, w1) ->
    session Env s jobs w1 rs w2 -> session Env s (j :: jobs) w (r :: rs) w2
| session_others jobs w w1 rs w2 :
    Env w w1 -> session Env s jobs w1 rs w2 -> session Env s jobs w rs w2.

Lemma serve_session Env s jobs w :
  session Env s jobs w (fst (serve s jobs w)) (snd (serve s jobs w)).
Proof.
  revert w. induction jobs as [|j jobs IH]; intros w; simpl; [constructor|].
  destruct (run _ _ _) as [r w1] eqn:Hr. specialize (IH w1).
  destruct (serve s jobs w1) as [rs w2]. by eapply session_job.
Qed.

Lemma session_app Env s jobs jobs' w rs w1 rs' w2 :
  session Env s jobs w rs w1 -> session Env s jobs' w1 rs' w2 ->
  session Env s (jobs ++ jobs') w (rs ++ rs') w2.
Proof.
  intros H H'. induction H as [w|j jobs w r w1 rs w3 Hr _ IH|jobs w w1 rs w3 Hw _ IH]; simpl.
  - done.
  - eapply session_job; [done|by apply IH].
  - eapply session_others; [done|by apply IH].
Qed.

(** What a session makes of one record set: the jobs about it, in turn. *)
Definition session_result (s : Solver) (k : rrkey) (jobs : list job)
    (old : option RRSetState) : option RRSetState :=
  foldl (fun st j => job_effect s j st) old (filter (fun j => job_key j = k) jobs).

Lemma job_steady_later s w j t l : job_steady s w j -> job_ready s (later w t l) j.
Proof.
  intros [[H Hn] Hk]. split; [|done]. destruct H. split; try done.
  exact (known_cached (job_task j) (later w t l) Hk).
Qed.

(** A job alone: what it leaves suits all the others. *)
Lemma job_alone `{!ZonesAPILaws API, !Reachable API} s kc l w j :
  production s kc l -> job_steady s w j -> job_borne s j ->
  exists w', run in_world (operate s (j_op j) (Some (j_ch j))) (at_job w j) = (None, w') /\
    guar (job_task j) w w' /\ api_rrsets (w_api w') !! job_key j = job_result s w j.
Proof.
  intros Hp Hj Hb. destruct (job_steady_later s w j (j_at j) (j_network j) Hj) as [Hr _].
  unfold job_result, job_effect, operate. destruct (j_op j).
  - destruct (present_world s kc l _ _ _ _ _ _ (at_job w j) Hp Hr Hb) as (w' & Hrun & _ & He & [] & _).
    exists w'. split; [done|]. split; [done|]. rewrite He. apply lookup_insert_eq.
  - destruct (cleanup_world s kc l _ _ _ _ _ _ (at_job w j) Hp Hr Hb) as (w' & Hrun & _ & He & [] & _).
    exists w'. split; [done|]. split; [done|]. rewrite He. apply lookup_delete_eq.
Qed.

(** What a job finds in place stays in place as long as its Secret and the zones do,
    and nothing wrong gets into the cache. *)
Lemma job_steady_world s w w' j :
  w_secrets w' !! tk_secret (job_task j) = w_secrets w !! tk_secret (job_task j) ->
  tk_kept (job_task j) (w_api w) (w_api w') -> known (job_task j) w' ->
  job_steady s w j -> job_steady s w' j.
Proof.
  intros Hs [Hz Hzm] Hk [[H Hn] _]. split; [|done]. split; [|done].
  destruct H as [Hrt (d & Hd & Ht) Hv Hp Hm _ Hfq Hkey Httl]. split; try done.
  - exists d. split; [|done]. etransitivity; [exact Hs|exact Hd].
  - by apply Hz.
  - by apply Hzm.
  - exact (known_cached (job_task j) w' Hk).
Qed.

Lemma job_steady_guar s w w' j j' :
  job_steady s w j -> job_steady s w j' -> guar (job_task j') w w' -> job_steady s w' j.
Proof.
  intros Hj Hj' Hg. apply (job_steady_world s w); [by rewrite (guar_secrets _ _ _ Hg)|apply same_zones_kept, Hg| |done].
  apply (guar_known (job_task j') (job_task j) w w'); [|done|apply Hj].
  apply (jobs_agree s w 0 [] 0 []); by apply job_steady_later.
Qed.

(** A process that is started anew has an empty cache. *)
Lemma job_steady_cache s w cache j :
  cache = w_cache w \/ zc_store cache = ∅ -> job_steady s w j -> job_steady s (set_cache w cache) j.
Proof.
  intros Hc Hj. apply (job_steady_world s w); [done|reflexivity| |done].
  intros e. simpl. destruct Hc as [->| ->]; [apply Hj|by rewrite lookup_empty].
Qed.

Lemma jobs_steady_others s w w' jobs :
  bystanders jobs w w' -> Forall (job_steady s w) jobs -> Forall (job_steady s w') jobs.
Proof.
  intros [_ Hc Hs Hz _] H. rewrite Forall_forall in *. intros j Hj.
  assert (job_task j ∈ map job_task jobs) as HT by (by apply (list_elem_of_fmap_2 job_task)).
  apply (job_steady_world s w); [by apply Hs|by apply Hz| |by apply H].
  - intros e. rewrite Hc. by apply H.
Qed.

(** Doing a job over that was done, or was not, comes to the same. *)
Lemma job_effect_again s w j o :
  o = api_rrsets (w_api w) !! job_key j \/ o = job_result s w j -> job_effect s j o = job_result s w j.
Proof. unfold job_result, job_effect. intros [->| ->]; by destruct (j_op j). Qed.

Lemma session_result_cons s k j jobs old :
  session_result s k (j :: jobs) old =
  session_result s k jobs (if decide (job_key j = k) then job_effect s j old else old).
Proof. unfold session_result. rewrite filter_cons. by destruct (decide _). Qed.

Lemma job_key_result s w w' j k :
  guar (job_task j) w w' -> api_rrsets (w_api w') !! job_key j = job_result s w j ->
  api_rrsets (w_api w') !! k =
    if decide (job_key j = k) then job_effect s j (api_rrsets (w_api w) !! k)
    else api_rrsets (w_api w) !! k.
Proof.
  intros Hg Hk. destruct (decide (job_key j = k)) as [<-|Hne]; [done|].
  apply (guar_rrsets _ _ _ Hg). by apply not_eq_sym.
Qed.

(** Sessions succeed, and make of the record sets what [session_result] says; what
    the others leave of a zone is left of it. *)
Lemma session_steady `{!ZonesAPILaws API, !Reachable API} Env s kc l jobs w rs w' :
  production s kc l -> session Env s jobs w rs w' ->
  (forall w1 w2, Env w1 w2 -> bystanders jobs w1 w2) ->
  Forall (job_steady s w) jobs -> Forall (job_borne s) jobs ->
  rs = map (fun _ => None) jobs /\
  (forall k, (forall w1 w2, Env w1 w2 -> api_rrsets (w_api w2) !! k = api_rrsets (w_api w1) !! k) ->
     api_rrsets (w_api w') !! k = session_result s k jobs (api_rrsets (w_api w) !! k)) /\
  (forall T, (forall w1 w2, Env w1 w2 -> tk_kept T (w_api w1) (w_api w2)) ->
     tk_kept T (w_api w) (w_api w')).
Proof.
  intros Hp H. induction H as [w|j jobs w r w1 rs w2 Hr _ IH|jobs w w1 rs w2 Hw _ IH]; intros He Hs Hb.
  - by split; [|split].
  - apply Forall_cons in Hs as [Hj Hs], Hb as [Hbj Hb].
    destruct (job_alone s kc l w j Hp Hj Hbj) as (w1' & Hr' & Hg & Hk). rewrite Hr in Hr'.
    injection Hr' as -> <-. destruct IH as (-> & IH & IHz); [| |done|].
    { intros wa wb Hab. eapply outside_mono; [|by apply He]. set_solver. }
    { eapply Forall_impl; [exact Hs|]. intros j' Hj'. exact (job_steady_guar s w w1 j' j Hj' Hj Hg). }
    split; [done|]. split.
    + intros k Hek. by rewrite IH, session_result_cons, (job_key_result s w w1 j k).
    + intros T HT. transitivity (w_api w1); [apply same_zones_kept, Hg|by apply IHz].
  - destruct IH as (-> & IH & IHz); [done|by apply (jobs_steady_others s w); [apply He|]|done|].
    split; [done|]. split; [intros k Hek; by rewrite IH, (Hek _ _ Hw)|].
    intros T HT. transitivity (w_api w1); [by apply HT|by apply IHz].
Qed.

Lemma serve_steady `{!ZonesAPILaws API, !Reachable API} s kc l jobs w :
  production s kc l -> Forall (job_steady s w) jobs -> Forall (job_borne s) jobs ->
  exists w', serve s jobs w = (map (fun _ => None) jobs, w') /\
    (forall T, tk_kept T (w_api w) (w_api w')) /\
    forall k, api_rrsets (w_api w') !! k = session_result s k jobs (api_rrsets (w_api w) !! k).
Proof.
  intros Hp Hs Hb. pose proof (serve_session eq s jobs w) as H.
  destruct (session_steady eq s kc l jobs w _ _ Hp H) as (Hrs & Hk & Hz); [|done|done|].
  { intros w1 w2 <-. apply outside_refl. }
  exists (snd (serve s jobs w)). split; [by rewrite <- Hrs; destruct (serve _ _ _)|].
  split; [intros T; apply Hz|intros k; apply Hk]; by intros w1 w2 <-.
Qed.

(** The same jobs once more, at other times and with other networks. *)
Definition redone (tn : Z * list hop) (j : job) : job :=
  mkJob (j_op j) (j_ch j) (j_cred j) (j_ref j) (j_zone j) (j_zid j) (j_tok j) (fst tn) (snd tn).

Definition again (redo : list (Z * list hop)) (jobs : list job) : list job := zip_with redone redo jobs.

Lemma again_steady s w redo jobs :
  Forall (job_steady s w) jobs -> Forall (job_steady s w) (again redo jobs).
Proof.
  revert redo. induction jobs as [|j jobs IH]; intros [|tn redo] H; [by constructor..|].
  apply Forall_cons in H as [H Hs]. constructor; [exact H|by apply IH].
Qed.

Lemma again_borne s redo jobs :
  Forall (fun tn => bearable s (fst tn) (snd tn)) redo -> Forall (job_borne s) (again redo jobs).
Proof.
  intros H. revert jobs. induction H as [|tn redo Hn _ IH]; intros [|j jobs]; [by constructor..|].
  constructor; [exact Hn|apply IH].
Qed.

(** Each of them has its record set to itself. *)
Lemma again_other s k redo jobs old :
  k ∉ map job_key jobs -> session_result s k (again redo jobs) old = old.
Proof.
  revert jobs. induction redo as [|tn redo IH]; intros [|j jobs] Hk; [done..|].
  apply not_elem_of_cons in Hk as [Hne Hk]. unfold again. simpl. rewrite session_result_cons.
  rewrite decide_False; [by apply IH|]. intros E. by destruct Hne.
Qed.

Lemma again_own s redo jobs old j :
  length redo = length jobs -> NoDup (map job_key jobs) -> j ∈ jobs ->
  session_result s (job_key j) (again redo jobs) old = job_effect s j old.
Proof.
  revert jobs old. induction redo as [|tn redo IH]; intros [|j' jobs] old Hlen Hn Hj; try done;
    [by apply elem_of_nil in Hj|].
  apply NoDup_cons in Hn as [Hk Hn]. unfold again. simpl. rewrite session_result_cons.
  apply elem_of_cons in Hj as [->|Hj].
  - rewrite decide_True by done. by apply again_other.
  - rewrite decide_False; [apply IH; [by injection Hlen|done|done]|].
    intros E. apply Hk. change (job_key j' = job_key j) in E. rewrite E.
    by apply (list_elem_of_fmap_2 job_key).
Qed.
End Jobs.
