(* ===== verification/FaultyPool.v ===== *)
(** Calls at the same time in an environment that may fail them: the pool of
    [Pool], with [happens] for [in_world], and with requests that the API may serve
    once more, whenever.  A state of such a run is also what a process leaves that
    is killed there: the calls go no further, the API stays. *)
From S2P Require Import Prelude GoStrings Utf8 Runtime Quote Errors Routing RoutingSpec ValidateSpec Json Types ZoneCache.
From S2P Require Import Effects Client ClientSpec ClientPaths Interference ZonesAPI Adversity.
From S2P Require Import Endpoints WorldClient FaultyClient.
From S2P Require Import SolverConfig ConfigTheorems Secrets Solver RecordNames Tasks WorldSolver EndToEnd FaultySolver.
From S2P Require Import Steps Pool Jobs.

Section FaultyPool.
Context {RT : Runtime} {API : ZonesAPI}.

(** The world, the requests that have been sent, and what is left of the calls. *)
Record scene := mkScene {
  sc_world : world;
  sc_sent : list Request;
  sc_calls : list (prog (option error))
}.

Definition request_in (e : eff) : list Request := match e with EDo _ _ req => [req] | _ => [] end.

(** [adverse_run Env n s s']: [s] becomes [s'] by [n] events of the calls, which go
    as [happens] allows, in any order, and by the doings of others.  A request that
    was ever sent may be served at any later time, as when it was delayed while
    the client gave it up, or repeated on its way. *)
Inductive adverse_run (Env : relation world) : nat -> scene -> scene -> Prop :=
| adv_done s : adverse_run Env 0 s s
| adv_event n i w sent ts e k r w' s :
    ts !! i = Some (Op e k) -> happens e w r w' ->
    adverse_run Env n (mkScene w' (request_in e ++ sent) (<[i := k r]> ts)) s ->
    adverse_run Env (S n) (mkScene w sent ts) s
| adv_late n w sent ts req s :
    req ∈ sent -> adverse_run Env n (mkScene (set_api w (snd (api_serve req (w_api w)))) sent ts) s ->
    adverse_run Env n (mkScene w sent ts) s
| adv_others n w w' sent ts s :
    Env w w' -> adverse_run Env n (mkScene w' sent ts) s -> adverse_run Env n (mkScene w sent ts) s.

(** An execution of such a run: whose turn it is and what befalls him, or which
    request is served once more. *)
Inductive turn := Turn (i : nat) (x : fate) | Late (j : nat).

Definition bearable_turn (t : turn) : bool :=
  match t with Turn _ x => bearable_fate x | Late _ => true end.

Definition events (turns : list turn) : nat :=
  length (List.filter (fun t => match t with Turn _ _ => true | Late _ => false end) turns).

Fixpoint suffer (turns : list turn) (s : scene) : option scene :=
  match turns with
  | [] => Some s
  | Turn i x :: turns' =>
      match sc_calls s !! i with
      | Some (Op e k) =>
          let '(r, w') := meet x e (sc_world s) in
          suffer turns' (mkScene w' (request_in e ++ sc_sent s) (<[i := k r]> (sc_calls s)))
      | _ => None
      end
  | Late j :: turns' =>
      match sc_sent s !! j with
      | Some req =>
          let w := sc_world s in
          suffer turns' (mkScene (set_api w (snd (api_serve req (w_api w)))) (sc_sent s) (sc_calls s))
      | None => None
      end
  end.

Lemma suffer_run Env turns s s' :
  forallb bearable_turn turns = true -> suffer turns s = Some s' -> adverse_run Env (events turns) s s'.
Proof.
  revert s. induction turns as [|[i x|j] turns IH]; intros [w sent ts]; simpl.
  - intros _ [= ->]. constructor.
  - intros Hx H. to_prop. destruct (ts !! i) as [[a|e k]|] eqn:Hi; [done| |done].
    destruct (meet x e w) as [r w'] eqn:Hm. eapply adv_event; [done|by eapply meet_happens|by apply IH].
  - intros Hx H. destruct (sent !! j) as [req|] eqn:Hj; [|done].
    eapply adv_late; [by eapply list_elem_of_lookup_2|by apply IH].
Qed.

(** What a call is about, and where its record set may be on the way and in the end. *)
Record fspec := mkFspec {
  fs_task : Task;
  fs_way : option RRSetState -> Prop;
  fs_new : option RRSetState -> Prop
}.

Definition fs_aim (sp : fspec) : Task * (option RRSetState -> Prop) := (fs_task sp, fs_new sp).

Definition fs_harmless (s0 : api_state) (sp : fspec) : Request -> Prop :=
  harmless (tk_kept (fs_task sp)) (tk_key (fs_task sp)) (fs_way sp) (fs_new sp) s0.

Definition striving (s0 : api_state) (w : world) (sp : fspec) (p : prog (option error)) : Prop :=
  keeps happens (sends (fs_harmless s0 sp)) (rely (fs_task sp) (fs_new sp))
    (guar_within (fs_task sp) (fs_new sp)) p
    (honest (fs_task sp) (fs_new sp)) w /\
  fs_way sp (api_rrsets (w_api w) !! tk_key (fs_task sp)).

(** No event moves the clock: it is the others that do. *)
Lemma happens_now e w r w' : happens e w r w' -> w_now w' = w_now w.
Proof.
  destruct e; simpl; try (by intros ->).
  - unfold exchange. destruct (api_serve _ _) as [resp s]. by intros [[_ ->]|[_ [->| ->]]].
  - by intros [-> _].
  - destruct (zoneCache_Lookup _ _ _ _). by intros [= _ <-].
  - by intros [= _ <-].
  - by intros [= _ <-].
Qed.

Lemma striving_rely s0 w w' sp p :
  (forall o, fs_new sp o -> fs_way sp o) ->
  rely (fs_task sp) (fs_new sp) w w' ->
  striving s0 w sp p -> striving s0 w' sp p.
Proof.
  intros HN H [Hk Hs]. split.
  - by eapply keeps_rely; [typeclasses eauto|..].
  - destruct (rely_key _ _ _ _ H) as [E|E]; [by rewrite E|by apply HN].
Qed.

(** The state of a run: all calls strive, and no request that was sent does harm. *)
Record orderly (s0 : api_state) (sps : list fspec) (s : scene) : Prop := {
  od_calls : Forall2 (striving s0 (sc_world s)) sps (sc_calls s);
  od_sent : forall req, req ∈ sc_sent s -> exists sp, sp ∈ sps /\ fs_harmless s0 sp req;
  od_zones : forall sp, sp ∈ sps -> tk_kept (fs_task sp) s0 (w_api (sc_world s))
}.

Section Run.
Context (Env : relation world) (s0 : api_state) (sps : list fspec).
Context (Ha : apart (map fs_aim sps)) (HN : forall sp o, sp ∈ sps -> fs_new sp o -> fs_way sp o).
Context (He : forall w w', Env w w' -> outside (map fs_task sps) w w').

(** What one call does the others bear. *)
Lemma others_striving w w' ts i sp j sp' p :
  Forall2 (striving s0 w) sps ts -> sps !! i = Some sp -> guar_within (fs_task sp) (fs_new sp) w w' ->
  w_now w' = w_now w -> i <> j -> sps !! j = Some sp' -> ts !! j = Some p -> striving s0 w' sp' p.
Proof.
  intros HF Hi Hg Hnow Hij Hj Hp. eapply striving_rely; [|..|by eapply Forall2_lookup_lr].
  { intros o. apply HN. by eapply list_elem_of_lookup_2. }
  apply (guar_rely (fs_task sp) (fs_new sp)); [|done..].
  by apply (Ha i j (fs_aim sp) (fs_aim sp')); [|apply list_lookup_fmap_Some; eauto..].
Qed.

Lemma orderly_event w sent ts i e k r w' :
  orderly s0 sps (mkScene w sent ts) -> ts !! i = Some (Op e k) -> happens e w r w' ->
  orderly s0 sps (mkScene w' (request_in e ++ sent) (<[i := k r]> ts)) /\
  exists sp, sp ∈ sps /\ guar (fs_task sp) w w'.
Proof.
  intros [HF Hs Hz] Hi Hm. cbn [sc_world sc_sent sc_calls] in *.
  destruct (Forall2_lookup_r _ _ _ _ _ HF Hi) as (sp & Hsp & [Hk Ho]). destruct Hk as [Hsafe Hk].
  destruct (Hk _ _ _ ltac:(done) Hm) as [Hg Hk']. pose proof (happens_now _ _ _ _ Hm) as Hnow.
  split; [|exists sp; by split; [eapply list_elem_of_lookup_2|apply Hg]].
  split; cbn [sc_world sc_sent sc_calls].
  - apply Forall2_same_length_lookup_2; [by rewrite length_insert; eapply Forall2_length|].
    intros j sp' t Hj Ht. destruct (decide (i = j)) as [<-|Hij].
    + rewrite list_lookup_insert_eq in Ht by (by eapply lookup_lt_Some). simplify_eq.
      split; [done|]. destruct Hg as [_ [->|Hst]]; [done|].
      apply HN; [by eapply list_elem_of_lookup_2|done].
    + rewrite list_lookup_insert_ne in Ht by done. by apply (others_striving w w' ts i sp j sp').
  - intros req [H|H]%elem_of_app; [|by apply Hs]. exists sp. split; [by eapply list_elem_of_lookup_2|].
    destruct e; try by apply elem_of_nil in H. apply list_elem_of_singleton in H as ->. exact Hsafe.
  - intros sp' Hin. transitivity (w_api w); [by apply Hz|apply same_zones_kept, Hg].
Qed.

Lemma orderly_late w sent ts req (w' := set_api w (snd (api_serve req (w_api w)))) :
  orderly s0 sps (mkScene w sent ts) -> req ∈ sent ->
  orderly s0 sps (mkScene w' sent ts) /\ exists sp, sp ∈ sps /\ guar (fs_task sp) w w'.
Proof.
  intros [HF Hs Hz] Hreq. cbn [sc_world sc_sent sc_calls] in *.
  destruct (Hs req Hreq) as (sp & Hsp & Hh). pose proof Hsp as Hin. apply list_elem_of_lookup in Hsp as [i Hi].
  destruct (Forall2_lookup_l _ _ _ _ _ HF Hi) as (p & Hp & Hst).
  destruct (Hh (w_api w) (Hz sp Hin) (proj2 Hst)) as (Hz' & Hoff & Hkey).
  assert (guar_within (fs_task sp) (fs_new sp) w w') as Hg by (split; [split; by auto|done]).
  split; [|exists sp; by split; [|apply Hg]]. split; cbn [sc_world sc_sent sc_calls]; [|done|].
  2: { intros sp' Hin'. transitivity (w_api w); [by apply Hz|by apply same_zones_kept]. }
  apply Forall2_same_length_lookup_2; [by eapply Forall2_length|]. intros j sp' t Hj Ht.
  destruct (decide (i = j)) as [<-|Hij]; [|by apply (others_striving w w' ts i sp j sp')].
  simplify_eq. apply (striving_rely s0 w); [by intros o; apply HN| |done].
  split; auto. by apply same_zones_kept.
Qed.

Lemma orderly_others w w' sent ts :
  monotone_clock w -> Env w w' -> orderly s0 sps (mkScene w sent ts) -> orderly s0 sps (mkScene w' sent ts).
Proof.
  intros Hm Hw [HF Hs Hz]. cbn [sc_world sc_sent sc_calls] in *.
  split; cbn [sc_world sc_sent sc_calls]; [|done|].
  2: { intros sp Hsp. transitivity (w_api w); [by apply Hz|].
       eapply out_zones; [by apply He|by apply (list_elem_of_fmap_2 fs_task)]. }
  apply Forall2_same_length_lookup_2; [by eapply Forall2_length|].
  intros j sp t Hj Ht. assert (sp ∈ sps) as Hsp by (by eapply list_elem_of_lookup_2).
  eapply striving_rely; [by intros o; apply HN| |by eapply Forall2_lookup_lr].
  pose proof (He _ _ Hw) as Ho. rewrite <- (later_same w), <- (later_same w').
  eapply outside_rely; [done|by apply (list_elem_of_fmap_2 fs_task)|]. right. split; [done|apply Ho].
Qed.

(** However far the calls have come, they strive on; and what no call and none of
    the others disturbs stays. *)
Lemma adverse_orderly (I : world -> Prop) n s s' :
  (forall sp w w', sp ∈ sps -> guar (fs_task sp) w w' -> I w -> I w') ->
  (forall w w', Env w w' -> I w -> I w') ->
  adverse_run Env n s s' -> monotone_clock (sc_world s) -> I (sc_world s) ->
  orderly s0 sps s -> orderly s0 sps s' /\ I (sc_world s').
Proof.
  intros Hg Ho H.
  assert (forall sp w w', guar (fs_task sp) w w' -> monotone_clock w -> monotone_clock w') as Hclock.
  { intros sp w w' Hgs Hc. unfold monotone_clock. by destruct (guar_clock _ _ _ Hgs) as [_ ->]. }
  induction H as [s|n i w sent ts e k r w' s Hi Hm _ IH|n w sent ts req s Hreq _ IH|n w w' sent ts s Hw _ IH];
    intros Hc HI Hord; [done|..]; cbn [sc_world] in *.
  - destruct (orderly_event _ _ _ _ _ _ _ _ Hord Hi Hm) as (Hord' & sp & Hsp & Hgs).
    apply IH; [by eapply Hclock|by eapply Hg|done].
  - destruct (orderly_late _ _ _ _ Hord Hreq) as (Hord' & sp & Hsp & Hgs).
    apply IH; [by eapply Hclock|by eapply Hg|done].
  - apply IH; [|by eapply Ho|by eapply orderly_others].
    unfold monotone_clock. by rewrite (out_cache _ _ _ (He _ _ Hw)).
Qed.
End Run.
End FaultyPool.

(** ** Jobs *)

Section Jobs.
Context {RT : Runtime} {CM : CertManager} {API : ZonesAPI}.

Definition job_prog (s : Solver) (j : job) : prog (option error) := operate s (j_op j) (Some (j_ch j)).

(** A job started in [w], among others. *)
Definition job_fspec (s : Solver) (w : world) (jobs : list job) (j : job) : fspec :=
  mkFspec (job_task j) (job_around s w jobs j) (job_new s w jobs j).

(** Jobs that are about to start. *)
Definition job_scene (s : Solver) (w : world) (jobs : list job) : scene :=
  mkScene w [] (map (job_prog s) jobs).

Lemma job_striving `{!ZonesAPILaws API, !Reachable API} s kc l w jobs j :
  production s kc l -> harmonious jobs -> j ∈ jobs -> job_ready s w j ->
  striving (w_api w) w (job_fspec s w jobs j) (job_prog s j).
Proof.
  intros Hp Hh Hj [Hr _]. split; [|by left].
  unfold job_prog, operate. cbn [fs_task fs_way fs_new job_fspec]. destruct (j_op j) eqn:Hop.
  - apply (keeps_Present s kc l _ _ _ _ _ _ _ Hp Hr (job_around s w jobs j));
      [by left|by right|exact (job_presents s w jobs j Hh Hj Hop)].
  - apply (keeps_CleanUp s kc l _ _ _ _ _ _ _ Hp Hr (job_around s w jobs j));
      [by left|by right|exact (job_cleans s w jobs j Hj Hop)].
Qed.

Lemma jobs_orderly `{!ZonesAPILaws API, !Reachable API} s kc l w jobs :
  production s kc l -> harmonious jobs -> Forall (job_ready s w) jobs ->
  orderly (w_api w) (map (job_fspec s w jobs) jobs) (job_scene s w jobs).
Proof.
  intros Hp Hh H. split; [|by intros req Hreq%elem_of_nil|by intros sp Hsp].
  apply Forall2_fmap_2, Forall2_same_length_lookup_2; [done|].
  intros i j j' Hj Hj'. assert (j' = j) as -> by congruence.
  apply (job_striving s kc l); [done|done|by eapply list_elem_of_lookup_2|by eapply Forall_lookup_1].
Qed.

Lemma job_fspec_tasks s w jobs js : map fs_task (map (job_fspec s w jobs) js) = map job_task js.
Proof. apply map_map. Qed.

Lemma job_fspec_aims s w jobs js : map fs_aim (map (job_fspec s w jobs) js) = map (job_aim s w jobs) js.
Proof. apply map_map. Qed.

Lemma job_fspec_ways s w jobs js sp o : sp ∈ map (job_fspec s w jobs) js -> fs_new sp o -> fs_way sp o.
Proof. intros (j & -> & Hj)%list_elem_of_fmap. by right. Qed.

(** What holds of jobs however far they have come, whatever has failed. *)
Lemma jobs_adverse `{!ZonesAPILaws API, !Reachable API} s kc l w jobs Env (I : world -> Prop) n sc :
  production s kc l -> monotone_clock w -> harmonious jobs -> Forall (job_ready s w) jobs ->
  (forall w1 w2, Env w1 w2 -> bystanders jobs w1 w2) ->
  (forall j w1 w2, j ∈ jobs -> guar (job_task j) w1 w2 -> I w1 -> I w2) ->
  (forall w1 w2, Env w1 w2 -> I w1 -> I w2) -> I w ->
  adverse_run Env n (job_scene s w jobs) sc ->
  orderly (w_api w) (map (job_fspec s w jobs) jobs) sc /\ I (sc_world sc).
Proof.
  intros Hp Hm Hh Hr He Hg Ho HI Hrun.
  apply (adverse_orderly Env (w_api w) (map (job_fspec s w jobs) jobs)) with (n := n) (s := job_scene s w jobs);
    try done.
  - rewrite job_fspec_aims. apply jobs_apart. eapply Forall_impl; [exact Hr|]. intros j Hj.
    exists (w_now w), (w_network w). by rewrite later_same.
  - intros sp o. apply job_fspec_ways.
  - intros w1 w2. rewrite job_fspec_tasks. apply He.
  - intros sp w1 w2 (j & -> & Hj)%list_elem_of_fmap. by apply Hg.
  - by apply (jobs_orderly s kc l).
Qed.
End Jobs.
