(* ===== verification/SolverSpec.v ===== *)
(** Lemmas on the solver's handlers, whatever the environment answers: the events
    they perform, how many requests they send, where their errors come from. *)
From S2P Require Import Prelude GoStrings Utf8 Runtime Quote Errors Routing RoutingSpec ValidateSpec Json Types ZoneCache.
From S2P Require Import Effects Client ClientSpec ClientDelays ClientPaths ZonesAPI Endpoints WorldClient.
From S2P Require Import SolverConfig ConfigTheorems Secrets Solver RecordNames Tasks WorldSolver.
From S2P Require Import EndToEnd Redaction.

Section Events.
Context {RT : Runtime} {CM : CertManager}.

(** The paths of the API on its host: the slash ends the host's name. *)
Definition api_root : string := DefaultBaseURL +:+ "/v1/".

(** What the handlers may do once they hold a token: send requests that carry it,
    go to the API and to no other host, and expire with the call, wait no longer than the call lasts, log, and use
    the cache under one key; never read a Secret. *)
Definition guarded (tok : string) (ctx : Ctx) (key : zoneCacheKey) (e : eff) : Prop :=
  match e with
  | EDo _ rctx req =>
      within ctx rctx /\ req_header req !! "Authorization" = Some ("Bearer " +:+ tok) /\
      HasPrefix (req_url req) api_root = true
  | ETimer c _ | ECtxErr c => c = ctx
  | ESecret _ _ _ _ => False
  | ECacheLookup k | ECacheStore k _ | ECacheInvalidate k => k = key
  | ENow | ELog _ _ => True
  end.

Section Client.
Context (l : Logger) (tok : string) (ctx : Ctx) (key : zoneCacheKey).

#[local] Abbreviation ok := (all_events (guarded tok ctx key)).

Lemma log_guarded lg level msg attrs : ok (LogAttrs lg level msg attrs).
Proof. by repeat split. Qed.

Section Path.
Context (method path : string) (Hpath : HasPrefix path "/v1/" = true).

Lemma attempt_guarded hc rctx body :
  within ctx rctx ->
  guarded tok ctx key (EDo hc rctx (attempt_request (default_client l tok) method path body tok)).
Proof.
  intros Hw. split; [done|]. split; [|by etransitivity; [apply HasPrefix_cancel|]].
  unfold attempt_request, request_header. cbn [req_header].
  destruct body; by rewrite !lookup_insert_ne, lookup_insert_eq by done.
Qed.

(** A timeout applied to the call's context, followed by what uses it. *)
Lemma timeout_guarded {A} d (f : Ctx -> prog A) :
  (forall rctx, within ctx rctx -> ok (f rctx)) -> ok (bind (context_WithTimeout ctx d) f).
Proof.
  intros Hf. split; [done|]. intros now. apply Hf.
  apply (context_WithTimeout_exec ctx d [mkStep ENow now]). by eexists _, [].
Qed.

Lemma doOnce_guarded {A} body (out : dest A) :
  ok (doOnce (default_client l tok) ctx method path body out).
Proof.
  unfold doOnce. cbn [token default_client]. unfold StaticToken. rewrite bind_ret_l.
  apply timeout_guarded. intros rctx Hw. case_match; [done|].
  apply all_events_bind; [apply log_guarded|]. intros [].
  apply all_events_bind; [apply all_events_perform, attempt_guarded, Hw|]. intros [resp|msg].
  - apply all_events_bind; [apply log_guarded|]. intros [].
    unfold handle_response, parseAPIError. case_match; [done|].
    apply all_events_bind; [|done]. repeat case_match; by repeat split.
  - apply all_events_bind; [apply log_guarded|done].
Qed.

Lemma do_loop_guarded {A} n k last body (out : dest A) :
  ok (do_loop n k last (default_client l tok) ctx method path body out).
Proof.
  revert k last. induction n as [|n IH]; intros k last; [done|]. rewrite do_loop_succ.
  apply all_events_bind.
  - unfold wait_before. case_match; [done|]. apply all_events_bind; [apply log_guarded|].
    intros []. cbn [clock default_client clock_Sleep realClock]. unfold realClock_Sleep.
    case_match; by repeat split.
  - intros [e|]; [done|]. apply all_events_bind; [apply doOnce_guarded|].
    intros [v|e]; [done|]. case_match; [apply IH|done].
Qed.

Lemma do_request_guarded {A} body (out : dest A) :
  ok (do_request (default_client l tok) ctx method path body out).
Proof. unfold do_request. destruct body as [[]|]; apply do_loop_guarded. Qed.
End Path.

Lemma ListZones_guarded :
  ok (hc_ListZones (Client_as_HCloudClient (default_client l tok)) ctx).
Proof. apply all_events_try; [by apply do_request_guarded|done]. Qed.

Lemma CreateRRSet_guarded zid r :
  ok (hc_CreateRRSet (Client_as_HCloudClient (default_client l tok)) ctx zid r).
Proof. by apply do_request_guarded. Qed.

Lemma SetRRSetRecords_guarded zid name rrType r :
  ok (hc_SetRRSetRecords (Client_as_HCloudClient (default_client l tok)) ctx zid name rrType r).
Proof. by apply do_request_guarded. Qed.

Lemma DeleteRRSet_guarded zid name rrType :
  ok (hc_DeleteRRSet (Client_as_HCloudClient (default_client l tok)) ctx zid name rrType).
Proof. apply all_events_bind; [by apply do_request_guarded|done]. Qed.
End Client.

Lemma resolveZoneID_guarded l tok ctx ref zoneApex :
  all_events (guarded tok ctx (mkZoneCacheKey ref zoneApex))
    (resolveZoneID ctx (Client_as_HCloudClient (default_client l tok)) ref zoneApex).
Proof.
  unfold resolveZoneID. apply all_events_bind; [by repeat split|]. intros [id|]; [done|].
  apply all_events_try.
  { apply ListZones_guarded. }
  intros zs. case_match; by repeat split.
Qed.

Lemma present_guarded s l tok ctx ch cred ref zoneApex :
  all_events (guarded tok ctx (mkZoneCacheKey (SecretRef_String ref) zoneApex))
    (present_prepared s ctx ch
       (mkPrepared cred ref (Client_as_HCloudClient (default_client l tok)) zoneApex)).
Proof.
  unfold present_prepared. apply all_events_bind; [apply resolveZoneID_guarded|].
  intros [zid|e]; [|done].
  apply all_events_bind; [apply CreateRRSet_guarded|].
  intros [rr|e]; [apply all_events_bind; [apply log_guarded|done]|].
  destruct (errors_Is e ErrConflict).
  - unfold reconcileExisting. apply all_events_bind; [apply SetRRSetRecords_guarded|].
    intros [a|e']; [apply all_events_bind; [apply log_guarded|done]|done].
  - destruct (errors_Is e ErrNotFound); [|done]. by repeat split.
Qed.

Lemma cleanup_guarded s l tok ctx ch cred ref zoneApex :
  all_events (guarded tok ctx (mkZoneCacheKey (SecretRef_String ref) zoneApex))
    (cleanup_prepared s ctx ch
       (mkPrepared cred ref (Client_as_HCloudClient (default_client l tok)) zoneApex)).
Proof.
  unfold cleanup_prepared. apply all_events_bind; [apply resolveZoneID_guarded|].
  intros [zid|e]; [|case_match; [apply all_events_bind; [apply log_guarded|done]|done]].
  apply all_events_bind; [apply DeleteRRSet_guarded|].
  intros [e|]; [case_match; [apply all_events_bind; [apply log_guarded|done]|done]|].
  apply all_events_bind; [apply log_guarded|done].
Qed.
End Events.

(** ** The shape of a handler's trace *)

Section Traces.
Context {RT : Runtime} {CM : CertManager}.

(** The token in what the Kubernetes API answered. *)
Definition token_of_answer (ref : SecretRef) (a : res (gmap string string)) : res string :=
  match a with
  | Err err => Err (Errorf_w ("solver: get Secret " +:+ sr_Namespace ref +:+ "/" +:+ sr_Name ref
                              +:+ ": ") err EmptyString)
  | Ok data => token_of_data ref data
  end.

(** A call that does not get past its checks ends there. *)
Lemma handle_closed s ch body tr r :
  exec (handle s ch body) tr r ->
  (exists e, route_challenge ch = Err e) \/ secrets s = None ->
  exists start e, tr = [mkStep ENow start] /\ r = Some e /\
    forall e', route_challenge ch = Err e' -> e = e'.
Proof.
  unfold handle. intros H Hc. apply exec_bind in H. destruct H as (tr1 & ctx & tr2 & -> & Hctx & H).
  apply context_WithTimeout_exec in Hctx. destruct Hctx as (_ & start & -> & _).
  unfold prepare in H. exists start.
  destruct (route_challenge ch) as [[[cred ref] z]|e].
  - destruct Hc as [[e He]|Hs]; [done|]. rewrite Hs in H. simpl in H. destruct H as [-> ->].
    by eexists.
  - simpl in H. destruct H as [-> ->]. exists e. split; [done|]. split; [done|]. congruence.
Qed.

Lemma handle_trace s kc l ch body tr r :
  production s kc l -> exec (handle s ch body) tr r ->
  exists start tr', tr = mkStep ENow start :: tr' /\
    match route_challenge ch with
    | Err e => tr' = [] /\ r = Some e
    | Ok (cred, ref, zoneApex) =>
        exists a tr'',
          tr' = mkStep (ESecret kc (call_ctx s start) (sr_Namespace ref) (sr_Name ref)) a :: tr'' /\
          match token_of_answer ref a with
          | Err e => tr'' = [] /\ r = Some e
          | Ok tok =>
              exec (body (call_ctx s start)
                      (mkPrepared cred ref (Client_as_HCloudClient (default_client l tok)) zoneApex))
                tr'' r
          end
    end.
Proof.
  intros Hp H. unfold handle in H. apply exec_bind in H.
  destruct H as (tr1 & ctx & tr2 & -> & Hctx & H).
  unfold contextFor, context_WithTimeout in Hctx. apply exec_perform in Hctx.
  destruct Hctx as (start & tr3 & -> & -> & ->). exists start, tr2. split; [done|].
  cbn [context_Background ctx_deadline] in H. fold (call_ctx s start) in H.
  rewrite (prepare_production s kc l) in H by done.
  destruct (route_challenge ch) as [[[cred ref] z]|e]; [|by destruct H as [-> ->]].
  apply exec_bind in H. destruct H as (tr4 & p & tr5 & -> & Hp' & H).
  apply exec_bind in Hp'. destruct Hp' as (tr6 & tok & tr7 & -> & Ht & Hp').
  unfold kubeSecretGetter_GetToken in Ht. apply exec_perform in Ht.
  destruct Ht as (a & tr8 & -> & -> & Htok). exists a. fold (token_of_answer ref a) in Htok.
  rewrite <- Htok. destruct tok as [tok|e].
  - destruct Hp' as [-> ->]. simpl in *. by exists tr5.
  - destruct Hp' as [-> ->]. simpl in H. destruct H as [-> ->]. by exists [].
Qed.

(** ** Redaction *)

Section Low.
Context (l : Logger) (tok1 tok2 : string) (ctx : Ctx).

#[local] Abbreviation c1 := (Client_as_HCloudClient (default_client l tok1)).
#[local] Abbreviation c2 := (Client_as_HCloudClient (default_client l tok2)).

Lemma request_low {A} method path body (out : dest A) :
  low eq (do_request (default_client l tok1) ctx method path body out)
         (do_request (default_client l tok2) ctx method path body out).
Proof.
  apply (do_request_low (default_client l EmptyString) (StaticToken tok1) (StaticToken tok2)).
  - apply realClock_no_secret.
  - intros ctx'. by constructor.
Qed.

Lemma log_low lg level msg attrs : low eq (LogAttrs lg level msg attrs) (LogAttrs lg level msg attrs).
Proof. apply low_refl. by repeat split. Qed.

Lemma resolveZoneID_low ref zoneApex :
  low eq (resolveZoneID ctx c1 ref zoneApex) (resolveZoneID ctx c2 ref zoneApex).
Proof.
  unfold resolveZoneID. apply low_perform; [done|]. intros [id|]; [by constructor|].
  unfold try_bind. eapply (low_bind eq).
  - cbn [Client_as_HCloudClient hc_ListZones]. unfold ListZones, try_bind. eapply (low_bind eq); [apply request_low|].
    intros r ? <-. destruct r; by constructor.
  - intros r ? <-. destruct r as [zs|e]; [|by constructor].
    apply low_refl. case_match; by repeat split.
Qed.

Lemma present_low s ch cred ref zoneApex :
  low eq (present_prepared s ctx ch (mkPrepared cred ref c1 zoneApex))
         (present_prepared s ctx ch (mkPrepared cred ref c2 zoneApex)).
Proof.
  unfold present_prepared. eapply low_bind; [apply resolveZoneID_low|]. intros rz ? <-.
  destruct rz as [zid|e]; [|by constructor].
  eapply (low_bind eq); [apply request_low|]. intros rc ? <-. destruct rc as [rr|e].
  - apply low_refl. by repeat split.
  - destruct (errors_Is e ErrConflict); [|apply low_refl; case_match; by repeat split].
    unfold reconcileExisting. eapply (low_bind eq); [apply request_low|]. intros r ? <-.
    destruct r; apply low_refl; by repeat split.
Qed.

Lemma cleanup_low s ch cred ref zoneApex :
  low eq (cleanup_prepared s ctx ch (mkPrepared cred ref c1 zoneApex))
         (cleanup_prepared s ctx ch (mkPrepared cred ref c2 zoneApex)).
Proof.
  unfold cleanup_prepared. eapply low_bind; [apply resolveZoneID_low|]. intros rz ? <-.
  destruct rz as [zid|e]; [|apply low_refl; case_match; by repeat split].
  eapply (low_bind eq).
  - cbn [Client_as_HCloudClient hc_DeleteRRSet]. unfold DeleteRRSet. eapply (low_bind eq); [apply request_low|].
    intros r ? <-. destruct r; by constructor.
  - intros rd ? <-. apply low_refl. repeat case_match; by repeat split.
Qed.
End Low.

Lemma token_of_answer_low ref a1 a2 :
  same_secret a1 a2 -> token_low (token_of_answer ref a1) (token_of_answer ref a2).
Proof.
  destruct a1 as [d1|e1], a2 as [d2|e2]; simpl; try done; [|by intros ->].
  intros Hs. destruct (Hs (sr_Key ref)) as [Hn Hv]. unfold token_of_data.
  destruct (d1 !! sr_Key ref) as [v1|] eqn:E1, (d2 !! sr_Key ref) as [v2|] eqn:E2; try done.
  - specialize (Hv v1 v2 eq_refl eq_refl).
    destruct (TrimSpace v1 =? EmptyString)%string eqn:F1, (TrimSpace v2 =? EmptyString)%string eqn:F2;
      to_prop; try done; exfalso; tauto.
  - by specialize (proj2 Hn eq_refl).
  - by specialize (proj1 Hn eq_refl).
Qed.

Lemma GetToken_low g ctx ref :
  low token_low (kubeSecretGetter_GetToken g ctx ref) (kubeSecretGetter_GetToken g ctx ref).
Proof. apply low_secret. intros r1 r2 Hr. constructor. by apply token_of_answer_low. Qed.

Definition prepared_low (l : Logger) (p1 p2 : res prepared) : Prop :=
  (exists cred ref z tok1 tok2,
     p1 = Ok (mkPrepared cred ref (Client_as_HCloudClient (default_client l tok1)) z) /\
     p2 = Ok (mkPrepared cred ref (Client_as_HCloudClient (default_client l tok2)) z)) \/
  exists e, p1 = Err e /\ p2 = Err e.

Lemma handle_low s kc l ch (body : Ctx -> prepared -> prog (option error)) :
  production s kc l ->
  (forall ctx cred ref z tok1 tok2,
     low eq (body ctx (mkPrepared cred ref (Client_as_HCloudClient (default_client l tok1)) z))
            (body ctx (mkPrepared cred ref (Client_as_HCloudClient (default_client l tok2)) z))) ->
  low eq (handle s ch body) (handle s ch body).
Proof.
  intros Hp Hb. unfold handle. eapply (low_bind eq); [by apply low_refl|].
  intros ctx ? <-. apply (low_bind (prepared_low l)).
  - rewrite (prepare_production s kc l) by done.
    destruct (route_challenge ch) as [[[cred ref] z]|e]; [|constructor; right; by exists e].
    apply (low_bind token_low); [apply GetToken_low|].
    intros [tok1|e1] [tok2|e2] H; try done; constructor.
    + left. by exists cred, ref, z, tok1, tok2.
    + right. exists e2. simpl in H. by subst.
  - intros p1 p2 [(cred & ref & z & tok1 & tok2 & -> & ->)|(e & -> & ->)]; [apply Hb|by constructor].
Qed.
End Traces.

(** ** How many requests *)

Section Counting.
Context {RT : Runtime} {CM : CertManager}.

Definition sends_at_most {A} (n : nat) (p : prog A) : Prop :=
  forall tr r, exec p tr r -> (length (do_steps tr) <= n)%nat.

Lemma sends_bind {A B} n m (p : prog A) (f : A -> prog B) :
  sends_at_most n p -> (forall a, sends_at_most m (f a)) -> sends_at_most (n + m) (bind p f).
Proof.
  intros Hp Hf tr b H. apply exec_bind in H. destruct H as (tr1 & a & tr2 & -> & H1 & H2).
  rewrite do_steps_app, length_app. specialize (Hp _ _ H1). specialize (Hf _ _ _ H2). lia.
Qed.

Lemma sends_nothing {A} n (p : prog A) : all_events not_do p -> sends_at_most n p.
Proof. intros Hp tr r H. rewrite (do_steps_none _ _ _ Hp H). simpl. lia. Qed.

Lemma sends_request {A} l tok ctx method path body (out : dest A) :
  sends_at_most 7 (do_request (default_client l tok) ctx method path body out).
Proof.
  assert (WellBehaved (default_client l tok)) as Hwb by (by eapply static_well_behaved).
  intros tr r H. rewrite do_request_loop in H.
  change (rounds (default_client l tok)) with 7%nat in H. apply do_loop_exec in H as [Ha _]; [|done].
  apply attempts_length in Ha. by rewrite length_map in Ha.
Qed.

Lemma sends_resolve l tok ctx ref zoneApex :
  sends_at_most 7 (resolveZoneID ctx (Client_as_HCloudClient (default_client l tok)) ref zoneApex).
Proof.
  unfold resolveZoneID. apply (sends_bind 0 7); [by apply sends_nothing|].
  intros [id|]; [by apply sends_nothing|]. apply (sends_bind 7 0).
  - cbn [Client_as_HCloudClient hc_ListZones]. apply (sends_bind 7 0); [apply sends_request|].
    intros [r|e]; by apply sends_nothing.
  - intros [zs|e]; [|by apply sends_nothing]. apply sends_nothing. case_match; by repeat split.
Qed.

Lemma sends_present s l tok ctx ch cred ref zoneApex :
  sends_at_most 21 (present_prepared s ctx ch
    (mkPrepared cred ref (Client_as_HCloudClient (default_client l tok)) zoneApex)).
Proof.
  unfold present_prepared. apply (sends_bind 7 14); [apply sends_resolve|].
  intros [zid|e]; [|by apply sends_nothing].
  apply (sends_bind 7 7); [apply sends_request|]. intros [rr|e]; [by apply sends_nothing|].
  destruct (errors_Is e ErrConflict).
  - unfold reconcileExisting. apply (sends_bind 7 0); [apply sends_request|].
    intros [a|e']; by apply sends_nothing.
  - apply sends_nothing. case_match; by repeat split.
Qed.

Lemma sends_cleanup s l tok ctx ch cred ref zoneApex :
  sends_at_most 14 (cleanup_prepared s ctx ch
    (mkPrepared cred ref (Client_as_HCloudClient (default_client l tok)) zoneApex)).
Proof.
  unfold cleanup_prepared. apply (sends_bind 7 7); [apply sends_resolve|].
  intros [zid|e]; [|apply sends_nothing; case_match; by repeat split].
  apply (sends_bind 7 0).
  - cbn [Client_as_HCloudClient hc_DeleteRRSet]. apply (sends_bind 7 0); [apply sends_request|].
    intros [r|e]; by apply sends_nothing.
  - intros rd. apply sends_nothing. repeat case_match; by repeat split.
Qed.

Lemma sends_handle s kc l ch n (body : Ctx -> prepared -> prog (option error)) :
  production s kc l ->
  (forall ctx cred ref z tok, sends_at_most n
     (body ctx (mkPrepared cred ref (Client_as_HCloudClient (default_client l tok)) z))) ->
  sends_at_most n (handle s ch body).
Proof.
  intros Hp Hb tr r H. apply (handle_trace s kc l) in H; [|done].
  destruct H as (start & tr' & -> & H). rewrite do_steps_op. simpl.
  destruct (route_challenge ch) as [[[cred ref] z]|e]; [|destruct H as [-> _]; simpl; lia].
  destruct H as (a & tr'' & -> & H). rewrite do_steps_op. simpl.
  destruct (token_of_answer ref a) as [tok|e]; [by apply Hb in H|destruct H as [-> _]; simpl; lia].
Qed.
End Counting.

(** ** Where errors come from *)

Section Causes.
Context {RT : Runtime} {CM : CertManager}.

(** [p] performs [q] somewhere in [tr], which then returns [a]. *)
Definition performed {A} (q : prog A) (a : A) (tr : list step) : Prop :=
  exists tr1 tr2 tr3, tr = tr1 ++ tr2 ++ tr3 /\ exec q tr2 a.

(** The first zone of a name in a listing, or none. *)
Lemma find_zone_spec zs zoneApex :
  match find_zone zs zoneApex with
  | Some z => exists zs1 zs2, zs = zs1 ++ z :: zs2 /\ Zone_Name z = zoneApex /\
      Forall (fun z' => Zone_Name z' <> zoneApex) zs1
  | None => Forall (fun z' => Zone_Name z' <> zoneApex) zs
  end.
Proof.
  induction zs as [|z zs IH]; simpl; [constructor|].
  destruct (Zone_Name z =? zoneApex)%string eqn:E; to_prop.
  - exists [], zs. by repeat split.
  - destruct (find_zone zs zoneApex) as [z'|].
    + destruct IH as (zs1 & zs2 & -> & Hn & Hf). exists (z :: zs1), zs2. repeat split; auto.
    + by constructor.
Qed.
End Causes.
