(* ===== verification/Timing.v ===== *)
(** Time.  The traces of a program with the instants of their events, in an
    environment that keeps to contexts: a request and the reading of a Secret are
    given up when their context expires, and a wait ends with its timer or with
    its context, whichever comes first.  Everything may take [lag] longer than
    that: scheduling, logging, waiting for the cache's mutex.

    On such traces every call returns by its budget, and one that is cut short while
    it waits says so. *)
From S2P Require Import Prelude GoStrings Utf8 Runtime Quote Errors Routing RoutingSpec ValidateSpec Json Types ZoneCache.
From S2P Require Import Effects Client ClientSpec ClientDelays ClientPaths ZonesAPI Endpoints WorldClient SolverConfig.
From S2P Require Import Secrets Solver RecordNames Tasks WorldSolver EndToEnd Steps SolverSpec.

Section Timed.
Context {RT : Runtime}.

(** By when an event that heeds a context has ended, if it starts at [t]; [None]:
    whenever. *)
Definition ends_by (lag : Z) (ctx : Ctx) (t t' : Z) : Prop :=
  t <= t' /\ forall dl, ctx_deadline ctx = Some dl -> t' <= Z.max t dl + lag.

(** An expired context says so, and only an expired one. *)
Definition context_answer (ctx : Ctx) (t t' : Z) (a : option ctx_error) : Prop :=
  match a with
  | None => forall dl, ctx_deadline ctx = Some dl -> t < dl
  | Some e => e = CtxDeadlineExceeded /\ exists dl, ctx_deadline ctx = Some dl /\ dl <= t'
  end.

(** [occurs lag s t t']: the event starts at [t] and is answered at [t']. *)
Definition occurs (lag : Z) (s : step) (t t' : Z) : Prop :=
  match s with
  | mkStep e a =>
      match e return answer e -> Prop with
      | ENow => fun now => t <= now <= t' /\ t' <= t + lag
      | ECtxErr ctx => fun a => t <= t' <= t + lag /\ context_answer ctx t t' a
      | ETimer ctx d => fun a =>
          ends_by lag ctx t t' /\ t' <= t + Z.max 0 d + lag /\
          match a with
          | None => t + d <= t'
          | Some e => context_answer ctx t t' (Some e)
          end
      | EDo _ ctx _ => fun _ => ends_by lag ctx t t'
      | ESecret _ ctx _ _ => fun _ => ends_by lag ctx t t'
      | ELog _ _ | ECacheLookup _ | ECacheStore _ _ | ECacheInvalidate _ =>
          fun _ => t <= t' <= t + lag
      end a
  end.

(** The events of a trace, one after the other. *)
Inductive timed (lag : Z) : list step -> Z -> Z -> Prop :=
| timed_nil t : timed lag [] t t
| timed_cons s tr t t1 t' : occurs lag s t t1 -> timed lag tr t1 t' -> timed lag (s :: tr) t t'.

(** A handler that keeps time: every event occurs. *)
Definition keeps_time {W} (lag : Z) (now : W -> Z) (h : handler W) : Prop :=
  forall e w, let '(a, w') := h e w in occurs lag (mkStep e a) (now w) (now w').

Lemma run_timed {W A} lag (now : W -> Z) (h : handler W) (p : prog A) w :
  keeps_time lag now h -> timed lag (run_trace h p w) (now w) (now (snd (run h p w))).
Proof.
  intros Hh. revert w. induction p as [a|e k IH]; intros w; simpl; [constructor|].
  specialize (Hh e w). destruct (h e w) as [r w']. by econstructor.
Qed.

(** The world of the end-to-end theorems keeps time. *)
Lemma in_world_keeps_time {API : ZonesAPI} : keeps_time 0 w_now in_world.
Proof.
  assert (forall ctx t, expired ctx t = None -> forall dl, ctx_deadline ctx = Some dl -> t < dl) as Hno
    by (intros ctx t H; by apply timely_alt).
  assert (forall ctx t dl, expired ctx t = Some dl -> ctx_deadline ctx = Some dl /\ dl <= t) as Hyes.
  { intros ctx t dl. unfold expired. destruct (ctx_deadline ctx) as [d|]; [|done].
    destruct (d <=? t) eqn:E; [|done]. intros [= <-]. by to_prop. }
  assert (forall ctx t t', expired ctx t' = None -> t <= t' -> ends_by 0 ctx t t') as Hends.
  { intros ctx t t' H Ht. split; [done|]. intros dl Hd. specialize (Hno _ _ H dl Hd). lia. }
  assert (forall ctx t, ends_by 0 ctx t t) as Hnow by (split; [|intros]; lia).
  intros e w. destruct e; simpl; try (split; [lia..|]); try lia.
  - destruct (expired ctx (w_now w)) as [dl|] eqn:E; simpl; [|exact (Hno _ _ E)].
    destruct (Hyes _ _ _ E) as [Hd Hle]. split; [done|]. by exists dl.
  - destruct (expired ctx (w_now w + Z.max 0 d)) as [dl|] eqn:E; simpl.
    + destruct (Hyes _ _ _ E) as [Hd Hle]. split; [split; [lia|intros ? [= ->]%(eq_trans (eq_sym Hd)); lia]|].
      split; [lia|]. split; [done|]. exists dl. split; [done|lia].
    + split; [apply Hends; [done|lia]|]. lia.
  - unfold send. destruct (expired ctx (w_now w)) as [dl|] eqn:E; [apply Hnow|].
    destruct (api_serve req (w_api w)) as [resp s]. destruct (w_network w) as [|h l]; [apply Hnow|].
    destruct (match hop_fault h with Some _ => _ | None => _ end) as [a s'].
    destruct (expired ctx (w_now w + Z.max 0 (hop_time h))) as [dl|] eqn:E'; simpl; [|apply Hends; [done|lia]].
    destruct (Hyes _ _ _ E') as [Hd Hle]. specialize (Hno _ _ E dl Hd).
    split; [lia|intros ? [= ->]%(eq_trans (eq_sym Hd)); lia].
  - destruct (zoneCache_Lookup _ _ _ _). simpl. lia.
Qed.

(** ** Deadlines *)

(** The event heeds a context that expires by [D], or needs no time at all. *)
Definition bounded_by (D : Z) (e : eff) : Prop :=
  match e with
  | EDo _ ctx _ | ESecret _ ctx _ _ | ETimer ctx _ | ECtxErr ctx =>
      exists dl, ctx_deadline ctx = Some dl /\ dl <= D
  | _ => True
  end.

Lemma occurs_bounded lag D s t t' :
  0 <= lag -> bounded_by D (step_eff s) -> occurs lag s t t' -> t' <= Z.max t D + lag.
Proof.
  intros Hl. assert (forall ctx, ends_by lag ctx t t' -> bounded_by D (ECtxErr ctx) ->
    t' <= Z.max t D + lag) as H.
  { intros ctx [_ He] (dl & Hd & HD). specialize (He dl Hd). lia. }
  destruct s as [[] a]; simpl; intros Hb Ho; try lia; try by eapply H.
  destruct Ho as [Ho _]. by eapply H.
Qed.

Lemma timed_bounded lag D tr t t' :
  0 <= lag -> Forall (fun s => bounded_by D (step_eff s)) tr -> timed lag tr t t' ->
  t' <= Z.max t D + Z.of_nat (length tr) * lag.
Proof.
  intros Hl HF H. induction H as [t|s tr t t1 t' Ho _ IH]; [simpl; lia|].
  inversion HF as [|? ? Hs HF']; subst. pose proof (occurs_bounded _ _ _ _ _ Hl Hs Ho).
  specialize (IH HF'). simpl length. lia.
Qed.

(** ** Cut waits *)

(** The waits a context cut short. *)
Definition cut_of (s : step) : option ctx_error :=
  match s with
  | mkStep e a =>
      match e return answer e -> option ctx_error with
      | ECtxErr _ | ETimer _ _ => fun a => a
      | _ => fun _ => None
      end a
  end.
Definition cuts (tr : list step) : list ctx_error := omap cut_of tr.

Definition ctx_sentinel (e : ctx_error) : sentinel :=
  match e with CtxDeadlineExceeded => DeadlineExceeded | CtxCanceled => Canceled end.

Definition waits (e : eff) : Prop :=
  match e with ECtxErr _ | ETimer _ _ => True | _ => False end.

(** Once a wait is cut short the program waits no more, and returns an error that
    says so; [err_of] finds the error in what it returns. *)
Definition stops {A} (err_of : A -> option error) (p : prog A) : Prop :=
  forall tr a, exec p tr a ->
    cuts tr = [] \/
    exists e err, cuts tr = [e] /\ err_of a = Some err /\ errors_Is err (ctx_sentinel e) = true.

(** An error that says so is passed on, without a wait. *)
Definition passes_on {A B} (err_of : A -> option error) (err_of' : B -> option error)
    (f : A -> prog B) : Prop :=
  forall a err e, err_of a = Some err -> errors_Is err (ctx_sentinel e) = true ->
    forall tr b, exec (f a) tr b ->
      cuts tr = [] /\ exists err', err_of' b = Some err' /\ errors_Is err' (ctx_sentinel e) = true.

Lemma cuts_app tr1 tr2 : cuts (tr1 ++ tr2) = cuts tr1 ++ cuts tr2.
Proof. apply omap_app. Qed.

Lemma cuts_none {A} (p : prog A) tr a :
  all_events (fun e => ~ waits e) p -> exec p tr a -> cuts tr = [].
Proof.
  intros Hp H. pose proof (all_events_exec _ _ _ _ Hp H) as Hf. clear H.
  induction Hf as [|[e r] tr He Hf IH]; [done|]. destruct e; simpl in *; tauto.
Qed.

Lemma stops_quiet {A} err_of (p : prog A) : all_events (fun e => ~ waits e) p -> stops err_of p.
Proof. intros Hp tr a H. left. by eapply cuts_none. Qed.

Lemma stops_bind {A B} err_of err_of' (p : prog A) (f : A -> prog B) :
  stops err_of p -> (forall a, stops err_of' (f a)) -> passes_on err_of err_of' f ->
  stops err_of' (bind p f).
Proof.
  intros Hp Hf Hpass tr b H. apply exec_bind in H. destruct H as (tr1 & a & tr2 & -> & H1 & H2).
  rewrite cuts_app. destruct (Hp _ _ H1) as [->|(e & err & -> & He & Hs)]; [by apply Hf in H2|].
  destruct (Hpass a err e He Hs _ _ H2) as (-> & err' & Hb & Hs'). right. by exists e, err'.
Qed.

Definition error_of {A} (r : res A) : option error := match r with Ok _ => None | Err e => Some e end.

Lemma passes_ret {A B} err_of err_of' (f : A -> prog B) :
  (forall a err, err_of a = Some err -> exists b err', f a = Ret b /\ err_of' b = Some err' /\
     forall t, errors_Is err' t = errors_Is err t) ->
  passes_on err_of err_of' f.
Proof.
  intros H a err e Ha He tr b Hf. destruct (H a err Ha) as (b' & err' & E & Hb & Hs).
  rewrite E in Hf. destruct Hf as [-> ->]. split; [done|]. exists err'. by rewrite Hs.
Qed.
End Timed.

Section Client.
Context {RT : Runtime} (l : Logger) (tok : string) (ctx : Ctx).

#[local] Abbreviation c := (default_client l tok).
#[local] Abbreviation no_wait := (all_events (fun e => ~ waits e)).

Lemma no_wait_perform e : ~ waits e -> no_wait (perform e).
Proof. by split. Qed.

Lemma doOnce_no_wait {A} method path body (out : dest A) : no_wait (doOnce c ctx method path body out).
Proof.
  unfold doOnce. cbn [token default_client]. unfold StaticToken. rewrite bind_ret_l.
  apply all_events_bind; [by repeat split; auto|]. intros rctx. case_match; [done|].
  apply all_events_bind; [by apply no_wait_perform; auto|]. intros [].
  apply all_events_bind; [by apply no_wait_perform; auto|].
  intros [resp|msg]; (apply all_events_bind; [by apply no_wait_perform; auto|]); intros []; [|done].
  unfold handle_response, parseAPIError. case_match; [done|]. apply all_events_bind; [|done].
  destruct (default _ _). case_match; [|done]. apply all_events_bind; [|done].
  by apply no_wait_perform; auto.
Qed.

Lemma sleep_stops d : stops (fun o => o) (clock_Sleep (clock c) ctx d).
Proof.
  intros tr a H. cbn [clock default_client clock_Sleep realClock] in H. unfold realClock_Sleep in H.
  apply exec_bind in H. destruct H as (tr1 & o & tr2 & -> & H & -> & ->). rewrite app_nil_r.
  destruct (d <=? 0); destruct H as (o' & tr' & -> & -> & ->); simpl;
    (destruct o' as [e|]; [|by left]); right; exists e, (ctx_error_error e); by destruct e.
Qed.

Lemma wait_stops k last method path : stops (fun o => o) (wait_before k last c ctx method path).
Proof.
  unfold wait_before. destruct (k =? 0)%nat; [by apply stops_quiet|].
  apply (stops_bind (fun _ => None)); [by apply stops_quiet, no_wait_perform; auto| |done].
  intros _. apply sleep_stops.
Qed.

Lemma do_loop_stops {A} n : forall k last method path body (out : dest A),
  stops error_of (do_loop n k last c ctx method path body out).
Proof.
  induction n as [|n IH]; intros k last method path body out; [by apply stops_quiet|].
  rewrite do_loop_succ. eapply stops_bind; [apply wait_stops| |].
  - intros [e|]; [by apply stops_quiet|].
    apply (stops_bind (fun _ => None)); [by apply stops_quiet, doOnce_no_wait| |done].
    intros [a|e]; [by apply stops_quiet|]. destruct (isRetryable e); [apply IH|by apply stops_quiet].
  - apply passes_ret. intros [e|] err; [|done]. intros [= ->]. by eexists _, _.
Qed.

Lemma do_request_stops {A} method path body (out : dest A) :
  stops error_of (do_request c ctx method path body out).
Proof. rewrite do_request_loop. apply do_loop_stops. Qed.

Lemma ListZones_stops : stops error_of (ListZones c ctx).
Proof.
  unfold ListZones, try_bind. eapply stops_bind; [apply do_request_stops| |].
  - intros [r|e]; by apply stops_quiet.
  - apply passes_ret. intros [r|e] err; [done|]. intros [= ->]. by eexists _, _.
Qed.

Lemma DeleteRRSet_stops zid name rrType :
  stops (fun o => o) (DeleteRRSet c ctx zid name rrType).
Proof.
  unfold DeleteRRSet. eapply stops_bind; [apply do_request_stops|by intros a; apply stops_quiet|].
  apply passes_ret. intros [r|e] err; [done|]. intros [= ->]. by eexists _, _.
Qed.

Lemma resolveZoneID_stops ref zoneApex :
  stops error_of (resolveZoneID ctx (Client_as_HCloudClient c) ref zoneApex).
Proof.
  unfold resolveZoneID.
  apply (stops_bind (fun _ => None)); [by apply stops_quiet, no_wait_perform; auto| |done].
  intros [id|]; [by apply stops_quiet|]. unfold try_bind.
  eapply stops_bind; [apply ListZones_stops| |].
  - intros [zs|e]; [|by apply stops_quiet]. apply stops_quiet.
    destruct (find_zone zs zoneApex); [|done]. by apply all_events_bind; [apply no_wait_perform; auto|].
  - apply passes_ret. intros [zs|e] err; [done|]. intros [= ->]. by eexists _, _.
Qed.
End Client.

(** ** The solver *)

Section Solver.
Context {RT : Runtime} {CM : CertManager}.

#[local] Abbreviation no_wait := (all_events (fun e => ~ waits e)).

(** An expired context is neither a conflict nor a missing zone. *)
Lemma ctx_error_class err e :
  errors_Is err (ctx_sentinel e) = true ->
  errors_Is err ErrConflict = false /\ errors_Is err ErrNotFound = false.
Proof.
  intros H. split.
  - destruct (errors_Is err ErrConflict) eqn:E; [|done].
    pose proof (errors_Is_functional _ _ _ H E). by destruct e.
  - destruct (errors_Is err ErrNotFound) eqn:E; [|done].
    pose proof (errors_Is_functional _ _ _ H E). by destruct e.
Qed.

Lemma log_no_wait l level msg attrs : no_wait (LogAttrs l level msg attrs).
Proof. by apply no_wait_perform; auto. Qed.

Lemma logged_no_wait l level msg attrs (r : option error) : no_wait (LogAttrs l level msg attrs ;; Ret r).
Proof. by apply all_events_bind; [apply log_no_wait|]. Qed.

Section Handlers.
Context (s : Solver) (l : Logger) (tok : string) (ctx : Ctx) (ch : ChallengeRequest)
  (cred : Credential) (ref : SecretRef) (zoneApex : string).
#[local] Abbreviation prepared :=
  (mkPrepared cred ref (Client_as_HCloudClient (default_client l tok)) zoneApex).

Lemma reconcile_stops name zid key :
  stops (fun o => o) (reconcileExisting s ctx (Client_as_HCloudClient (default_client l tok))
                        (Name cred) zoneApex name zid key).
Proof.
  unfold reconcileExisting. eapply stops_bind; [apply do_request_stops| |].
  - intros [a|e]; [|by apply stops_quiet]. apply stops_quiet, logged_no_wait.
  - apply passes_ret. intros [a|e] err; [done|]. intros [= ->]. by eexists _, _.
Qed.

Lemma present_stops : stops (fun o => o) (present_prepared s ctx ch prepared).
Proof.
  unfold present_prepared. eapply stops_bind; [apply resolveZoneID_stops| |].
  - intros [zid|e]; [|by apply stops_quiet]. eapply stops_bind; [apply do_request_stops| |].
    + intros [rr|e]; [apply stops_quiet, logged_no_wait|].
      destruct (errors_Is e ErrConflict); [apply reconcile_stops|].
      destruct (errors_Is e ErrNotFound); [|by apply stops_quiet].
      apply stops_quiet. by apply all_events_bind; [apply no_wait_perform; auto|].
    + intros [rr|e'] err e; [done|]. intros [= ->] Hs. destruct (ctx_error_class _ _ Hs) as [-> ->].
      intros tr b [-> ->]. split; [done|]. by eexists.
  - apply passes_ret. intros [zid|e] err; [done|]. intros [= ->]. by eexists _, _.
Qed.

Lemma cleanup_stops : stops (fun o => o) (cleanup_prepared s ctx ch prepared).
Proof.
  unfold cleanup_prepared. eapply stops_bind; [apply resolveZoneID_stops| |].
  - intros [zid|e]; [|destruct (errors_Is e ErrNotFound); apply stops_quiet; [apply logged_no_wait|done]].
    eapply stops_bind; [apply DeleteRRSet_stops| |].
    + intros [e|]; [|apply stops_quiet, logged_no_wait].
      destruct (errors_Is e ErrNotFound); apply stops_quiet; [apply logged_no_wait|done].
    + intros [e'|] err e; [|done]. intros [= ->] Hs. destruct (ctx_error_class _ _ Hs) as [_ ->].
      intros tr b [-> ->]. split; [done|]. by eexists.
  - intros [zid|e'] err e; [done|]. intros [= ->] Hs. destruct (ctx_error_class _ _ Hs) as [_ ->].
    intros tr b [-> ->]. split; [done|]. by eexists.
Qed.
End Handlers.

(** A call waits only once its token is at hand. *)
Lemma handle_stops s kc l ch (body : Ctx -> prepared -> prog (option error)) :
  production s kc l ->
  (forall ctx cred ref z tok, stops (fun o => o)
     (body ctx (mkPrepared cred ref (Client_as_HCloudClient (default_client l tok)) z))) ->
  stops (fun o => o) (handle s ch body).
Proof.
  intros Hp Hb tr r H. apply (handle_trace s kc l) in H; [|done].
  destruct H as (start & tr' & -> & H). change (cuts (mkStep ENow start :: tr')) with (cuts tr').
  destruct (route_challenge ch) as [[[cred ref] z]|e]; [|destruct H as [-> _]; by left].
  destruct H as (a & tr'' & -> & H).
  change (cuts (mkStep (ESecret ?k ?x ?y ?z) ?a :: ?t)) with (cuts t).
  destruct (token_of_answer ref a) as [tok|e]; [by eapply Hb|destruct H as [-> _]; by left].
Qed.

(** What a call does heeds the call's budget. *)
Lemma handle_bounded s kc l ch (body : Ctx -> prepared -> prog (option error)) tr r :
  production s kc l ->
  (forall ctx cred ref z tok, all_events (guarded tok ctx (mkZoneCacheKey (SecretRef_String ref) z))
     (body ctx (mkPrepared cred ref (Client_as_HCloudClient (default_client l tok)) z))) ->
  exec (handle s ch body) tr r ->
  exists start tr', tr = mkStep ENow start :: tr' /\
    Forall (fun st => bounded_by (start + requestBudget s) (step_eff st)) tr'.
Proof.
  intros Hp Hb H. apply (handle_trace s kc l) in H; [|done].
  destruct H as (start & tr' & -> & H). exists start, tr'. split; [done|].
  destruct (route_challenge ch) as [[[cred ref] z]|e]; [|by destruct H as [-> _]].
  destruct H as (a & tr'' & -> & H). constructor; [by eexists|].
  destruct (token_of_answer ref a) as [tok|e]; [|by destruct H as [-> _]].
  eapply all_events_exec, H. eapply all_events_impl, Hb.
  intros [] He; simpl in *; try done; try (subst; by eexists).
  destruct He as ((d & Hd & HD) & _). exists d. split; [done|]. by apply HD.
Qed.
End Solver.
