(* ===== verification/EndToEndTheorems.v ===== *)
(** What a challenge does, end to end, against every implementation of the Zones
    API's contract. *)
From S2P Require Import Prelude GoStrings Utf8 Runtime Quote Errors Routing RoutingSpec ValidateSpec Json Types ZoneCache.
From S2P Require Import Effects Client ClientSpec ClientPaths Interference ZonesAPI ExampleAPI Endpoints WorldClient.
From S2P Require Import SolverConfig ConfigTheorems Secrets Solver RecordNames Tasks WorldSolver.
From S2P Require Import EndToEnd.

(** ** A world for the examples *)

#[local] Existing Instances example_runtime example_cert_manager example_api.

#[local] Instance example_reachable : Reachable example_api.
Proof. by split. Qed.

Definition example_solver : Solver := snd (Initialize (New []) (Some tt)).

Definition example_challenge : ChallengeRequest :=
  mkChallengeRequest (Some example_config) "cert-manager" "_acme-challenge.app.example.com."
    "Zm9v-_x".

Definition other_records : gmap rrkey RRSetState :=
  {[ (7, "www", "A") := mkRRSetState [mkRecord "192.0.2.1" EmptyString] (Some 300) ]}.

(** A second and its parts. *)
Definition ms (n : Z) : Z := n * Millisecond.

Definition fails (time : Z) (a : result string Response) (delivered : bool) : hop :=
  mkHop time (Some (mkFault a delivered)).
Definition passes (time : Z) : hop := mkHop time None.

(** The API creates the record set at the sixth request, but takes so long that the
    client gives the request up. *)
Definition rough_network : list hop :=
  [fails (ms 2000) (Ok (mkResponse 503 ∅ "upstream timeout")) false;
   fails (ms 100) (Err "connection reset by peer") false; passes (ms 300);
   fails (ms 50) (Ok (mkResponse 429 {[ "Retry-After" := "2" ]} EmptyString)) false;
   fails (ms 20) (Err "no such host") false;
   passes (ms 40000); passes (ms 500);
   fails (ms 700) (Ok (mkResponse 502 ∅ EmptyString)) true].

(** The token stands in the Secret with a final newline, the cache is fresh, the
    network is rough. *)
Definition example_world : world :=
  mkWorld 1000 (newZoneCache (30 * Second) None)
    {[ ("cert-manager", "hcloud-a") := {[ "api-token" := "t0ken" +:+ byte1 (chr 10) ]} ]}
    rough_network other_records.

Definition example_cred : Credential :=
  mkCredential "project-a" ["example.com"; "example.net"] "cert-manager/hcloud-a#api-token".
Definition example_ref : SecretRef := mkSecretRef "cert-manager" "hcloud-a" "api-token".

Lemma example_production : production example_solver tt 0%nat.
Proof. by split. Qed.

Lemma example_ready :
  ready example_solver example_challenge example_cred example_ref "example.com" 7 "t0ken"
    example_world.
Proof.
  split.
  - vm_compute. reflexivity.
  - exists {[ "api-token" := "t0ken" +:+ byte1 (chr 10) ]}. split; [reflexivity|].
    vm_compute. reflexivity.
  - left.
  - vm_compute. reflexivity.
  - vm_compute. reflexivity.
  - left. vm_compute. reflexivity.
  - vm_compute. reflexivity.
  - vm_compute. reflexivity.
  - vm_compute. reflexivity.
Qed.

(** The example's network is bearable, an overloaded API is not: its answers ask for
    waits that add up to more than the budget. *)
Lemma rough_bearable t : t = 1000 \/ t = 9000 -> bearable example_solver t rough_network.
Proof. intros [->| ->]; split; vm_compute; reflexivity. Qed.

Lemma nothing_bearable t : bearable example_solver t [].
Proof. split; [reflexivity|]. by apply Z.lt_add_pos_r. Qed.

Definition overloaded_network : list hop :=
  replicate 4 (fails (ms 1000) (Ok (mkResponse 429 {[ "Retry-After" := "30" ]} EmptyString)) false).

Example overloaded_unbearable : ~ bearable example_solver 0 overloaded_network.
Proof. intros [_ H]. revert H. vm_compute. discriminate. Qed.

Definition example_key : rrkey := (7, "_acme-challenge.app", "TXT").

(** C1: [Present] succeeds, within its budget, and leaves exactly the record the
    challenge asks for: the TXT record set of the relative name in the routed zone
    holds the quoted key and nothing else, with the solver's TTL if it is new and
    its own if it was there (the 409 path); no other record set changes.

    So it does whenever the challenge routes to a credential whose Secret holds a
    token of the API, the zone is a primary zone on the first page of that token's
    project, the zone cache does not answer with another zone, the FQDN is ASCII and
    the key of the base64url alphabet ([ready]), and the network is [bearable]:
    requests may be slow, fail, or be served although their replies get lost, if
    they fail in ways that are retried, no more than [maxRetries] of them in a row,
    and the requests and the waits between them fit into the budget. *)
Theorem present_correct {RT : Runtime} {CM : CertManager} {API : ZonesAPI} s kc l ch cred ref
    zoneApex zid tok w :
  ZonesAPILaws API -> Reachable API ->
  production s kc l -> ready s ch cred ref zoneApex zid tok w ->
  bearable s (w_now w) (w_network w) ->
  exists w', run in_world (Present s (Some ch)) w = (None, w') /\
    w_now w' < w_now w + requestBudget s /\
    let key := challenge_key ch zoneApex zid in
    api_rrsets (w_api w') !! key =
      Some (presented (rrsetTTL s) (quoteTXT (ch_Key ch)) (api_rrsets (w_api w) !! key)) /\
    forall k, k <> key -> api_rrsets (w_api w') !! k = api_rrsets (w_api w) !! k.
Proof.
  intros HL HR Hp Hr Hb. destruct (present_world s kc l ch cred ref zoneApex zid tok w Hp Hr Hb)
    as (w' & Hrun & Ht & Hrr & _).
  exists w'. split; [done|]. split; [done|]. rewrite Hrr. split; [apply lookup_insert_eq|].
  intros k Hk. by apply lookup_insert_ne.
Qed.

Lemma present_correct_witness :
  exists w', run in_world (Present example_solver (Some example_challenge)) example_world = (None, w') /\
    w_now w' < 1000 + 2 * Minute /\
    api_rrsets (w_api w') !! example_key =
      Some (presented 60 (qt "'Zm9v-_x'") (api_rrsets (w_api example_world) !! example_key)) /\
    forall k, k <> example_key ->
      api_rrsets (w_api w') !! k = api_rrsets (w_api example_world) !! k.
Proof.
  apply (present_correct example_solver tt 0%nat example_challenge example_cred example_ref
    "example.com" 7 "t0ken" example_world example_api_laws example_reachable example_production
    example_ready (rough_bearable 1000 (or_introl eq_refl))).
Defined.

(** Presenting again changes nothing: whenever the second call comes, over
    whatever bearable network, it succeeds and leaves the record sets as the first
    one did. *)
Theorem present_idempotent {RT : Runtime} {CM : CertManager} {API : ZonesAPI} s kc l ch cred ref
    zoneApex zid tok w :
  ZonesAPILaws API -> Reachable API ->
  production s kc l -> ready s ch cred ref zoneApex zid tok w ->
  bearable s (w_now w) (w_network w) ->
  exists w', run in_world (Present s (Some ch)) w = (None, w') /\
    forall t net, bearable s t net ->
      exists w'', run in_world (Present s (Some ch)) (later w' t net) = (None, w'') /\
        api_rrsets (w_api w'') = api_rrsets (w_api w').
Proof.
  intros HL HR Hp Hr Hb. destruct (present_world s kc l ch cred ref zoneApex zid tok w Hp Hr Hb)
    as (w' & Hrun & _ & Hl).
  exists w'. split; [done|]. intros t net Hn.
  pose proof (ready_later _ _ _ _ _ _ _ _ _ _ t net Hr Hl) as Hr'.
  destruct (present_world s kc l ch cred ref zoneApex zid tok _ Hp Hr' Hn) as (w'' & Hrun' & _ & Hrr' & _).
  exists w''. split; [done|]. rewrite Hrr'. destruct Hl as [Hrr _]. simpl. rewrite Hrr.
  rewrite lookup_insert_eq. rewrite insert_insert_eq. f_equal.
Qed.

Lemma present_idempotent_witness :
  exists w', run in_world (Present example_solver (Some example_challenge)) example_world = (None, w') /\
    forall t net, bearable example_solver t net ->
      exists w'', run in_world (Present example_solver (Some example_challenge)) (later w' t net)
          = (None, w'') /\
        api_rrsets (w_api w'') = api_rrsets (w_api w').
Proof.
  apply (present_idempotent example_solver tt 0%nat example_challenge example_cred example_ref
    "example.com" 7 "t0ken" example_world example_api_laws example_reachable example_production
    example_ready (rough_bearable 1000 (or_introl eq_refl))).
Defined.

(** C2: under the same conditions, [CleanUp] succeeds, within its budget, and removes
    the challenge's record set and no other, whether it was there or not. *)
Theorem cleanup_correct {RT : Runtime} {CM : CertManager} {API : ZonesAPI} s kc l ch cred ref
    zoneApex zid tok w :
  ZonesAPILaws API -> Reachable API ->
  production s kc l -> ready s ch cred ref zoneApex zid tok w ->
  bearable s (w_now w) (w_network w) ->
  exists w', run in_world (CleanUp s (Some ch)) w = (None, w') /\
    w_now w' < w_now w + requestBudget s /\
    api_rrsets (w_api w') = delete (challenge_key ch zoneApex zid) (api_rrsets (w_api w)).
Proof.
  intros HL HR Hp Hr Hb. destruct (cleanup_world s kc l ch cred ref zoneApex zid tok w Hp Hr Hb)
    as (w' & Hrun & Ht & Hrr & _). by exists w'.
Qed.

Lemma cleanup_correct_witness :
  exists w', run in_world (CleanUp example_solver (Some example_challenge)) example_world = (None, w') /\
    w_now w' < 1000 + 2 * Minute /\
    api_rrsets (w_api w') = delete example_key (api_rrsets (w_api example_world)).
Proof.
  apply (cleanup_correct example_solver tt 0%nat example_challenge example_cred example_ref
    "example.com" 7 "t0ken" example_world example_api_laws example_reachable example_production
    example_ready (rough_bearable 1000 (or_introl eq_refl))).
Defined.

(** A challenge leaves no trace: presenting, cleaning up and cleaning up once
    more, however far apart and over whatever bearable networks, all succeed, and
    the record sets are what they were, without the challenge's. *)
Theorem challenge_lifecycle {RT : Runtime} {CM : CertManager} {API : ZonesAPI} s kc l ch cred ref
    zoneApex zid tok w t net t' net' :
  ZonesAPILaws API -> Reachable API ->
  production s kc l -> ready s ch cred ref zoneApex zid tok w ->
  bearable s (w_now w) (w_network w) -> bearable s t net -> bearable s t' net' ->
  exists w1 w2 w3,
    run in_world (Present s (Some ch)) w = (None, w1) /\
    run in_world (CleanUp s (Some ch)) (later w1 t net) = (None, w2) /\
    run in_world (CleanUp s (Some ch)) (later w2 t' net') = (None, w3) /\
    api_rrsets (w_api w2) = delete (challenge_key ch zoneApex zid) (api_rrsets (w_api w)) /\
    api_rrsets (w_api w3) = api_rrsets (w_api w2).
Proof.
  intros HL HR Hp Hr Hb Hn Hn'.
  destruct (present_world s kc l ch cred ref zoneApex zid tok w Hp Hr Hb) as (w1 & R1 & _ & L1).
  pose proof (ready_later _ _ _ _ _ _ _ _ _ _ t net Hr L1) as Hr1.
  destruct (cleanup_world s kc l ch cred ref zoneApex zid tok _ Hp Hr1 Hn) as (w2 & R2 & _ & L2).
  pose proof (ready_later _ _ _ _ _ _ _ _ _ _ t' net' Hr1 L2) as Hr2.
  destruct (cleanup_world s kc l ch cred ref zoneApex zid tok _ Hp Hr2 Hn') as (w3 & R3 & _ & L3).
  exists w1, w2, w3. destruct L1 as [E1 _], L2 as [E2 _], L3 as [E3 _]. simpl in E2, E3.
  rewrite E1 in E2. rewrite E2 in E3.
  split; [done|]. split; [done|]. split; [done|]. rewrite E3, E2.
  by rewrite delete_insert_eq, delete_delete_eq.
Qed.

Lemma challenge_lifecycle_witness :
  exists w1 w2 w3,
    run in_world (Present example_solver (Some example_challenge)) example_world = (None, w1) /\
    run in_world (CleanUp example_solver (Some example_challenge)) (later w1 5000 []) = (None, w2) /\
    run in_world (CleanUp example_solver (Some example_challenge)) (later w2 9000 rough_network)
      = (None, w3) /\
    api_rrsets (w_api w2) = delete example_key (api_rrsets (w_api example_world)) /\
    api_rrsets (w_api w3) = api_rrsets (w_api w2).
Proof.
  apply (challenge_lifecycle example_solver tt 0%nat example_challenge example_cred example_ref
    "example.com" 7 "t0ken" example_world 5000 [] 9000 rough_network example_api_laws example_reachable
    example_production example_ready (rough_bearable 1000 (or_introl eq_refl)) (nothing_bearable 5000)
    (rough_bearable 9000 (or_intror eq_refl))).
Defined.

(** C18: a stale zone ID heals.  The zone was deleted and created anew, and the cache
    still holds its old ID: [Present] fails with [ErrNotFound], changes nothing of
    the API and drops the entry; from then on a [Present], whenever it comes and
    over whatever bearable network, finds the zone under its new ID and succeeds.
    (The conditions are those of [present_correct], for the zone as it is now, listed
    under its new ID; if it is not listed any more, [Present] goes on failing.) *)
Theorem stale_zone_heals {RT : Runtime} {CM : CertManager} {API : ZonesAPI} s kc l ch cred ref
    zoneApex zid tok bad w :
  ZonesAPILaws API -> Reachable API -> production s kc l ->
  ready s ch cred ref zoneApex zid tok
    (set_cache w (zoneCache_Invalidate (w_cache w) (SecretRef_String ref) zoneApex)) ->
  bearable s (w_now w) (w_network w) ->
  cached w (SecretRef_String ref) zoneApex = Some bad ->
  in_int64 bad = true -> (forall tok', bad ∉ map fst (api_zones tok' (w_api w))) ->
  exists e w',
    run in_world (Present s (Some ch)) w = (Some e, w') /\
    errors_Is e ErrNotFound = true /\ w_api w' = w_api w /\
    cached w' (SecretRef_String ref) zoneApex = None /\
    forall t net, bearable s t net ->
      exists w'', run in_world (Present s (Some ch)) (later w' t net) = (None, w'') /\
        api_rrsets (w_api w'') !! challenge_key ch zoneApex zid =
          Some (presented (rrsetTTL s) (quoteTXT (ch_Key ch))
                  (api_rrsets (w_api w) !! challenge_key ch zoneApex zid)).
Proof.
  intros HL HR Hp Hr Hn Hc Hb Hz. pose proof Hr as [Hrt (data & Hd & Ht) Hv _ _ _ Hfq Hk Httl].
  destruct (present_stale_world s kc l ch cred ref zoneApex tok w data Hp Hrt Hd Ht Hv Hn bad Hfq Hk Httl Hc Hb Hz)
    as (e & w' & Hrun & He & Hapi & Hsec & Hc').
  exists e, w'. do 3 (split; [done|]). split; [unfold cached, zoneCache_Lookup; by rewrite Hc'|].
  intros t net Hn'. pose proof (ready_uncached _ _ _ _ _ _ _ _ w' t net Hr Hsec Hapi Hc') as Hr'.
  destruct (present_world s kc l ch cred ref zoneApex zid tok _ Hp Hr' Hn') as (w'' & Hrun' & _ & Hrr & _).
  exists w''. split; [done|]. rewrite Hrr. simpl. rewrite Hapi. apply lookup_insert_eq.
Qed.

Lemma example_no_zone_5 tok : 5 ∉ map fst (example_zones tok).
Proof.
  apply (bool_decide_unpack _). unfold example_zones.
  destruct (tok =? example_token)%string; [|destruct (tok =? other_token)%string]; vm_compute; exact I.
Qed.

Definition stale_world : world :=
  set_cache example_world
    (zoneCache_Store (w_cache example_world) 900 (SecretRef_String example_ref) "example.com" 5).

Lemma stale_zone_heals_witness :
  exists e w',
    run in_world (Present example_solver (Some example_challenge)) stale_world = (Some e, w') /\
    errors_Is e ErrNotFound = true /\ w_api w' = w_api stale_world /\
    cached w' (SecretRef_String example_ref) "example.com" = None /\
    forall t net, bearable example_solver t net ->
      exists w'', run in_world (Present example_solver (Some example_challenge)) (later w' t net) = (None, w'') /\
        api_rrsets (w_api w'') !! example_key =
          Some (presented 60 (qt "'Zm9v-_x'") (api_rrsets (w_api stale_world) !! example_key)).
Proof.
  apply (stale_zone_heals example_solver tt 0%nat example_challenge example_cred example_ref
    "example.com" 7 "t0ken" 5 stale_world example_api_laws example_reachable example_production).
  - destruct example_ready as [H1 H2 H3 H4 H5 _ H7 H8 H9].
    split; [exact H1|exact H2|exact H3|exact H4|exact H5| |exact H7|exact H8|exact H9].
    left. vm_compute. reflexivity.
  - apply (rough_bearable 1000). by left.
  - vm_compute. reflexivity.
  - vm_compute. reflexivity.
  - exact example_no_zone_5.
Defined.

(** C40: a zone behind the first page of the listing is invisible.  [CleanUp] of a
    challenge in it, if the cache does not know the zone, reports success over
    every bearable network and leaves the record set in place. *)
Theorem later_page_not_cleaned {RT : Runtime} {CM : CertManager} {API : ZonesAPI} s kc l ch cred ref
    zoneApex tok w data :
  ZonesAPILaws API -> Reachable API -> production s kc l ->
  route_challenge ch = Ok (cred, ref, zoneApex) ->
  w_secrets w !! (sr_Namespace ref, sr_Name ref) = Some data ->
  token_of_data ref data = Ok tok -> tok ∈ api_tokens ->
  bearable s (w_now w) (w_network w) ->
  cached w (SecretRef_String ref) zoneApex = None ->
  page_id (api_page tok (w_api w)) zoneApex = None ->
  exists w', run in_world (CleanUp s (Some ch)) w = (None, w') /\
    api_rrsets (w_api w') = api_rrsets (w_api w).
Proof.
  intros HL HR Hp Hr Hd Ht Hv Hw Hc Hpg.
  destruct (cleanup_unlisted_world s kc l ch cred ref zoneApex tok w data Hp Hr Hd Ht Hv Hw Hc Hpg)
    as (w' & Hrun & Hapi). exists w'. split; [done|]. by rewrite Hapi.
Qed.

Definition net_challenge : ChallengeRequest :=
  mkChallengeRequest (Some example_config) "cert-manager" "_acme-challenge.app.example.net."
    "Zm9v-_x".

Definition net_key : rrkey := (11, "_acme-challenge.app", "TXT").

Definition net_world : world :=
  set_api example_world {[ net_key := mkRRSetState [mkRecord "x" EmptyString] (Some 60) ]}.

Lemma later_page_not_cleaned_witness :
  exists w', run in_world (CleanUp example_solver (Some net_challenge)) net_world = (None, w') /\
    api_rrsets (w_api w') = api_rrsets (w_api net_world).
Proof.
  apply (later_page_not_cleaned example_solver tt 0%nat net_challenge example_cred example_ref
    "example.net" "t0ken" net_world {[ "api-token" := "t0ken" +:+ byte1 (chr 10) ]}).
  - apply example_api_laws.
  - apply example_reachable.
  - apply example_production.
  - vm_compute. reflexivity.
  - reflexivity.
  - vm_compute. reflexivity.
  - left.
  - apply (rough_bearable 1000). by left.
  - vm_compute. reflexivity.
  - vm_compute. reflexivity.
Defined.

(** C28: challenges for the same name are not kept apart: the last [Present] wins,
    and any [CleanUp] removes whatever is there.  After presenting two keys for one
    name only the second is published, and cleaning up the first challenge takes
    the second's record away (under the conditions of [present_correct], the
    second and third call over a network without failures). *)
Theorem same_name_challenges {RT : Runtime} {CM : CertManager} {API : ZonesAPI} s kc l ch cred ref
    zoneApex zid tok w key :
  ZonesAPILaws API -> Reachable API -> production s kc l ->
  ready s ch cred ref zoneApex zid tok w -> bearable s (w_now w) (w_network w) ->
  all_bytes base64url key = true ->
  exists w1 w2 w3,
    run in_world (Present s (Some ch)) w = (None, w1) /\
    run in_world (Present s (Some (with_key ch key))) (later w1 (w_now w1) []) = (None, w2) /\
    st_records <$> api_rrsets (w_api w2) !! challenge_key ch zoneApex zid
      = Some [mkRecord (quoteTXT key) EmptyString] /\
    run in_world (CleanUp s (Some ch)) (later w2 (w_now w2) []) = (None, w3) /\
    api_rrsets (w_api w3) !! challenge_key ch zoneApex zid = None.
Proof.
  intros HL HR Hp Hr Hb Hk. pose proof (bearable_budget _ _ _ Hb) as Hpos.
  assert (forall t, bearable s t []) as Hnone by (intros t; split; [done|simpl; lia]).
  destruct (present_world s kc l ch cred ref zoneApex zid tok w Hp Hr Hb) as (w1 & R1 & _ & L1).
  pose proof (ready_later _ _ _ _ _ _ _ _ _ _ (w_now w1) [] Hr L1) as Hr1.
  pose proof (ready_with_key _ _ _ _ _ _ _ _ key Hk Hr1) as Hr1'.
  destruct (present_world s kc l _ cred ref zoneApex zid tok _ Hp Hr1' (Hnone _)) as (w2 & R2 & _ & L2).
  pose proof (ready_later _ _ _ _ _ _ _ _ _ _ (w_now w2) [] Hr1 L2) as Hr2.
  destruct (cleanup_world s kc l ch cred ref zoneApex zid tok _ Hp Hr2 (Hnone _)) as (w3 & R3 & _ & L3).
  exists w1, w2, w3. destruct L2 as [E2 _], L3 as [E3 _].
  split; [done|]. split; [done|]. split; [|split; [done|]].
  - rewrite E2. change (challenge_key (with_key ch key)) with (challenge_key ch).
    rewrite lookup_insert_eq. by destruct (_ !! _).
  - rewrite E3. apply lookup_delete_eq.
Qed.

Lemma same_name_challenges_witness :
  exists w1 w2 w3,
    run in_world (Present example_solver (Some example_challenge)) example_world = (None, w1) /\
    run in_world (Present example_solver (Some (with_key example_challenge "YmFy")))
      (later w1 (w_now w1) []) = (None, w2) /\
    st_records <$> api_rrsets (w_api w2) !! example_key
      = Some [mkRecord (qt "'YmFy'") EmptyString] /\
    run in_world (CleanUp example_solver (Some example_challenge)) (later w2 (w_now w2) [])
      = (None, w3) /\
    api_rrsets (w_api w3) !! example_key = None.
Proof.
  apply (same_name_challenges example_solver tt 0%nat example_challenge example_cred example_ref
    "example.com" 7 "t0ken" example_world "YmFy" example_api_laws example_reachable example_production
    example_ready (rough_bearable 1000 (or_introl eq_refl))). vm_compute. reflexivity.
Defined.
