(* ===== verification/SetupTheorems.v ===== *)
(** How the solver is put together: its options, [main] and [Initialize], the
    token it reads and the errors it reports. *)
From S2P Require Import Prelude GoStrings Utf8 Runtime Quote Errors Routing RoutingSpec ValidateSpec Json Types ZoneCache.
From S2P Require Import Effects Client ClientSpec SolverConfig Secrets Solver Main Tasks WorldSolver.
From S2P Require Import EndToEnd SolverSpec.

(** ** Options *)

Section Options.
Context {RT : Runtime} {CM : CertManager}.

(** The options of the package, as data. *)
Inductive solver_option :=
| OptLogger (l : option Logger)
| OptClientFactory (f : option ClientFactory)
| OptSecretGetter (g : option SecretGetter)
| OptZoneCacheTTL (d : Z)
| OptRRSetTTL (seconds : Z)
| OptRequestBudget (d : Z)
| OptClock (now : option NowFunc).

Definition option_of (o : solver_option) : Option :=
  match o with
  | OptLogger l => WithLogger l
  | OptClientFactory f => WithClientFactory f
  | OptSecretGetter g => WithSecretGetter g
  | OptZoneCacheTTL d => WithZoneCacheTTL d
  | OptRRSetTTL seconds => WithRRSetTTL seconds
  | OptRequestBudget d => WithRequestBudget d
  | OptClock now => WithClock now
  end.

Definition positive (z : Z) : option Z := if 0 <? z then Some z else None.

(** What an option asks for, if it asks for a setting at all. *)
Definition asks_logger (o : solver_option) : option Logger :=
  match o with OptLogger l => l | _ => None end.
Definition asks_factory (o : solver_option) : option ClientFactory :=
  match o with OptClientFactory f => f | _ => None end.
Definition asks_getter (o : solver_option) : option SecretGetter :=
  match o with OptSecretGetter g => g | _ => None end.
Definition asks_cacheTTL (o : solver_option) : option Z :=
  match o with OptZoneCacheTTL d => positive d | _ => None end.
Definition asks_rrsetTTL (o : solver_option) : option Z :=
  match o with OptRRSetTTL d => positive d | _ => None end.
Definition asks_budget (o : solver_option) : option Z :=
  match o with OptRequestBudget d => positive d | _ => None end.
Definition asks_clock (o : solver_option) : option NowFunc :=
  match o with OptClock now => now | _ => None end.

(** The last option that asks for a setting has it. *)
Definition final {A} (asks : solver_option -> option A) (os : list solver_option) : option A :=
  last (omap asks os).

Lemma final_snoc {A} (asks : solver_option -> option A) os o :
  final asks (os ++ [o]) = match asks o with Some a => Some a | None => final asks os end.
Proof.
  unfold final. rewrite omap_app. simpl. destruct (asks o); [apply last_snoc|].
  by rewrite app_nil_r.
Qed.

(** The solver before [New] chooses the factory. *)
Definition configured (os : list solver_option) : Solver :=
  let now := default time_Now (final asks_clock os) in
  mkSolver (default slog_Default (final asks_logger os)) (final asks_factory os)
    (final asks_getter os)
    (mkZoneCache (default defaultZoneCacheTTL (final asks_cacheTTL os)) now ∅) now
    (default defaultRRSetTTL (final asks_rrsetTTL os))
    (match final asks_factory os with Some _ => true | None => false end)
    (default defaultRequestBudget (final asks_budget os)) None.

Lemma final_positive (asks : solver_option -> option Z) (d : Z) os :
  0 < d -> (forall o z, asks o = Some z -> 0 < z) -> 0 < default d (final asks os).
Proof.
  intros Hd Ha. induction os as [|o os IH] using rev_ind; [done|]. rewrite final_snoc.
  destruct (asks o) as [z|] eqn:E; [by eapply Ha|done].
Qed.

Lemma cacheTTL_positive os : 0 < default defaultZoneCacheTTL (final asks_cacheTTL os).
Proof.
  apply final_positive; [done|]. intros [] z; simpl; try done. unfold positive.
  destruct (0 <? d) eqn:E; [|done]. intros [= <-]. to_prop. lia.
Qed.

Lemma newZoneCache_positive d now :
  0 < d -> newZoneCache d now = mkZoneCache d (default time_Now now) ∅.
Proof. intros H. unfold newZoneCache. destruct (d <=? 0) eqn:E; [to_prop; lia|done]. Qed.

Lemma options_configured (os : list solver_option) :
  foldl (fun s opt => opt s)
    (mkSolver slog_Default None None (newZoneCache defaultZoneCacheTTL (Some time_Now))
       time_Now defaultRRSetTTL false defaultRequestBudget None) (map option_of os) =
  configured os.
Proof.
  induction os as [|o os IH] using rev_ind; [done|].
  rewrite map_app, foldl_app, IH. unfold configured. rewrite !final_snoc.
  pose proof (cacheTTL_positive os) as Hc.
  destruct o as [[l|]|[f|]|[g|]|d|d|d|[now|]]; simpl; try done;
    unfold WithZoneCacheTTL, WithRRSetTTL, WithRequestBudget, WithClock, positive; simpl;
    try (destruct (0 <? d) eqn:E; to_prop; [|done]); try done;
    by rewrite newZoneCache_positive by lia.
Qed.
End Options.

(** C36: the options of the package mean the same in every order: each setting of
    the solver [New] builds is what the last option that asks for it asked for
    (a nil or non-positive one asks for nothing), and otherwise its documented
    default.  The zone cache has the TTL and the clock so chosen, whichever of
    [WithClock] and [WithZoneCacheTTL] came first, and is empty; the default
    client factory logs to the logger so chosen. *)
Theorem New_options {RT : Runtime} {CM : CertManager} (os : list solver_option) :
  let s := Solver.New (map option_of os) in
  s_logger s = default 0%nat (final asks_logger os) /\
  clientFactory s = Some (default (DefaultClientFactory (Some (s_logger s))) (final asks_factory os)) /\
  secrets s = final asks_getter os /\
  s_now s = default time_Now (final asks_clock os) /\
  zones s = mkZoneCache (default 30000000000 (final asks_cacheTTL os)) (s_now s) ∅ /\
  rrsetTTL s = default 60 (final asks_rrsetTTL os) /\
  requestBudget s = default 120000000000 (final asks_budget os) /\
  0 < zc_ttl (zones s) /\ 0 < rrsetTTL s /\ 0 < requestBudget s.
Proof.
  unfold Solver.New. rewrite options_configured. cbn zeta.
  assert (0 < default defaultRRSetTTL (final asks_rrsetTTL os)) as Hr.
  { apply final_positive; [done|]. intros [] z; simpl; try done. unfold positive.
    case_match; [|done]. intros [= <-]. to_prop. lia. }
  assert (0 < default defaultRequestBudget (final asks_budget os)) as Hb.
  { apply final_positive; [done|]. intros [] z; simpl; try done. unfold positive.
    case_match; [|done]. intros [= <-]. to_prop. lia. }
  pose proof (cacheTTL_positive os) as Hc.
  unfold configured. simpl. by destruct (final asks_factory os).
Qed.

(** ** The binary *)

(** C37: the binary's solver is the production solver.  [main] registers it under
    the group name of the environment variable, or the default when that is unset
    or empty.  As built it has no access to Secrets; [Initialize] fails without a
    configuration, and with one the Kubernetes client accepts it makes the solver
    the [production] solver of the theorems on challenges, logging to the default
    logger.  A second [Initialize] keeps the Secret access of the first. *)
Theorem main_production {RT : Runtime} {CM : CertManager} getenv cfg kc :
  rt_NewForConfig cfg = Ok kc ->
  let '(group, s) := main getenv in
  group <> EmptyString /\ (group = getenv "GROUP_NAME" \/
    getenv "GROUP_NAME" = EmptyString /\ group = "acme.hcloud-zones.cert-manager.io") /\
  secrets s = None /\ (exists e, Initialize s None = (Some e, s)) /\
  exists s', Initialize s (Some cfg) = (None, s') /\ production s' kc 0%nat /\
    zones s' = zones s /\ rrsetTTL s' = 60 /\ requestBudget s' = 120 * Second /\
    forall cfg', exists s'', Initialize s' (Some cfg') = (None, s'') /\ production s'' kc 0%nat.
Proof.
  intros Hk. unfold main, envOrDefault.
  split; [|split].
  - destruct (getenv "GROUP_NAME" =? EmptyString)%string eqn:E; simpl; to_prop; done.
  - destruct (getenv "GROUP_NAME" =? EmptyString)%string eqn:E; simpl; to_prop; [by right|by left].
  - split; [done|]. split; [by eexists|].
    unfold Initialize, newKubeSecretGetter. simpl secrets. cbv iota beta. rewrite Hk.
    eexists. split; [reflexivity|]. split; [by split|]. split; [done|]. split; [done|].
    split; [done|]. intros cfg'. simpl. eexists. split; [reflexivity|]. by split.
Qed.

#[local] Existing Instances example_runtime example_cert_manager.

Lemma main_production_witness :
  let '(group, s) := main (fun _ => "acme.example.com") in
  group <> EmptyString /\ (group = "acme.example.com" \/
    "acme.example.com" = EmptyString /\ group = "acme.hcloud-zones.cert-manager.io") /\
  secrets s = None /\ (exists e, Initialize s None = (Some e, s)) /\
  exists s', Initialize s (Some (tt : @rt_RestConfig example_runtime)) = (None, s') /\ production s' (tt : @rt_KubeClient example_runtime) 0%nat /\
    zones s' = zones s /\ rrsetTTL s' = 60 /\ requestBudget s' = 120 * Second /\
    forall cfg', exists s'', Initialize s' (Some cfg') = (None, s'') /\
      production s'' (tt : @rt_KubeClient example_runtime) 0%nat.
Proof. 
  apply (main_production (fun _ => "acme.example.com") (tt : @rt_RestConfig example_runtime)
    (tt : @rt_KubeClient example_runtime)). reflexivity.
 Defined.

(** ** Tokens *)

(** C35: what [GetToken] returns.  It reads the Secret of the reference once and
    nothing else; a token it returns is the trimmed, non-empty value at the
    reference's key, which for printable ASCII is what stands between the white
    space; an error of the Kubernetes API keeps its classification, and a missing
    or blank value is an error of no known class. *)
Theorem GetToken_correct {RT : Runtime} {CM : CertManager} g ctx ref tr r :
  exec (kubeSecretGetter_GetToken g ctx ref) tr r ->
  exists a, tr = [mkStep (ESecret (ksg_client g) ctx (sr_Namespace ref) (sr_Name ref)) a] /\
    match a with
    | Err e => exists e', r = Err e' /\ forall target, errors_Is e' target = errors_Is e target
    | Ok data =>
        (forall tok, r = Ok tok <->
           exists raw, data !! sr_Key ref = Some raw /\ tok = TrimSpace raw /\ tok <> EmptyString) /\
        (forall e target, r = Err e -> errors_Is e target = false) /\
        (forall pre tok post, data !! sr_Key ref = Some (pre +:+ tok +:+ post) ->
           all_bytes space_byte pre = true -> all_bytes plain_byte tok = true ->
           all_bytes space_byte post = true -> tok <> EmptyString -> r = Ok tok)
    end.
Proof.
  intros H. unfold kubeSecretGetter_GetToken in H. apply exec_perform in H.
  destruct H as (a & tr' & -> & -> & ->). exists a. split; [done|].
  destruct a as [data|e]; [|by eexists]. unfold token_of_data.
  destruct (data !! sr_Key ref) as [raw|] eqn:Ed.
  - destruct (TrimSpace raw =? EmptyString)%string eqn:E; to_prop.
    + split; [|split].
      * intros tok. split; [done|]. by intros (raw' & [= <-] & -> & Hne).
      * by intros e target [= <-].
      * intros pre tok post [= ->] H1 H2 H3 Hne. by rewrite TrimSpace_padded in E.
    + split; [|split].
      * intros tok. split; [by intros [= <-]; exists raw|]. by intros (raw' & [= <-] & -> & _).
      * done.
      * intros pre tok post [= ->] H1 H2 H3 Hne. by rewrite TrimSpace_padded.
  - split; [|split].
    + intros tok. split; [done|]. by intros (raw' & [=] & _).
    + by intros e target [= <-].
    + done.
Qed.

Definition example_getter : kubeSecretGetter := mkKubeSecretGetter tt.

Lemma GetToken_correct_witness :
  exists a, [mkStep (ESecret (tt : @rt_KubeClient example_runtime) context_Background "ns" "n")
               (Ok {[ "token" := " t0k " ]})] =
            [mkStep (ESecret tt context_Background "ns" "n") a] /\
    match a with
    | Err e => exists e', @Ok error string "t0k" = Err e' /\
        forall target, errors_Is e' target = errors_Is e target
    | Ok data =>
        (forall tok, @Ok error string "t0k" = Ok tok <->
           exists raw, data !! "token" = Some raw /\ tok = TrimSpace raw /\ tok <> EmptyString) /\
        (forall e target, @Ok error string "t0k" = Err e -> errors_Is e target = false) /\
        (forall pre tok post, data !! "token" = Some (pre +:+ tok +:+ post) ->
           all_bytes space_byte pre = true -> all_bytes plain_byte tok = true ->
           all_bytes space_byte post = true -> tok <> EmptyString -> @Ok error string "t0k" = Ok tok)
    end.
Proof.
  apply (GetToken_correct example_getter context_Background (mkSecretRef "ns" "n" "token")).
  eexists _, []. split; [reflexivity|]. split; reflexivity.
Defined.

(** ** Classification *)

(** The sentinel of a status code. *)
Definition status_sentinel (status : Z) : option sentinel :=
  if status =? 401 then Some ErrInvalidToken
  else if status =? 403 then Some ErrForbidden
  else if status =? 404 then Some ErrNotFound
  else if status =? 409 then Some ErrConflict
  else if status =? 422 then Some ErrInvalidZoneName
  else if status =? 429 then Some ErrRateLimited
  else if in_range 500 599 status then Some ErrServer
  else None.

Lemma APIError_Is_status e target :
  APIError_Is e target = bool_decide (status_sentinel (StatusCode e) = Some target).
Proof.
  apply eq_true_iff_eq. rewrite bool_decide_eq_true. unfold status_sentinel, in_range.
  repeat match goal with
  | |- context [if ?b then _ else _] => destruct b eqn:?; to_prop
  end; destruct target; simpl; split; intros ?; to_prop; try discriminate; try done; try lia.
  all: apply andb_true_iff; split; [apply Z.leb_le|apply Z.ltb_lt]; lia.
Qed.

(** C27: HTTP statuses come through.  The error of a response other than 2xx is,
    for [errors.Is] with any sentinel and after any stage of the solver has wrapped
    it, exactly the documented error of its status code and no other; it is
    retried exactly if that is [ErrRateLimited] or [ErrServer], or the status is
    0.  [ErrNoMatch] and the context's errors are never mistaken for one. *)
Theorem status_classified {RT : Runtime} {CM : CertManager} {A} (c : Client) method path
    (out : dest A) resp tr r stage credName zoneApex :
  is_2xx (resp_StatusCode resp) = false ->
  exec (handle_response c method path out resp) tr r ->
  exists e, r = Err e /\
    (forall target, errors_Is (wrapError stage credName zoneApex e) target =
       bool_decide (status_sentinel (resp_StatusCode resp) = Some target)) /\
    (isRetryable (wrapError stage credName zoneApex e) = true <->
       resp_StatusCode resp = 0 \/
       status_sentinel (resp_StatusCode resp) = Some ErrRateLimited \/
       status_sentinel (resp_StatusCode resp) = Some ErrServer).
Proof.
  intros Hs H. unfold handle_response in H. rewrite Hs in H. apply exec_bind in H.
  destruct H as (tr1 & e & tr2 & -> & He & -> & ->). exists e. split; [done|].
  assert (exists a, e = EAPI a /\ StatusCode a = resp_StatusCode resp) as (a & -> & Ha).
  { unfold parseAPIError in He. destruct (default _ _) as [code message].
    destruct (resp_StatusCode resp =? 429).
    - apply exec_bind in He. destruct He as (? & ? & ? & _ & _ & _ & ->). by eexists.
    - destruct He as [_ ->]. by eexists. }
  rewrite <- Ha. split; [intros target; apply APIError_Is_status|].
  rewrite isRetryable_root. cbn [root_cause wrapError Errorf_w]. rewrite isRetryable_EAPI.
  pose proof (APIError_Is_status a ErrRateLimited) as Hr.
  pose proof (APIError_Is_status a ErrServer) as Hv. simpl in Hr, Hv.
  rewrite Hr, Hv, !orb_true_iff, !bool_decide_eq_true, Z.eqb_eq. tauto.
Qed.

Lemma status_classified_witness :
  exists e, @Err error RRSet (EAPI (mkAPIError 409 EmptyString "Conflict" 0)) = Err e /\
    (forall target, errors_Is (wrapError "create RRSet" "a" "example.com" e) target =
       bool_decide (status_sentinel 409 = Some target)) /\
    (isRetryable (wrapError "create RRSet" "a" "example.com" e) = true <->
       409 = 0 \/ status_sentinel 409 = Some ErrRateLimited \/ status_sentinel 409 = Some ErrServer).
Proof.
  apply (status_classified (default_client 0%nat "t") "POST" "/v1" out_rrset
    (mkResponse 409 ∅ EmptyString) []).
  - reflexivity.
  - vm_compute. by split.
Defined.
