(* ===== verification/SolverTheorems.v ===== *)
(** What the solver guarantees whatever its environment answers. *)
From S2P Require Import Prelude GoStrings Utf8 Runtime Quote Errors Routing RoutingSpec ValidateSpec Json Types ZoneCache.
From S2P Require Import Effects Client ClientSpec ClientDelays ClientPaths Interference ZonesAPI ExampleAPI.
From S2P Require Import Endpoints WorldClient SolverConfig ConfigTheorems Secrets Solver RecordNames.
From S2P Require Import Tasks WorldSolver EndToEnd EndToEndTheorems SolverSpec Redaction ClientTheorems.

#[local] Existing Instances example_runtime example_cert_manager example_api.

Definition example_present : prog (option error) := Present example_solver (Some example_challenge).
Definition example_cleanup : prog (option error) := CleanUp example_solver (Some example_challenge).

(** A challenge no configured zone matches. *)
Definition stray_challenge : ChallengeRequest :=
  mkChallengeRequest (Some example_config) "cert-manager" "_acme-challenge.example.edu." "k".

(** C7: every challenge is served with the credential it routes to and no other.
    [Present] and [CleanUp] read one Secret, that of the routed credential, and
    every request they send carries the token found there, goes to
    https://api.hetzner.cloud/v1/ and so to the API's host and no other, and expires
    no later than the call's budget; they use the cache under the key of that
    credential and zone only. *)
Theorem challenge_isolated {RT : Runtime} {CM : CertManager} s kc l ch tr r :
  production s kc l ->
  exec (Present s (Some ch)) tr r \/ exec (CleanUp s (Some ch)) tr r ->
  exists start tr', tr = mkStep ENow start :: tr' /\
    (tr' = [] \/
     exists cred ref zoneApex a tr'',
       route_challenge ch = Ok (cred, ref, zoneApex) /\
       tr' = mkStep (ESecret kc (call_ctx s start) (sr_Namespace ref) (sr_Name ref)) a :: tr'' /\
       (tr'' = [] \/
        exists data tok, a = Ok data /\ token_of_data ref data = Ok tok /\
          Forall (fun st => guarded tok (call_ctx s start)
                              (mkZoneCacheKey (SecretRef_String ref) zoneApex) (step_eff st)) tr'')).
Proof.
  intros Hp H.
  assert (exists body : Ctx -> prepared -> prog (option error),
    exec (handle s ch body) tr r /\
    forall ctx cred ref z tok,
      all_events (guarded tok ctx (mkZoneCacheKey (SecretRef_String ref) z))
        (body ctx (mkPrepared cred ref (Client_as_HCloudClient (default_client l tok)) z)))
    as (body & Hh & Hb).
  { destruct H as [H|H].
    - exists (fun ctx => present_prepared s ctx ch). split; [exact H|]. intros.
      apply present_guarded.
    - exists (fun ctx => cleanup_prepared s ctx ch). split; [exact H|]. intros.
      apply cleanup_guarded. }
  destruct (handle_trace s kc l ch body tr r Hp Hh) as (start & tr' & -> & Ht).
  exists start, tr'. split; [done|].
  destruct (route_challenge ch) as [[[cred ref] z]|e]; [|destruct Ht as [-> _]; by left].
  right. destruct Ht as (a & tr'' & -> & Ht). exists cred, ref, z, a, tr''.
  split; [done|]. split; [done|].
  destruct a as [data|e]; simpl in Ht; [|destruct Ht as [-> _]; by left].
  destruct (token_of_data ref data) as [tok|e] eqn:Et; [|destruct Ht as [-> _]; by left].
  right. exists data, tok. split; [done|]. split; [done|]. eapply all_events_exec, Ht. apply Hb.
Qed.

Lemma challenge_isolated_witness :
  exists start tr', run_trace in_world example_present example_world = mkStep ENow start :: tr' /\
    (tr' = [] \/
     exists cred ref zoneApex a tr'',
       route_challenge example_challenge = Ok (cred, ref, zoneApex) /\
       tr' = mkStep (ESecret (tt : @rt_KubeClient example_runtime) (call_ctx example_solver start)
                       (sr_Namespace ref) (sr_Name ref)) a :: tr'' /\
       (tr'' = [] \/
        exists data tok, a = Ok data /\ token_of_data ref data = Ok tok /\
          Forall (fun st => guarded tok (call_ctx example_solver start)
                              (mkZoneCacheKey (SecretRef_String ref) zoneApex) (step_eff st)) tr'')).
Proof.
  apply (challenge_isolated example_solver tt 0%nat example_challenge
    (run_trace in_world example_present example_world)
    (fst (run in_world example_present example_world)) example_production).
  left. apply run_exec.
Defined.

(** C20: the solver fails closed.  When the configuration is refused, the FQDN
    matches no configured zone, or the solver has not been initialised, the call
    reads no Secret, sends no request and leaves the cache alone: it only looks
    at the clock and returns an error, the routing error itself if there is one,
    and that error is [ErrNoMatch] if no zone matched. *)
Theorem fail_closed {RT : Runtime} {CM : CertManager} s ch tr r :
  (exists e, route_challenge ch = Err e) \/ secrets s = None ->
  exec (Present s (Some ch)) tr r \/ exec (CleanUp s (Some ch)) tr r ->
  exists start e, tr = [mkStep ENow start] /\ r = Some e /\
    (forall e', route_challenge ch = Err e' -> e = e') /\
    (forall c refs e', parseConfig (ch_Config ch) (ch_ResourceNamespace ch) = Ok (c, refs) ->
       Resolve (Some c) (ch_ResolvedFQDN ch) = Err e' -> errors_Is e ErrNoMatch = true).
Proof.
  intros Hc H.
  assert (exists start e, tr = [mkStep ENow start] /\ r = Some e /\
            forall e', route_challenge ch = Err e' -> e = e') as (start & e & -> & -> & He).
  { destruct H as [H|H]; [rewrite Present_handle in H|rewrite CleanUp_handle in H];
      by eapply handle_closed. }
  exists start, e. split; [done|]. split; [done|]. split; [done|]. intros c refs e' Hpc Hr.
  assert (route_challenge ch = Err (Errorf_w ("solver: route FQDN "
    +:+ strconv_Quote (ch_ResolvedFQDN ch) +:+ ": ") e' EmptyString)) as Hrc.
  { unfold route_challenge. rewrite Hpc. cbn [result_bind]. by rewrite Hr. }
  rewrite (He _ Hrc). rewrite errors_Is_Errorf_w. by eapply Resolve_err_Is.
Qed.

Lemma fail_closed_witness :
  exists start e,
    run_trace in_world (Present example_solver (Some stray_challenge)) example_world
      = [mkStep ENow start] /\
    fst (run in_world (Present example_solver (Some stray_challenge)) example_world) = Some e /\
    (forall e', route_challenge stray_challenge = Err e' -> e = e') /\
    (forall c refs e',
       parseConfig (ch_Config stray_challenge) (ch_ResourceNamespace stray_challenge) = Ok (c, refs) ->
       Resolve (Some c) (ch_ResolvedFQDN stray_challenge) = Err e' -> errors_Is e ErrNoMatch = true).
Proof.
  apply (fail_closed example_solver).
  - left. destruct (route_challenge stray_challenge) as [x|e] eqn:E; [|by exists e].
    exfalso. revert E. vm_compute. discriminate.
  - left. apply run_exec.
Defined.

(** C19: the solver redacts.  Two runs of a call in environments that differ only
    in what the Secret's token is write the same log records, send the same
    requests but for the [Authorization] header, and return the same error. *)
Theorem solver_redacts {RT : Runtime} {CM : CertManager} s kc l ch tr1 tr2 r1 r2 :
  production s kc l -> agree tr1 tr2 ->
  (exec (Present s (Some ch)) tr1 r1 /\ exec (Present s (Some ch)) tr2 r2) \/
  (exec (CleanUp s (Some ch)) tr1 r1 /\ exec (CleanUp s (Some ch)) tr2 r2) ->
  r1 = r2 /\ logs tr1 = logs tr2 /\ observed tr1 = observed tr2.
Proof.
  intros Hp Ha H. destruct H as [[H1 H2]|[H1 H2]]; (eapply low_exec; [|exact H1|exact H2|done]).
  - rewrite Present_handle. apply (handle_low s kc l); [done|]. intros. apply present_low.
  - rewrite CleanUp_handle. apply (handle_low s kc l); [done|]. intros. apply cleanup_low.
Qed.

(** The same environment with two tokens. *)
Definition token_secret (tok : string) : gmap string string := {[ "api-token" := tok ]}.

Lemma token_secret_same tok1 tok2 :
  TrimSpace tok1 <> EmptyString -> TrimSpace tok2 <> EmptyString ->
  same_data (token_secret tok1) (token_secret tok2).
Proof.
  intros H1 H2 key. unfold token_secret. destruct (decide (key = "api-token")) as [->|Hne].
  - rewrite !lookup_singleton_eq. split; [done|]. by intros v1 v2 [= <-] [= <-].
  - rewrite !lookup_singleton_ne by done. by split.
Qed.

Definition listing : list (result string Response) :=
  [reply 500 EmptyString; reply 200 (list_body example_token); reply 201 EmptyString].

Lemma solver_redacts_witness :
  fst (run (scripted_with (token_secret "alpha")) example_present listing) =
    fst (run (scripted_with (token_secret "beta")) example_present listing) /\
  logs (run_trace (scripted_with (token_secret "alpha")) example_present listing) =
    logs (run_trace (scripted_with (token_secret "beta")) example_present listing) /\
  observed (run_trace (scripted_with (token_secret "alpha")) example_present listing) =
    observed (run_trace (scripted_with (token_secret "beta")) example_present listing).
Proof.
  apply (solver_redacts example_solver tt 0%nat example_challenge).
  - apply example_production.
  - eapply low_run; [|apply scripted_alike, token_secret_same; vm_compute; discriminate].
    unfold example_present. rewrite Present_handle.
    apply (handle_low example_solver tt 0%nat); [apply example_production|].
    intros. apply present_low.
  - left. split; apply run_exec.
Defined.

(** C32: a call sends a bounded number of requests, retries included: [Present] at
    most 21 and [CleanUp] at most 14 (three and two API calls of at most seven
    attempts). *)
Theorem requests_bounded {RT : Runtime} {CM : CertManager} s kc l ch tr r :
  production s kc l ->
  (exec (Present s (Some ch)) tr r -> (length (do_steps tr) <= 21)%nat) /\
  (exec (CleanUp s (Some ch)) tr r -> (length (do_steps tr) <= 14)%nat).
Proof.
  intros Hp. split; intros H.
  - revert tr r H. apply (sends_handle s kc l); [done|]. intros. apply sends_present.
  - revert tr r H. apply (sends_handle s kc l); [done|]. intros. apply sends_cleanup.
Qed.

Lemma requests_bounded_witness :
  (length (do_steps (run_trace in_world example_present example_world)) <= 21)%nat.
Proof.
  apply (requests_bounded example_solver tt 0%nat example_challenge
    (run_trace in_world example_present example_world)
    (fst (run in_world example_present example_world)) example_production).
  apply run_exec.
Defined.

(** C23: what [Present] reports.  It returns no error only if it learned the zone's
    ID and then either created the record set or, on a conflict, replaced its
    records, with the name and value the challenge asks for; an error it returns
    is, for [errors.Is] with any sentinel, the error of the step that failed, and
    a conflict on creation is never reported as such. *)
Theorem present_outcome {RT : Runtime} {CM : CertManager} s ctx ch cred ref client zoneApex tr r :
  exec (present_prepared s ctx ch (mkPrepared cred ref client zoneApex)) tr r ->
  let name := relativeRecordName (ch_ResolvedFQDN ch) zoneApex in
  let value := mkRecord (quoteTXT (ch_Key ch)) EmptyString in
  let create zid := hc_CreateRRSet client ctx zid
    (mkCreateRRSetRequest name "TXT" (Some (rrsetTTL s)) [value] []) in
  let replace zid := hc_SetRRSetRecords client ctx zid name "TXT"
    (mkSetRRSetRecordsRequest [value]) in
  match r with
  | None => exists zid,
      performed (resolveZoneID ctx client (SecretRef_String ref) zoneApex) (Ok zid) tr /\
      ((exists rr, performed (create zid) (Ok rr) tr) \/
       (exists e, performed (create zid) (Err e) tr /\ errors_Is e ErrConflict = true) /\
       exists a, performed (replace zid) (Ok a) tr)
  | Some err => exists cause, (forall target, errors_Is err target = errors_Is cause target) /\
      (performed (resolveZoneID ctx client (SecretRef_String ref) zoneApex) (Err cause) tr \/
       exists zid, performed (resolveZoneID ctx client (SecretRef_String ref) zoneApex) (Ok zid) tr /\
         (performed (create zid) (Err cause) tr /\ errors_Is cause ErrConflict = false \/
          performed (replace zid) (Err cause) tr))
  end.
Proof.
  unfold present_prepared. rewrite exec_bind. intros (tr1 & rz & tr2 & -> & Hz & H).
  assert (performed (resolveZoneID ctx client (SecretRef_String ref) zoneApex) rz (tr1 ++ tr2)) as Pz
    by (by exists [], tr1, tr2).
  destruct rz as [zid|e]; [|destruct H as [-> ->]; exists e; by split; [|left]].
  apply exec_bind in H. destruct H as (tr3 & rc & tr4 & -> & Hc & H).
  set (create := hc_CreateRRSet client ctx zid _) in *.
  assert (performed create rc (tr1 ++ tr3 ++ tr4)) as Pc by (by exists tr1, tr3, tr4).
  destruct rc as [rr|e].
  { unfold LogAttrs in H. apply exec_perform in H. destruct H as ([] & tr5 & -> & -> & ->).
    exists zid. split; [done|]. left. by exists rr. }
  destruct (errors_Is e ErrConflict) eqn:Ec.
  - unfold reconcileExisting in H. apply exec_bind in H.
    destruct H as (tr5 & ra & tr6 & -> & Hs & H).
    assert (performed (hc_SetRRSetRecords client ctx zid
      (relativeRecordName (ch_ResolvedFQDN ch) zoneApex) defaultRRSetType
      (mkSetRRSetRecordsRequest [mkRecord (quoteTXT (ch_Key ch)) EmptyString])) ra
      (tr1 ++ tr3 ++ tr5 ++ tr6)) as Ps
      by (exists (tr1 ++ tr3), tr5, tr6; by rewrite <- app_assoc).
    destruct ra as [a|e'].
    + unfold LogAttrs in H. apply exec_perform in H. destruct H as ([] & tr7 & -> & -> & ->).
      exists zid. split; [done|]. right. split; [by exists e|by exists a].
    + destruct H as [-> ->]. exists e'. split; [done|]. right. exists zid. split; [done|]. by right.
  - assert (r = Some (wrapError "create RRSet" (Name cred) zoneApex e)) as ->.
    { destruct (errors_Is e ErrNotFound); [|by destruct H].
      apply exec_perform in H. by destruct H as ([] & tr5 & -> & -> & ->). }
    exists e. split; [done|]. right. exists zid. split; [done|]. by left.
Qed.

Definition example_prepared : prog (option error) :=
  present_prepared example_solver context_Background example_challenge
    (mkPrepared example_cred example_ref
       (Client_as_HCloudClient (default_client 0%nat example_token)) "example.com").

Lemma present_outcome_witness :
  let client := Client_as_HCloudClient (default_client 0%nat example_token) in
  let value := mkRecord (qt "'Zm9v-_x'") EmptyString in
  let create zid := hc_CreateRRSet client context_Background zid
    (mkCreateRRSetRequest "_acme-challenge.app" "TXT" (Some 60) [value] []) in
  let replace zid := hc_SetRRSetRecords client context_Background zid "_acme-challenge.app" "TXT"
    (mkSetRRSetRecordsRequest [value]) in
  let tr := run_trace in_world example_prepared example_world in
  exists zid,
    performed (resolveZoneID context_Background client "cert-manager/hcloud-a#api-token"
      "example.com") (Ok zid) tr /\
    ((exists rr, performed (create zid) (Ok rr) tr) \/
     (exists e, performed (create zid) (Err e) tr /\ errors_Is e ErrConflict = true) /\
     exists a, performed (replace zid) (Ok a) tr).
Proof.
  apply (present_outcome example_solver context_Background example_challenge example_cred
    example_ref (Client_as_HCloudClient (default_client 0%nat example_token)) "example.com"
    (run_trace in_world example_prepared example_world) None).
  apply (run_exec in_world example_prepared example_world).
Defined.


Definition example_client_iface : HCloudClient :=
  Client_as_HCloudClient (default_client 0%nat example_token).



(** C25: how a zone's ID is found.  A cached ID is used as it is, without a request;
    otherwise the zones are listed once, and the ID is that of the first zone whose
    name is the configured apex, byte for byte, which is then cached; if there is
    none the call fails with [ErrNotFound] and caches nothing. *)
Theorem zone_resolution {RT : Runtime} {CM : CertManager} ctx client ref zoneApex tr r :
  exec (resolveZoneID ctx client ref zoneApex) tr r ->
  let key := mkZoneCacheKey ref zoneApex in
  exists hit tr', tr = mkStep (ECacheLookup key) hit :: tr' /\
    match hit with
    | Some id => tr' = [] /\ r = Ok id
    | None =>
        (exists e, exec (hc_ListZones client ctx) tr' (Err e) /\ r = Err e) \/
        exists zs tr'', exec (hc_ListZones client ctx) tr'' (Ok zs) /\
          ((exists zs1 z zs2, zs = zs1 ++ z :: zs2 /\ Zone_Name z = zoneApex /\
              Forall (fun z' => Zone_Name z' <> zoneApex) zs1 /\
              r = Ok (Zone_ID z) /\ tr' = tr'' ++ [mkStep (ECacheStore key (Zone_ID z)) tt]) \/
           (Forall (fun z' => Zone_Name z' <> zoneApex) zs /\ tr' = tr'' /\
            exists e, r = Err e /\ errors_Is e ErrNotFound = true))
    end.
Proof.
  unfold resolveZoneID. intros H. apply exec_perform in H. destruct H as (hit & tr' & -> & H).
  exists hit, tr'. split; [done|]. destruct hit as [id|]; [by destruct H|].
  apply exec_try in H. destruct H as [(tr1 & zs & tr2 & -> & Hl & H)|(e & Hl & ->)]; [|left; by exists e].
  right. exists zs, tr1. split; [done|]. pose proof (find_zone_spec zs zoneApex) as Hf.
  destruct (find_zone zs zoneApex) as [z|].
  - destruct Hf as (zs1 & zs2 & -> & Hn & Hf). apply exec_perform in H.
    destruct H as ([] & tr3 & -> & -> & ->). left. by exists zs1, z, zs2.
  - destruct H as [-> ->]. rewrite app_nil_r. right. split; [done|]. split; [done|]. by eexists.
Qed.

Definition example_resolve : prog (res Z) :=
  resolveZoneID context_Background example_client_iface "ns/n#k" "example.com".

Lemma zone_resolution_witness :
  let tr := run_trace in_world example_resolve example_world in
  exists hit tr', tr = mkStep (ECacheLookup (mkZoneCacheKey "ns/n#k" "example.com")) hit :: tr'.
Proof.
  destruct (zone_resolution context_Background example_client_iface "ns/n#k" "example.com"
    (run_trace in_world example_resolve example_world)
    (fst (run in_world example_resolve example_world))
    (run_exec in_world example_resolve example_world)) as (hit & tr' & H & _).
  by exists hit, tr'.
Defined.
