(* ===== verification/PoolTheorems.v ===== *)
(** Concurrent challenges: calls under way at the same time do not disturb each
    other, and all of them return. *)
From S2P Require Import Prelude GoStrings Utf8 Runtime Quote Errors Routing RoutingSpec ValidateSpec Json Types ZoneCache.
From S2P Require Import Effects Client ClientSpec ClientPaths Interference ZonesAPI ExampleAPI Endpoints WorldClient.
From S2P Require Import SolverConfig ConfigTheorems Secrets Solver RecordNames Tasks WorldSolver EndToEnd.
From S2P Require Import EndToEndTheorems Steps Pool Jobs.

(** C3: challenges served at the same time do not disturb each other.  Any number of
    [Present] and [CleanUp] calls run concurrently, of one project or of several,
    each starting when it likes, sharing the solver and its zone cache, while other
    programs change other record sets, zones and Secrets.  Calls may be about the
    same record set too, as for a domain and its wildcard, unless one presents what
    another cleans up.  For each of them the conditions of [present_correct] hold
    in the world they all set out from, at the time the call starts: its challenge
    routes, the Secret holds a valid token, the zone is a primary one on the first
    page, the cache does not answer with another zone ([job_ready]); others take
    none of that away ([bystanders]); and its network is bearable ([job_borne]).  In
    every interleaving
    of their events, every call that returns reports success, within its budget, and
    its record set is then what it, or another call about the same record set, would
    have made of it alone; no other record set is touched by any of them. *)
Theorem concurrent_calls_correct {RT : Runtime} {CM : CertManager} {API : ZonesAPI} s kc l jobs w
    Env n p :
  ZonesAPILaws API -> Reachable API -> production s kc l ->
  Forall (fun j => job_ready s (at_job w j) j) jobs -> Forall (job_borne s) jobs -> harmonious jobs ->
  (forall w1 w2, Env w1 w2 -> bystanders jobs w1 w2) ->
  pool_run Env n (w, map (job_thread s) jobs) p ->
  (forall i j t r, jobs !! i = Some j -> snd p !! i = Some t -> returned t r ->
     r = None /\ th_now t < j_at j + requestBudget s /\
     exists j', j' ∈ jobs /\ job_key j' = job_key j /\
       api_rrsets (w_api (fst p)) !! job_key j = job_result s w j') /\
  (forall k, k ∉ map job_key jobs ->
     (forall w1 w2, Env w1 w2 -> api_rrsets (w_api w2) !! k = api_rrsets (w_api w1) !! k) ->
     api_rrsets (w_api (fst p)) !! k = api_rrsets (w_api w) !! k).
Proof.
  intros HL HR Hp Hr Hb Hh He Hrun.
  assert (apart (map sp_aim (map (job_spec s w jobs) jobs))) as Ha.
  { rewrite job_aims. apply jobs_apart. eapply Forall_impl; [exact Hr|]. intros j Hj.
    by exists (j_at j), (j_network j). }
  pose proof (jobs_doing s kc l w jobs Hp Hh Hr Hb) as HF.
  assert (forall w1 w2, Env w1 w2 -> outside (map sp_task (map (job_spec s w jobs) jobs)) w1 w2) as He'.
  { intros w1 w2 H. rewrite job_tasks. by apply He. }
  split.
  - intros i j t r Hj Ht Hret. pose proof (run_doing _ _ Ha He' _ _ _ Hrun HF) as HF'.
    assert (map (job_spec s w jobs) jobs !! i = Some (job_spec s w jobs j)) as Hs
      by (rewrite list_lookup_fmap, Hj; done).
    pose proof (Forall2_lookup_lr _ _ _ _ _ _ HF' Hs Ht) as Hd. unfold doing in Hd. rewrite Hret in Hd.
    destruct (Hd _ ltac:(done)) as (-> & Hdl & _ & Hst). split; [done|]. split; [|done]. by apply timely_call.
  - intros k Hk Hek. refine (run_untouched _ _ Ha He' _ _ p k Hek _ Hrun HF). by rewrite map_map.
Qed.

(** The events a call may perform. *)
Definition call_bound (op : operation) : nat :=
  match op with DoPresent => 146 | DoCleanUp => 99 end.

Definition call_thread {RT : Runtime} {CM : CertManager} {API : ZonesAPI} (s : Solver)
    (x : operation * option ChallengeRequest * (Z * list hop)) : thread :=
  mkThread (operate s (fst (fst x)) (snd (fst x))) (fst (snd x)) (snd (snd x)).

Lemma calls_return {RT : Runtime} {CM : CertManager} {API : ZonesAPI} s kc l calls :
  production s kc l ->
  Forall2 (fun n t => returns_within n (th_prog t))
    (map (fun x => call_bound (fst (fst x))) calls) (map (call_thread s) calls).
Proof.
  intros Hp. induction calls as [|[[op ch] [t net]] calls IH]; simpl; constructor; [|done].
  destruct op; simpl; [by eapply steps_Present|by eapply steps_CleanUp].
Qed.

(** C14: every call returns.  Whatever calls run at the same time, whatever their
    configurations, whenever they start, whatever the API, the Secrets, the network
    and other programs do, and in whatever order the calls take their turns: [Present] performs at
    most 146 events and [CleanUp] at most 99, and from every state that they can
    reach together they can be brought to return within what is left of that. *)
Theorem concurrent_calls_return {RT : Runtime} {CM : CertManager} {API : ZonesAPI} s kc l calls w
    Env n p :
  production s kc l -> pool_run Env n (w, map (call_thread s) calls) p ->
  exists turns p', schedule turns p = Some p' /\
    Forall (fun t => exists r, returned t r) (snd p') /\
    (n + length turns <= sum_list (map (fun x => call_bound (fst (fst x))) calls))%nat.
Proof.
  intros Hp Hrun. pose proof (calls_return s kc l calls Hp) as HF.
  destruct (run_returns _ _ _ _ _ Hrun HF) as (ns & HF').
  destruct (can_return p ns HF') as (turns & p' & Ht & Hr). exists turns, p'.
  split; [done|]. split; [done|].
  exact (run_steps Env _ (w, map (call_thread s) calls) p' _
    (run_app _ _ _ _ _ _ Hrun (schedule_run _ _ _ _ Ht)) HF).
Qed.

(** ** An example *)

#[local] Existing Instances example_runtime example_cert_manager example_api.

Definition org_config : string := qt
  "{'credentials':[{'name':'project-b','zones':['example.org'],'namespace':'dns',
     'apiTokenSecretRef':{'name':'hcloud-b'}}]}".

Definition org_challenge : ChallengeRequest :=
  mkChallengeRequest (Some org_config) "web" "_acme-challenge.example.org." "b3Jn".

Definition old_challenge : ChallengeRequest :=
  mkChallengeRequest (Some example_config) "cert-manager" "_acme-challenge.old.example.com." "b2xk".

(** Two challenges of one project, one presented and one cleaned up, and one of
    another project; the network is rough for two of them.  [racing_jobs]: and
    another challenge for the name of the first. *)
Definition example_jobs : list job := [
  mkJob DoPresent example_challenge example_cred example_ref "example.com" 7 "t0ken" 1000 rough_network;
  mkJob DoCleanUp old_challenge example_cred example_ref "example.com" 7 "t0ken" 9000 [];
  mkJob DoPresent org_challenge (mkCredential "project-b" ["example.org"] "dns/hcloud-b#token")
    (mkSecretRef "dns" "hcloud-b" "token") "example.org" 9 "0ther" 1000
    [passes (ms 30); fails (ms 800) (Err "unexpected EOF") true]].

Definition racing_jobs : list job := example_jobs ++ [
  mkJob DoPresent (with_key example_challenge "YmFy") example_cred example_ref "example.com" 7 "t0ken" 1000 []].

Definition busy_world : world :=
  mkWorld 1000 (newZoneCache (30 * Second) None)
    (<[("dns", "hcloud-b") := {[ "token" := "0ther" ]}]> (w_secrets example_world)) []
    (<[(7, "_acme-challenge.old", "TXT") := mkRRSetState [mkRecord "x" EmptyString] (Some 60)]>
       other_records).

(** Somebody else at work: a record set and a Secret that are not the jobs' change,
    and time passes. *)
Definition meddled_key : rrkey := (7, "www", "A").
Definition meddled_secret : string * string := ("web", "database").

Definition meddle (w : world) : world :=
  mkWorld (w_now w + 5 * Second) (w_cache w) (<[meddled_secret := ∅]> (w_secrets w)) (w_network w)
    (<[meddled_key := mkRRSetState [mkRecord "192.0.2.2" EmptyString] None]> (w_api w : gmap rrkey RRSetState)).

Definition meddling (w w' : world) : Prop := w' = meddle w.

Definition aloof (T : Task) : bool :=
  negb (bool_decide (tk_secret T = meddled_secret)) && negb (bool_decide (tk_key T = meddled_key)).

Lemma meddling_key k w w' :
  meddling w w' -> k <> meddled_key -> api_rrsets (w_api w') !! k = api_rrsets (w_api w) !! k.
Proof. intros ->. exact (fun Hk => lookup_insert_ne _ _ _ _ (not_eq_sym Hk)). Qed.

Lemma meddling_outside jobs w w' :
  meddling w w' -> forallb aloof (map job_task jobs) = true -> bystanders jobs w w'.
Proof.
  intros Hw Ha. assert (forall T, T ∈ map job_task jobs ->
    tk_secret T <> meddled_secret /\ tk_key T <> meddled_key) as H.
  { intros T HT%list_elem_of_In. apply (proj1 (forallb_forall _ _) Ha) in HT. unfold aloof in HT.
    apply andb_true_iff in HT as [H1 H2]. apply negb_true_iff, bool_decide_eq_false in H1, H2. by split. }
  split.
  - rewrite Hw. unfold meddle, Second. simpl. lia.
  - by rewrite Hw.
  - intros T HT. rewrite Hw. apply lookup_insert_ne. apply not_eq_sym. by apply H.
  - intros T HT. by split; [intros tok Hp; exact Hp|intros Hp; exact Hp].
  - intros T HT. apply (meddling_key _ _ _ Hw). by apply H.
Qed.

(** The world has what a job needs. *)
Ltac job_is_ready data :=
  split; [split; [vm_compute; reflexivity|exists data; split; vm_compute; reflexivity
                 |apply (bool_decide_unpack _); vm_compute; exact I|vm_compute; reflexivity|vm_compute; reflexivity
                 |left; vm_compute; reflexivity|vm_compute; reflexivity..]
         |split; vm_compute; reflexivity].

(** Whatever the instants at which their cache is asked. *)
Lemma racing_jobs_ready (at_ : job -> world -> world) :
  (forall j w, exists t l, at_ j w = later w t l) ->
  Forall (fun j => job_ready example_solver (at_ j busy_world) j) racing_jobs.
Proof.
  intros H.
  constructor; [|constructor; [|constructor; [|constructor; [|constructor]]]];
    match goal with |- job_ready _ (at_ ?j ?w) _ => destruct (H j w) as (t & l & ->) end.
  - job_is_ready ({[ "api-token" := "t0ken" +:+ byte1 (chr 10) ]} : gmap string string).
  - job_is_ready ({[ "api-token" := "t0ken" +:+ byte1 (chr 10) ]} : gmap string string).
  - job_is_ready ({[ "token" := "0ther" ]} : gmap string string).
  - job_is_ready ({[ "api-token" := "t0ken" +:+ byte1 (chr 10) ]} : gmap string string).
Qed.

Lemma racing_jobs_due : Forall (fun j => job_ready example_solver (at_job busy_world j) j) racing_jobs.
Proof. apply (racing_jobs_ready (fun j w => at_job w j)). intros j w. by exists (j_at j), (j_network j). Qed.

Lemma racing_jobs_now : Forall (job_ready example_solver busy_world) racing_jobs.
Proof.
  apply (racing_jobs_ready (fun _ w => w)). intros _ w. exists (w_now w), (w_network w). symmetry. apply later_same.
Qed.

Lemma racing_jobs_borne : Forall (job_borne example_solver) racing_jobs.
Proof. repeat constructor; vm_compute; reflexivity. Qed.

Lemma example_jobs_now : Forall (job_ready example_solver busy_world) example_jobs.
Proof. exact (proj1 (proj1 (Forall_app _ _ _) racing_jobs_now)). Qed.

(** Decided for given jobs: that they are harmonious, and what may become of a
    record set. *)
Definition harmoniousb (jobs : list job) : bool :=
  forallb (fun j => forallb (fun j' =>
    negb (bool_decide (job_key j = job_key j')) || bool_decide (j_op j = j_op j')) jobs) jobs.

Lemma harmoniousb_true jobs : harmoniousb jobs = true -> harmonious jobs.
Proof.
  intros H j j' Hj%list_elem_of_In Hj'%list_elem_of_In E. unfold harmoniousb in H.
  apply (proj1 (forallb_forall _ _)) with (x := j) in H; [|done].
  apply (proj1 (forallb_forall _ _)) with (x := j') in H; [|done].
  rewrite bool_decide_eq_true_2 in H by done. by apply bool_decide_eq_true in H.
Qed.

Definition may_become (jobs : list job) (k : rrkey) (l : list (option RRSetState)) : bool :=
  forallb (fun j => negb (bool_decide (job_key j = k)) ||
    bool_decide (job_result example_solver busy_world j ∈ l)) jobs.

Lemma may_become_true jobs k l o :
  may_become jobs k l = true ->
  (exists j, j ∈ jobs /\ job_key j = k /\ o = job_result example_solver busy_world j) -> o ∈ l.
Proof.
  intros H (j & Hj%list_elem_of_In & E & ->). unfold may_become in H.
  apply (proj1 (forallb_forall _ _)) with (x := j) in H; [|done].
  rewrite bool_decide_eq_true_2 in H by done. by apply bool_decide_eq_true in H.
Qed.

(** The calls take turns until all have returned. *)
Fixpoint round_robin {RT : Runtime} {API : ZonesAPI} (fuel n i : nat) (p : pool (A := option error)) :
    list nat :=
  match fuel with
  | O => []
  | S fuel' =>
      match fire (i mod n) p with
      | Some p' => (i mod n)%nat :: round_robin fuel' n (S i) p'
      | None => round_robin fuel' n (S i) p
      end
  end.

Definition example_pool : pool (A := option error) :=
  (busy_world, map (job_thread example_solver) racing_jobs).
Definition example_turns : list nat := round_robin 400 4 0 example_pool.

(** The pool after some turns. *)
Definition after_turns (turns : list nat) (p : pool (A := option error)) : pool (A := option error) :=
  default p (schedule turns p).

Definition possible {X} (o : option X) : bool := match o with Some _ => true | None => false end.

Lemma after_turns_run Env turns p :
  possible (schedule turns p) = true -> pool_run Env (length turns) p (after_turns turns p).
Proof. intros H. apply schedule_run. unfold after_turns. by destruct (schedule turns p). Qed.

(** After forty turns somebody meddles; then the calls go on until they have all
    returned. *)
Definition example_middle : pool (A := option error) := after_turns (take 40 example_turns) example_pool.
Definition example_meddled : pool (A := option error) := (meddle (fst example_middle), snd example_middle).
Definition example_rest : list nat := round_robin 400 4 0 example_meddled.
Definition example_end : pool (A := option error) := after_turns example_rest example_meddled.

Lemma example_middle_run Env : pool_run Env 40 example_pool example_middle.
Proof.
  assert (length (take 40 example_turns) = 40%nat) as <- by (vm_compute; reflexivity).
  apply after_turns_run. vm_compute. reflexivity.
Qed.

Lemma example_run : pool_run meddling (40 + length example_rest) example_pool example_end.
Proof.
  apply (run_app _ _ _ _ _ _ (example_middle_run meddling)).
  rewrite (surjective_pairing example_middle). eapply run_others; [reflexivity|].
  apply (after_turns_run meddling example_rest example_meddled). vm_compute. reflexivity.
Qed.

Definition succeeded {RT : Runtime} {API : ZonesAPI} (t : thread (A := option error)) : bool :=
  match th_prog t with Ret None => true | _ => false end.

Lemma all_succeeded {RT : Runtime} {API : ZonesAPI} ts :
  forallb succeeded ts = true -> Forall (fun t => returned t None) ts.
Proof.
  induction ts as [|t ts IH]; simpl; intros H; to_prop; constructor; [|by apply IH].
  unfold succeeded, returned in *. by destruct (th_prog t) as [[e|]|].
Qed.

Lemma concurrent_calls_correct_witness :
  Forall (fun t => returned t None) (snd example_end) /\
  let after := api_rrsets (w_api (fst example_end)) in
  after !! example_key ∈ [Some (mkRRSetState [mkRecord (qt "'Zm9v-_x'") EmptyString] (Some 60));
                          Some (mkRRSetState [mkRecord (qt "'YmFy'") EmptyString] (Some 60))] /\
  after !! (7, "_acme-challenge.old", "TXT") ∈ [None] /\
  after !! (9, "_acme-challenge", "TXT")
    ∈ [Some (mkRRSetState [mkRecord (qt "'b3Jn'") EmptyString] (Some 60))] /\
  after !! (7, "_acme-challenge.app", "CNAME") = None.
Proof.
  assert (Forall (fun t => returned t None) (snd example_end)) as Hs
    by (apply all_succeeded; vm_compute; reflexivity).
  assert (length (snd example_end) = 4%nat) as Hlen by (vm_compute; reflexivity).
  split; [exact Hs|].
  destruct (concurrent_calls_correct example_solver tt 0%nat racing_jobs busy_world meddling
    (40 + length example_rest) example_end) as [Hjobs Hothers].
  - apply example_api_laws.
  - apply example_reachable.
  - apply example_production.
  - apply racing_jobs_due.
  - apply racing_jobs_borne.
  - apply harmoniousb_true. vm_compute. reflexivity.
  - intros w1 w2 Hw. apply meddling_outside; [exact Hw|]. vm_compute. reflexivity.
  - apply example_run.
  - assert (forall i k l, job_key <$> racing_jobs !! i = Some k -> may_become racing_jobs k l = true ->
      api_rrsets (w_api (fst example_end)) !! k ∈ l) as H.
    { intros i k l Hk Hl. destruct (racing_jobs !! i) as [j|] eqn:Hj; [|discriminate Hk].
      injection Hk as <-. apply lookup_lt_Some in Hj as Hi. change (length racing_jobs) with 4%nat in Hi.
      destruct (lookup_lt_is_Some_2 (snd example_end) i) as [t Ht]; [lia|].
      destruct (Hjobs i j t None Hj Ht (Forall_lookup_1 _ _ _ _ Hs Ht)) as (_ & _ & Hj').
      exact (may_become_true racing_jobs (job_key j) l _ Hl Hj'). }
    intros after. split; [|split; [|split]].
    + apply (H 0%nat); vm_compute; reflexivity.
    + apply (H 1%nat); vm_compute; reflexivity.
    + apply (H 2%nat); vm_compute; reflexivity.
    + etransitivity; [|exact (eq_refl : other_records !! (7, "_acme-challenge.app", "CNAME") = None)].
      apply Hothers; [|intros w1 w2 Hw; by apply meddling_key].
      apply (bool_decide_unpack (_ ∉ map job_key racing_jobs)). vm_compute. exact I.
Defined.

Lemma concurrent_calls_return_witness :
  exists turns p', schedule turns example_middle = Some p' /\
    Forall (fun t => exists r, returned t r) (snd p') /\ (40 + length turns <= 537)%nat.
Proof.
  apply (concurrent_calls_return example_solver tt 0%nat
    (map (fun j => (j_op j, Some (j_ch j), (j_at j, j_network j))) racing_jobs) busy_world eq 40
    example_middle example_production (example_middle_run eq)).
Defined.

(** Why calls that present and clean up the same record set are left out: the
    creation finds the record set there, the other call deletes it, and the
    replacement of its records finds it gone. *)
Definition clash_pool : pool (A := option error) :=
  (busy_world, map (job_thread example_solver) [
    mkJob DoPresent old_challenge example_cred example_ref "example.com" 7 "t0ken" 1000 [];
    mkJob DoCleanUp old_challenge example_cred example_ref "example.com" 7 "t0ken" 1000 []]).

Definition clash_turns : list nat := replicate 12 0%nat ++ replicate 8 1%nat ++ replicate 4 0%nat.

(** How a call has ended: well, or with [ErrNotFound] or not. *)
Definition not_found {RT : Runtime} {API : ZonesAPI} (t : thread (A := option error)) : option (option bool) :=
  match th_prog t with
  | Ret r => Some ((fun e => errors_Is e ErrNotFound) <$> r)
  | Op _ _ => None
  end.

Example present_races_cleanup :
  map not_found (snd (after_turns clash_turns clash_pool)) = [Some (Some true); Some None].
Proof. vm_compute. reflexivity. Qed.
