(* ===== verification/SessionTheorems.v ===== *)
(** Sessions: what a series of calls, one after the other, makes of the record
    sets. *)
From S2P Require Import Prelude GoStrings Utf8 Runtime Quote Errors Routing RoutingSpec ValidateSpec Json Types ZoneCache.
From S2P Require Import Effects Client ClientSpec ClientPaths Interference ZonesAPI ExampleAPI Endpoints WorldClient.
From S2P Require Import SolverConfig ConfigTheorems Secrets Solver RecordNames Tasks WorldSolver EndToEnd.
From S2P Require Import EndToEndTheorems Steps Pool Jobs PoolTheorems.

(** C4: to cert-manager the webhook is a store of record sets.  Let [Present] and
    [CleanUp] be called any number of times, for any challenges of any projects,
    one after the other and however far apart, and let other programs change other
    record sets, zones and Secrets in between.  Let the world have what each of the
    calls needs at any time: its challenge routes, the Secret holds a valid token,
    the zone is a primary one on the first page, and the cache has no wrong entry
    for it ([job_steady]); and let each call's network be bearable ([job_borne]).
    Such a session can be held, every call of it succeeds, and every record set is
    what the calls about it make of it in turn: presenting puts the challenge's
    record there and keeps the TTL of what it replaces, cleaning up removes it,
    calls about other record sets do not matter. *)
Theorem sessions_refine {RT : Runtime} {CM : CertManager} {API : ZonesAPI} s kc l jobs w Env :
  ZonesAPILaws API -> Reachable API -> production s kc l ->
  Forall (job_steady s w) jobs -> Forall (job_borne s) jobs ->
  (forall w1 w2, Env w1 w2 -> bystanders jobs w1 w2) ->
  (exists rs w', session Env s jobs w rs w') /\
  forall rs w', session Env s jobs w rs w' ->
    rs = map (fun _ => None) jobs /\
    forall k, k ∈ map job_key jobs \/
        (forall w1 w2, Env w1 w2 -> api_rrsets (w_api w2) !! k = api_rrsets (w_api w1) !! k) ->
      api_rrsets (w_api w') !! k = session_result s k jobs (api_rrsets (w_api w) !! k).
Proof.
  intros HL HR Hp Hs Hb He. split; [eexists _, _; apply serve_session|]. intros rs w' Hses.
  destruct (session_steady Env s kc l jobs w rs w' Hp Hses He Hs Hb) as (-> & Hk & _).
  split; [done|]. intros k Hor. apply Hk. destruct Hor as [Hin|Hin]; [|done]. intros w1 w2 Hw.
  apply list_elem_of_fmap in Hin as (j & -> & Hj).
  apply (out_rrsets _ _ _ (He w1 w2 Hw) (job_task j)). by apply (list_elem_of_fmap_2 job_task).
Qed.

(** ** An example *)

#[local] Existing Instances example_runtime example_cert_manager example_api.

Definition app_job (op : operation) (key : string) (t : Z) (net : list hop) : job :=
  mkJob op (with_key example_challenge key) example_cred example_ref "example.com" 7 "t0ken" t net.

Definition org_job (op : operation) (t : Z) (net : list hop) : job :=
  mkJob op org_challenge (mkCredential "project-b" ["example.org"] "dns/hcloud-b#token")
    (mkSecretRef "dns" "hcloud-b" "token") "example.org" 9 "0ther" t net.

(** Two challenges for one name, one of another project in between, clean-ups, some
    of them twice; the zone cache expires in between. *)
Definition example_session : list job := [
  app_job DoPresent "Zm9v-_x" 1000 rough_network;
  org_job DoPresent 2000 [];
  app_job DoPresent "YmFy" 3000 [];
  org_job DoCleanUp (90 * Second) rough_network;
  app_job DoCleanUp "YmFy" (91 * Second) [];
  app_job DoCleanUp "Zm9v-_x" (91 * Second) [];
  org_job DoPresent (92 * Second) []].

Lemma busy_known T : known T busy_world.
Proof. intros e He. by vm_compute in He. Qed.

Lemma example_session_steady :
  Forall (job_steady example_solver busy_world) example_session.
Proof.
  unfold example_session, app_job, org_job.
  repeat (apply Forall_cons; split; [split; [|apply busy_known]|]); try by constructor.
  all: first [job_is_ready ({[ "api-token" := "t0ken" +:+ byte1 (chr 10) ]} : gmap string string)
             |job_is_ready ({[ "token" := "0ther" ]} : gmap string string)].
Qed.

Lemma example_session_borne : Forall (job_borne example_solver) example_session.
Proof. repeat constructor; vm_compute; reflexivity. Qed.

(** After three calls, somebody meddles. *)
Definition session_middle : world :=
  meddle (snd (serve example_solver (take 3 example_session) busy_world)).
Definition session_after : list (option error) * world :=
  serve example_solver (drop 3 example_session) session_middle.

Lemma example_session_run :
  session meddling example_solver example_session busy_world
    (fst (serve example_solver (take 3 example_session) busy_world) ++ fst session_after)
    (snd session_after).
Proof.
  apply (session_app meddling example_solver (take 3 example_session) (drop 3 example_session)
    busy_world _ (snd (serve example_solver (take 3 example_session) busy_world))).
  - apply serve_session.
  - apply (session_others meddling example_solver _ _ session_middle); [reflexivity|].
    apply serve_session.
Qed.

Lemma sessions_refine_witness :
  fst (serve example_solver (take 3 example_session) busy_world) ++ fst session_after
    = [None; None; None; None; None; None; None] /\
  let after := api_rrsets (w_api (snd session_after)) in
  after !! example_key = None /\
  after !! (9, "_acme-challenge", "TXT")
    = Some (mkRRSetState [mkRecord (qt "'b3Jn'") EmptyString] (Some 60)) /\
  after !! (7, "_acme-challenge.old", "TXT") = Some (mkRRSetState [mkRecord "x" EmptyString] (Some 60)).
Proof.
  destruct (sessions_refine example_solver tt 0%nat example_session busy_world meddling example_api_laws
    example_reachable example_production example_session_steady example_session_borne) as [_ H].
  { intros w1 w2 Hw. apply meddling_outside; [exact Hw|]. vm_compute. reflexivity. }
  destruct (H _ _ example_session_run) as [Hrs Hk]. split; [exact Hrs|].
  intros after. unfold after. split; [|split].
  - rewrite (Hk example_key); [vm_compute; reflexivity|].
    left. apply (bool_decide_unpack (_ ∈ map job_key example_session)). vm_compute. exact I.
  - rewrite Hk; [vm_compute; reflexivity|].
    left. apply (bool_decide_unpack (_ ∈ map job_key example_session)). vm_compute. exact I.
  - rewrite Hk; [vm_compute; reflexivity|]. right. intros w1 w2 Hw. by apply meddling_key.
Defined.
