(* ===== verification/FaultTheorems.v ===== *)
(** What failures cannot do: calls under way at the same time, any of whose
    requests, waits and reads of Secrets may fail at any moment, and a process
    that may be killed. *)
From S2P Require Import Prelude GoStrings Utf8 Runtime Quote Errors Routing RoutingSpec ValidateSpec Json Types ZoneCache.
From S2P Require Import Effects Client ClientSpec ClientPaths Interference ZonesAPI Adversity ExampleAPI.
From S2P Require Import Endpoints WorldClient FaultyClient.
From S2P Require Import SolverConfig ConfigTheorems Secrets Solver RecordNames Tasks WorldSolver EndToEnd FaultySolver.
From S2P Require Import EndToEndTheorems Steps Pool Jobs FaultyPool PoolTheorems SessionTheorems.


(** C6: whatever has failed, doing it again puts it right.  The calls of
    [calls_never_torn], about pairwise different record sets and with nothing wrong
    in the zone cache, are under way, have failed or have been cut off by the end of
    the process.  Now the same calls are made again, one after the other and
    whenever, by the same process or by a new one with an empty zone cache, each
    over a network that is bearable.  All of them succeed, every record set is what
    its call would have made of it in the first place, and the others are left as
    they are; and nothing of it changes when a request of the first calls is served
    only then. *)
Theorem failures_heal {RT : Runtime} {CM : CertManager} {API : ZonesAPI} s kc l jobs w Env n sc
    cache redo :
  ZonesAPILaws API -> Reachable API -> production s kc l -> monotone_clock w ->
  Forall (job_steady s w) jobs -> NoDup (map job_key jobs) ->
  (forall w1 w2, Env w1 w2 -> bystanders jobs w1 w2) ->
  adverse_run Env n (job_scene s w jobs) sc ->
  cache = w_cache (sc_world sc) \/ zc_store cache = ∅ ->
  length redo = length jobs -> Forall (fun tn => bearable s (fst tn) (snd tn)) redo ->
  exists w', serve s (again redo jobs) (set_cache (sc_world sc) cache)
               = (map (fun _ => None) (again redo jobs), w') /\
    (forall k, k ∉ map job_key jobs ->
       api_rrsets (w_api w') !! k = api_rrsets (w_api (sc_world sc)) !! k) /\
    forall j, j ∈ jobs ->
      api_rrsets (w_api w') !! job_key j = job_result s w j /\
      forall req, req ∈ sc_sent sc ->
        api_rrsets (snd (api_serve req (w_api w'))) !! job_key j = job_result s w j.
Proof.
  intros HL HR Hp Hm Hst Hn He Hrun Hc Hlen Hredo. pose proof (NoDup_harmonious jobs Hn) as Hh.
  assert (Forall (job_ready s w) jobs) as Hr by (eapply Forall_impl; [exact Hst|]; by intros j []).
  destruct (jobs_adverse s kc l w jobs Env (fun w' => Forall (job_steady s w') jobs) n sc Hp Hm Hh Hr He)
    as [[HF' Hsent Hz] Hst']; [| |done..|].
  2: { intros w1 w2 Hw. by apply jobs_steady_others, He. }
  { intros j' w1 w2 Hj' Hg H. apply Forall_forall. intros j Hj. rewrite Forall_forall in H.
    exact (job_steady_guar s w1 w2 j j' (H j Hj) (H j' Hj') Hg). }
  assert (Forall (job_steady s (set_cache (sc_world sc) cache)) jobs) as Hst''.
  { eapply Forall_impl; [exact Hst'|]. intros j Hj. by apply (job_steady_cache s (sc_world sc)). }
  destruct (serve_steady s kc l _ _ Hp (again_steady s _ redo jobs Hst'') (again_borne s redo jobs Hredo))
    as (w' & Hserve & Hz' & Hw').
  assert (forall j, j ∈ jobs -> api_rrsets (w_api w') !! job_key j = job_result s w j) as Hown.
  { intros j Hj. rewrite Hw', again_own by done. pose proof Hj as Hin. apply list_elem_of_lookup in Hin as [i Hi].
    destruct (Forall2_lookup_l _ _ _ i (job_fspec s w jobs j) HF') as (q & Hq & [_ Ho]);
      [by rewrite list_lookup_fmap, Hi|]. by apply job_effect_again, (NoDup_around s w jobs). }
  exists w'. split; [done|]. split; [intros k Hk; by rewrite Hw', again_other|].
  intros j Hj. split; [by apply Hown|]. intros req Hreq.
  destruct (Hsent req Hreq) as (sp & Hsp & Hsafe). apply list_elem_of_fmap in Hsp as (j' & -> & Hj').
  destruct (Hsafe (w_api w')) as (_ & Hoff & Hkey); [|right; exists j'; by split; [|split; [|apply Hown]]|].
  { transitivity (w_api (sc_world sc)); [|apply Hz']. apply (Hz (job_fspec s w jobs j')).
    by apply (list_elem_of_fmap_2 (job_fspec s w jobs)). }
  destruct (decide (job_key j = job_key j')) as [E|E].
  - assert (j' = j) as -> by (by apply (NoDup_job jobs)). etransitivity; [|by apply (Hown j)].
    destruct Hkey as [Hkey|(j1 & Hj1 & E1 & Hkey)]; [exact Hkey|].
    assert (j1 = j) as -> by (by apply (NoDup_job jobs)). etransitivity; [exact Hkey|]. symmetry. by apply Hown.
  - etransitivity; [by apply Hoff|]. by apply Hown.
Qed.

(** ** An example *)

#[local] Existing Instances example_runtime example_cert_manager example_api.

(** The first call's request is delayed, and its budget ends before it can try
    again; the second's token is refused; the third is cut off by the end of the
    process; at last the delayed request is served. *)
Definition example_fates : list turn :=
  concat (replicate 10 [Turn 0 Fine; Turn 1 Fine; Turn 2 Fine]) ++
  [Turn 0 (Faulty (Err "unexpected EOF") false);
   Turn 1 (Faulty (Ok (mkResponse 401 ∅ "no such token")) false);
   Turn 0 Fine; Turn 1 Fine; Turn 0 Fine; Turn 0 (Cut CtxDeadlineExceeded); Late 1].

(** Before all that, somebody meddles. *)
Definition meddled_scene (jobs : list job) : scene :=
  mkScene (meddle busy_world) [] (map (job_prog example_solver) jobs).

Definition wreck (jobs : list job) (fates : list turn) : scene :=
  default (meddled_scene jobs) (suffer fates (meddled_scene jobs)).

Lemma wreck_run jobs fates :
  forallb bearable_turn fates = true -> possible (suffer fates (meddled_scene jobs)) = true ->
  adverse_run meddling (events fates) (job_scene example_solver busy_world jobs) (wreck jobs fates).
Proof.
  intros Hb Hp. apply (adv_others meddling _ busy_world (meddle busy_world)); [reflexivity|].
  apply (suffer_run meddling fates (meddled_scene jobs)); [exact Hb|]. unfold wreck.
  by destruct (suffer _ _).
Qed.

Definition example_wreck : scene := wreck example_jobs example_fates.


Lemma example_suffered :
  adverse_run meddling (events example_fates) (job_scene example_solver busy_world example_jobs) example_wreck.
Proof. apply wreck_run; vm_compute; reflexivity. Qed.


Lemma example_meddling w w' : meddling w w' -> bystanders example_jobs w w'.
Proof. intros Hw. apply meddling_outside; [exact Hw|]. vm_compute. reflexivity. Qed.

Lemma example_jobs_apart : NoDup (map job_key example_jobs).
Proof. apply (bool_decide_unpack (NoDup (map job_key example_jobs))). vm_compute. exact I. Qed.




(** The process is started anew, and cert-manager asks again. *)
Lemma failures_heal_witness :
  let redo := [(9000, rough_network); (3000, []); (4000, [])] in
  exists w', serve example_solver (again redo example_jobs)
               (set_cache (sc_world example_wreck) (newZoneCache (30 * Second) None))
             = ([None; None; None], w') /\
    let after := api_rrsets (w_api w') in
    after !! example_key = Some (mkRRSetState [mkRecord (qt "'Zm9v-_x'") EmptyString] (Some 60)) /\
    after !! (7, "_acme-challenge.old", "TXT") = None /\
    after !! (9, "_acme-challenge", "TXT") =
      Some (mkRRSetState [mkRecord (qt "'b3Jn'") EmptyString] (Some 60)).
Proof.
  intros redo.
  destruct (failures_heal example_solver tt 0%nat example_jobs busy_world meddling (events example_fates)
    example_wreck (newZoneCache (30 * Second) None) redo) as (w' & Hserve & _ & Hjobs).
  - apply example_api_laws.
  - apply example_reachable.
  - apply example_production.
  - by intros t t' H.
  - eapply Forall_impl; [apply example_jobs_now|]. intros j Hj. split; [exact Hj|apply busy_known].
  - apply example_jobs_apart.
  - apply example_meddling.
  - apply example_suffered.
  - right. reflexivity.
  - reflexivity.
  - repeat constructor; vm_compute; reflexivity.
  - exists w'. split; [exact Hserve|].
    assert (forall i j, example_jobs !! i = Some j ->
      api_rrsets (w_api w') !! job_key j = job_result example_solver busy_world j) as H.
    { intros i j Hj. apply (Hjobs j). by eapply list_elem_of_lookup_2. }
    split; [exact (H 0%nat _ eq_refl)|]. split; [exact (H 1%nat _ eq_refl)|exact (H 2%nat _ eq_refl)].
Defined.

(** A limit that no client of this API is spared: a request of [Present] that is
    served only after [CleanUp] has succeeded leaves the record behind.  Here the
    delayed request of the first call comes after its challenge was cleaned up. *)
Definition delayed_scene : scene :=
  wreck example_jobs (List.removelast example_fates).

Definition cleaned : option error * world :=
  run in_world (CleanUp example_solver (Some example_challenge)) (sc_world delayed_scene).

Example delayed_present_outlives_cleanup :
  fst cleaned = None /\ api_rrsets (w_api (snd cleaned)) !! example_key = None /\
  (fun req => api_rrsets (snd (api_serve req (w_api (snd cleaned)))) !! example_key)
    <$> sc_sent delayed_scene !! 1%nat
  = Some (Some (mkRRSetState [mkRecord (qt "'Zm9v-_x'") EmptyString] (Some 60))).
Proof. split; [|split]; vm_compute; reflexivity. Qed.
