(* ===== verification/TimingTheorems.v ===== *)
(** Calls end in time, and say so when they run out of it. *)
From S2P Require Import Prelude GoStrings Utf8 Runtime Quote Errors Routing RoutingSpec ValidateSpec Json Types ZoneCache.
From S2P Require Import Effects Client ClientSpec ClientDelays ClientPaths Interference ZonesAPI ExampleAPI.
From S2P Require Import Endpoints WorldClient SolverConfig ConfigTheorems Secrets Solver RecordNames Tasks WorldSolver.
From S2P Require Import EndToEnd EndToEndTheorems Steps SolverSpec Timing.

(** C13: a call returns within its budget.  In every environment that gives up
    requests and the reading of Secrets when their context expires and ends waits
    with their timer or their context, [Present] and [CleanUp] return no later
    than [requestBudget] after they were called (two minutes unless configured
    otherwise), whatever is answered; should each of their events take up to [lag]
    longer than it has to, they are late by at most 146 times that. *)
Theorem calls_in_time {RT : Runtime} {CM : CertManager} s kc l ch tr r lag t t' :
  production s kc l -> 0 <= requestBudget s -> 0 <= lag ->
  exec (Present s ch) tr r \/ exec (CleanUp s ch) tr r ->
  timed lag tr t t' -> t' <= t + requestBudget s + 146 * lag.
Proof.
  intros Hp Hb Hl H Ht.
  assert (length tr <= 146)%nat as Hn.
  { destruct H as [H|H]; [by eapply returns_exec, H; eapply steps_Present|].
    assert (length tr <= 99)%nat; [by eapply returns_exec, H; eapply steps_CleanUp|lia]. }
  destruct ch as [ch|].
  2: { assert (tr = []) as -> by (by destruct H as [[-> _]|[-> _]]). inversion Ht; subst. lia. }
  assert (exists start tr', tr = mkStep ENow start :: tr' /\
    Forall (fun st => bounded_by (start + requestBudget s) (step_eff st)) tr')
    as (start & tr' & -> & HF).
  { destruct H as [H|H]; [rewrite Present_handle in H|rewrite CleanUp_handle in H];
      (eapply (handle_bounded s kc l); [done| |exact H]); intros;
      [apply present_guarded|apply cleanup_guarded]. }
  inversion Ht as [|? ? ? t1 ? Ho Htr]; subst. simpl in Ho.
  pose proof (timed_bounded _ _ _ _ _ Hl HF Htr). simpl length in Hn. nia.
Qed.

(** C21: a call that runs out of time while it waits says so.  When the context cuts
    a wait between two attempts short, the call waits no more and returns an
    error that [errors.Is] recognises as the context's, [DeadlineExceeded] when
    the budget is spent; neither [CleanUp]'s tolerance of missing records nor the
    handling of conflicts swallows it. *)
Theorem deadline_reported {RT : Runtime} {CM : CertManager} s kc l ch tr r e :
  production s kc l -> exec (Present s ch) tr r \/ exec (CleanUp s ch) tr r ->
  e ∈ cuts tr ->
  cuts tr = [e] /\ exists err, r = Some err /\ errors_Is err (ctx_sentinel e) = true.
Proof.
  intros Hp H He. destruct ch as [ch|].
  2: { assert (tr = []) as -> by (by destruct H as [[-> _]|[-> _]]). by apply not_elem_of_nil in He. }
  assert (cuts tr = [] \/ exists e err, cuts tr = [e] /\ r = Some err /\
    errors_Is err (ctx_sentinel e) = true) as [Hc|(e' & err & Hc & -> & Hs)].
  { destruct H as [H|H]; [rewrite Present_handle in H|rewrite CleanUp_handle in H];
      (eapply (handle_stops s kc l); [done| |exact H]); intros;
      [apply present_stops|apply cleanup_stops]. }
  - rewrite Hc in He. by apply not_elem_of_nil in He.
  - rewrite Hc in He. apply list_elem_of_singleton in He as ->. split; [done|]. by exists err.
Qed.

(** ** An example *)

#[local] Existing Instances example_runtime example_cert_manager example_api.

(** The API is overloaded and asks for 30 seconds each time ([overloaded_network]). *)
Definition overloaded_world : world := later example_world 0 overloaded_network.

Definition overloaded_trace : list step :=
  run_trace in_world (Present example_solver (Some example_challenge)) overloaded_world.
Definition overloaded_run : option error * world :=
  run in_world (Present example_solver (Some example_challenge)) overloaded_world.

(** Four attempts, the fourth wait is cut short at the end of the budget. *)
Example overloaded_end :
  w_now (snd overloaded_run) = 120 * Second /\
  length (do_steps overloaded_trace) = 4%nat /\ cuts overloaded_trace = [CtxDeadlineExceeded].
Proof. split; [|split]; vm_compute; reflexivity. Qed.

Lemma overloaded_exec :
  exec (Present example_solver (Some example_challenge)) overloaded_trace (fst overloaded_run).
Proof. exact (run_exec in_world (Present example_solver (Some example_challenge)) overloaded_world). Qed.

Lemma overloaded_timed : timed 0 overloaded_trace 0 (w_now (snd overloaded_run)).
Proof.
  exact (run_timed 0 w_now in_world (Present example_solver (Some example_challenge)) overloaded_world
    in_world_keeps_time).
Qed.

Lemma calls_in_time_witness : w_now (snd overloaded_run) <= 0 + 2 * Minute + 146 * 0.
Proof.
  apply (calls_in_time example_solver tt 0%nat (Some example_challenge) overloaded_trace (fst overloaded_run)).
  - apply example_production.
  - vm_compute. discriminate.
  - lia.
  - left. exact overloaded_exec.
  - exact overloaded_timed.
Defined.

Lemma deadline_reported_witness :
  cuts overloaded_trace = [CtxDeadlineExceeded] /\
  exists err, fst overloaded_run = Some err /\ errors_Is err DeadlineExceeded = true.
Proof.
  apply (deadline_reported example_solver tt 0%nat (Some example_challenge) overloaded_trace
    (fst overloaded_run) CtxDeadlineExceeded).
  - apply example_production.
  - left. exact overloaded_exec.
  - assert (cuts overloaded_trace = [CtxDeadlineExceeded]) as -> by (vm_compute; reflexivity). left.
Defined.
